(* ===== verification/_CoqProject ===== *)
-Q . S2P
Prelude.v
Rows.v
Text.v
Timestamp.v
TimeParse.v
Duration.v
HttpTime.v
Sha256.v
Runtime.v
Keeps.v
Spool.v
Schema.v
SchemaFacts.v
Store.v
StoreFacts.v
StoreProps.v
SpoolInterface.v
Sinks.v
SinkFacts.v
SinkProps.v
Deliveries.v
DeliveryFacts.v
DeliveryProps.v
Listing.v
Prune.v
PruneProps.v
Migrate.v
ListingProps.v
Stats.v
StatsProps.v
Json.v
Event.v
Marshal.v
MarshalFacts.v
CompactFacts.v
Emit.v
EmitProps.v
StateMachine.v
StateMachineProps.v
DiskGuard.v
Config.v
Io.v
Slot.v
Setup.v
SetupProps.v
Replicator.v
ReplicatorFacts.v
Stream.v
ReplicatorProps.v
DeliveryInterface.v
Worker.v
WorkerProps.v
CatchUp.v
Webhook.v
WebhookProps.v
Monitoring.v
MonitoringProps.v
Inbox.v
InboxProps.v
Flags.v
Paths.v
Print.v
PrintProps.v
App.v
AppProps.v
Cli.v
CliProps.v
Producer.v
ProducerProps.v
Receiver.v
ReceiverProps.v
NoLoss.v
Stamped.v
Demo.v
Witness.v
WitnessService.v
WitnessCommands.v
