(* ===== verification/Prelude.v ===== *)
(** * WriteRelay: a verification of the relay, from the WAL to the receiver

    WriteRelay captures domain events that applications emit as logical
    messages inside PostgreSQL transactions, keeps them in a local SQLite
    spool, and delivers them to sinks (webhooks, standard output) at least
    once and in order per sink.  This development translates the Go code under
    src/ into executable Rocq definitions and proves what makes the relay
    correct.  This file also has the vocabulary every other file shares:
    errors, results, integer widths, notations and tactics.

    ** How the parts interact

    The replicator reads the replication stream; the state machine assembles
    a transaction from its messages, each checked by the event validator;
    [PersistCommittedBatch] makes it durable together with the checkpoint and
    one delivery record per active sink; only then is the position
    acknowledged, so PostgreSQL keeps the log until the spool has it.  The
    disk guard pauses capture while space is low.  The worker takes the head
    of each sink's line ([NextDueDelivery]), sends it, and records the
    result; a failure is retried with exponential delays and becomes a dead
    letter after the last attempt.  Pruning removes payloads that every sink has
    received.  The receiver's inbox turns repeated deliveries into one effect.
    Start-up opens and migrates the spool, registers the sinks and runs
    capture, worker and monitoring together.  The commands of writerelayd are
    start-up, setup, doctor and the inspection and repair of the spool, with
    their flags and their output.  The two example programs stand at the ends:
    a producer that commits an order with its event, and a receiver that
    records each delivered order once.

    ** Files and the code they model

    Language and libraries: [Rows] (SQL over lists of rows), [Text],
    [Timestamp], [TimeParse], [Duration], [HttpTime] (package time and
    http.ParseTime), [Flags] (package flag), [Paths] (filepath.Clean and Dir),
    [Sha256] (crypto/sha256, hmac, hex), [Json],
    [Marshal], [MarshalFacts], [CompactFacts] (encoding/json: the scanner,
    decoding as the validator uses it, and encoding as the SDK and the
    commands do).  [Runtime] is the monad of code with a database handle: a
    world is the file on disk, an open transaction
    and a step counter; an environment decides at every step whether a
    statement fails, whether a failing commit took effect, what the clock says
    and whether a failure hook ends the process; [wp] is its weakest
    precondition, and [Keeps] the logic of operations that keep a property of
    the file at every commit.  [Io] adds a private state for the replicator,
    the worker and the commands.

    - internal/spool/spool.go, internal/failure/hooks.go: [Spool] (types, hooks, and
      the abstract log of captured events).
    - internal/spool/sqlite/migrations/*.sql: [Schema], [SchemaFacts] (tables, keys
      and the invariant [db_wf] that every statement keeps).
    - internal/spool/sqlite/sqlite.go: [Store], [StoreFacts], [StoreProps] (capture),
      [Sinks], [SinkFacts], [SinkProps] (ConfigureSinks), [Deliveries],
      [DeliveryFacts], [DeliveryProps] (the queue, MarkDelivered, MarkFailed,
      RedriveDelivery), [Listing], [ListingProps] (ListEvents, ListDeliveries),
      [Migrate] (Open, initialize, applyMigration).
    - internal/spool/sqlite/prune.go: [Prune], [PruneProps].
    - internal/spool/sqlite/stats.go: [Stats], [StatsProps].
    - internal/event/event.go: [Event].
    - internal/postgres/state.go, decoder.go: [StateMachine], [StateMachineProps].
    - internal/postgres/setup.go, doctor.go: [Slot], [Setup], [SetupProps].
    - internal/postgres/replicator.go: [Replicator], [ReplicatorFacts], [Stream]
      (the server's log), [ReplicatorProps].
    - internal/diskspace: [DiskGuard].
    - internal/config/config.go: [Config].
    - internal/delivery/delivery.go: [Worker], [WorkerProps], [CatchUp].
    - internal/delivery/webhook.go, stdout.go: [Webhook], [WebhookProps].
    - internal/monitoring: [Monitoring], [MonitoringProps].
    - internal/app/app.go: [App], [AppProps].
    - internal/cli, internal/logging, cmd/writerelayd: [Print], [PrintProps] (the
      JSON lines and the summary), [Cli], [CliProps] (the commands over the
      spool, the server and standard output).
    - sdk/go/writerelay.go: [Emit], [EmitProps].
    - sdk/go/inbox.go: [Inbox], [InboxProps].
    - examples/go-producer, sql/postgres/001_install.sql: [Producer],
      [ProducerProps] (recordOrder, main, and the function writerelay.emit).
    - examples/go-receiver: [Receiver], [ReceiverProps] (ServeHTTP, initialize,
      run, main, and the way from the producer to the receiver).

    [SpoolInterface] and [DeliveryInterface] are the two interfaces: classes
    [SpoolStore] and [DeliveryStore] state what the replicator and the worker
    rely on, and the SQLite store is an instance of both.  [EventValidator]
    and [LsnCodec] are the interfaces to the validator and to pglogrepl's text
    form of positions; [Jsonb] with [JsonbLaws] is PostgreSQL's jsonb.
    [NoLoss] and [Stamped] compose the parts over the life of a spool.
    [Demo], [Witness], [WitnessService] and [WitnessCommands] run the
    definitions on a small system and show the hypotheses of the theorems to
    be met there.

    ** What the theorems show

    - No loss: a transaction of the stream whose end has been acknowledged is
      in the spool with every event, over any sequence of sessions, crashes and
      delivery operations and whatever other applications send in between
      ([no_loss], [acknowledged_is_durable]); capture stops exactly for the
      errors another session cannot cure ([run_ends_on_fatal]); persistence
      refines an append-only log, is atomic and idempotent
      ([persist_refines], [persist_decides], [persist_replay]) and keeps every
      event covered by a delivery record per sink ([persist_invariant]).
    - Emission: what the SDK encodes the validator accepts with the same
      metadata ([encode_validates]).
    - Assembly: a batch is exactly the protected messages of one transaction,
      valid and within its limits ([transaction_assembled],
      [batch_admissible]), and an event is exactly what the validator accepts
      ([validate_sound]).
    - Delivery: order per sink ([next_due_in_order], [retry_holds_the_line]), an
      event is marked delivered only after the sink accepted it
      ([delivered_means_accepted]), attempts are bounded and recorded
      ([attempts_bounded], [process_one_effect]), stale work is refused,
      delays follow the formula ([retry_delay_exact]), and a healthy worker
      gets through its queue ([worker_catches_up]).
    - One effect: with the inbox, repeated deliveries commit the receiver's
      writes once ([inbox_exactly_once], [inbox_atomic], [redelivery_absorbed]).
    - Commands: a clean doctor means that the daemon can start
      ([doctor_predicts_run]), inspecting changes nothing
      ([inspection_changes_nothing]), the lines of the event listing read back
      as the events ([list_reads_back]), and the search for a directory that
      can hold a new spool ends ([parent_search_ends]).
    - Examples: the producer commits the order and its event together
      ([producer_atomic]); the receiver's answers say what it has stored, its
      orders and receipts stay in step ([receiver_answers],
      [receiver_in_step]); and an order goes from one to the other
      ([order_reaches_receiver]).
    - Administration: registration, redrive, pruning, migration, setup and
      start-up do what they promise and nothing else, also when a statement
      fails in the middle ([configure_result], [redrive_effect],
      [prune_safe], [open_upgrades], [setup_safe], [startup_ready],
      [config_sound]).
    - Reports: listings, statistics, doctor, readiness and metrics agree with
      the state ([list_deliveries_complete], [stats_consistent],
      [stats_oldest], [doctor_exact], [endpoints_honest]), and every time
      column reads back as the time it records ([spool_times_readable]).
    - Termination: the task group returns only after its last task and, once
      its context is done, after a bounded number of steps if the tasks heed
      the context ([run_together_ends]).

    ** Bounds and environment

    Loops over inputs (messages of a session, sessions, worker ticks, samples,
    inbox calls) recurse on the list of those inputs, which is universally
    quantified; the tasks of [runTogether] are arbitrary transition systems.  Integers that the code keeps in int64 or uint64 are wrapped
    with [int64] and [uint64] where they can overflow, and the ranges that
    [Config] enforces show that they do not.  [ParseDuration] runs on fuel equal
    to the length of its text, with a lemma that this is enough; the search for
    a parent directory runs on the number of directories above the path, and
    [parent_search_ends] shows that it always answers; the metrics'
    number format looks for at most 17 digits and an exponent within 700
    steps, the extremes of float64.  Timestamps are nanoseconds since the
    epoch; theorems on text order or read-back ask for years 0 to 9999.

    ** Not modelled

    The engines themselves: SQLite and PostgreSQL are their tables and the
    statements the code sends, with failures decided by the environment;
    SQLite's single connection makes operations of one process sequential, as
    the code sets it.  The YAML decoder, url.Parse, netip.ParseAddrPort, the
    HTTP client and server, statfs, the operating system's environment and the
    file system are arguments of the definitions that call them.  Error
    texts are kept as format strings.  PostgreSQL's jsonb, between the SDK and
    the replication stream, is a parameter with the laws the code relies on.
    Left out: standard error (diagnostics, usage texts and log records), the
    quoting of the redrive confirmation, response headers of the example
    receiver, whose requests are served one after the other, the embedding of
    the install script, the development set-up script, and the example
    application in TypeScript.  Tables of the summary are modelled for ASCII
    cells, which sink names and types are. *)

From Stdlib Require Export ZArith Lia Bool.
From Stdlib Require Ascii String.
From stdpp Require Export sorting.
From stdpp Require Export base tactics numbers list strings gmap.

Open Scope string_scope.
Open Scope list_scope.
Open Scope Z_scope.

(** ** Go's [error] values

    The code tells errors apart with [errors.Is] on a sentinel that
    [fmt.Errorf] wraps with ["%w: ..."]; every error carries at most one
    sentinel.  [msg] is the format string of the code without its
    interpolated values. *)

Inductive Sentinel :=
  | ErrMalformed | ErrOversized
  | ErrIdentityConflict | ErrDurability
  | ErrSinkConfigurationConflict
  | ErrProtocolState | ErrProtectedEvent | ErrTransactionLimit
  | ErrSlotMismatch | ErrUnsupportedVersion
  | ErrPaused
  | ErrInvalidDelivery | ErrInboxConflict | ErrInboxTransaction
  | ErrInvalidEvent | ErrNilTransaction.

#[global] Instance Sentinel_eq_dec : EqDecision Sentinel.
Proof. solve_decision. Defined.

Record error := Err { sentinel : option Sentinel; msg : string }.

#[global] Instance error_eq_dec : EqDecision error.
Proof. solve_decision. Defined.

(** [errors.New] / [fmt.Errorf] without [%w], and [fmt.Errorf] with it. *)
Definition errorf (m : string) : error := Err None m.
Definition wrapf (s : Sentinel) (m : string) : error := Err (Some s) m.

(** [errors.Is]. *)
Definition errors_is (e : error) (s : Sentinel) : bool :=
  bool_decide (sentinel e = Some s).

Lemma errors_is_wrapf s t m : errors_is (wrapf s m) t = bool_decide (s = t).
Proof.
  unfold errors_is, wrapf; simpl. apply bool_decide_ext. split; congruence.
Qed.

(** Fallible pure functions return an error or a value. *)
Definition result (A : Type) : Type := error + A.

(** ** Machine integers *)

(** Go's [int] and [int64] wrap modulo 2^64 into the signed range. *)
Definition int64 (z : Z) : Z := (z + 2 ^ 63) mod 2 ^ 64 - 2 ^ 63.
Definition uint64 (z : Z) : Z := z mod 2 ^ 64.
Definition maxInt64 : Z := 2 ^ 63 - 1.
Definition maxUint64 : Z := 2 ^ 64 - 1.

Definition in_int64 (z : Z) : Prop := - 2 ^ 63 <= z < 2 ^ 63.
Definition in_uint64 (z : Z) : Prop := 0 <= z < 2 ^ 64.

Lemma int64_id z : in_int64 z → int64 z = z.
Proof. unfold in_int64, int64. intros H. rewrite Z.mod_small by lia. lia. Qed.

Lemma uint64_id z : in_uint64 z → uint64 z = z.
Proof. unfold in_uint64, uint64. apply Z.mod_small. Qed.

Lemma int64_range z : in_int64 (int64 z).
Proof.
  unfold in_int64, int64.
  pose proof (Z.mod_pos_bound (z + 2 ^ 63) (2 ^ 64) ltac:(lia)). lia.
Qed.

(** ** Automation *)

Create HintDb relay.
Create Rewrite HintDb rows.

(** Linear arithmetic with division and modulo by constants. *)
Ltac dlia := Z.to_euclidean_division_equations; lia.

(** Reflect the boolean tests of the code into propositions. *)
Ltac breflect :=
  repeat match goal with
  | H : (_ && _) = true |- _ => apply andb_true_iff in H; destruct H
  | H : (_ || _) = false |- _ => apply orb_false_iff in H; destruct H
  | H : negb _ = true |- _ => apply negb_true_iff in H
  | H : negb _ = false |- _ => apply negb_false_iff in H
  | H : bool_decide _ = true |- _ => apply bool_decide_eq_true in H
  | H : bool_decide _ = false |- _ => apply bool_decide_eq_false in H
  | H : (_ =? _)%Z = true |- _ => apply Z.eqb_eq in H
  | H : (_ =? _)%Z = false |- _ => apply Z.eqb_neq in H
  | H : (_ <? _)%Z = true |- _ => apply Z.ltb_lt in H
  | H : (_ <? _)%Z = false |- _ => apply Z.ltb_ge in H
  | H : (_ <=? _)%Z = true |- _ => apply Z.leb_le in H
  | H : (_ <=? _)%Z = false |- _ => apply Z.leb_gt in H
  | H : (_ =? _)%string = true |- _ => apply String.eqb_eq in H
  | H : (_ =? _)%string = false |- _ => apply String.eqb_neq in H
  end.

(** Split on the next boolean test or match of the goal. *)
Ltac case_next :=
  match goal with
  | |- context [if ?b then _ else _] => destruct b eqn:?
  | |- context [match ?x with _ => _ end] => destruct x eqn:?
  end.
