(* ===== verification/Rows.v ===== *)
(** * Rows: the list algebra of the SQL statements

    A table is the list of its rows.  [SELECT ... WHERE] is [filter],
    [UPDATE ... SET ... WHERE] is [update_where] with its affected-row count
    [count_where], [ORDER BY] is [sort_by] (stable insertion sort) and
    [LIMIT n] is [take]. *)

From S2P Require Import Prelude.

Section Rows.
Context {R : Type}.
Implicit Types (l : list R) (p q : R → bool) (f : R → R).

(** ** SELECT *)

Definition select p l : list R := List.filter p l.

Definition exists_where p l : bool := existsb p l.

Definition count_where p l : Z := Z.of_nat (length (select p l)).

(** ** UPDATE *)

Definition update_where p f l : list R :=
  map (λ r, if p r then f r else r) l.

(** ** ORDER BY *)

Fixpoint insert_by (leb : R → R → bool) (x : R) l : list R :=
  match l with
  | [] => [x]
  | y :: l' => if leb x y then x :: l else y :: insert_by leb x l'
  end.

Fixpoint sort_by (leb : R → R → bool) l : list R :=
  match l with
  | [] => []
  | x :: l' => insert_by leb x (sort_by leb l')
  end.

(** [ORDER BY k LIMIT 1]. *)
Definition first_by (leb : R → R → bool) l : option R := head (sort_by leb l).

(** ** Lemmas *)

Lemma elem_of_select p l r : r ∈ select p l ↔ r ∈ l ∧ p r = true.
Proof. unfold select. rewrite !list_elem_of_In. apply filter_In. Qed.

Lemma exists_where_true p l :
  exists_where p l = true ↔ ∃ r, r ∈ l ∧ p r = true.
Proof.
  unfold exists_where. rewrite existsb_exists.
  by setoid_rewrite list_elem_of_In.
Qed.

Lemma exists_where_false p l :
  exists_where p l = false ↔ ∀ r, r ∈ l → p r = false.
Proof.
  split.
  - intros H r Hr. destruct (p r) eqn:E; [|done].
    assert (exists_where p l = true) by (apply exists_where_true; eauto).
    congruence.
  - intros H. destruct (exists_where p l) eqn:E; [|done].
    apply exists_where_true in E as (r & Hr & Hp). rewrite H in Hp; done.
Qed.

Lemma count_where_0 p l : count_where p l = 0 ↔ ∀ r, r ∈ l → p r = false.
Proof.
  unfold count_where. split.
  - intros H r Hr. destruct (p r) eqn:E; [|done].
    assert (r ∈ select p l) as Hin by (by apply elem_of_select).
    destruct (select p l); [by apply not_elem_of_nil in Hin | simpl in H; lia].
  - intros H. destruct (select p l) as [|r l'] eqn:E; [done|].
    assert (r ∈ select p l) as Hin by (rewrite E; left).
    apply elem_of_select in Hin as [? Hp]. rewrite H in Hp; done.
Qed.

Lemma elem_of_update_where p f l r :
  r ∈ update_where p f l ↔
  ∃ r0, r0 ∈ l ∧ r = (if p r0 then f r0 else r0).
Proof.
  unfold update_where. rewrite list_elem_of_In, in_map_iff.
  setoid_rewrite list_elem_of_In.
  split; intros (r0 & H1 & H2); exists r0; auto.
Qed.

Lemma update_where_none p f l :
  (∀ r, r ∈ l → p r = false) → update_where p f l = l.
Proof.
  induction l as [|x l IH]; intros H; [done|]. simpl.
  rewrite H by left. f_equal. apply IH. intros r Hr. apply H. by right.
Qed.

(** A column that the update keeps is unchanged, row for row. *)
Lemma map_update_where {B} (g : R → B) p f l :
  (∀ r, g (f r) = g r) → map g (update_where p f l) = map g l.
Proof.
  intros Hg. unfold update_where. rewrite map_map.
  apply map_ext. intros r. destruct (p r); auto.
Qed.

Lemma length_update_where p f l : length (update_where p f l) = length l.
Proof. apply length_map. Qed.

(** ** Sorting *)

Section Sort.
Context (leb : R → R → bool).

Lemma insert_by_perm x l : insert_by leb x l ≡ₚ x :: l.
Proof.
  induction l as [|y l IH]; simpl; [done|].
  destruct (leb x y); [done|]. rewrite IH. apply perm_swap.
Qed.

Lemma sort_by_perm l : sort_by leb l ≡ₚ l.
Proof. induction l as [|x l IH]; simpl; [done|]. by rewrite insert_by_perm, IH. Qed.

Lemma elem_of_sort_by l r : r ∈ sort_by leb l ↔ r ∈ l.
Proof. by rewrite sort_by_perm. Qed.

Context (Htot : ∀ x y, leb x y = true ∨ leb y x = true).
Context (Htr : ∀ x y z, leb x y = true → leb y z = true → leb x z = true).

Lemma insert_by_sorted x l :
  StronglySorted (λ a b, leb a b = true) l →
  StronglySorted (λ a b, leb a b = true) (insert_by leb x l).
Proof.
  induction 1 as [|y l Hs IH Hall]; simpl.
  - repeat constructor.
  - destruct (leb x y) eqn:E.
    + constructor; [by constructor|]. constructor; [done|].
      eapply list.Forall_impl; [exact Hall|]. intros z Hz. eapply Htr; eauto.
    + constructor; [done|]. rewrite insert_by_perm. constructor; [|done].
      destruct (Htot x y); congruence.
Qed.

Lemma sort_by_sorted l : StronglySorted (λ a b, leb a b = true) (sort_by leb l).
Proof.
  induction l; simpl; [constructor|]. by apply insert_by_sorted.
Qed.

(** [ORDER BY k LIMIT 1] finds a least row, and finds one when there is a row. *)
Lemma first_by_Some l r :
  first_by leb l = Some r → r ∈ l ∧ ∀ r', r' ∈ l → leb r r' = true.
Proof.
  unfold first_by. pose proof (sort_by_sorted l) as Hs.
  destruct (sort_by leb l) as [|x s] eqn:E; simpl; [done|].
  intros [= ->]. split.
  - rewrite <- elem_of_sort_by, E. left.
  - intros r' Hr'. rewrite <- elem_of_sort_by, E in Hr'.
    inversion Hs as [|? ? ? Hall]; subst.
    apply elem_of_cons in Hr' as [->|Hr'].
    + destruct (Htot r r); done.
    + by apply (proj1 (list.Forall_forall _ _) Hall).
Qed.

Lemma first_by_None l : first_by leb l = None ↔ l = [].
Proof.
  unfold first_by. split.
  - intros H. destruct l as [|x l]; [done|].
    destruct (sort_by leb (x :: l)) eqn:E; [|done].
    apply (f_equal length) in E.
    by rewrite (Permutation_length (sort_by_perm (x :: l))) in E.
  - by intros ->.
Qed.

(** Sorting a table that is already in key order changes nothing. *)
Lemma sort_by_id l :
  StronglySorted (λ a b, leb a b = true) l → sort_by leb l = l.
Proof.
  clear Htot Htr.
  induction 1 as [|x l Hs IH Hall]; simpl; [done|]. rewrite IH.
  destruct l as [|y l]; simpl; [done|].
  by rewrite (Forall_inv Hall).
Qed.

End Sort.

(** A key column without duplicates determines the row. *)
Lemma NoDup_map_inj {B} (g : R → B) l x y :
  NoDup (map g l) → x ∈ l → y ∈ l → g x = g y → x = y.
Proof.
  induction l as [|z l IH]; intros Hnd Hx Hy E; [by apply not_elem_of_nil in Hx|].
  simpl in Hnd. apply NoDup_cons in Hnd as [Hz Hnd].
  apply elem_of_cons in Hx as [->|Hx]; apply elem_of_cons in Hy as [->|Hy]; auto.
  - destruct Hz. rewrite E. rewrite list_elem_of_In. apply in_map.
    by apply list_elem_of_In.
  - destruct Hz. rewrite <- E. rewrite list_elem_of_In. apply in_map.
    by apply list_elem_of_In.
Qed.

Lemma elem_of_map_row {B} (g : R → B) l b :
  b ∈ map g l ↔ ∃ r, r ∈ l ∧ b = g r.
Proof.
  rewrite list_elem_of_In, in_map_iff. setoid_rewrite list_elem_of_In.
  split; intros (r & H1 & H2); exists r; auto.
Qed.

Lemma NoDup_map_snoc {B} (g : R → B) l x :
  NoDup (map g l) → (∀ y, y ∈ l → g y ≠ g x) → NoDup (map g (l ++ [x])).
Proof.
  intros Hnd Hx. rewrite map_app. apply NoDup_app. split; [done|]. split.
  - intros b Hb Hb'. simpl in Hb'. apply list_elem_of_singleton in Hb'. subst.
    apply elem_of_map_row in Hb as (y & Hy & E). by eapply Hx.
  - simpl. apply NoDup_singleton.
Qed.

Lemma StronglySorted_snoc_lt (g : R → Z) l x :
  StronglySorted Z.lt (map g l) → (∀ y, y ∈ l → g y < g x) →
  StronglySorted Z.lt (map g (l ++ [x])).
Proof.
  induction l as [|y l IH]; simpl; intros Hs Hx; [repeat constructor|].
  inversion Hs as [|? ? Hs' Hall]; subst. constructor.
  - apply IH; [done|]. intros z Hz. apply Hx. by right.
  - rewrite map_app. apply Forall_app. split; [done|].
    constructor; [|constructor]. apply Hx. left.
Qed.

Lemma StronglySorted_lt_NoDup (l : list Z) : StronglySorted Z.lt l → NoDup l.
Proof.
  induction 1 as [|x l Hs IH Hall]; constructor; [|done].
  intros Hx. apply (proj1 (list.Forall_forall _ _) Hall) in Hx. lia.
Qed.

(** In a table with a unique key, a condition on the key selects at most one
    row. *)
Lemma count_where_unique {B} (g : R → B) p l x :
  NoDup (map g l) → x ∈ l → p x = true →
  (∀ y, y ∈ l → p y = true → g y = g x) → count_where p l = 1.
Proof.
  unfold count_where, select. induction l as [|y l IH]; intros Hnd Hx Hp Hu;
    [by apply not_elem_of_nil in Hx|].
  simpl in Hnd. apply NoDup_cons in Hnd as [Hy Hnd]. simpl.
  apply elem_of_cons in Hx as [->|Hx].
  - rewrite Hp. simpl.
    enough (count_where p l = 0) as E by (unfold count_where, select in E; lia).
    apply count_where_0. intros z Hz. destruct (p z) eqn:Ez; [|done].
    destruct Hy. apply elem_of_map_row. exists z. split; [done|].
    symmetry. apply Hu; [by right | done].
  - destruct (p y) eqn:Ey.
    + destruct Hy. apply elem_of_map_row. exists x. split; [done|].
      apply Hu; [left | done].
    + apply IH; auto. intros z Hz. apply Hu. by right.
Qed.

Lemma StronglySorted_select (P : R → R → Prop) p l :
  StronglySorted P l → StronglySorted P (select p l).
Proof.
  induction 1 as [|x l Hs IH Hall]; simpl; [constructor|].
  destruct (p x); [|done]. constructor; [done|].
  apply list.Forall_forall. intros y Hy.
  apply elem_of_select in Hy as [Hy _].
  by apply (proj1 (list.Forall_forall _ _) Hall).
Qed.

Lemma StronglySorted_map_lt (g : R → Z) l :
  StronglySorted Z.lt (map g l) ↔ StronglySorted (λ a b, g a < g b) l.
Proof.
  induction l as [|x l IH]; simpl; [split; constructor|]. split; intros H;
    inversion H as [|? ? Hs Hall]; subst; constructor; try (by apply IH).
  - apply list.Forall_forall. intros y Hy. apply (proj1 (list.Forall_forall _ _) Hall).
    apply elem_of_map_row. eauto.
  - apply list.Forall_forall. intros b (y & Hy & ->)%elem_of_map_row.
    by apply (proj1 (list.Forall_forall _ _) Hall).
Qed.

Lemma StronglySorted_take (P : R → R → Prop) k l :
  StronglySorted P l → StronglySorted P (take k l).
Proof.
  intros H. revert k. induction H as [|x l Hs IH Hall]; intros [|k]; simpl; constructor; auto.
  by apply list.Forall_take.
Qed.

Lemma StronglySorted_weaken (P Q : R → R → Prop) l :
  (∀ x y, P x y → Q x y) → StronglySorted P l → StronglySorted Q l.
Proof.
  intros Hpq. induction 1 as [|x l Hs IH Hall]; constructor; [done|].
  eapply list.Forall_impl; [exact Hall|]. auto.
Qed.

Lemma sort_by_key (g : R → Z) l :
  StronglySorted Z.lt (map g l) → sort_by (λ a b, g a <=? g b) l = l.
Proof.
  intros H. apply sort_by_id.
  eapply StronglySorted_weaken; [|by apply StronglySorted_map_lt, H].
  intros x y Hxy. apply Z.leb_le. simpl in Hxy. lia.
Qed.

(** The single row of [QueryRow]. *)
Lemma head_select_Some p l r : head (select p l) = Some r → r ∈ l ∧ p r = true.
Proof.
  intros H. apply elem_of_select. destruct (select p l); [done|].
  injection H as ->. left.
Qed.

Lemma head_select_None p l : head (select p l) = None ↔ ∀ r, r ∈ l → p r = false.
Proof.
  rewrite <- count_where_0. unfold count_where.
  destruct (select p l); simpl; split; try done; lia.
Qed.

End Rows.

#[export] Hint Rewrite @elem_of_select @elem_of_update_where : rows.

(** A join column that is a key matches one row. *)
Lemma flat_map_unique {R B C} (g : R → B) (f : R → list C) l x :
  NoDup (map g l) → x ∈ l → (∀ y, y ∈ l → g y ≠ g x → f y = []) → flat_map f l = f x.
Proof.
  induction l as [|z l IH]; intros Hnd Hx Hf; [by apply not_elem_of_nil in Hx|].
  simpl in *. apply NoDup_cons in Hnd as [Hz Hnd].
  assert (x ∈ l → g z ≠ g x) as Hne.
  { intros Hl E. apply Hz. rewrite E. apply elem_of_map_row. eauto. }
  apply elem_of_cons in Hx as [->|Hx].
  - assert (flat_map f l = []) as ->; [|apply app_nil_r].
    assert (∀ y, y ∈ l → f y = []) as Hn.
    { intros y Hy. apply Hf; [by right|]. intros E. apply Hz. rewrite <- E.
      apply elem_of_map_row. eauto. }
    clear -Hn. induction l as [|y l IH]; [done|]. simpl. rewrite Hn by left. apply IH.
    intros y' Hy'. apply Hn. by right.
  - rewrite (Hf z); [|left|by apply Hne]. simpl. apply IH; [done|done|].
    intros y Hy. apply Hf. by right.
Qed.

(** ** SUM *)

Definition total {R} (f : R → Z) (l : list R) : Z := foldr (λ x n, f x + n) 0 l.

Lemma total_app {R} (f : R → Z) l1 l2 : total f (l1 ++ l2) = total f l1 + total f l2.
Proof. induction l1 as [|x l1 IH]; simpl; lia. Qed.

#[global] Instance total_perm {R} (f : R → Z) : Proper ((≡ₚ) ==> (=)) (total f).
Proof. intros l1 l2 H. induction H; simpl; lia. Qed.

Lemma total_add {R} (f g : R → Z) l : total (λ x, f x + g x) l = total f l + total g l.
Proof. induction l as [|x l IH]; simpl; lia. Qed.

Lemma total_ext {R} (f g : R → Z) l : (∀ x, f x = g x) → total f l = total g l.
Proof. intros H. induction l as [|x l IH]; simpl; [done|]. rewrite H. lia. Qed.

Lemma total_key {R} (g : R → Z) l x n :
  NoDup (map g l) → x ∈ l → total (λ y, if g x =? g y then n else 0) l = n.
Proof.
  intros Hnd Hx. induction l as [|y l IH]; [by apply not_elem_of_nil in Hx|].
  simpl in *. inversion Hnd as [|? ? Hni Hnd']; subst. apply elem_of_cons in Hx as [->|Hx].
  - rewrite Z.eqb_refl. enough (total (λ z, if g y =? g z then n else 0) l = 0) by lia.
    clear - Hni. induction l as [|z l IH]; simpl; [done|].
    apply not_elem_of_cons in Hni as [Hne Hni]. rewrite (proj2 (Z.eqb_neq _ _) Hne). by apply IH.
  - rewrite (IH Hnd' Hx). destruct (g x =? g y) eqn:E; [|lia].
    destruct Hni. breflect. rewrite <- E. apply elem_of_map_row. eauto.
Qed.

Lemma total_update {R B} (k : R → B) (h : R → Z) p f l x :
  NoDup (map k l) → x ∈ l → p x = true → (∀ y, y ∈ l → p y = true → k y = k x) →
  total h (update_where p f l) = total h l - h x + h (f x).
Proof.
  intros Hnd Hx Hp Hu. induction l as [|y l IH]; [by apply not_elem_of_nil in Hx|].
  simpl in *. inversion Hnd as [|? ? Hni Hnd']; subst. apply elem_of_cons in Hx as [->|Hx].
  - rewrite Hp. fold (update_where p f l). rewrite update_where_none; [lia|].
    intros z Hz. destruct (p z) eqn:Ez; [|done]. destruct Hni. apply elem_of_map_row. exists z.
    split; [done|]. symmetry. apply Hu; [by right | done].
  - fold (update_where p f l). rewrite IH; [|done|done|intros z Hz; apply Hu; by right].
    destruct (p y) eqn:Ey; [|lia]. destruct Hni. apply elem_of_map_row. exists x.
    split; [done|]. apply Hu; [by left | done].
Qed.
