(* ===== verification/Text.v ===== *)
(** * Text: Go strings and their order

    A Go [string] and a [[]byte] are byte sequences; both are modelled by
    [String.string].  SQLite compares TEXT columns with the BINARY collation
    and Go compares strings with [<]: both are the lexicographic byte order
    [String.compare].  This file also has the decimal and hexadecimal
    renderings of [strconv], [fmt] and [encoding/hex]. *)

From Stdlib Require Import Ascii.
From S2P Require Import Prelude.

(** ** Byte order *)

Definition str_ltb (s t : string) : bool :=
  match String.compare s t with Lt => true | _ => false end.

Definition str_leb (s t : string) : bool :=
  match String.compare s t with Gt => false | _ => true end.

Lemma compare_refl s : String.compare s s = Eq.
Proof.
  induction s as [|a s IH]; simpl; [done|].
  unfold Ascii.compare. by rewrite N.compare_refl.
Qed.

Lemma str_leb_ltb s t : str_leb s t = negb (str_ltb t s).
Proof.
  unfold str_leb, str_ltb. rewrite (String.compare_antisym s t).
  by destruct (String.compare t s).
Qed.

Lemma append_nil_l t : "" +:+ t = t.
Proof. reflexivity. Qed.

Lemma append_nil_r s : s +:+ "" = s.
Proof. induction s as [|c s IH]; [done|]. change (String c (s +:+ "") = String c s). by rewrite IH. Qed.

Lemma append_cons a s t : String a s +:+ t = String a (s +:+ t).
Proof. reflexivity. Qed.

(** Strings of equal length compare like the pair (prefix, rest). *)
Lemma compare_app s1 s2 t1 t2 :
  String.length s1 = String.length s2 →
  String.compare (s1 +:+ t1) (s2 +:+ t2) =
  match String.compare s1 s2 with Eq => String.compare t1 t2 | c => c end.
Proof.
  revert s2. induction s1 as [|a s1 IH]; intros [|b s2]; try done.
  intros [= H]. rewrite !append_cons. simpl. destruct (Ascii.compare a b); [by apply IH | done | done].
Qed.

Lemma length_app_string s t :
  String.length (s +:+ t) = (String.length s + String.length t)%nat.
Proof. induction s as [|a s IH]; [done|]. rewrite append_cons. simpl. by f_equal. Qed.

Lemma append_assoc_string (s t u : string) : s +:+ (t +:+ u) = (s +:+ t) +:+ u.
Proof. induction s as [|a s IH]; [done|]. rewrite !append_cons. by f_equal. Qed.

(** ** Decimal numbers *)

Definition digit (d : Z) : string :=
  String (ascii_of_N (48 + Z.to_N d)) "".

(** The last [w] decimal digits of [n]: Go's [appendInt] for [n < 10^w]. *)
Fixpoint pad (w : nat) (n : Z) : string :=
  match w with
  | O => ""
  | S w' => pad w' (n / 10) +:+ digit (n mod 10)
  end.

Lemma length_pad w n : String.length (pad w n) = w.
Proof.
  revert n. induction w as [|w IH]; intros n; simpl; [done|].
  rewrite length_app_string, IH. simpl. lia.
Qed.

Lemma compare_digit a b :
  0 <= a < 10 → 0 <= b < 10 →
  String.compare (digit a) (digit b) = Z.compare a b.
Proof.
  intros Ha Hb. unfold digit. simpl. unfold Ascii.compare.
  rewrite !Ascii.N_ascii_embedding by lia.
  destruct (N.compare_spec (48 + Z.to_N a) (48 + Z.to_N b));
    destruct (Z.compare_spec a b); try done; lia.
Qed.

(** Zero-padded decimals of one width compare like the numbers. *)
Lemma compare_pad w a b :
  0 <= a < 10 ^ Z.of_nat w → 0 <= b < 10 ^ Z.of_nat w →
  String.compare (pad w a) (pad w b) = Z.compare a b.
Proof.
  revert a b. induction w as [|w IH]; intros a b Ha Hb.
  - simpl in Ha, Hb. assert (a = b) as -> by lia. by rewrite Z.compare_refl.
  - assert (10 ^ Z.of_nat (S w) = 10 * 10 ^ Z.of_nat w) as Hp
      by (rewrite Nat2Z.inj_succ, Z.pow_succ_r; lia).
    rewrite Hp in Ha, Hb. simpl pad.
    rewrite compare_app by (by rewrite !length_pad).
    pose proof (Z.div_mod a 10 ltac:(lia)). pose proof (Z.div_mod b 10 ltac:(lia)).
    pose proof (Z.mod_pos_bound a 10 ltac:(lia)).
    pose proof (Z.mod_pos_bound b 10 ltac:(lia)).
    rewrite IH by (split; [apply Z.div_pos; lia | apply Z.div_lt_upper_bound; lia]).
    rewrite compare_digit by done.
    destruct (Z.compare_spec (a / 10) (b / 10));
      destruct (Z.compare_spec (a mod 10) (b mod 10));
      destruct (Z.compare_spec a b); try done; lia.
Qed.

(** Decimal digits of a non-negative number, no padding ([strconv.Itoa]).
    [fuel] bounds the number of digits. *)
Fixpoint ndigits (fuel : nat) (n : Z) : nat :=
  match fuel with
  | O => 1
  | S fuel' => if n <? 10 then 1 else S (ndigits fuel' (n / 10))
  end.

Definition itoa (n : Z) : string :=
  if n <? 0
  then "-" +:+ pad (ndigits (Z.to_nat (Z.log2 (- n))) (- n)) (- n)
  else pad (ndigits (Z.to_nat (Z.log2 n)) n) n.

(** Go's [appendInt(b, x, width)]: zero padding to [width], sign in front. *)
Definition appendInt (n : Z) (w : nat) : string :=
  if n <? 0
  then "-" +:+ pad (Nat.max w (ndigits (Z.to_nat (Z.log2 (- n))) (- n))) (- n)
  else pad (Nat.max w (ndigits (Z.to_nat (Z.log2 n)) n)) n.

Lemma ndigits_le fuel n w :
  0 <= n < 10 ^ Z.of_nat w → (1 <= w)%nat → (ndigits fuel n <= w)%nat.
Proof.
  revert n w. induction fuel as [|fuel IH]; intros n w Hn Hw; simpl; [lia|].
  destruct (n <? 10) eqn:E; [lia|]. breflect.
  destruct w as [|[|w]]; [lia | simpl in Hn; lia |].
  apply le_n_S. apply IH; [|lia].
  rewrite (Nat2Z.inj_succ (S w)), Z.pow_succ_r in Hn by lia.
  split; [apply Z.div_pos; lia | apply Z.div_lt_upper_bound; lia].
Qed.

Lemma appendInt_pad w n :
  0 <= n < 10 ^ Z.of_nat w → (1 <= w)%nat → appendInt n w = pad w n.
Proof.
  intros Hn Hw. unfold appendInt.
  destruct (n <? 0) eqn:E; breflect; [lia|].
  rewrite Nat.max_l; [done|]. by apply ndigits_le.
Qed.

(** ** Hexadecimal ([encoding/hex], lower case) *)

Definition hex_digit (n : N) : ascii :=
  ascii_of_N (if (n <? 10)%N then 48 + n else 87 + n)%N.

Fixpoint hex_encode (s : string) : string :=
  match s with
  | "" => ""
  | String c s' =>
      let n := N_of_ascii c in
      String (hex_digit (n / 16)) (String (hex_digit (n mod 16)) (hex_encode s'))
  end.

Lemma length_hex_encode s :
  String.length (hex_encode s) = (2 * String.length s)%nat.
Proof. induction s; simpl; lia. Qed.

(** A string contains the byte [c]. *)
Fixpoint contains_byte (c : ascii) (s : string) : bool :=
  match s with
  | "" => false
  | String d s' => (d =? c)%char || contains_byte c s'
  end.
