(* ===== verification/Timestamp.v ===== *)
(** * Timestamp: [time.Time] and the spool's timestamp columns

    A [time.Time] is its instant, in nanoseconds since the Unix epoch; every
    formatted time of the program is first moved to UTC.  The spool stores
    two layouts: the fixed-width [timestampFormat] of sqlite.go for the
    columns that SQL compares ([next_attempt_at], [delivered_at], ...) and
    [time.RFC3339Nano], which drops trailing zeros, for [captured_at] and
    [commit_time]. *)

From S2P Require Import Prelude Text.

Definition time : Type := Z.
Definition duration : Type := Z.

Definition Nanosecond : duration := 1.
Definition Millisecond : duration := 1000000.
Definition Second : duration := 1000000000.
Definition Minute : duration := 60 * Second.
Definition Hour : duration := 60 * Minute.

(** [time.Time{}], January 1 of year 1. *)
Definition zeroTime : time := -62135596800 * Second.
Definition IsZero (t : time) : bool := t =? zeroTime.

(** ** The proleptic Gregorian calendar

    [march_date] splits a day number (0 is 1970-01-01) into a year that
    starts in March, a month of that year (0 is March) and a day of month
    (0 is the first). *)

Record march := March { m_year : Z; m_month : Z; m_day : Z }.

Definition march_date (days : Z) : march :=
  let z := days + 719468 in
  let era := z / 146097 in
  let doe := z mod 146097 in
  let n100 := Z.min 3 (doe / 36524) in
  let r100 := doe - 36524 * n100 in
  let n4 := r100 / 1461 in
  let r4 := r100 mod 1461 in
  let n1 := Z.min 3 (r4 / 365) in
  let doy := r4 - 365 * n1 in
  let mp := (5 * doy + 2) / 153 in
  March (400 * era + 100 * n100 + 4 * n4 + n1) mp (doy - (153 * mp + 2) / 5).

(** Months counted from January of year 0. *)
Definition month_index (d : march) : Z := 12 * m_year d + m_month d + 2.

(** First day of the month with March-based index [k]. *)
Definition first_day (k : Z) : Z :=
  let y := k / 12 in
  let mp := k mod 12 in
  365 * y + y / 4 - y / 100 + y / 400 + (153 * mp + 2) / 5 - 719468.

Lemma first_day_step k : first_day k <= first_day (k + 1).
Proof.
  unfold first_day.
  pose proof (Z.div_mod k 12 ltac:(lia)). pose proof (Z.mod_pos_bound k 12 ltac:(lia)).
  destruct (Z.eq_dec (k mod 12) 11) as [E|E].
  - assert ((k + 1) / 12 = k / 12 + 1) as -> by dlia.
    assert ((k + 1) mod 12 = 0) as -> by dlia. rewrite E. dlia.
  - assert ((k + 1) / 12 = k / 12) as -> by dlia.
    assert ((k + 1) mod 12 = k mod 12 + 1) as -> by dlia. dlia.
Qed.

Lemma first_day_mono j k : j <= k → first_day j <= first_day k.
Proof.
  intros H. replace k with (j + Z.of_nat (Z.to_nat (k - j))) by lia.
  induction (Z.to_nat (k - j)) as [|n IH]; [by rewrite Z.add_0_r|].
  rewrite Nat2Z.inj_succ, <- Z.add_1_r, Z.add_assoc.
  etransitivity; [exact IH | apply first_day_step].
Qed.

Lemma min3_div x d :
  0 < d → 0 <= x →
  0 <= Z.min 3 (x / d) <= 3 ∧ d * Z.min 3 (x / d) <= x ∧
  (Z.min 3 (x / d) < 3 → x < d * Z.min 3 (x / d) + d).
Proof.
  intros Hd Hx. pose proof (Z.div_mod x d ltac:(lia)).
  pose proof (Z.mod_pos_bound x d Hd). pose proof (Z.div_pos x d Hx Hd).
  destruct (Z.min_spec 3 (x / d)) as [[? ->]|[? ->]]; split; try split; nia.
Qed.

(** Day of the March-based year, and the length of that year. *)
Lemma march_year_spec z :
  let era := z / 146097 in let doe := z mod 146097 in
  let n100 := Z.min 3 (doe / 36524) in let r100 := doe - 36524 * n100 in
  let n4 := r100 / 1461 in let r4 := r100 mod 1461 in
  let n1 := Z.min 3 (r4 / 365) in let doy := r4 - 365 * n1 in
  let y := 400 * era + 100 * n100 + 4 * n4 + n1 in
  0 <= doy <= 365 ∧
  z = 365 * y + y / 4 - y / 100 + y / 400 + doy ∧
  z < 365 * (y + 1) + (y + 1) / 4 - (y + 1) / 100 + (y + 1) / 400.
Proof.
  cbv zeta.
  pose proof (Z.div_mod z 146097 ltac:(lia)) as Hz.
  pose proof (Z.mod_pos_bound z 146097 ltac:(lia)) as Hdoe.
  generalize dependent (z / 146097). intros era.
  generalize dependent (z mod 146097). intros doe Hdoe Hz.
  pose proof (min3_div doe 36524 ltac:(lia) ltac:(lia)) as (Hn100 & Hr & Hr').
  generalize dependent (Z.min 3 (doe / 36524)). intros n100 Hn100 Hr Hr'.
  assert (0 <= doe - 36524 * n100 <= 36524) as Hr100 by lia.
  remember (doe - 36524 * n100) as r100 eqn:Er100.
  pose proof (Z.div_mod r100 1461 ltac:(lia)) as Hr100'.
  pose proof (Z.mod_pos_bound r100 1461 ltac:(lia)) as Hr4.
  generalize dependent (r100 / 1461). intros n4.
  generalize dependent (r100 mod 1461). intros r4 Hr4 Hr100'.
  pose proof (min3_div r4 365 ltac:(lia) ltac:(lia)) as (Hn1 & Hd & Hd').
  generalize dependent (Z.min 3 (r4 / 365)). intros n1 Hn1 Hd Hd'.
  assert (0 <= n4 <= 24) as Hn4 by lia.
  remember (400 * era + 100 * n100 + 4 * n4 + n1) as y eqn:Ey.
  assert (y / 400 = era) as -> by dlia.
  assert (y / 100 = 4 * era + n100) as -> by dlia.
  assert (y / 4 = 100 * era + 25 * n100 + n4) as -> by dlia.
  split; [lia|]. split; [lia|].
  destruct (Z.eq_dec n1 3) as [->|?]; [|dlia].
  assert ((y + 1) / 4 = 100 * era + 25 * n100 + n4 + 1) as -> by dlia.
  destruct (Z.eq_dec n4 24) as [->|?].
  - assert ((y + 1) / 100 = 4 * era + n100 + 1) as -> by dlia. dlia.
  - assert ((y + 1) / 100 = 4 * era + n100) as -> by dlia.
    assert ((y + 1) / 400 = era) as -> by dlia. lia.
Qed.

(** A day lies in its month, and its day of month is its offset there. *)
Lemma march_date_spec days :
  let d := march_date days in
  0 <= m_month d < 12 ∧ 0 <= m_day d < 31 ∧
  days = first_day (12 * m_year d + m_month d) + m_day d ∧
  days < first_day (12 * m_year d + m_month d + 1).
Proof.
  cbv zeta. unfold march_date. cbn [m_year m_month m_day].
  destruct (march_year_spec (days + 719468)) as (Hdoy & Hz & Hnext).
  match type of Hdoy with 0 <= ?d <= _ => remember d as doy eqn:Edoy; clear Edoy end.
  match type of Hz with _ = 365 * ?Y + _ - _ + _ + _ => remember Y as y eqn:Ey; clear Ey end.
  remember ((5 * doy + 2) / 153) as mp eqn:Emp.
  assert (0 <= mp < 12) as Hmp by dlia.
  unfold first_day.
  assert ((12 * y + mp) / 12 = y) as -> by dlia.
  assert ((12 * y + mp) mod 12 = mp) as -> by dlia.
  split; [done|]. split; [dlia|]. split; [lia|].
  destruct (Z.eq_dec mp 11) as [E|E].
  - assert ((12 * y + mp + 1) / 12 = y + 1) as -> by dlia.
    assert ((12 * y + mp + 1) mod 12 = 0) as -> by dlia.
    change ((153 * 0 + 2) / 5) with 0. lia.
  - assert ((12 * y + mp + 1) / 12 = y) as -> by dlia.
    assert ((12 * y + mp + 1) mod 12 = mp + 1) as -> by dlia. dlia.
Qed.

(** Calendar dates order like day numbers. *)
Lemma march_date_lt d1 d2 :
  d1 < d2 →
  let c1 := march_date d1 in let c2 := march_date d2 in
  month_index c1 < month_index c2 ∨
  (month_index c1 = month_index c2 ∧ m_day c1 < m_day c2).
Proof.
  intros H. cbv zeta. unfold month_index.
  pose proof (march_date_spec d1) as (H1 & H1' & E1 & U1).
  pose proof (march_date_spec d2) as (H2 & H2' & E2 & U2).
  set (c1 := march_date d1) in *. set (c2 := march_date d2) in *.
  set (k1 := 12 * m_year c1 + m_month c1) in *.
  set (k2 := 12 * m_year c2 + m_month c2) in *.
  destruct (Z_lt_le_dec k1 k2); [lia|].
  destruct (Z.eq_dec k1 k2) as [E|E]; [right; split; [lia|]; rewrite E in *; lia|].
  pose proof (first_day_mono (k2 + 1) k1 ltac:(lia)). lia.
Qed.

(** ** Formatting *)

Definition day_ns : Z := 86400 * Second.
Definition days_of (t : time) : Z := t / day_ns.
Definition tod_of (t : time) : Z := t mod day_ns.

Definition year_of (t : time) : Z := month_index (march_date (days_of t)) / 12.
Definition month_of (t : time) : Z := month_index (march_date (days_of t)) mod 12 + 1.
Definition mday_of (t : time) : Z := m_day (march_date (days_of t)) + 1.
Definition hour_of (t : time) : Z := tod_of t / Hour.
Definition minute_of (t : time) : Z := tod_of t / Minute mod 60.
Definition second_of (t : time) : Z := tod_of t / Second mod 60.
Definition nanosecond_of (t : time) : Z := t mod Second.

(** [t.Sub(u)]: Go saturates at the ends of [time.Duration]. *)
Definition Sub (t u : time) : duration := Z.max (- 2 ^ 63) (Z.min maxInt64 (t - u)).

(** The layout ["2006-01-02T15:04:05"]. *)
Definition format_seconds (t : time) : string :=
  appendInt (year_of t) 4 +:+ ("-" +:+ (pad 2 (month_of t) +:+ ("-" +:+
  (pad 2 (mday_of t) +:+ ("T" +:+ (pad 2 (hour_of t) +:+ (":" +:+
  (pad 2 (minute_of t) +:+ (":" +:+ pad 2 (second_of t)))))))))).

(** [formatTimestamp]: layout ["2006-01-02T15:04:05.000000000Z07:00"], UTC. *)
Definition formatTimestamp (t : time) : string :=
  format_seconds t +:+ ("." +:+ (pad 9 (nanosecond_of t) +:+ "Z")).

(** The fraction of the layout [".999999999"]: trailing zeros removed, and
    nothing at all for a whole second. *)
Fixpoint strip_zeros (w : nat) (n : Z) : string :=
  match w with
  | O => ""
  | S w' => if n mod 10 =? 0 then strip_zeros w' (n / 10) else pad (S w') n
  end.

Definition format_fraction (n : Z) : string :=
  if n =? 0 then "" else "." +:+ strip_zeros 9 n.

(** [t.UTC().Format(time.RFC3339Nano)]. *)
Definition formatRFC3339Nano (t : time) : string :=
  format_seconds t +:+ (format_fraction (nanosecond_of t) +:+ "Z").

Example format_epoch : formatTimestamp 0 = "1970-01-01T00:00:00.000000000Z".
Proof. reflexivity. Qed.

Example format_leap_day :
  formatTimestamp (951782400 * Second + 5) = "2000-02-29T00:00:00.000000005Z".
Proof. reflexivity. Qed.

Example format_nano_trims :
  formatRFC3339Nano (1700000000 * Second + 510000000) = "2023-11-14T22:13:20.51Z".
Proof. reflexivity. Qed.

(** ** Order *)

(** Years 0 to 9999: the range in which a year has four digits. *)
Definition four_digit_year (t : time) : Prop :=
  -62167219200 * Second <= t < 253402300800 * Second.

Definition then_cmp (c d : comparison) : comparison :=
  match c with Eq => d | _ => c end.

Lemma then_cmp_assoc a b c : then_cmp (then_cmp a b) c = then_cmp a (then_cmp b c).
Proof. by destruct a. Qed.

Lemma compare_sep s t u :
  String.compare (s +:+ t) (s +:+ u) = String.compare t u.
Proof. by rewrite compare_app, compare_refl. Qed.

Lemma compare_then s1 s2 t1 t2 :
  String.length s1 = String.length s2 →
  String.compare (s1 +:+ t1) (s2 +:+ t2) =
  then_cmp (String.compare s1 s2) (String.compare t1 t2).
Proof. intros H. rewrite compare_app by done. by destruct (String.compare s1 s2). Qed.

Ltac cmp_cases :=
  repeat match goal with
  | |- context [Z.compare ?a ?b] => destruct (Z.compare_spec a b)
  end.

(** Year, month and day compare like the day number. *)
Lemma compare_date t1 t2 :
  then_cmp (year_of t1 ?= year_of t2)
    (then_cmp (month_of t1 ?= month_of t2) (mday_of t1 ?= mday_of t2)) =
  (days_of t1 ?= days_of t2).
Proof.
  unfold year_of, month_of, mday_of.
  pose proof (march_date_lt (days_of t1) (days_of t2)) as H1.
  pose proof (march_date_lt (days_of t2) (days_of t1)) as H2.
  destruct (Z.compare_spec (days_of t1) (days_of t2)) as [E|L|L].
  - rewrite E, !Z.compare_refl. done.
  - specialize (H1 L). clear H2. cbv zeta in H1.
    generalize dependent (month_index (march_date (days_of t1))). intros i1.
    generalize dependent (month_index (march_date (days_of t2))). intros i2 H1.
    cmp_cases; try done; exfalso; dlia.
  - specialize (H2 L). clear H1. cbv zeta in H2.
    generalize dependent (month_index (march_date (days_of t1))). intros i1.
    generalize dependent (month_index (march_date (days_of t2))). intros i2 H2.
    cmp_cases; try done; exfalso; dlia.
Qed.

(** Hours, minutes and seconds compare like the second of the day. *)
Lemma compare_clock t1 t2 :
  then_cmp (hour_of t1 ?= hour_of t2)
    (then_cmp (minute_of t1 ?= minute_of t2) (second_of t1 ?= second_of t2)) =
  (tod_of t1 / Second ?= tod_of t2 / Second).
Proof.
  unfold hour_of, minute_of, second_of, tod_of, Hour, Minute, Second, day_ns.
  pose proof (Z.mod_pos_bound t1 (86400 * Second)) as B1.
  pose proof (Z.mod_pos_bound t2 (86400 * Second)) as B2.
  unfold Second in *. specialize (B1 ltac:(lia)). specialize (B2 ltac:(lia)).
  generalize dependent (t1 mod (86400 * 1000000000)). intros a B1.
  generalize dependent (t2 mod (86400 * 1000000000)). intros b B2.
  cmp_cases; try done; exfalso; dlia.
Qed.

Lemma year_bounds t : four_digit_year t → 0 <= year_of t < 10000.
Proof.
  unfold four_digit_year, year_of. intros H.
  assert (-719528 <= days_of t < 2932897) as Hd
    by (unfold days_of, day_ns, Second in *; dlia).
  destruct (march_date_spec (days_of t)) as (Hm & Hday & E & U).
  unfold month_index. set (c := march_date (days_of t)) in *.
  assert (-2 <= 12 * m_year c + m_month c) as Hlo.
  { destruct (Z_lt_le_dec (12 * m_year c + m_month c) (-2)); [|done].
    pose proof (first_day_mono (12 * m_year c + m_month c + 1) (-2) ltac:(lia)) as Hf.
    change (first_day (-2)) with (-719528) in Hf. lia. }
  assert (12 * m_year c + m_month c < 119998) as Hhi.
  { destruct (Z_lt_le_dec (12 * m_year c + m_month c) 119998); [done|].
    pose proof (first_day_mono 119998 (12 * m_year c + m_month c) ltac:(lia)) as Hf.
    change (first_day 119998) with 2932897 in Hf. lia. }
  clear U E Hd. dlia.
Qed.

(** Each component fits the width the layout gives it. *)
Lemma field_bounds t :
  0 <= month_of t < 100 ∧ 0 <= mday_of t < 100 ∧ 0 <= hour_of t < 100 ∧
  0 <= minute_of t < 100 ∧ 0 <= second_of t < 100 ∧ 0 <= nanosecond_of t < 10 ^ 9.
Proof.
  destruct (march_date_spec (days_of t)) as (Hm & Hday & _).
  unfold month_of, mday_of, hour_of, minute_of, second_of, nanosecond_of, tod_of.
  unfold day_ns, Hour, Minute, Second. repeat split; try lia; dlia.
Qed.

Lemma compare_seconds t1 t2 :
  four_digit_year t1 → four_digit_year t2 →
  String.compare (format_seconds t1) (format_seconds t2) =
  (t1 / Second ?= t2 / Second).
Proof.
  intros H1 H2. unfold format_seconds.
  pose proof (year_bounds t1 H1). pose proof (year_bounds t2 H2).
  pose proof (field_bounds t1) as (?&?&?&?&?&?).
  pose proof (field_bounds t2) as (?&?&?&?&?&?).
  rewrite !appendInt_pad by (simpl; lia).
  repeat (rewrite compare_then by (by rewrite !length_pad); rewrite compare_sep).
  rewrite !compare_pad by (simpl; lia).
  rewrite <- !then_cmp_assoc, !then_cmp_assoc.
  rewrite compare_clock, <- !then_cmp_assoc, !then_cmp_assoc.
  replace (then_cmp (year_of t1 ?= year_of t2) _) with
    (then_cmp (then_cmp (year_of t1 ?= year_of t2)
      (then_cmp (month_of t1 ?= month_of t2) (mday_of t1 ?= mday_of t2)))
      (tod_of t1 / Second ?= tod_of t2 / Second)) by (by rewrite !then_cmp_assoc).
  rewrite compare_date. unfold days_of, tod_of, day_ns, Second in *. clear.
  unfold then_cmp. cmp_cases; try done; exfalso; dlia.
Qed.

Lemma length_format_seconds t :
  four_digit_year t → String.length (format_seconds t) = 19%nat.
Proof.
  intros H. unfold format_seconds. pose proof (year_bounds t H).
  rewrite appendInt_pad by (simpl; lia).
  by rewrite !length_app_string, !length_pad.
Qed.

(** The text order of the timestamp columns is the order of time. *)
Lemma formatTimestamp_compare t1 t2 :
  four_digit_year t1 → four_digit_year t2 →
  String.compare (formatTimestamp t1) (formatTimestamp t2) = (t1 ?= t2).
Proof.
  intros H1 H2. unfold formatTimestamp.
  rewrite compare_then by (by rewrite !length_format_seconds).
  rewrite compare_seconds, compare_sep by done.
  rewrite compare_then by (by rewrite !length_pad).
  rewrite compare_refl.
  rewrite compare_pad by (apply field_bounds).
  unfold nanosecond_of, Second. clear.
  unfold then_cmp. cmp_cases; try done; exfalso; dlia.
Qed.

Lemma formatTimestamp_leb t1 t2 :
  four_digit_year t1 → four_digit_year t2 →
  str_leb (formatTimestamp t1) (formatTimestamp t2) = (t1 <=? t2).
Proof.
  intros H1 H2. unfold str_leb. rewrite formatTimestamp_compare by done.
  unfold Z.leb. by destruct (t1 ?= t2).
Qed.

Lemma formatTimestamp_inj t1 t2 :
  four_digit_year t1 → four_digit_year t2 →
  formatTimestamp t1 = formatTimestamp t2 → t1 = t2.
Proof.
  intros H1 H2 E. apply Z.compare_eq.
  rewrite <- formatTimestamp_compare, E by done. apply compare_refl.
Qed.
