(* ===== verification/TimeParse.v ===== *)
(** * TimeParse: [time.Parse] with the layouts [time.RFC3339] and [time.RFC3339Nano]

    Both layouts read the same texts: a two-digit field may be a single
    digit only for the hour, a fraction after a period or a comma is
    accepted, and the zone is [Z] or a signed [hh:mm]. *)

From Stdlib Require Import Ascii.
From S2P Require Import Prelude Text Timestamp.

Definition is_digit (c : ascii) : bool :=
  (48 <=? N_of_ascii c)%N && (N_of_ascii c <=? 57)%N.
Definition digit_val (c : ascii) : Z := Z.of_N (N_of_ascii c) - 48.

(** [getnum]. *)
Definition getnum (fixed : bool) (s : string) : option (Z * string) :=
  match s with
  | String a s1 =>
      if negb (is_digit a) then None
      else match s1 with
           | String b s2 =>
               if is_digit b then Some (10 * digit_val a + digit_val b, s2)
               else if fixed then None else Some (digit_val a, s1)
           | "" => if fixed then None else Some (digit_val a, "")
           end
  | "" => None
  end.

(** A number whose range error is an error of the parse. *)
Definition getnum_in (fixed : bool) (lo hi : Z) (s : string) : option (Z * string) :=
  match getnum fixed s with
  | Some (n, rest) => if (lo <=? n) && (n <=? hi) then Some (n, rest) else None
  | None => None
  end.

(** [skip] of a one-byte prefix. *)
Definition skip (c : ascii) (s : string) : option string :=
  match s with
  | String d s' => if (c =? d)%char then Some s' else None
  | "" => None
  end.

(** [stdLongYear]. *)
Definition parse_year (s : string) : option (Z * string) :=
  match s with
  | String a (String b (String c (String d rest))) =>
      if is_digit a && is_digit b && is_digit c && is_digit d
      then Some (1000 * digit_val a + 100 * digit_val b + 10 * digit_val c + digit_val d, rest)
      else None
  | _ => None
  end.

(** The digits of a fraction: the first nine count. *)
Fixpoint parse_digits (weight acc : Z) (s : string) : Z * string :=
  match s with
  | String c s' =>
      if is_digit c then parse_digits (weight / 10) (acc + digit_val c * weight) s'
      else (acc, s)
  | "" => (acc, "")
  end.

Definition comma_or_period (c : ascii) : bool := (c =? ".")%char || (c =? ",")%char.

Definition parse_fraction (s : string) : Z * string :=
  match s with
  | String p (String c _ as s') =>
      if comma_or_period p && is_digit c then parse_digits 100000000 0 s' else (0, s)
  | _ => (0, s)
  end.

(** [Z07:00]: the offset in seconds. *)
Definition parse_zone (s : string) : option (Z * string) :=
  match s with
  | String "Z" rest => Some (0, rest)
  | String sign s1 =>
      match s1 with
      | String h1 (String h2 (String colon (String m1 (String m2 rest)))) =>
          if negb (colon =? ":")%char then None
          else
            match getnum_in true 0 24 (String h1 (String h2 "")),
                  getnum_in true 0 60 (String m1 (String m2 "")) with
            | Some (hr, _), Some (mm, _) =>
                let offset := (hr * 60 + mm) * 60 in
                if (sign =? "+")%char then Some (offset, rest)
                else if (sign =? "-")%char then Some (- offset, rest)
                else None
            | _, _ => None
            end
      | _ => None
      end
  | "" => None
  end.

Definition month_first (year month : Z) : Z := first_day (12 * year + month - 3).

(** [Date(...)] minus the zone offset. *)
Definition instant (year month day hour min sec nsec offset : Z) : time :=
  (month_first year month + (day - 1)) * day_ns + hour * Hour + min * Minute + sec * Second +
  nsec - offset * Second.

Notation "'let?' x := m 'in' k" := (match m with Some x => k | None => None end)
  (at level 10, x pattern, m at level 100, k at level 200).

Definition parse_time (value : string) : option time :=
  let? (year, s) := parse_year value in
  let? s := skip "-" s in
  let? (month, s) := getnum_in true 1 12 s in
  let? s := skip "-" s in
  let? (day, s) := getnum true s in
  let? s := skip "T" s in
  let? (hour, s) := getnum_in false 0 23 s in
  let? s := skip ":" s in
  let? (min, s) := getnum_in true 0 59 s in
  let? s := skip ":" s in
  let? (sec, s) := getnum_in true 0 59 s in
  let '(nsec, s) := parse_fraction s in
  let? (offset, s) := parse_zone s in
  if negb (s =? "")%string then None
  else if (day <? 1) || (month_first year (month + 1) - month_first year month <? day) then None
  else Some (instant year month day hour min sec nsec offset).

Example parse_epoch : parse_time "1970-01-01T00:00:00Z" = Some 0.
Proof. reflexivity. Qed.

Example parse_offset : parse_time "2023-11-14T23:13:20.51+01:00" =
  Some (1700000000 * Second + 510000000).
Proof. reflexivity. Qed.

Example parse_rejects : parse_time "2023-02-29T00:00:00Z" = None ∧ parse_time "2023-02-28T24:00:00Z" = None.
Proof. done. Qed.

(** ** Round trip *)

Lemma digit_ascii d : 0 <= d < 10 →
  is_digit (ascii_of_N (48 + Z.to_N d)) = true ∧ digit_val (ascii_of_N (48 + Z.to_N d)) = d.
Proof.
  intros H. unfold is_digit, digit_val. rewrite N_ascii_embedding by lia. split; [|lia].
  apply andb_true_iff. split; apply N.leb_le; lia.
Qed.

Lemma pad2 n rest : 0 <= n < 100 →
  pad 2 n +:+ rest =
    String (ascii_of_N (48 + Z.to_N (n / 10))) (String (ascii_of_N (48 + Z.to_N (n mod 10))) rest).
Proof.
  intros H. cbn [pad]. rewrite append_nil_l. unfold digit. rewrite <- append_assoc_string.
  rewrite !append_cons, !append_nil_l. do 3 f_equal. f_equal. f_equal. dlia.
Qed.

Lemma getnum_pad2 fixed n rest : 0 <= n < 100 → getnum fixed (pad 2 n +:+ rest) = Some (n, rest).
Proof.
  intros H. rewrite pad2 by done. unfold getnum.
  destruct (digit_ascii (n / 10)) as [-> ->]; [dlia|].
  destruct (digit_ascii (n mod 10)) as [-> ->]; [dlia|]. simpl. do 2 f_equal. dlia.
Qed.

Lemma getnum_in_pad2 fixed lo hi n rest :
  0 <= n < 100 → lo <= n <= hi → getnum_in fixed lo hi (pad 2 n +:+ rest) = Some (n, rest).
Proof.
  intros H Hr. unfold getnum_in. rewrite getnum_pad2 by done.
  by rewrite (proj2 (Z.leb_le lo n)), (proj2 (Z.leb_le n hi)) by lia.
Qed.

Lemma parse_year_pad n rest : 0 <= n < 10000 → parse_year (pad 4 n +:+ rest) = Some (n, rest).
Proof.
  intros H. change (pad 4 n) with (((("" +:+ digit (n / 10 / 10 / 10 mod 10)) +:+
    digit (n / 10 / 10 mod 10)) +:+ digit (n / 10 mod 10)) +:+ digit (n mod 10)).
  unfold digit. rewrite append_nil_l, <- !append_assoc_string, !append_cons, !append_nil_l.
  unfold parse_year.
  destruct (digit_ascii (n / 10 / 10 / 10 mod 10)) as [-> ->]; [dlia|].
  destruct (digit_ascii (n / 10 / 10 mod 10)) as [-> ->]; [dlia|].
  destruct (digit_ascii (n / 10 mod 10)) as [-> ->]; [dlia|].
  destruct (digit_ascii (n mod 10)) as [-> ->]; [dlia|]. simpl. do 2 f_equal. dlia.
Qed.

Lemma skip_cons c s : skip c (String c "" +:+ s) = Some s.
Proof. rewrite append_cons, append_nil_l. simpl. by rewrite Ascii.eqb_refl. Qed.

(** [k] digits read from weight [10^(j+k-1)] on add the number they spell
    times [10^j]. *)
Lemma parse_digits_pad k j n acc rest :
  0 <= n < 10 ^ Z.of_nat k →
  parse_digits (10 ^ Z.of_nat (j + k) / 10) acc (pad k n +:+ rest) =
  parse_digits (10 ^ Z.of_nat j / 10) (acc + n * 10 ^ Z.of_nat j) rest.
Proof.
  revert j n acc rest. induction k as [|k IH]; intros j n acc rest Hn.
  - simpl in Hn. assert (n = 0) as -> by lia. rewrite Nat.add_0_r. cbn [pad].
    rewrite append_nil_l. f_equal. lia.
  - assert (∀ m, 10 ^ Z.of_nat (S m) = 10 * 10 ^ Z.of_nat m) as Hp
      by (intros m; rewrite Nat2Z.inj_succ, Z.pow_succ_r; lia).
    rewrite Hp in Hn. cbn [pad]. rewrite <- append_assoc_string.
    replace (j + S k)%nat with (S j + k)%nat by lia. rewrite IH by dlia.
    unfold digit. rewrite append_cons, append_nil_l. cbn [parse_digits].
    destruct (digit_ascii (n mod 10)) as [-> ->]; [dlia|].
    rewrite Hp. replace (10 * 10 ^ Z.of_nat j / 10) with (10 ^ Z.of_nat j) by dlia.
    f_equal. pose proof (Z.div_mod n 10 ltac:(lia)). lia.
Qed.

Lemma pad_head k n : ∃ c r, pad (S k) n = String c r ∧ is_digit c = true.
Proof.
  revert n. induction k as [|k IH]; intros n.
  - cbn [pad]. rewrite append_nil_l. unfold digit.
    destruct (digit_ascii (n mod 10)) as [? _]; [dlia|]. eauto.
  - destruct (IH (n / 10)) as (c & r & E & Hc). cbn [pad] in *. rewrite E, append_cons. eauto.
Qed.

Lemma parse_fraction_pad k j n :
  (j + S k = 9)%nat → 0 <= n < 10 ^ Z.of_nat (S k) →
  parse_fraction ("." +:+ (pad (S k) n +:+ "Z")) = (n * 10 ^ Z.of_nat j, "Z").
Proof.
  intros Hj Hn. rewrite append_cons, append_nil_l. unfold parse_fraction.
  destruct (pad_head k n) as (c & r & E & Hc). rewrite E, append_cons, Hc.
  change (comma_or_period ".") with true. cbn [andb]. rewrite <- append_cons, <- E. change 100000000 with (10 ^ Z.of_nat 9 / 10).
  rewrite <- Hj, parse_digits_pad by done. done.
Qed.

Lemma strip_zeros_spec w n :
  0 < n < 10 ^ Z.of_nat w →
  ∃ k j m, (j + S k = w)%nat ∧ strip_zeros w n = pad (S k) m ∧ n = m * 10 ^ Z.of_nat j ∧
    0 <= m < 10 ^ Z.of_nat (S k).
Proof.
  revert n. induction w as [|w IH]; intros n Hn; [simpl in Hn; lia|].
  assert (10 ^ Z.of_nat (S w) = 10 * 10 ^ Z.of_nat w) as Hp
    by (rewrite Nat2Z.inj_succ, Z.pow_succ_r; lia).
  cbn [strip_zeros]. destruct (n mod 10 =? 0) eqn:E; breflect.
  - rewrite Hp in Hn. destruct (IH (n / 10)) as (k & j & m & Hj & Hs & En & Hm); [dlia|].
    exists k, (S j), m. split; [lia|]. split; [done|]. split; [|done].
    rewrite Nat2Z.inj_succ, Z.pow_succ_r by lia. dlia.
  - exists w, 0%nat, n. split; [done|]. split; [done|]. simpl Z.of_nat at 1.
    split; [lia|]. lia.
Qed.

(** The fields of an instant give it back. *)
Lemma instant_fields t :
  instant (year_of t) (month_of t) (mday_of t) (hour_of t) (minute_of t) (second_of t)
    (nanosecond_of t) 0 = t.
Proof.
  unfold instant, month_first, year_of, month_of, mday_of.
  destruct (march_date_spec (days_of t)) as (Hm & _ & E & _).
  set (c := march_date (days_of t)) in *. unfold month_index.
  replace (12 * ((12 * m_year c + m_month c + 2) / 12) +
    ((12 * m_year c + m_month c + 2) mod 12 + 1) - 3) with (12 * m_year c + m_month c) by dlia.
  replace (first_day (12 * m_year c + m_month c) + (m_day c + 1 - 1)) with (days_of t) by lia.
  clear E Hm c. unfold days_of, hour_of, minute_of, second_of, nanosecond_of, tod_of.
  unfold day_ns, Hour, Minute, Second. dlia.
Qed.

Lemma day_in_month t :
  1 <= mday_of t <= month_first (year_of t) (month_of t + 1) - month_first (year_of t) (month_of t).
Proof.
  unfold month_first, year_of, month_of, mday_of.
  destruct (march_date_spec (days_of t)) as (Hm & Hd & E & U).
  set (c := march_date (days_of t)) in *. unfold month_index.
  replace (12 * ((12 * m_year c + m_month c + 2) / 12) +
    ((12 * m_year c + m_month c + 2) mod 12 + 1) - 3) with (12 * m_year c + m_month c) by dlia.
  replace (12 * ((12 * m_year c + m_month c + 2) / 12) +
    ((12 * m_year c + m_month c + 2) mod 12 + 1 + 1) - 3) with (12 * m_year c + m_month c + 1) by dlia.
  lia.
Qed.

Lemma field_ranges t :
  1 <= month_of t <= 12 ∧ 0 <= hour_of t <= 23 ∧ 0 <= minute_of t <= 59 ∧ 0 <= second_of t <= 59.
Proof.
  unfold month_of, hour_of, minute_of, second_of, tod_of, day_ns, Hour, Minute, Second.
  repeat split; try lia; dlia.
Qed.

(** Parsing what a format with a fraction [f] printed. *)
Lemma parse_format t f :
  four_digit_year t → parse_fraction (f +:+ "Z") = (nanosecond_of t, "Z") →
  parse_time (format_seconds t +:+ (f +:+ "Z")) = Some t.
Proof.
  intros Hy Hf. pose proof (year_bounds t Hy) as Hyb. pose proof (field_bounds t) as Hb.
  pose proof (field_ranges t) as Hr. pose proof (day_in_month t) as Hd.
  unfold format_seconds. rewrite <- !append_assoc_string. rewrite appendInt_pad by (simpl; lia).
  unfold parse_time. rewrite parse_year_pad by lia.
  rewrite !skip_cons, getnum_in_pad2 by lia. rewrite !skip_cons, getnum_pad2 by lia.
  rewrite !skip_cons, getnum_in_pad2 by lia. rewrite !skip_cons, getnum_in_pad2 by lia.
  rewrite !skip_cons, getnum_in_pad2 by lia. rewrite Hf. cbn [parse_zone String.eqb negb].
  rewrite (proj2 (Z.ltb_ge _ _)) by lia. rewrite (proj2 (Z.ltb_ge _ _)) by lia. simpl.
  by rewrite instant_fields.
Qed.

Lemma parse_formatTimestamp t : four_digit_year t → parse_time (formatTimestamp t) = Some t.
Proof.
  intros Hy. unfold formatTimestamp. rewrite (append_assoc_string "."). apply parse_format; [done|].
  rewrite <- append_assoc_string. rewrite (parse_fraction_pad 8 0) by (try done; apply field_bounds).
  f_equal. simpl. lia.
Qed.

Lemma parse_formatRFC3339Nano t : four_digit_year t → parse_time (formatRFC3339Nano t) = Some t.
Proof.
  intros Hy. unfold formatRFC3339Nano. apply parse_format; [done|]. unfold format_fraction.
  destruct (nanosecond_of t =? 0) eqn:E; breflect.
  - rewrite append_nil_l, E. done.
  - pose proof (field_bounds t) as Hb.
    destruct (strip_zeros_spec 9 (nanosecond_of t)) as (k & j & m & Hj & -> & En & Hm); [simpl; lia|].
    rewrite <- append_assoc_string, (parse_fraction_pad k j) by done. by rewrite <- En.
Qed.

(** The parser of the library takes more than RFC 3339: an hour of one digit
    and a comma before the fraction. *)
Example parse_time_lenient :
  parse_time "2023-11-14T2:13:20Z" = Some (1699928000 * Second) ∧
  parse_time "2023-11-14T22:13:20,5Z" = Some (1700000000 * Second + 500 * Millisecond).
Proof. vm_compute. auto. Qed.
