(* ===== verification/Duration.v ===== *)
(** * Duration: [time.ParseDuration] and [strconv.ParseInt]

    Fractions go through float64 in the library, so they do here: [SpecFloat]
    gives the IEEE 754 operations as functions. *)

From Stdlib Require Import Ascii SpecFloat.
From S2P Require Import Prelude Text Timestamp TimeParse.

(** ** float64 *)

Definition float64 (z : Z) : spec_float := binary_normalize 53 1024 z 0 false.
Definition float_mul : spec_float → spec_float → spec_float := SFmul 53 1024.
Definition float_div : spec_float → spec_float → spec_float := SFdiv 53 1024.

(** [uint64(x)] of a finite non-negative number. *)
Definition float_trunc (x : spec_float) : Z :=
  match x with
  | S754_finite false m e => if 0 <=? e then Zpos m * 2 ^ e else Zpos m / 2 ^ (- e)
  | _ => 0
  end.

(** ** Digits *)

(** [leadingInt]: [None] is an overflow. *)
Fixpoint leadingInt (x : Z) (s : string) : option (Z * string) :=
  match s with
  | String c s' =>
      if negb (is_digit c) then Some (x, s)
      else if 2 ^ 63 / 10 <? x then None
      else let y := x * 10 + digit_val c in
           if 2 ^ 63 <? y then None else leadingInt y s'
  | "" => Some (x, "")
  end.

(** [leadingFraction]: the digits that fit, and the power of ten they are
    counted in. *)
Fixpoint leadingFraction (overflow : bool) (x scale : Z) (s : string) : Z * Z * string :=
  match s with
  | String c s' =>
      if negb (is_digit c) then (x, scale, s)
      else if overflow || ((2 ^ 63 - 1) / 10 <? x) || (2 ^ 63 <? x * 10 + digit_val c)
      then leadingFraction true x scale s'
      else leadingFraction false (x * 10 + digit_val c) (scale * 10) s'
  | "" => (x, scale, "")
  end.

(** The unit: everything up to the next digit or period. *)
Fixpoint take_unit (s : string) : string * string :=
  match s with
  | String c s' =>
      if (c =? ".")%char || is_digit c then ("", s)
      else let '(u, rest) := take_unit s' in (String c u, rest)
  | "" => ("", "")
  end.

(** [unitMap]; the two spellings of micro are U+00B5 and U+03BC. *)
Definition micro_sign : string := String "194" (String "181" "s").
Definition greek_mu : string := String "206" (String "188" "s").

Definition unit_of (u : string) : option Z :=
  if (u =? "ns")%string then Some Nanosecond
  else if (u =? "us")%string || (u =? micro_sign)%string || (u =? greek_mu)%string then Some 1000
  else if (u =? "ms")%string then Some Millisecond
  else if (u =? "s")%string then Some Second
  else if (u =? "m")%string then Some Minute
  else if (u =? "h")%string then Some Hour
  else None.

Definition starts_number (s : string) : bool :=
  match s with String c _ => (c =? ".")%char || is_digit c | "" => false end.

(** The digits after a period, the period present or not. *)
Definition fraction_part (s : string) : Z * Z * string * bool :=
  match s with
  | String c s' =>
      if (c =? ".")%char then
        let '(f, scale, rest) := leadingFraction false 0 1 s' in
        (f, scale, rest, negb (String.length rest =? String.length s')%nat)
      else (0, 1, s, false)
  | "" => (0, 1, s, false)
  end.

(** One number with its unit: nanoseconds and the rest of the text. *)
Definition duration_item (s : string) : option (Z * string) :=
  if negb (starts_number s) then None
  else
    let? (v, s1) := leadingInt 0 s in
    let pre := negb (String.length s1 =? String.length s)%nat in
    let '(f, scale, s2, post) := fraction_part s1 in
    if negb pre && negb post then None
    else
      let '(u, rest) := take_unit s2 in
      if (u =? "")%string then None
      else
        let? unit := unit_of u in
        if 2 ^ 63 / unit <? v then None
        else
          let v := v * unit in
          let v := if 0 <? f
                   then v + float_trunc (float_mul (float64 f)
                                           (float_div (float64 unit) (float64 scale)))
                   else v in
          if (0 <? f) && (2 ^ 63 <? v) then None else Some (v, rest).

(** The loop of [ParseDuration]; every turn consumes a byte, so the length of
    the text bounds the number of turns. *)
Fixpoint duration_sum (fuel : nat) (d : Z) (s : string) : option Z :=
  match s with
  | "" => Some d
  | _ =>
      match fuel with
      | O => None
      | S fuel' =>
          let? (v, rest) := duration_item s in
          if 2 ^ 63 <? d + v then None else duration_sum fuel' (d + v) rest
      end
  end.

(** An optional sign. *)
Definition cut_sign (s : string) : bool * string :=
  match s with
  | String "-" s' => (true, s')
  | String "+" s' => (false, s')
  | _ => (false, s)
  end.

(** [time.ParseDuration]. *)
Definition ParseDuration (value : string) : option duration :=
  let '(neg, s) := cut_sign value in
  if (s =? "0")%string then Some 0
  else if (s =? "")%string then None
  else
    let? d := duration_sum (String.length s) 0 s in
    if neg then Some (- d) else if 2 ^ 63 - 1 <? d then None else Some d.

Example duration_1s : ParseDuration "1s" = Some Second.
Proof. reflexivity. Qed.

Example duration_mixed : ParseDuration "-1h2m3.5s" = Some (- (Hour + 2 * Minute + 3500000000)).
Proof. vm_compute. reflexivity. Qed.

Example duration_micro : ParseDuration (".5" +:+ micro_sign) = Some 500.
Proof. vm_compute. reflexivity. Qed.

Example duration_bad : ParseDuration "5" = None ∧ ParseDuration "" = None ∧
  ParseDuration "9223372036855ms" = None ∧ ParseDuration "1s " = None.
Proof. vm_compute. done. Qed.

(** ** The bound on the turns is enough *)

Lemma leadingInt_length x s v rest :
  leadingInt x s = Some (v, rest) → (String.length rest <= String.length s)%nat.
Proof.
  revert x. induction s as [|c s IH]; intros x; simpl.
  - intros [= _ <-]. simpl. lia.
  - destruct (negb _); [intros [= _ <-]; simpl; lia|].
    destruct (_ <? x); [done|]. destruct (_ <? _); [done|]. intros H. apply IH in H. lia.
Qed.

Lemma leadingFraction_length o x sc s f sc' rest :
  leadingFraction o x sc s = (f, sc', rest) → (String.length rest <= String.length s)%nat.
Proof.
  revert o x sc. induction s as [|c s IH]; intros o x sc; simpl.
  - intros [= _ _ <-]. simpl. lia.
  - destruct (negb _); [intros [= _ _ <-]; simpl; lia|].
    destruct (_ || _); intros H; apply IH in H; lia.
Qed.

Lemma take_unit_length s u rest :
  take_unit s = (u, rest) → String.length s = (String.length u + String.length rest)%nat.
Proof.
  revert u rest. induction s as [|c s IH]; intros u rest; simpl; [by intros [= <- <-]|].
  destruct (_ || _); [by intros [= <- <-]|].
  destruct (take_unit s) as [u' r']. intros [= <- <-]. simpl. by rewrite (IH u' r').
Qed.

Lemma fraction_part_length s f sc rest b :
  fraction_part s = (f, sc, rest, b) → (String.length rest <= String.length s)%nat.
Proof.
  unfold fraction_part. destruct s as [|c s]; [by intros [= _ _ <- _]|].
  destruct (c =? ".")%char; [|by intros [= _ _ <- _]].
  destruct (leadingFraction false 0 1 s) as [[f' sc'] r'] eqn:E. intros [= <- <- <- <-].
  apply leadingFraction_length in E. simpl. lia.
Qed.

Lemma duration_item_consumes s v rest :
  duration_item s = Some (v, rest) → (String.length rest < String.length s)%nat.
Proof.
  unfold duration_item. destruct (starts_number s); [|done]. simpl.
  destruct (leadingInt 0 s) as [[v0 s1]|] eqn:E1; [|done].
  apply leadingInt_length in E1.
  destruct (fraction_part s1) as [[[f sc] s2] post] eqn:E2. apply fraction_part_length in E2.
  destruct (_ && _); [done|]. destruct (take_unit s2) as [u r] eqn:E3.
  apply take_unit_length in E3. destruct (u =? "")%string eqn:Eu; [done|].
  destruct (unit_of u) as [n|]; [|done]. destruct (_ <? v0); [done|].
  destruct (_ && _); [done|]. intros [= _ <-]. breflect.
  destruct u as [|c u]; [done|]. simpl in E3. lia.
Qed.

(** More fuel than the length changes nothing. *)
Lemma duration_sum_fuel n m d s :
  (String.length s <= n)%nat → (String.length s <= m)%nat →
  duration_sum n d s = duration_sum m d s.
Proof.
  revert m d s. induction n as [|n IH]; intros m d s Hn Hm.
  - destruct s; [by destruct m | simpl in Hn; lia].
  - destruct s as [|c s]; [by destruct m|]. destruct m as [|m]; [simpl in Hm; lia|].
    cbn [duration_sum]. destruct (duration_item (String c s)) as [[v rest]|] eqn:E; [|done].
    apply duration_item_consumes in E. destruct (_ <? _); [done|]. apply IH; lia.
Qed.

(** ** Integers *)

Fixpoint parse_decimal (acc : Z) (s : string) : option Z :=
  match s with
  | "" => Some acc
  | String c s' => if is_digit c then parse_decimal (10 * acc + digit_val c) s' else None
  end.

(** [strconv.ParseInt(s, 10, 64)]; a value out of range is an error. *)
Definition ParseInt (s : string) : option Z :=
  let '(neg, digits) := cut_sign s in
  if (digits =? "")%string then None
  else
    let? n := parse_decimal 0 digits in
    let v := if neg then - n else n in
    if (- 2 ^ 63 <=? v) && (v <? 2 ^ 63) then Some v else None.

Example ParseInt_values : ParseInt "-42" = Some (-42) ∧ ParseInt "+7" = Some 7 ∧
  ParseInt "9223372036854775808" = None ∧ ParseInt "1_0" = None ∧ ParseInt "" = None.
Proof. done. Qed.

Lemma parse_decimal_app a s t :
  parse_decimal a (s +:+ t) = (let? n := parse_decimal a s in parse_decimal n t).
Proof.
  revert a. induction s as [|c s IH]; intros a; [done|]. rewrite append_cons. simpl.
  by destruct (is_digit c).
Qed.

Lemma parse_decimal_pad w n a :
  0 <= n < 10 ^ Z.of_nat w → parse_decimal a (pad w n) = Some (a * 10 ^ Z.of_nat w + n).
Proof.
  revert n. induction w as [|w IH]; intros n Hn.
  - simpl in *. f_equal. lia.
  - rewrite Nat2Z.inj_succ, Z.pow_succ_r in * by lia. simpl pad. rewrite parse_decimal_app.
    pose proof (Z.mod_pos_bound n 10 ltac:(lia)) as Hm. pose proof (Z.div_mod n 10 ltac:(lia)).
    rewrite IH by (split; [apply Z.div_pos; lia | apply Z.div_lt_upper_bound; lia]).
    unfold digit. simpl. destruct (digit_ascii _ Hm) as [-> ->]. f_equal. lia.
Qed.

Lemma ndigits_enough fuel n :
  0 <= n < 10 ^ Z.of_nat (S fuel) → n < 10 ^ Z.of_nat (ndigits fuel n).
Proof.
  revert n. induction fuel as [|fuel IH]; intros n Hn; simpl ndigits; [simpl in *; lia|].
  destruct (n <? 10) eqn:E; breflect; [simpl; lia|].
  rewrite Nat2Z.inj_succ, Z.pow_succ_r by lia.
  rewrite (Nat2Z.inj_succ (S fuel)), Z.pow_succ_r in Hn by lia.
  pose proof (Z.div_mod n 10 ltac:(lia)). pose proof (Z.mod_pos_bound n 10 ltac:(lia)).
  enough (n / 10 < 10 ^ Z.of_nat (ndigits fuel (n / 10))) by lia.
  apply IH. split; [apply Z.div_pos; lia | apply Z.div_lt_upper_bound; lia].
Qed.

Lemma itoa_pad n : 0 <= n → ∃ w, itoa n = pad (S w) n ∧ n < 10 ^ Z.of_nat (S w).
Proof.
  intros Hn. unfold itoa. destruct (n <? 0) eqn:E; breflect; [lia|].
  assert (n < 10 ^ Z.of_nat (ndigits (Z.to_nat (Z.log2 n)) n)) as Hlt.
  { apply ndigits_enough. split; [done|]. rewrite Nat2Z.inj_succ, Z2Nat.id by apply Z.log2_nonneg.
    destruct (decide (n = 0)) as [->|Hne]; [simpl; lia|].
    pose proof (Z.log2_spec n ltac:(lia)) as [_ Hl].
    eapply Z.lt_le_trans; [exact Hl|]. apply Z.pow_le_mono_l. lia. }
  destruct (ndigits (Z.to_nat (Z.log2 n)) n) as [|w] eqn:Ew; [|by exists w].
  exfalso. destruct (Z.to_nat (Z.log2 n)); simpl in Ew; [done|]. by destruct (n <? 10).
Qed.

(** Round trip with [strconv.Itoa] for non-negative numbers. *)
Lemma ParseInt_itoa n : 0 <= n < 2 ^ 63 → ParseInt (itoa n) = Some n.
Proof.
  intros Hn. destruct (itoa_pad n ltac:(lia)) as (w & E & Hlt).
  assert (parse_decimal 0 (itoa n) = Some n) as Hp by (rewrite E, parse_decimal_pad by lia; done).
  assert (∃ c s, itoa n = String c s ∧ is_digit c = true) as (c & s & Ec & Hc).
  { destruct (itoa n) as [|c s] eqn:Es.
    - assert (String.length (pad (S w) n) = 0%nat) as Hl by (by rewrite <- E).
      by rewrite length_pad in Hl.
    - exists c, s. split; [done|]. simpl in Hp. by destruct (is_digit c). }
  unfold ParseInt. assert (cut_sign (itoa n) = (false, itoa n)) as ->.
  { rewrite Ec. clear -Hc. by destruct c as [[] [] [] [] [] [] [] []]. }
  destruct (itoa n =? "")%string eqn:Ee; [breflect; congruence|]. rewrite Hp.
  destruct (- 2 ^ 63 <=? n) eqn:E1; breflect; [|lia].
  destruct (n <? 2 ^ 63) eqn:E2; breflect; [done|lia].
Qed.
