(* ===== verification/HttpTime.v ===== *)
(** * HttpTime: [http.ParseTime]

    The three layouts of an HTTP date, read by [time.Parse].  A layout is a
    list of its chunks; between them the library skips literal text, with
    any number of spaces for a space.  The zone abbreviation of the second
    layout is looked up in the machine's time zone, which is an argument. *)

From Stdlib Require Import Ascii.
From S2P Require Import Prelude Text Timestamp TimeParse Duration.

Inductive Chunk :=
  | Literal (s : string)
  | WeekDay | LongWeekDay
  | ZeroDay | UnderDay
  | ShortMonth
  | LongYear | Year
  | ClockHour | ZeroMinute | ZeroSecond
  | ZoneName.

(** ["Mon, 02 Jan 2006 15:04:05 GMT"], ["Monday, 02-Jan-06 15:04:05 MST"] and
    ["Mon Jan _2 15:04:05 2006"]. *)
Definition clock_chunks : list Chunk :=
  [ClockHour; Literal ":"; ZeroMinute; Literal ":"; ZeroSecond].
Definition TimeFormat : list Chunk :=
  [WeekDay; Literal ", "; ZeroDay; Literal " "; ShortMonth; Literal " "; LongYear; Literal " "]
  ++ clock_chunks ++ [Literal " GMT"].
Definition RFC850 : list Chunk :=
  [LongWeekDay; Literal ", "; ZeroDay; Literal "-"; ShortMonth; Literal "-"; Year; Literal " "]
  ++ clock_chunks ++ [Literal " "; ZoneName].
Definition ANSIC : list Chunk :=
  [WeekDay; Literal " "; ShortMonth; Literal " "; UnderDay; Literal " "]
  ++ clock_chunks ++ [Literal " "; LongYear].

Fixpoint cutspace (s : string) : string :=
  match s with
  | String c s' => if (c =? " ")%char then cutspace s' else s
  | "" => ""
  end.

(** [skip]: no layout has two spaces in a row. *)
Fixpoint skip_text (value prefix : string) : option string :=
  match prefix with
  | "" => Some value
  | String p prefix' =>
      if (p =? " ")%char then
        match value with
        | String c _ => if (c =? " ")%char then skip_text (cutspace value) prefix' else None
        | "" => skip_text "" prefix'
        end
      else
        match value with
        | String c value' => if (c =? p)%char then skip_text value' prefix' else None
        | "" => None
        end
  end.

(** [match] of [lookup]: ASCII letters without regard to case. *)
Definition letter_eq (a b : ascii) : bool :=
  let lower c := N.lor (N_of_ascii c) 32 in
  (a =? b)%char ||
  ((lower a =? lower b)%N && (97 <=? lower a)%N && (lower a <=? 122)%N).

Fixpoint match_name (value name : string) : option string :=
  match name with
  | "" => Some value
  | String n name' =>
      match value with
      | String c value' => if letter_eq c n then match_name value' name' else None
      | "" => None
      end
  end.

(** [lookup]. *)
Fixpoint lookup_name (tab : list string) (i : Z) (value : string) : option (Z * string) :=
  match tab with
  | [] => None
  | name :: tab' =>
      match match_name value name with
      | Some rest => Some (i, rest)
      | None => lookup_name tab' (i + 1) value
      end
  end.

Definition longDayNames : list string :=
  ["Sunday"; "Monday"; "Tuesday"; "Wednesday"; "Thursday"; "Friday"; "Saturday"].
Definition shortDayNames : list string := ["Sun"; "Mon"; "Tue"; "Wed"; "Thu"; "Fri"; "Sat"].
Definition shortMonthNames : list string :=
  ["Jan"; "Feb"; "Mar"; "Apr"; "May"; "Jun"; "Jul"; "Aug"; "Sep"; "Oct"; "Nov"; "Dec"].

(** [stdYear]: two bytes that [atoi] reads, a sign among them. *)
Definition parse_year2 (s : string) : option (Z * string) :=
  match s with
  | String a (String b rest) =>
      let century y := if 69 <=? y then y + 1900 else y + 2000 in
      if negb (is_digit b) then None
      else if is_digit a then Some (century (10 * digit_val a + digit_val b), rest)
      else if (a =? "+")%char then Some (century (digit_val b), rest)
      else if (a =? "-")%char then Some (century (- digit_val b), rest)
      else None
  | _ => None
  end.

(** [parseSignedOffset]: the rest after a signed hour up to 23, if there is one. *)
Definition signed_offset (s : string) : option string :=
  match s with
  | String sign s' =>
      if negb ((sign =? "+")%char || (sign =? "-")%char) then None
      else
        match leadingInt 0 s' with
        | Some (x, rest) =>
            if (String.length rest =? String.length s')%nat || (23 <? x) then None else Some rest
        | None => None
        end
  | "" => None
  end.

Fixpoint upper_prefix (s : string) : string * string :=
  match s with
  | String c s' =>
      if (65 <=? N_of_ascii c)%N && (N_of_ascii c <=? 90)%N
      then let '(u, rest) := upper_prefix s' in (String c u, rest)
      else ("", s)
  | "" => ("", "")
  end.

(** What stands before a suffix of the text. *)
Definition before (s rest : string) : string :=
  String.substring 0 (String.length s - String.length rest) s.

(** [parseTimeZone]: the name and the rest. *)
Definition parseTimeZone (s : string) : option (string * string) :=
  if (String.length s <? 3)%nat then None
  else
    let first4 := String.substring 0 4 s in
    let drop n := String.substring n (String.length s - n) s in
    if (first4 =? "ChST")%string || (first4 =? "MeST")%string then Some (first4, drop 4%nat)
    else if (String.substring 0 3 s =? "GMT")%string then
      let rest := drop 3%nat in
      match signed_offset rest with
      | Some rest' => Some (before s rest', rest')
      | None => Some ("GMT", rest)
      end
    else
      match s with
      | String c _ =>
          if (c =? "+")%char || (c =? "-")%char then
            match signed_offset s with Some rest => Some (before s rest, rest) | None => None end
          else
            let '(u, rest) := upper_prefix s in
            match String.length u with
            | 3%nat => Some (u, rest)
            | 4%nat =>
                if (String.substring 3 1 u =? "T")%string || (u =? "WITA")%string
                then Some (u, rest) else None
            | 5%nat => if (String.substring 4 1 u =? "T")%string then Some (u, rest) else None
            | _ => None
            end
      | "" => None
      end.

(** The fields read so far; the month counts from one. *)
Record Fields := MkFields {
  f_year : Z; f_month : Z; f_day : Z; f_hour : Z; f_min : Z; f_sec : Z; f_nsec : Z;
  f_zone : string;
}.

Definition parse_chunk (c : Chunk) (value : string) (f : Fields) : option (Fields * string) :=
  let '(MkFields y mo d h mi s ns z) := f in
  match c with
  | Literal p => let? value := skip_text value p in Some (f, value)
  | WeekDay => let? (_, value) := lookup_name shortDayNames 0 value in Some (f, value)
  | LongWeekDay => let? (_, value) := lookup_name longDayNames 0 value in Some (f, value)
  | ZeroDay => let? (d, value) := getnum true value in Some (MkFields y mo d h mi s ns z, value)
  | UnderDay =>
      let value := match value with
                   | String c v => if (c =? " ")%char then v else value
                   | "" => value
                   end in
      let? (d, value) := getnum false value in Some (MkFields y mo d h mi s ns z, value)
  | ShortMonth =>
      let? (i, value) := lookup_name shortMonthNames 0 value in
      Some (MkFields y (i + 1) d h mi s ns z, value)
  | LongYear => let? (y, value) := parse_year value in Some (MkFields y mo d h mi s ns z, value)
  | Year => let? (y, value) := parse_year2 value in Some (MkFields y mo d h mi s ns z, value)
  | ClockHour =>
      let? (h, value) := getnum_in false 0 23 value in Some (MkFields y mo d h mi s ns z, value)
  | ZeroMinute =>
      let? (mi, value) := getnum_in true 0 59 value in Some (MkFields y mo d h mi s ns z, value)
  | ZeroSecond =>
      let? (s, value) := getnum_in true 0 59 value in
      let '(ns, value) := parse_fraction value in
      Some (MkFields y mo d h mi s ns z, value)
  | ZoneName =>
      if (String.substring 0 3 value =? "UTC")%string
      then Some (MkFields y mo d h mi s ns "", String.substring 3 (String.length value - 3) value)
      else let? (z, value) := parseTimeZone value in Some (MkFields y mo d h mi s ns z, value)
  end.

Fixpoint parse_layout (layout : list Chunk) (value : string) (f : Fields) : option Fields :=
  match layout with
  | [] => if (value =? "")%string then Some f else None
  | c :: layout' =>
      match parse_chunk c value f with
      | Some (f', value') => parse_layout layout' value' f'
      | None => None
      end
  end.

Section Http.
Context (local_zone : string → time → option Z).

(** The end of [time.Parse]: a zone that the machine knows shifts the time, a
    zone it does not know is taken as UTC. *)
Definition resolve (f : Fields) : option time :=
  if (f_day f <? 1) || (month_first (f_year f) (f_month f + 1) - month_first (f_year f) (f_month f) <? f_day f)
  then None
  else
    let t := instant (f_year f) (f_month f) (f_day f) (f_hour f) (f_min f) (f_sec f) (f_nsec f) 0 in
    if (f_zone f =? "")%string then Some t
    else match local_zone (f_zone f) t with
         | Some offset => Some (t - offset * Second)
         | None => Some t
         end.

Definition parse_http (layout : list Chunk) (value : string) : option time :=
  let? f := parse_layout layout value (MkFields 0 1 1 0 0 0 0 "") in resolve f.

(** [http.ParseTime]. *)
Definition ParseTime (value : string) : option time :=
  match parse_http TimeFormat value with
  | Some t => Some t
  | None =>
      match parse_http RFC850 value with
      | Some t => Some t
      | None => parse_http ANSIC value
      end
  end.

End Http.

(** The example of RFC 9110, 5.6.7, in its three forms: one instant. *)
Example http_date_forms :
  let t := Some (784111777 * Second) in
  ParseTime (λ _ _, None) "Sun, 06 Nov 1994 08:49:37 GMT" = t ∧
  ParseTime (λ _ _, None) "Sunday, 06-Nov-94 08:49:37 GMT" = t ∧
  ParseTime (λ _ _, None) "Sun Nov  6 08:49:37 1994" = t.
Proof. vm_compute. done. Qed.

Example http_date_rejected :
  ParseTime (λ _ _, None) "Sun, 31 Feb 1994 08:49:37 GMT" = None ∧
  ParseTime (λ _ _, None) "soon" = None.
Proof. vm_compute. done. Qed.
