(* ===== verification/Sha256.v ===== *)
(** * Sha256: [crypto/sha256] and [crypto/hmac]

    The FIPS 180-4 compression function on 32-bit words kept in [N], with
    every addition reduced modulo 2^32, and HMAC (RFC 2104) over it.  The
    code uses digests as event and sink fingerprints, as the webhook
    idempotency key and as request signatures. *)

From Stdlib Require Import NArith Ascii.
From S2P Require Import Prelude Text.

Local Open Scope N_scope.

Module Word.
Definition w32 (x : N) : N := N.land x 0xFFFFFFFF.
Definition add (a b : N) : N := w32 (a + b).
Definition rotr (n x : N) : N := N.lor (N.shiftr x n) (w32 (N.shiftl x (32 - n))).
Definition not (x : N) : N := N.lxor x 0xFFFFFFFF.
Definition ch (x y z : N) : N := N.lxor (N.land x y) (N.land (not x) z).
Definition maj (x y z : N) : N :=
  N.lxor (N.land x y) (N.lxor (N.land x z) (N.land y z)).
Definition bsig (a b c x : N) : N := N.lxor (rotr a x) (N.lxor (rotr b x) (rotr c x)).
Definition ssig (a b c x : N) : N :=
  N.lxor (rotr a x) (N.lxor (rotr b x) (N.shiftr x c)).
End Word.

(** The constants are the first 32 bits of the fractional parts of the roots
    of the first primes (FIPS 180-4, 4.2.2 and 5.3.3). *)
Definition is_prime (n : N) : bool :=
  (2 <=? n) && forallb (λ d, negb (n mod N.of_nat d =? 0)) (seq 2 (N.to_nat n - 2)).
Definition primes_below (n : nat) : list N := List.filter is_prime (map N.of_nat (seq 0 n)).

(** The integer cube root, one bit at a time from bit [b - 1]. *)
Fixpoint cube_root (b : nat) (n r : N) : N :=
  match b with
  | O => r
  | S b' =>
      let r' := r + N.shiftl 1 (N.of_nat b') in
      cube_root b' n (if r' * r' * r' <=? n then r' else r)
  end.

Definition round_constants : list N :=
  Eval vm_compute in map (λ p, Word.w32 (cube_root 36 (N.shiftl p 96) 0)) (primes_below 312).

Record state8 := S8 { sa : N; sb : N; sc : N; sd : N; se : N; sf : N; sg : N; sh : N }.

Definition initial_state : state8 := Eval vm_compute in
  match map (λ p, Word.w32 (N.sqrt (N.shiftl p 64))) (primes_below 20) with
  | [a; b; c; d; e; f; g; h] => S8 a b c d e f g h
  | _ => S8 0 0 0 0 0 0 0 0
  end.

(** Next word of the message schedule from the last sixteen, oldest first. *)
Definition next_word (win : list N) : N :=
  Word.add (Word.add (Word.ssig 17 19 10 (nth 14 win 0)) (nth 9 win 0))
           (Word.add (Word.ssig 7 18 3 (nth 1 win 0)) (nth 0 win 0)).

Definition sha_round (s : state8) (k w : N) : state8 :=
  let t1 := Word.add (Word.add (sh s) (Word.bsig 6 11 25 (se s)))
                     (Word.add (Word.ch (se s) (sf s) (sg s)) (Word.add k w)) in
  let t2 := Word.add (Word.bsig 2 13 22 (sa s)) (Word.maj (sa s) (sb s) (sc s)) in
  S8 (Word.add t1 t2) (sa s) (sb s) (sc s) (Word.add (sd s) t1) (se s) (sf s) (sg s).

Fixpoint sha_rounds (ks win : list N) (s : state8) : state8 :=
  match ks with
  | [] => s
  | k :: ks' =>
      sha_rounds ks' ((tl win ++ [next_word win])%list) (sha_round s k (hd 0 win))
  end.

Definition compress (s : state8) (block : list N) : state8 :=
  let r := sha_rounds round_constants block s in
  S8 (Word.add (sa s) (sa r)) (Word.add (sb s) (sb r))
     (Word.add (sc s) (sc r)) (Word.add (sd s) (sd r))
     (Word.add (se s) (se r)) (Word.add (sf s) (sf r))
     (Word.add (sg s) (sg r)) (Word.add (sh s) (sh r)).

(** Big-endian bytes of a word and words of a byte sequence. *)
Definition be_bytes (n : nat) (x : N) : list N :=
  map (λ i, N.land (N.shiftr x (8 * N.of_nat i)) 255) (rev (seq 0 n)).

Fixpoint be_words (l : list N) : list N :=
  match l with
  | a :: b :: c :: d :: r =>
      N.lor (N.shiftl a 24) (N.lor (N.shiftl b 16) (N.lor (N.shiftl c 8) d)) :: be_words r
  | _ => []
  end.

(** One block per step; [fuel] is the number of words, at least the blocks. *)
Fixpoint sha_blocks (fuel : nat) (ws : list N) (s : state8) : state8 :=
  match fuel, ws with
  | S fuel', _ :: _ => sha_blocks fuel' (drop 16 ws) (compress s (take 16 ws))
  | _, _ => s
  end.

Definition sha_pad (m : list N) : list N :=
  let l := length m in
  (m ++ [128] ++ repeat 0 (Nat.modulo (119 - Nat.modulo l 64) 64) ++
   be_bytes 8 (8 * N.of_nat l))%list.

Definition bytes_of (s : string) : list N :=
  map N_of_ascii (String.list_ascii_of_string s).
Definition of_bytes (l : list N) : string :=
  String.string_of_list_ascii (map ascii_of_N l).

(** [sha256.Sum256]. *)
Definition Sum256 (s : string) : string :=
  let ws := be_words (sha_pad (bytes_of s)) in
  let r := sha_blocks (length ws) ws initial_state in
  of_bytes (flat_map (be_bytes 4)
    [sa r; sb r; sc r; sd r; se r; sf r; sg r; sh r]).

Example Sum256_empty :
  hex_encode (Sum256 "") =
  "e3b0c44298fc1c149afbf4c8996fb92427ae41e4649b934ca495991b7852b855".
Proof. vm_compute. reflexivity. Qed.

Example Sum256_abc :
  hex_encode (Sum256 "abc") =
  "ba7816bf8f01cfea414140de5dae2223b00361a396177a9cb410ff61f20015ad".
Proof. vm_compute. reflexivity. Qed.

Example Sum256_two_blocks :
  hex_encode (Sum256 "abcdbcdecdefdefgefghfghighijhijkijkljklmklmnlmnomnopnopq") =
  "248d6a61d20638b8e5c026930c3e6039a33ce45964ff2167f6ecedd419db06c1".
Proof. vm_compute. reflexivity. Qed.

Lemma length_of_bytes l : String.length (of_bytes l) = length l.
Proof. induction l; simpl; [done|]. by f_equal. Qed.

(** A digest has 32 bytes. *)
Lemma length_Sum256 s : String.length (Sum256 s) = 32%nat.
Proof. unfold Sum256. rewrite length_of_bytes. reflexivity. Qed.

#[global] Opaque Sum256.
#[export] Hint Resolve length_Sum256 : relay.

(** [hmac.New(sha256.New, key)], the written message and [Sum(nil)]. *)
Definition hmac_block (key : string) : list N :=
  let k := bytes_of (if (64 <? N.of_nat (String.length key)) then Sum256 key else key) in
  (k ++ repeat 0 (64 - length k)%nat)%list.

Definition hmac_sha256 (key message : string) : string :=
  let k := hmac_block key in
  let inner := Sum256 (of_bytes (map (N.lxor 0x36) k) +:+ message) in
  Sum256 (of_bytes (map (N.lxor 0x5c) k) +:+ inner).

Example hmac_rfc4231_2 :
  hex_encode (hmac_sha256 "Jefe" "what do ya want for nothing?") =
  "5bdcc146bf60754e6a042426089575c75a003f089d2739839dec58b964ec3843".
Proof. vm_compute. reflexivity. Qed.
