(* ===== verification/Runtime.v ===== *)
(** * Runtime: database handles, failures and process crashes

    The stateful code runs SQL statements through a database handle whose
    calls can fail, reads the clock, and passes the hook points of
    internal/failure at which a crash test ends the process.  [M D A] is the
    monad of such code over a database of type [D]:

    - the environment decides, call by call, the clock readings, which calls
      fail and with what text, whether a commit that reports an error had
      nevertheless taken effect, and how many row ids an AUTOINCREMENT key
      skips; a property that holds for every environment holds for every
      behaviour of the database engine and of the operating system;
    - the world keeps the durable database [disk] apart from the working copy
      of an open transaction [txn];
    - an outcome is a value, an error, or the end of the process, after which
      only [disk] survives. *)

From S2P Require Import Prelude Timestamp.

Inductive outcome (A : Type) : Type :=
  | Ok (a : A)
  | Fail (e : error)
  | Crash.
Arguments Ok {A} _.
Arguments Fail {A} _.
Arguments Crash {A}.

Record Env := MkEnv {
  env_clock : nat → time;
  env_fault : nat → option string;
  env_applied : nat → bool;
  env_rowid_skip : nat → nat;
}.

(** A quiet environment: no failures, a clock that stands at [t]. *)
Definition quiet_env (t : time) : Env :=
  MkEnv (λ _, t) (λ _, None) (λ _, false) (λ _, 0%nat).

Record World (D : Type) := MkWorld { disk : D; txn : option D; tick : nat }.
Arguments MkWorld {D} _ _ _.
Arguments disk {D} _.
Arguments txn {D} _.
Arguments tick {D} _.

(** What a new process finds: the open transaction is rolled back. *)
Definition recover {D} (w : World D) : World D := MkWorld (disk w) None (tick w).

Definition M (D A : Type) : Type := Env → World D → outcome A * World D.

#[global] Instance M_ret D : MRet (M D) := λ A a env w, (Ok a, w).
#[global] Instance M_bind D : MBind (M D) := λ A B k m env w,
  match m env w with
  | (Ok a, w') => k a env w'
  | (Fail e, w') => (Fail e, w')
  | (Crash, w') => (Crash, w')
  end.

Definition fail {D A} (e : error) : M D A := λ env w, (Fail e, w).

(** [if cond { return err }]. *)
Definition reject {D} (b : bool) (e : error) : M D unit :=
  if b then fail e else mret tt.

(** [time.Now()]. *)
Definition now {D} : M D time := λ env w,
  (Ok (env_clock env (tick w)), MkWorld (disk w) (txn w) (S (tick w))).

(** ** Statements

    A statement maps a database to an error text (a violated constraint, a
    RAISE in a trigger) or to the new database and its result.  The first
    argument is the number of row ids the engine skips if it assigns one. *)
Definition stmt (D A : Type) : Type := nat → D → string + (D * A).

Definition query {D A} (f : D → A) : stmt D A := λ _ db, inr (db, f db).

Definition current {D} (w : World D) : D :=
  match txn w with Some db => db | None => disk w end.

Definition store_current {D} (db : D) (w : World D) : World D :=
  match txn w with
  | Some _ => MkWorld (disk w) (Some db) (S (tick w))
  | None => MkWorld db None (S (tick w))
  end.

Definition advance {D} (w : World D) : World D :=
  MkWorld (disk w) (txn w) (S (tick w)).

(** [tx.ExecContext], [tx.QueryRowContext], and the same on the handle, where
    the statement is its own transaction.  A call that reports a failure
    changed nothing inside a transaction; outside one, its commit may have
    taken effect. *)
Definition exec {D A} (s : stmt D A) : M D (string + A) := λ env w,
  match env_fault env (tick w) with
  | Some m =>
      (Ok (inl m),
       match txn w with
       | Some _ => advance w
       | None =>
           if env_applied env (tick w)
           then match s (env_rowid_skip env (tick w)) (disk w) with
                | inr (db', _) => store_current db' w
                | inl _ => advance w
                end
           else advance w
       end)
  | None =>
      match s (env_rowid_skip env (tick w)) (current w) with
      | inl m => (Ok (inl m), advance w)
      | inr (db', a) => (Ok (inr a), store_current db' w)
      end
  end.

(** [if _, err := ...; err != nil { return fmt.Errorf("...: %v", err) }]. *)
Definition run {D A} (e : error) (s : stmt D A) : M D A :=
  r ← exec s;
  match r with
  | inl _ => fail e
  | inr a => mret a
  end.

(** A call to the driver that can fail and touches no data
    ([result.RowsAffected()], [result.LastInsertId()], ...). *)
Definition driver_call {D} (e : error) : M D unit := run e (query (λ _, tt)).

(** [db.BeginTx]. *)
Definition begin_tx {D} (e : error) : M D unit := λ env w,
  match env_fault env (tick w) with
  | Some _ => (Fail e, advance w)
  | None => (Ok tt, MkWorld (disk w) (Some (disk w)) (S (tick w)))
  end.

(** [tx.Commit]. *)
Definition commit_tx {D} (e : error) : M D unit := λ env w,
  match env_fault env (tick w) with
  | Some _ =>
      (Fail e,
       MkWorld (if env_applied env (tick w) then current w else disk w)
         None (S (tick w)))
  | None => (Ok tt, MkWorld (current w) None (S (tick w)))
  end.

(** [defer func() { if err != nil { _ = tx.Rollback() } }()]: an error drops
    the working copy, whatever the rollback itself reports. *)
Definition rollback_on_error {D A} (m : M D A) : M D A := λ env w,
  match m env w with
  | (Fail e, w') => (Fail e, MkWorld (disk w') None (tick w'))
  | r => r
  end.

(** [for index, x := range l]. *)
Fixpoint for_range {D A S} (l : list A) (i : Z) (s : S)
    (body : Z → A → S → M D S) : M D S :=
  match l with
  | [] => mret s
  | x :: l' => s' ← body i x s; for_range l' (i + 1) s' body
  end.

(** ** Hooks (internal/failure)

    A hook is [nil] in production.  A crash test installs a function; its
    result says whether it ends the process. *)
Record Hooks := MkHooks {
  BeforeSpoolTransaction : option bool;
  AfterSpoolEvent : option (Z → bool);
  AfterSpoolCommit : option bool;
  AfterAcknowledgment : option bool;
  BeforeSinkRequest : option bool;
  AfterSinkSuccess : option bool;
  AfterPrunePayload : option (Z → bool);
  AfterPruneCommit : option bool;
}.

(** [failure.Hooks{}]. *)
Definition no_hooks : Hooks := MkHooks None None None None None None None None.

Definition exit_if {D} (b : bool) : M D unit := λ env w,
  if b then (Crash, w) else (Ok tt, w).

Definition call_hook {D} (h : option bool) : M D unit :=
  match h with Some b => exit_if b | None => mret tt end.

Definition call_hook_index {D} (h : option (Z → bool)) (index : Z) : M D unit :=
  match h with Some f => exit_if (f index) | None => mret tt end.

Definition CallAfterPrunePayload {D} (h : Hooks) (index : Z) : M D unit :=
  call_hook_index (AfterPrunePayload h) index.
Definition CallAfterPruneCommit {D} (h : Hooks) : M D unit :=
  call_hook (AfterPruneCommit h).
Definition CallBeforeSpoolTransaction {D} (h : Hooks) : M D unit :=
  call_hook (BeforeSpoolTransaction h).
Definition CallAfterSpoolEvent {D} (h : Hooks) (index : Z) : M D unit :=
  call_hook_index (AfterSpoolEvent h) index.
Definition CallAfterSpoolCommit {D} (h : Hooks) : M D unit :=
  call_hook (AfterSpoolCommit h).
Definition CallAfterAcknowledgment {D} (h : Hooks) : M D unit :=
  call_hook (AfterAcknowledgment h).
Definition CallBeforeSinkRequest {D} (h : Hooks) : M D unit :=
  call_hook (BeforeSinkRequest h).
Definition CallAfterSinkSuccess {D} (h : Hooks) : M D unit :=
  call_hook (AfterSinkSuccess h).

(** ** Weakest preconditions *)

(** Some call of the environment fails. *)
Definition faulty (env : Env) : Prop := ∃ k, env_fault env k ≠ None.

Lemma quiet_not_faulty t : ¬ faulty (quiet_env t).
Proof. intros [k Hk]. by apply Hk. Qed.

Section Wp.
Context {D : Type}.

Definition wp {A} (m : M D A) (env : Env) (w : World D)
    (Q : outcome A → World D → Prop) : Prop :=
  Q (m env w).1 (m env w).2.

Lemma wp_elim {A} (m : M D A) env w (Q : outcome A → World D → Prop) :
  wp m env w Q → Q (m env w).1 (m env w).2.
Proof. done. Qed.

Lemma wp_intro {A} (m : M D A) env w (Q : outcome A → World D → Prop) :
  Q (m env w).1 (m env w).2 → wp m env w Q.
Proof. done. Qed.

Lemma wp_mono {A} (m : M D A) env w (Q Q' : outcome A → World D → Prop) :
  wp m env w Q → (∀ o w', Q o w' → Q' o w') → wp m env w Q'.
Proof. unfold wp. auto. Qed.

Lemma wp_ret {A} (a : A) env w (Q : outcome A → World D → Prop) :
  Q (Ok a) w → wp (mret a) env w Q.
Proof. done. Qed.

Lemma wp_bind {A B} (m : M D A) (k : A → M D B) env w Q :
  wp m env w (λ o w', match o with
    | Ok a => wp (k a) env w' Q
    | Fail e => Q (Fail e) w'
    | Crash => Q Crash w'
    end) →
  wp (x ← m; k x) env w Q.
Proof.
  unfold wp, mbind, M_bind. destruct (m env w) as [[a|e|] w']; done.
Qed.

Lemma wp_fail {A} e env w (Q : outcome A → World D → Prop) :
  Q (Fail e) w → wp (fail e) env w Q.
Proof. done. Qed.

Lemma wp_reject b e env w Q :
  (b = true → Q (Fail e) w) → (b = false → Q (Ok tt) w) →
  wp (reject (D := D) b e) env w Q.
Proof. unfold wp. destruct b; simpl; auto. Qed.

Lemma wp_now env w Q :
  Q (Ok (env_clock env (tick w))) (advance w) → wp (now (D := D)) env w Q.
Proof. done. Qed.

Lemma wp_exec_txn {A} (s : stmt D A) env w db Q :
  txn w = Some db →
  (∀ n m k, faulty env ∨ s n db = inl m → Q (Ok (inl m)) (MkWorld (disk w) (Some db) k)) →
  (∀ n db' a k, s n db = inr (db', a) → Q (Ok (inr a)) (MkWorld (disk w) (Some db') k)) →
  wp (exec s) env w Q.
Proof.
  intros Ht Hf Hok. unfold wp, exec.
  destruct (env_fault env (tick w)) eqn:Ef; simpl.
  - rewrite Ht. unfold advance. rewrite Ht. apply (Hf 0%nat). left.
    exists (tick w). by rewrite Ef.
  - unfold current. rewrite Ht.
    destruct (s _ db) as [m|[db' a]] eqn:E; simpl.
    + unfold advance. rewrite Ht. eapply Hf. eauto.
    + unfold store_current. rewrite Ht. eapply Hok. exact E.
Qed.

(** A statement inside a transaction: it fails and changes nothing, or it
    works on the working copy. *)
Lemma wp_run_txn {A} e (s : stmt D A) env w db Q :
  txn w = Some db →
  (∀ n k, faulty env ∨ (∃ m, s n db = inl m) → Q (Fail e) (MkWorld (disk w) (Some db) k)) →
  (∀ n db' a k, s n db = inr (db', a) → Q (Ok a) (MkWorld (disk w) (Some db') k)) →
  wp (run e s) env w Q.
Proof.
  intros Ht Hf Hok. unfold run. apply wp_bind. eapply wp_exec_txn; [done| |].
  - intros n m k H. apply (Hf n). destruct H; eauto.
  - intros n db' a k H. eapply Hok. exact H.
Qed.

(** A statement that is its own transaction. *)
Lemma wp_exec_auto {A} (s : stmt D A) env w Q :
  txn w = None →
  (∀ n m k, faulty env ∨ s n (disk w) = inl m → Q (Ok (inl m)) (MkWorld (disk w) None k)) →
  (∀ n m db' a k, faulty env → s n (disk w) = inr (db', a) →
     Q (Ok (inl m)) (MkWorld db' None k)) →
  (∀ n db' a k, s n (disk w) = inr (db', a) → Q (Ok (inr a)) (MkWorld db' None k)) →
  wp (exec s) env w Q.
Proof.
  intros Ht Hf Ha Hok. unfold wp, exec.
  destruct (env_fault env (tick w)) eqn:Ef; simpl.
  - assert (faulty env) by (exists (tick w); by rewrite Ef).
    rewrite Ht. destruct (env_applied env (tick w)).
    + destruct (s _ (disk w)) as [m|[db' a]] eqn:E; simpl.
      * unfold advance. rewrite Ht. apply (Hf 0%nat). auto.
      * unfold store_current. rewrite Ht. eapply Ha; [done | exact E].
    + unfold advance. rewrite Ht. apply (Hf 0%nat). auto.
  - unfold current. rewrite Ht.
    destruct (s _ (disk w)) as [m|[db' a]] eqn:E; simpl.
    + unfold advance. rewrite Ht. eapply Hf. eauto.
    + unfold store_current. rewrite Ht. eapply Hok. exact E.
Qed.

Lemma wp_run_auto {A} e (s : stmt D A) env w Q :
  txn w = None →
  (∀ n k, faulty env ∨ (∃ m, s n (disk w) = inl m) → Q (Fail e) (MkWorld (disk w) None k)) →
  (∀ n db' a k, faulty env → s n (disk w) = inr (db', a) → Q (Fail e) (MkWorld db' None k)) →
  (∀ n db' a k, s n (disk w) = inr (db', a) → Q (Ok a) (MkWorld db' None k)) →
  wp (run e s) env w Q.
Proof.
  intros Ht Hf Ha Hok. unfold run. apply wp_bind. eapply wp_exec_auto; [done| | |].
  - intros n m k H. apply (Hf n). destruct H; eauto.
  - intros n m db' a k Hfl H. by eapply Ha.
  - intros n db' a k H. by eapply Hok.
Qed.

(** A read outside a transaction fails or returns the query's result. *)
Lemma wp_query_auto {A} e (f : D → A) env w Q :
  txn w = None →
  (∀ k, faulty env → Q (Fail e) (MkWorld (disk w) None k)) →
  (∀ k, Q (Ok (f (disk w))) (MkWorld (disk w) None k)) →
  wp (run e (query f)) env w Q.
Proof.
  intros Ht Hf Hok. eapply wp_run_auto; [done| | |].
  - intros n k [H|(m & H)]; [auto | done].
  - intros n db' a k H [= <- _]. auto.
  - intros n db' a k [= <- <-]. auto.
Qed.

Lemma wp_driver_call e env w db Q :
  txn w = Some db →
  (∀ k, faulty env → Q (Fail e) (MkWorld (disk w) (Some db) k)) →
  (∀ k, Q (Ok tt) (MkWorld (disk w) (Some db) k)) →
  wp (driver_call (D := D) e) env w Q.
Proof.
  intros Ht Hf Hok. eapply wp_run_txn; [done| |].
  - intros n k [H|(m & H)]; [auto | done].
  - intros n db' [] k [= <-]. auto.
Qed.

Lemma wp_begin e env w Q :
  (∀ k, faulty env → Q (Fail e) (MkWorld (disk w) (txn w) k)) →
  (∀ k, Q (Ok tt) (MkWorld (disk w) (Some (disk w)) k)) →
  wp (begin_tx (D := D) e) env w Q.
Proof.
  intros Hf Hok. unfold wp, begin_tx.
  destruct (env_fault env (tick w)) eqn:Ef; simpl; [|apply Hok].
  apply Hf. exists (tick w). by rewrite Ef.
Qed.

(** A commit succeeds, fails with the old state, or fails with the new one. *)
Lemma wp_commit e env w db Q :
  txn w = Some db →
  (∀ k, faulty env → Q (Fail e) (MkWorld (disk w) None k)) →
  (∀ k, faulty env → Q (Fail e) (MkWorld db None k)) →
  (∀ k, Q (Ok tt) (MkWorld db None k)) →
  wp (commit_tx (D := D) e) env w Q.
Proof.
  intros Ht Hold Hnew Hok. unfold wp, commit_tx, current. rewrite Ht.
  destruct (env_fault env (tick w)) eqn:Ef; simpl; [|apply Hok].
  assert (faulty env) by (exists (tick w); by rewrite Ef).
  destruct (env_applied env (tick w)); [by apply Hnew | by apply Hold].
Qed.

Lemma wp_rollback {A} (m : M D A) env w Q :
  wp m env w (λ o w', match o with
    | Fail e => Q (Fail e) (MkWorld (disk w') None (tick w'))
    | o => Q o w'
    end) →
  wp (rollback_on_error m) env w Q.
Proof.
  unfold wp, rollback_on_error. destruct (m env w) as [[a|e|] w']; done.
Qed.

Lemma wp_call_hook h env w Q :
  (h ≠ None → Q Crash w) → Q (Ok tt) w → wp (call_hook (D := D) h) env w Q.
Proof. unfold wp. destruct h as [[]|]; simpl; auto. Qed.

Lemma wp_call_hook_index h i env w Q :
  (h ≠ None → Q Crash w) → Q (Ok tt) w → wp (call_hook_index (D := D) h i) env w Q.
Proof.
  unfold wp. destruct h as [f|]; simpl; [|auto].
  unfold exit_if. destruct (f i); simpl; auto.
Qed.

(** Loop rule: an invariant over the prefix already processed. *)
Lemma wp_for_range {A S} (I : list A → S → World D → Prop) (l : list A)
    (body : Z → A → S → M D S) env Q :
  (∀ done x rest s w,
     l = done ++ x :: rest → I done s w →
     wp (body (Z.of_nat (length done)) x s) env w (λ o w', match o with
       | Ok s' => I (done ++ [x]) s' w'
       | Fail e => Q (Fail e) w'
       | Crash => Q Crash w'
       end)) →
  (∀ s w, I l s w → Q (Ok s) w) →
  ∀ s w, I [] s w → wp (for_range l 0 s body) env w Q.
Proof.
  intros Hbody Hend.
  assert (∀ rest done s w, l = done ++ rest → I done s w →
    wp (for_range rest (Z.of_nat (length done)) s body) env w Q) as H.
  { induction rest as [|x rest IH]; intros done s w Hl HI.
    - rewrite app_nil_r in Hl. subst. apply wp_ret. auto.
    - simpl. apply wp_bind. eapply wp_mono; [apply (Hbody done x rest s w Hl HI)|].
      intros [s'|e|] w' Hw; [|done|done].
      replace (Z.of_nat (length done) + 1) with (Z.of_nat (length (done ++ [x])))
        by (rewrite length_app; simpl; lia).
      apply IH; [by rewrite <- app_assoc | done]. }
  intros s w HI. by apply (H l []).
Qed.

Lemma wp_for_range_map {A B S} (f : A → B) l i (s : S) (body : Z → B → S → M D S) env w Q :
  wp (for_range l i s (λ j x, body j (f x))) env w Q → wp (for_range (map f l) i s body) env w Q.
Proof.
  revert i s w. induction l as [|x l IH]; intros i s w H; simpl in *; [done|].
  unfold wp, mbind, M_bind in *. destruct (body i (f x) s env w) as [[]]; [by apply IH | done | done].
Qed.

End Wp.

#[global] Opaque wp.

Create HintDb hooks.
#[export] Hint Unfold CallAfterPrunePayload CallAfterPruneCommit
  CallBeforeSpoolTransaction CallAfterSpoolEvent CallAfterSpoolCommit
  CallAfterAcknowledgment CallBeforeSinkRequest CallAfterSinkSuccess : hooks.

(** One step of a weakest-precondition goal. *)
Ltac wp_step :=
  match goal with
  | |- wp (mbind _ _) _ _ _ => apply wp_bind
  | |- wp (mret _) _ _ _ => apply wp_ret
  | |- wp (fail _) _ _ _ => apply wp_fail
  | |- wp (reject _ _) _ _ _ => apply wp_reject; intros ?
  | |- wp now _ _ _ => apply wp_now
  | |- wp (begin_tx _) _ _ _ => apply wp_begin; intros ?
  | |- wp (call_hook _) _ _ _ => apply wp_call_hook
  | |- wp (call_hook_index _ _) _ _ _ => apply wp_call_hook_index
  | |- wp (rollback_on_error _) _ _ _ => apply wp_rollback
  | |- wp _ _ _ _ =>
      progress autounfold with hooks;
      first [apply wp_call_hook | apply wp_call_hook_index]
  end.
