(* ===== verification/Keeps.v ===== *)
(** * Keeps: preservation of an invariant, statement by statement

    A compositional logic for code over a database: an invariant of the
    tables that every statement respects is kept by the whole operation,
    however it ends.  The clock's readings may be known to satisfy [C]. *)

From S2P Require Import Prelude Timestamp Runtime.

(** ** A preservation logic *)

Section Keeps.
Context {D : Type} (P : D → Prop) (C : time → Prop).

(** The file and the working copy satisfy [P]. *)
Definition both (w : World D) : Prop := P (disk w) ∧ ∀ db, txn w = Some db → P db.

(** What is known of the clock's readings. *)
Definition clock_ok (env : Env) : Prop := ∀ k, C (env_clock env k).

Class Keeps {A} (m : M D A) : Prop :=
  keeps : ∀ env w, clock_ok env → both w → both (m env w).2.

Class Respects {A} (s : stmt D A) : Prop :=
  respects : ∀ n db db' a, s n db = inr (db', a) → P db → P db'.

Lemma both_advance w : both w → both (advance w).
Proof. done. Qed.

Lemma both_current w : both w → P (current w).
Proof. intros [H1 H2]. unfold current. destruct (txn w); auto. Qed.

Lemma both_store db w : both w → P db → both (store_current db w).
Proof. intros [H1 H2] Hdb. unfold store_current. destruct (txn w); split; simpl; [done|congruence|done|done]. Qed.

#[global] Instance keeps_ret {A} (a : A) : Keeps (mret a).
Proof. by intros env w _ H. Qed.

#[global] Instance keeps_fail {A} e : Keeps (fail (A := A) e).
Proof. by intros env w _ H. Qed.

#[global] Instance keeps_reject b e : Keeps (reject b e).
Proof. unfold reject. destruct b; apply _. Qed.

#[global] Instance keeps_bind {A B} (m : M D A) (k : A → M D B) :
  Keeps m → (∀ a, Keeps (k a)) → Keeps (x ← m; k x).
Proof.
  intros Hm Hk env w Hc Hw. unfold mbind, M_bind. pose proof (Hm env w Hc Hw) as H.
  destruct (m env w) as [[a|e|] w']; [by apply Hk | done | done].
Qed.

(** What follows a clock reading may rely on it. *)
Lemma keeps_now {B} (k : time → M D B) :
  (∀ t, C t → Keeps (k t)) → Keeps (x ← now; k x).
Proof. intros Hk env w Hc Hw. by apply (Hk _ (Hc (tick w))). Qed.

#[global] Instance keeps_exec {A} (s : stmt D A) : Respects s → Keeps (exec s).
Proof.
  intros Hs env w _ Hw. unfold exec. destruct (env_fault env (tick w)); simpl.
  - destruct (txn w) eqn:Et; [by apply both_advance|].
    destruct (env_applied env (tick w)); [|by apply both_advance].
    destruct (s _ (disk w)) as [|[db' a]] eqn:E; [by apply both_advance|].
    apply both_store; [done|]. eapply Hs; [exact E | apply (proj1 Hw)].
  - destruct (s _ (current w)) as [|[db' a]] eqn:E; [by apply both_advance|].
    apply both_store; [done|]. eapply Hs; [exact E | by apply both_current].
Qed.

#[global] Instance respects_query {A} (f : D → A) : Respects (query f).
Proof. by intros n db db' a [= <- _]. Qed.

#[global] Instance keeps_run {A} e (s : stmt D A) : Respects s → Keeps (run e s).
Proof. intros Hs. unfold run. apply keeps_bind; [apply _|]. intros [m|a]; apply _. Qed.

#[global] Instance keeps_driver_call e : Keeps (driver_call e).
Proof. unfold driver_call. apply _. Qed.

#[global] Instance keeps_begin e : Keeps (begin_tx e).
Proof.
  intros env w _ [H1 H2]. unfold begin_tx. destruct (env_fault env (tick w)); split; simpl; try done.
  by intros db [= <-].
Qed.

#[global] Instance keeps_commit e : Keeps (commit_tx e).
Proof.
  intros env w _ Hw. pose proof (both_current w Hw). destruct Hw.
  unfold commit_tx. destruct (env_fault env (tick w)); split; simpl; try done.
  by destruct (env_applied env (tick w)).
Qed.

#[global] Instance keeps_rollback {A} (m : M D A) : Keeps m → Keeps (rollback_on_error m).
Proof.
  intros Hm env w Hc Hw. pose proof (Hm env w Hc Hw) as H. unfold rollback_on_error.
  destruct (m env w) as [[a|e|] w']; [done | | done]. split; [apply (proj1 H) | done].
Qed.

#[global] Instance keeps_hook h : Keeps (call_hook h).
Proof. intros env w _ Hw. by destruct h as [[]|]. Qed.

#[global] Instance keeps_hook_index h i : Keeps (call_hook_index h i).
Proof. intros env w _ Hw. destruct h as [f|]; simpl; [|done]. unfold exit_if. by destruct (f i). Qed.

Lemma keeps_for_range {A S} (l : list A) i (s : S) body :
  (∀ j x s', x ∈ l → Keeps (body j x s')) → Keeps (for_range l i s body).
Proof.
  revert i s. induction l as [|x l IH]; intros i s Hb; simpl; [apply _|].
  apply keeps_bind; [apply Hb; left|]. intros s'. apply IH. intros j y s2 Hy. apply Hb. by right.
Qed.

End Keeps.

(** Statements and calls of an operation, by their structure. *)
Ltac keeps_step :=
  lazymatch goal with
  | |- Keeps _ _ (now ≫= _) => apply keeps_now; intros ? ?
  | |- Keeps _ _ (_ ≫= _) => apply keeps_bind; [| intros ?]
  | |- Keeps _ _ (for_range _ _ _ _) => apply keeps_for_range; intros ? ? ? ?
  | |- Keeps _ _ (rollback_on_error _) => apply keeps_rollback
  | |- Keeps _ _ (let '(_, _) := ?x in _) => destruct x
  | |- Keeps _ _ (match ?x with _ => _ end) => destruct x eqn:?
  | |- Keeps _ _ (run _ _) => apply keeps_run
  | |- Keeps _ _ (exec _) => apply keeps_exec
  | |- Keeps _ _ _ => apply _
  | |- Respects _ (query _) => apply _
  end.
Ltac keeps_tac := repeat keeps_step.
