(* ===== verification/Spool.v ===== *)
(** * Spool: the capture types of internal/spool/spool.go

    An LSN is pglogrepl's [uint64].  Its text form is produced and read by
    that package, so it is an interface here: [LSN_String] and [ParseLSN]
    with the round trip the checkpoint relies on.  [hex_lsn_codec] is the
    [XXXXXXXX/XXXXXXXX] format and shows that the interface can be met. *)

From Stdlib Require Import Ascii.
From S2P Require Import Prelude Text Timestamp.

Definition LSN : Type := Z.

Class LsnCodec := {
  LSN_String : LSN → string;
  ParseLSN : string → option LSN;
  ParseLSN_String : ∀ l, in_uint64 l → ParseLSN (LSN_String l) = Some l;
}.

(** [spool.CapturedEvent]. *)
Record CapturedEvent := MkCaptured {
  ce_Source : string;
  ce_ID : string;
  ce_Type : string;
  ce_Subject : string;
  ce_Payload : string;
  ce_PayloadSHA256 : string;
  ce_TransactionID : Z;
  ce_MessageLSN : LSN;
  ce_CommitLSN : LSN;
  ce_CommitEndLSN : LSN;
  ce_CommitTime : time;
  ce_MessageIndex : Z;
}.

(** [spool.CommittedBatch]. *)
Record CommittedBatch := MkBatch {
  cb_TransactionID : Z;
  cb_CommitLSN : LSN;
  cb_CommitEndLSN : LSN;
  cb_CommitTime : time;
  cb_Events : list CapturedEvent;
}.

(** [spool.PersistResult]. *)
Record PersistResult := MkResult {
  pr_Inserted : Z;
  pr_Replayed : Z;
  pr_DurableLSN : LSN;
}.

(** The identity of an event: [(source, id)]. *)
Definition ce_key (e : CapturedEvent) : string * string := (ce_Source e, ce_ID e).

(** ** A codec: two zero-padded upper-case hexadecimal words *)

Module HexLsn.

Definition hexd (n : Z) : ascii :=
  ascii_of_N (Z.to_N (if n <? 10 then 48 + n else 55 + n)).

Definition hexv (c : ascii) : option Z :=
  let n := Z.of_N (N_of_ascii c) in
  if (48 <=? n) && (n <? 58) then Some (n - 48)
  else if (65 <=? n) && (n <? 71) then Some (n - 55)
  else None.

(** The low [w] hexadecimal digits of [n], least significant last. *)
Fixpoint hex (w : nat) (n : Z) (acc : string) : string :=
  match w with
  | O => acc
  | S w' => hex w' (n / 16) (String (hexd (n mod 16)) acc)
  end.

Fixpoint unhex (s : string) (acc : Z) : option Z :=
  match s with
  | "" => Some acc
  | String c s' => match hexv c with Some v => unhex s' (16 * acc + v) | None => None end
  end.

Definition to_string (l : LSN) : string :=
  hex 8 (l / 2 ^ 32) ("/" +:+ hex 8 (l mod 2 ^ 32) "").

Definition parse (s : string) : option LSN :=
  if (String.length s =? 17)%nat && (String.substring 8 1 s =? "/")%string then
    match unhex (String.substring 0 8 s) 0, unhex (String.substring 9 8 s) 0 with
    | Some hi, Some lo => Some (hi * 2 ^ 32 + lo)
    | _, _ => None
    end
  else None.

Lemma hexv_hexd n : 0 <= n < 16 → hexv (hexd n) = Some n.
Proof.
  intros H. unfold hexv, hexd.
  destruct (n <? 10) eqn:E; breflect; rewrite N_ascii_embedding by lia;
    repeat (case_match; breflect); first [f_equal; lia | exfalso; lia | idtac];
    repeat match goal with H : (_ && _) = false |- _ => apply andb_false_iff in H end;
    repeat match goal with H : _ ∨ _ |- _ => destruct H end; breflect; lia.
Qed.

Lemma unhex_hex w n acc z :
  0 <= n < 16 ^ Z.of_nat w →
  unhex (hex w n acc) z = unhex acc (z * 16 ^ Z.of_nat w + n).
Proof.
  revert n acc z. induction w as [|w IH]; intros n acc z Hn; cbn [hex].
  - f_equal. simpl in *. lia.
  - assert (16 ^ Z.of_nat (S w) = 16 * 16 ^ Z.of_nat w) as Hp
      by (rewrite Nat2Z.inj_succ, Z.pow_succ_r; lia).
    rewrite Hp in Hn. rewrite IH by dlia.
    cbn [unhex]. rewrite hexv_hexd by dlia. f_equal. rewrite Hp. dlia.
Qed.

Lemma hex_app w n acc : hex w n acc = hex w n "" +:+ acc.
Proof.
  revert n acc. induction w as [|w IH]; intros n acc; cbn [hex]; [done|].
  rewrite IH, (IH _ (String _ "")), <- append_assoc_string. done.
Qed.

Lemma length_hex w n acc : String.length (hex w n acc) = (w + String.length acc)%nat.
Proof.
  revert n acc. induction w as [|w IH]; intros n acc; cbn [hex]; [done|].
  rewrite IH. simpl. lia.
Qed.

(** Cutting a string at the end of a prefix of known length. *)
Lemma substring_prefix s t : String.substring 0 (String.length s) (s +:+ t) = s.
Proof.
  induction s as [|c s IH]; [by destruct t|]. rewrite append_cons. simpl. by rewrite IH.
Qed.

Lemma substring_skip s t n m :
  n = String.length s → String.substring n m (s +:+ t) = String.substring 0 m t.
Proof.
  intros ->. induction s as [|c s IH]; [done|]. rewrite append_cons. simpl. by rewrite IH.
Qed.

Lemma parse_to_string l : in_uint64 l → parse (to_string l) = Some l.
Proof.
  intros H. unfold in_uint64 in H. unfold parse, to_string.
  rewrite hex_app. set (hi := hex 8 (l / 2 ^ 32) "").
  set (lo := hex 8 (l mod 2 ^ 32) "").
  assert (String.length hi = 8%nat) as Hhi by (unfold hi; by rewrite length_hex).
  assert (String.length lo = 8%nat) as Hlo by (unfold lo; by rewrite length_hex).
  assert (String.substring 0 8 (hi +:+ "/" +:+ lo) = hi) as ->
    by (rewrite <- Hhi at 1; apply substring_prefix).
  rewrite (substring_skip hi _ 8 1) by done.
  assert (String.substring 9 8 (hi +:+ "/" +:+ lo) = lo) as ->.
  { rewrite append_assoc_string, (substring_skip (hi +:+ "/") lo 9 8)
      by (rewrite length_app_string, Hhi; done).
    rewrite <- Hlo, <- (substring_prefix lo "") at 1. f_equal. }
  rewrite !length_app_string, Hhi, Hlo.
  change (String.length "/") with 1%nat. cbn [Nat.add Nat.eqb andb].
  rewrite append_cons, append_nil_l.
  replace (String.substring 0 1 (String "/" lo)) with "/" by (by destruct lo).
  rewrite String.eqb_refl. unfold hi, lo.
  rewrite !unhex_hex by (simpl; dlia). cbn [unhex]. f_equal. dlia.
Qed.

End HexLsn.

Definition hex_lsn_codec : LsnCodec := {|
  LSN_String := HexLsn.to_string;
  ParseLSN := HexLsn.parse;
  ParseLSN_String := HexLsn.parse_to_string;
|}.

Example hex_lsn_example : @LSN_String hex_lsn_codec (22 * 2 ^ 32 + 11978776) = "00000016/00B6C818".
Proof. reflexivity. Qed.
