(* ===== verification/Schema.v ===== *)
(** * Schema: the tables of internal/spool/sqlite/migrations

    The five tables of the spool as lists of rows, with the constraints and
    the triggers of migrations 001 to 003 applied by the statements that
    insert and update rows.  A violated CHECK, UNIQUE or FOREIGN KEY and a
    RAISE(ABORT) fail the whole statement.  [db_wf] is the type invariant of
    a spool and every statement keeps it. *)

From S2P Require Import Prelude Rows Text Timestamp Sha256 Runtime.

(** The states that [CHECK (state IN (...))] allows. *)
Inductive DeliveryState := pending | retry_wait | delivered | dead_letter.

#[global] Instance DeliveryState_eq_dec : EqDecision DeliveryState.
Proof. solve_decision. Defined.

(** [state IN ('pending', 'retry_wait')]. *)
Definition non_terminal (s : DeliveryState) : bool :=
  match s with pending | retry_wait => true | _ => false end.

Definition is_delivered (s : DeliveryState) : bool :=
  match s with delivered => true | _ => false end.

Definition is_dead_letter (s : DeliveryState) : bool :=
  match s with dead_letter => true | _ => false end.

Definition is_null {A} (o : option A) : bool :=
  match o with None => true | Some _ => false end.

(** [CREATE TABLE events] with the column of migration 003. *)
Record event_rec := MkEvent {
  e_sequence : Z;
  e_source : string;
  e_id : string;
  e_type : string;
  e_subject : option string;
  e_payload : string;
  e_sha256 : string;
  e_transaction_id : Z;
  e_message_lsn : string;
  e_commit_lsn : string;
  e_commit_end_lsn : string;
  e_commit_time : string;
  e_message_index : Z;
  e_captured_at : string;
  e_pruned_at : option string;
}.

(** [CREATE TABLE delivery_sinks]. *)
Record sink_rec := MkSink {
  s_id : Z;
  s_name : string;
  s_type : string;
  s_sha256 : string;
  s_active : bool;
  s_created_at : string;
}.

(** [CREATE TABLE deliveries]. *)
Record delivery_rec := MkDelivery {
  d_event : Z;
  d_sink : Z;
  d_state : DeliveryState;
  d_attempts : Z;
  d_next : string;
  d_last : option string;
  d_delivered_at : option string;
  d_dead_at : option string;
  d_error : option string;
  d_status : option Z;
}.

(** The spool file.  [event_seq] and [sink_seq] are the largest row ids ever
    assigned, which AUTOINCREMENT remembers. *)
Record DB := MkDB {
  schema_migrations : list Z;
  spool_metadata : gmap string string;
  events : list event_rec;
  event_seq : Z;
  delivery_sinks : list sink_rec;
  sink_seq : Z;
  deliveries : list delivery_rec;
}.

Definition empty_db : DB := MkDB [] ∅ [] 0 [] 0 [].

Definition set_migrations (l : list Z) (db : DB) : DB :=
  MkDB l (spool_metadata db) (events db) (event_seq db)
    (delivery_sinks db) (sink_seq db) (deliveries db).
Definition set_metadata (m : gmap string string) (db : DB) : DB :=
  MkDB (schema_migrations db) m (events db) (event_seq db)
    (delivery_sinks db) (sink_seq db) (deliveries db).
Definition set_events (l : list event_rec) (n : Z) (db : DB) : DB :=
  MkDB (schema_migrations db) (spool_metadata db) l n
    (delivery_sinks db) (sink_seq db) (deliveries db).
Definition set_sinks (l : list sink_rec) (n : Z) (db : DB) : DB :=
  MkDB (schema_migrations db) (spool_metadata db) (events db) (event_seq db)
    l n (deliveries db).
Definition set_deliveries (l : list delivery_rec) (db : DB) : DB :=
  MkDB (schema_migrations db) (spool_metadata db) (events db) (event_seq db)
    (delivery_sinks db) (sink_seq db) l.

(** Keys. *)
Definition event_key (e : event_rec) : string * string := (e_source e, e_id e).
Definition delivery_key (d : delivery_rec) : Z * Z := (d_event d, d_sink d).

Definition has_event_key (source id : string) (e : event_rec) : bool :=
  (e_source e =? source)%string && (e_id e =? id)%string.
Definition has_delivery_key (seq sink : Z) (d : delivery_rec) : bool :=
  (d_event d =? seq) && (d_sink d =? sink).

(** [EXISTS (SELECT 1 FROM events WHERE sequence = ? AND payload_pruned_at
    IS NOT NULL)], and the same with [IS NULL]. *)
Definition event_pruned (db : DB) (seq : Z) : bool :=
  exists_where (λ e, (e_sequence e =? seq) && negb (is_null (e_pruned_at e))) (events db).
Definition event_retained (db : DB) (seq : Z) : bool :=
  exists_where (λ e, (e_sequence e =? seq) && is_null (e_pruned_at e)) (events db).

(** ** Statements *)

(** [INSERT INTO events ... ON CONFLICT(event_source, event_id) DO NOTHING]:
    rows affected and last insert id. *)
Definition insert_event (row : Z → event_rec) : stmt DB (Z * Z) := λ skip db,
  let seq := event_seq db + 1 + Z.of_nat skip in
  let e := row seq in
  if negb (String.length (e_sha256 e) =? 32)%nat then
    inl "CHECK constraint failed: length(payload_sha256) = 32"
  else if exists_where (has_event_key (e_source e) (e_id e)) (events db) then
    inr (db, (0, 0))
  else
    inr (set_events (events db ++ [e]) seq db, (1, seq)).

(** One row of [INSERT INTO deliveries ... ON CONFLICT DO NOTHING], with the
    trigger [deliveries_require_payload] before it. *)
Definition insert_delivery (d : delivery_rec) (db : DB) : string + DB :=
  if event_pruned db (d_event d) then
    inl "cannot create a delivery for a pruned payload"
  else if d_attempts d <? 0 then inl "CHECK constraint failed: attempts >= 0"
  else if exists_where (has_delivery_key (d_event d) (d_sink d)) (deliveries db) then
    inr db
  else if negb (exists_where (λ e, e_sequence e =? d_event d) (events db)) then
    inl "FOREIGN KEY constraint failed"
  else if negb (exists_where (λ s, s_id s =? d_sink d) (delivery_sinks db)) then
    inl "FOREIGN KEY constraint failed"
  else inr (set_deliveries (deliveries db ++ [d]) db).

(** [INSERT INTO deliveries SELECT ...]: the selected rows in turn. *)
Fixpoint insert_delivery_rows (rows : list delivery_rec) (db : DB) : string + DB :=
  match rows with
  | [] => inr db
  | d :: rows' =>
      match insert_delivery d db with
      | inl m => inl m
      | inr db' => insert_delivery_rows rows' db'
      end
  end.

Definition insert_deliveries (select : DB → list delivery_rec) : stmt DB unit :=
  λ _ db,
  match insert_delivery_rows (select db) db with
  | inl m => inl m
  | inr db' => inr (db', tt)
  end.

(** [UPDATE deliveries SET state = ..., ... WHERE ...] with the trigger
    [deliveries_pruned_terminal]: rows affected. *)
Definition update_deliveries (p : delivery_rec → bool) (f : delivery_rec → delivery_rec)
    : stmt DB Z := λ _ db,
  if exists_where (λ d, p d && negb (is_delivered (d_state (f d))) &&
                        event_pruned db (d_event (f d))) (deliveries db) then
    inl "cannot redeliver a pruned payload"
  else if exists_where (λ d, p d && (d_attempts (f d) <? 0)) (deliveries db) then
    inl "CHECK constraint failed: attempts >= 0"
  else
    inr (set_deliveries (update_where p f (deliveries db)) db,
         count_where p (deliveries db)).

(** [INSERT INTO delivery_sinks ...]: last insert id. *)
Definition insert_sink (row : Z → sink_rec) : stmt DB Z := λ skip db,
  let id := sink_seq db + 1 + Z.of_nat skip in
  let s := row id in
  if negb (String.length (s_sha256 s) =? 32)%nat then
    inl "CHECK constraint failed: length(config_sha256) = 32"
  else if exists_where (λ s', (s_name s' =? s_name s)%string) (delivery_sinks db) then
    inl "UNIQUE constraint failed: delivery_sinks.sink_name"
  else inr (set_sinks (delivery_sinks db ++ [s]) id db, id).

(** [UPDATE delivery_sinks SET active = ? WHERE sink_id = ?]. *)
Definition with_active (b : bool) (s : sink_rec) : sink_rec :=
  MkSink (s_id s) (s_name s) (s_type s) (s_sha256 s) b (s_created_at s).
Definition update_sink_active (id : Z) (b : bool) : stmt DB unit := λ _ db,
  inr (set_sinks (update_where (λ s, s_id s =? id) (with_active b) (delivery_sinks db))
         (sink_seq db) db, tt).

(** [INSERT INTO spool_metadata ... ON CONFLICT(key) DO UPDATE]. *)
Definition upsert_metadata (key value : string) : stmt DB unit := λ _ db,
  inr (set_metadata (<[key := value]> (spool_metadata db)) db, tt).

(** Condition under which [events_prune_requires_delivered] aborts. *)
Definition undelivered (db : DB) (seq : Z) : bool :=
  negb (exists_where (λ d, d_event d =? seq) (deliveries db)) ||
  exists_where (λ d, (d_event d =? seq) &&
    (negb (is_delivered (d_state d)) || is_null (d_delivered_at d))) (deliveries db).

Definition with_pruned (at_ : string) (e : event_rec) : event_rec :=
  MkEvent (e_sequence e) (e_source e) (e_id e) (e_type e) (e_subject e) ""
    (e_sha256 e) (e_transaction_id e) (e_message_lsn e) (e_commit_lsn e)
    (e_commit_end_lsn e) (e_commit_time e) (e_message_index e) (e_captured_at e)
    (Some at_).

(** [UPDATE events SET payload = X'', payload_pruned_at = ? WHERE sequence = ?
    AND payload_pruned_at IS NULL]: rows affected.  The WHERE clause keeps
    [events_pruned_payload_immutable] from firing. *)
Definition prune_where (seq : Z) (e : event_rec) : bool :=
  (e_sequence e =? seq) && is_null (e_pruned_at e).
Definition update_pruned (at_ : string) (seq : Z) : stmt DB Z := λ _ db,
  if exists_where (prune_where seq) (events db) && undelivered db seq then
    inl "payload pruning requires all deliveries to have succeeded"
  else
    inr (set_events (update_where (prune_where seq) (with_pruned at_) (events db))
           (event_seq db) db,
         count_where (prune_where seq) (events db)).

(** ** The type invariant *)

(** Columns of a delivery agree with its state. *)
Definition delivery_ok (d : delivery_rec) : Prop :=
  0 <= d_attempts d ∧
  match d_state d with
  | pending => d_attempts d = 0 ∧ d_last d = None ∧ d_delivered_at d = None ∧
               d_dead_at d = None ∧ d_error d = None ∧ d_status d = None
  | retry_wait => d_delivered_at d = None ∧ d_dead_at d = None
  | delivered => d_delivered_at d ≠ None ∧ d_dead_at d = None ∧ d_error d = None
  | dead_letter => d_delivered_at d = None ∧ d_dead_at d ≠ None
  end.

Definition same_event (e : event_rec) (d : delivery_rec) : Prop :=
  d_event d = e_sequence e.

Record db_wf (db : DB) : Prop := {
  wf_sequences : StronglySorted Z.lt (map e_sequence (events db));
  wf_event_seq : ∀ e, e ∈ events db → 0 < e_sequence e <= event_seq db;
  wf_identities : NoDup (map event_key (events db));
  wf_sink_ids : StronglySorted Z.lt (map s_id (delivery_sinks db));
  wf_sink_seq : ∀ s, s ∈ delivery_sinks db → 0 < s_id s <= sink_seq db;
  wf_sink_names : NoDup (map s_name (delivery_sinks db));
  wf_delivery_keys : NoDup (map delivery_key (deliveries db));
  wf_delivery_event : ∀ d, d ∈ deliveries db → ∃ e, e ∈ events db ∧ same_event e d;
  wf_delivery_sink : ∀ d, d ∈ deliveries db →
    ∃ s, s ∈ delivery_sinks db ∧ d_sink d = s_id s;
  wf_deliveries : ∀ d, d ∈ deliveries db → delivery_ok d;
  wf_digests : ∀ e, e ∈ events db → e_pruned_at e = None →
    e_sha256 e = Sum256 (e_payload e);
  wf_pruned : ∀ e, e ∈ events db → e_pruned_at e ≠ None →
    e_payload e = "" ∧ (∃ d, d ∈ deliveries db ∧ same_event e d) ∧
    ∀ d, d ∈ deliveries db → same_event e d → d_state d = delivered;
  wf_counters : 0 <= event_seq db ∧ 0 <= sink_seq db;
}.

(** Every retained event has a delivery for every active sink. *)
Definition db_covered (db : DB) : Prop :=
  ∀ e s, e ∈ events db → e_pruned_at e = None →
    s ∈ delivery_sinks db → s_active s = true →
    ∃ d, d ∈ deliveries db ∧ d_event d = e_sequence e ∧ d_sink d = s_id s.
