(* ===== verification/SchemaFacts.v ===== *)
(** * SchemaFacts: every statement keeps the type invariant *)

From S2P Require Import Prelude Rows Text Timestamp Sha256 Runtime Schema.

Lemma events_unique db e1 e2 :
  db_wf db → e1 ∈ events db → e2 ∈ events db →
  e_sequence e1 = e_sequence e2 → e1 = e2.
Proof.
  intros Hwf. apply NoDup_map_inj. apply StronglySorted_lt_NoDup, Hwf.
Qed.

Lemma sinks_unique db s1 s2 :
  db_wf db → s1 ∈ delivery_sinks db → s2 ∈ delivery_sinks db →
  s_id s1 = s_id s2 → s1 = s2.
Proof.
  intros Hwf. apply NoDup_map_inj. apply StronglySorted_lt_NoDup, Hwf.
Qed.

Lemma deliveries_unique db d1 d2 :
  db_wf db → d1 ∈ deliveries db → d2 ∈ deliveries db →
  d_event d1 = d_event d2 → d_sink d1 = d_sink d2 → d1 = d2.
Proof.
  intros Hwf H1 H2 E1 E2. eapply (NoDup_map_inj delivery_key); eauto using wf_delivery_keys.
  unfold delivery_key. by rewrite E1, E2.
Qed.

Lemma has_event_key_true s i e :
  has_event_key s i e = true ↔ event_key e = (s, i).
Proof.
  unfold has_event_key, event_key. rewrite andb_true_iff, !String.eqb_eq.
  split; [intros [-> ->] | intros [= -> ->]]; done.
Qed.

Lemma has_delivery_key_true q s d :
  has_delivery_key q s d = true ↔ delivery_key d = (q, s).
Proof.
  unfold has_delivery_key, delivery_key. rewrite andb_true_iff, !Z.eqb_eq.
  split; [intros [-> ->] | intros [= -> ->]]; done.
Qed.

Lemma is_null_true {A} (o : option A) : is_null o = true ↔ o = None.
Proof. by destruct o. Qed.

Lemma event_pruned_true db q :
  event_pruned db q = true ↔
  ∃ e, e ∈ events db ∧ e_sequence e = q ∧ e_pruned_at e ≠ None.
Proof.
  unfold event_pruned. rewrite exists_where_true.
  split; intros (e & He & H); exists e.
  - apply andb_true_iff in H as [H1 H2]. apply Z.eqb_eq in H1.
    by destruct (e_pruned_at e).
  - destruct H as [-> H]. rewrite Z.eqb_refl. by destruct (e_pruned_at e).
Qed.

Lemma event_retained_true db q :
  event_retained db q = true ↔
  ∃ e, e ∈ events db ∧ e_sequence e = q ∧ e_pruned_at e = None.
Proof.
  unfold event_retained. rewrite exists_where_true.
  split; intros (e & He & H); exists e.
  - apply andb_true_iff in H as [H1 H2]. apply Z.eqb_eq in H1.
    by destruct (e_pruned_at e).
  - destruct H as [-> H]. rewrite Z.eqb_refl. by rewrite H.
Qed.

Lemma elem_of_snoc {A} (l : list A) x y : y ∈ l ++ [x] ↔ y ∈ l ∨ y = x.
Proof. by rewrite elem_of_app, list_elem_of_singleton. Qed.

(** ** events *)

(** What the INSERT may store: a retained row with the digest of its payload. *)
Definition fresh_event (row : Z → event_rec) : Prop :=
  ∀ n, e_sequence (row n) = n ∧ e_pruned_at (row n) = None ∧
       e_sha256 (row n) = Sum256 (e_payload (row n)) ∧
       event_key (row n) = event_key (row 0).

Lemma insert_event_inv row n db db' r :
  insert_event row n db = inr (db', r) →
  let seq := event_seq db + 1 + Z.of_nat n in
  (db' = db ∧ r = (0, 0) ∧
     ∃ e, e ∈ events db ∧ event_key e = event_key (row seq)) ∨
  (db' = set_events (events db ++ [row seq]) seq db ∧ r = (1, seq) ∧
     ∀ e, e ∈ events db → event_key e ≠ event_key (row seq)).
Proof.
  cbv zeta. unfold insert_event. intros H.
  destruct (negb _); [done|].
  destruct (exists_where _ _) eqn:E; injection H as <- <-; [left | right].
  - apply exists_where_true in E as (e & He & Hk).
    apply has_event_key_true in Hk. eauto.
  - split; [done|]. split; [done|]. intros e He Hk.
    rewrite exists_where_false in E. specialize (E e He).
    enough (has_event_key (e_source (row (event_seq db + 1 + Z.of_nat n)))
      (e_id (row (event_seq db + 1 + Z.of_nat n))) e = true) by congruence.
    by apply has_event_key_true.
Qed.

Lemma insert_event_wf row n db db' r :
  fresh_event row → db_wf db → insert_event row n db = inr (db', r) → db_wf db'.
Proof.
  intros Hrow Hwf H. apply insert_event_inv in H as [(-> & _)|(-> & _ & Hk)]; [done|].
  set (seq := event_seq db + 1 + Z.of_nat n) in *.
  destruct (Hrow seq) as (Hseq & Hpr & Hsha & _).
  destruct Hwf. split; simpl; auto.
  - apply StronglySorted_snoc_lt; [done|]. intros e He. rewrite Hseq.
    apply wf_event_seq in He. lia.
  - intros e [He| ->]%elem_of_snoc; [apply wf_event_seq in He; lia | lia].
  - by apply NoDup_map_snoc.
  - intros d (e & He & Hd)%wf_delivery_event. exists e.
    by rewrite elem_of_snoc; auto.
  - intros e [He| ->]%elem_of_snoc; auto.
  - intros e [He| ->]%elem_of_snoc Hne; [|done]. auto.
  - lia.
Qed.

(** ** deliveries *)

Lemma insert_delivery_inv d db db' :
  insert_delivery d db = inr db' →
  (db' = db ∧ ∃ d', d' ∈ deliveries db ∧ delivery_key d' = delivery_key d) ∨
  (db' = set_deliveries (deliveries db ++ [d]) db ∧ 0 <= d_attempts d ∧
   event_pruned db (d_event d) = false ∧
   (∀ d', d' ∈ deliveries db → delivery_key d' ≠ delivery_key d) ∧
   (∃ e, e ∈ events db ∧ e_sequence e = d_event d) ∧
   (∃ s, s ∈ delivery_sinks db ∧ s_id s = d_sink d)).
Proof.
  unfold insert_delivery. intros H.
  destruct (event_pruned _ _) eqn:Ep; [done|].
  destruct (d_attempts d <? 0) eqn:Ea; [done|]. breflect.
  destruct (exists_where (has_delivery_key _ _) _) eqn:Ek.
  - injection H as <-. left. split; [done|].
    apply exists_where_true in Ek as (d' & Hd & Hk).
    apply has_delivery_key_true in Hk. eauto.
  - right. destruct (exists_where _ (events db)) eqn:Ee; [|done].
    destruct (exists_where _ (delivery_sinks db)) eqn:Es; [|done]. simpl in H.
    injection H as <-. rewrite exists_where_true in Ee. rewrite exists_where_true in Es.
    split; [done|]. split; [lia|]. split; [done|]. split.
    + intros d' Hd Hk. rewrite exists_where_false in Ek. specialize (Ek d' Hd).
      assert (has_delivery_key (d_event d) (d_sink d) d' = true)
        by (by apply has_delivery_key_true). congruence.
    + split.
      * destruct Ee as (e & He & Hq). breflect. eauto.
      * destruct Es as (s & Hs & Hq). breflect. eauto.
Qed.

Lemma insert_delivery_wf d db db' :
  delivery_ok d → db_wf db → insert_delivery d db = inr db' → db_wf db'.
Proof.
  intros Hd Hwf H.
  apply insert_delivery_inv in H
    as [[-> _]|(-> & Ha & Hp & Hk & (e & He & Hes) & (s & Hs & Hss))]; [done|].
  destruct Hwf. split; simpl; auto.
  - by apply NoDup_map_snoc.
  - intros d' [Hd'| ->]%elem_of_snoc; [auto | exists e; done].
  - intros d' [Hd'| ->]%elem_of_snoc; [auto | exists s; done].
  - intros d' [Hd'| ->]%elem_of_snoc; auto.
  - intros e' He' Hpr. destruct (wf_pruned e' He' Hpr) as (H1 & (d0 & Hd0 & Hs0) & H3).
    split; [done|]. split.
    + exists d0. rewrite elem_of_snoc. auto.
    + intros d' [Hd'| ->]%elem_of_snoc Hse; [auto|]. exfalso.
      assert (event_pruned db (d_event d) = true)
        by (apply event_pruned_true; exists e'; auto).
      congruence.
Qed.

(** Deliveries only accumulate; the other tables stay as they are. *)
Definition extends_deliveries (db db' : DB) : Prop :=
  db' = set_deliveries (deliveries db') db ∧
  (∃ l, deliveries db' = deliveries db ++ l).

Lemma extends_deliveries_refl db : extends_deliveries db db.
Proof. split; [by destruct db | exists []; by rewrite app_nil_r]. Qed.

Lemma extends_deliveries_trans db1 db2 db3 :
  extends_deliveries db1 db2 → extends_deliveries db2 db3 → extends_deliveries db1 db3.
Proof.
  intros [E1 (l1 & H1)] [E2 (l2 & H2)]. split.
  - rewrite E2 at 1. by rewrite E1.
  - exists (l1 ++ l2). by rewrite H2, H1, app_assoc.
Qed.

Lemma insert_delivery_rows_spec rows db db' :
  Forall delivery_ok rows → db_wf db →
  insert_delivery_rows rows db = inr db' →
  db_wf db' ∧ extends_deliveries db db' ∧
  (∀ d, d ∈ rows → ∃ d', d' ∈ deliveries db' ∧ delivery_key d' = delivery_key d) ∧
  (∀ d, d ∈ deliveries db' → d ∈ deliveries db ∨ d ∈ rows).
Proof.
  revert db. induction rows as [|d rows IH]; intros db Hok Hwf H; simpl in H.
  - injection H as <-. split; [done|]. split; [apply extends_deliveries_refl|].
    split; [by intros d ?%not_elem_of_nil | auto].
  - apply Forall_cons in Hok as [Hd Hok].
    destruct (insert_delivery d db) as [m|db1] eqn:E; [done|].
    pose proof (insert_delivery_wf _ _ _ Hd Hwf E) as Hwf1.
    destruct (IH db1 Hok Hwf1 H) as (Hwf' & Hext & Hrows & Hnew).
    apply insert_delivery_inv in E.
    assert (extends_deliveries db db1 ∧
      (∃ d', d' ∈ deliveries db1 ∧ delivery_key d' = delivery_key d) ∧
      (∀ x, x ∈ deliveries db1 → x ∈ deliveries db ∨ x = d)) as (Hext1 & Hd1 & Hn1).
    { destruct E as [[-> Hk]|(-> & _)].
      - split; [apply extends_deliveries_refl | auto].
      - simpl. split; [split; [by destruct db | by exists [d]]|]. split.
        + exists d. by rewrite elem_of_snoc; auto.
        + by intros x Hx%elem_of_snoc. }
    split; [done|]. split; [by eapply extends_deliveries_trans|]. split.
    + intros x [->|Hx]%elem_of_cons; [|auto].
      destruct Hd1 as (d' & Hd' & Hk). destruct Hext as [_ (l & ->)].
      exists d'. rewrite elem_of_app. auto.
    + intros x [Hx|Hx]%Hnew; [|by right; right].
      apply Hn1 in Hx as [Hx| ->]; [by left | right; left].
Qed.

(** Rows for a retained event and registered sinks are always accepted. *)
Definition acceptable (db : DB) (d : delivery_rec) : Prop :=
  event_pruned db (d_event d) = false ∧ 0 <= d_attempts d ∧
  (∃ e, e ∈ events db ∧ e_sequence e = d_event d) ∧
  (∃ s, s ∈ delivery_sinks db ∧ s_id s = d_sink d).

Lemma insert_delivery_total d db :
  acceptable db d → ∃ db', insert_delivery d db = inr db' ∧
    events db' = events db ∧ delivery_sinks db' = delivery_sinks db.
Proof.
  intros (Hp & Ha & (e & He & Hes) & (s & Hs & Hss)). unfold insert_delivery.
  rewrite Hp. replace (d_attempts d <? 0) with false by (symmetry; apply Z.ltb_ge; lia).
  destruct (exists_where (has_delivery_key _ _) _); [eauto|].
  assert (exists_where (λ e, e_sequence e =? d_event d) (events db) = true) as ->
    by (apply exists_where_true; exists e; by rewrite Hes, Z.eqb_refl).
  assert (exists_where (λ s, s_id s =? d_sink d) (delivery_sinks db) = true) as ->
    by (apply exists_where_true; exists s; by rewrite Hss, Z.eqb_refl).
  simpl. eauto.
Qed.

Lemma insert_delivery_rows_total rows db :
  Forall (acceptable db) rows → ∃ db', insert_delivery_rows rows db = inr db'.
Proof.
  revert db. induction rows as [|d rows IH]; intros db H; simpl; [eauto|].
  apply Forall_cons in H as [Hd Hrows].
  destruct (insert_delivery_total d db Hd) as (db' & -> & He & Hs).
  apply IH. eapply Forall_impl; [exact Hrows|].
  intros x. unfold acceptable, event_pruned. by rewrite He, Hs.
Qed.

Lemma retained_not_pruned db e :
  db_wf db → e ∈ events db → e_pruned_at e = None →
  event_pruned db (e_sequence e) = false.
Proof.
  intros Hwf He Hn. destruct (event_pruned db (e_sequence e)) eqn:E; [|done].
  apply event_pruned_true in E as (e' & He' & Hs & Hp). destruct Hp.
  by rewrite (events_unique db e' e).
Qed.

Lemma insert_deliveries_inv sel n db db' u :
  insert_deliveries sel n db = inr (db', u) →
  insert_delivery_rows (sel db) db = inr db'.
Proof.
  unfold insert_deliveries. destruct (insert_delivery_rows _ _); [done|].
  by intros [= <-].
Qed.

Lemma update_deliveries_inv p f n db db' c :
  update_deliveries p f n db = inr (db', c) →
  db' = set_deliveries (update_where p f (deliveries db)) db ∧
  c = count_where p (deliveries db) ∧
  (∀ d, d ∈ deliveries db → p d = true →
     d_state (f d) = delivered ∨ event_pruned db (d_event (f d)) = false) ∧
  (∀ d, d ∈ deliveries db → p d = true → 0 <= d_attempts (f d)).
Proof.
  unfold update_deliveries. intros H.
  destruct (exists_where _ _) eqn:E1; [done|].
  destruct (exists_where (λ d, p d && (d_attempts (f d) <? 0)) _) eqn:E2; [done|].
  injection H as <- <-. rewrite exists_where_false in E1. rewrite exists_where_false in E2.
  split; [done|]. split; [done|]. split; intros d Hd Hp.
  - specialize (E1 d Hd). rewrite Hp in E1. simpl in E1.
    destruct (d_state (f d)); simpl in E1; auto.
  - specialize (E2 d Hd). rewrite Hp in E2. simpl in E2. breflect. lia.
Qed.

(** Updates that keep the key and leave consistent columns keep [db_wf]; a
    row of a pruned event that is [delivered] must stay so. *)
Lemma update_deliveries_wf p f n db db' c :
  (∀ d, delivery_key (f d) = delivery_key d) →
  (∀ d, d ∈ deliveries db → p d = true → 0 <= d_attempts (f d) → delivery_ok (f d)) →
  db_wf db → update_deliveries p f n db = inr (db', c) → db_wf db'.
Proof.
  intros Hkey Hok Hwf H. apply update_deliveries_inv in H as (-> & _ & Hst & Hat).
  destruct Hwf. split; simpl; auto.
  - by rewrite map_update_where.
  - intros d (d0 & Hd0 & ->)%elem_of_update_where.
    destruct (wf_delivery_event d0 Hd0) as (e & He & Hs). exists e. split; [done|].
    destruct (p d0); [|done]. specialize (Hkey d0). unfold delivery_key in Hkey.
    unfold same_event in *. congruence.
  - intros d (d0 & Hd0 & ->)%elem_of_update_where.
    destruct (wf_delivery_sink d0 Hd0) as (s & Hs & Hss). exists s. split; [done|].
    destruct (p d0); [|done]. specialize (Hkey d0). unfold delivery_key in Hkey.
    congruence.
  - intros d (d0 & Hd0 & ->)%elem_of_update_where.
    destruct (p d0) eqn:Ep; auto.
  - intros e He Hpr. destruct (wf_pruned e He Hpr) as (H1 & (d1 & Hd1 & Hs1) & H3).
    split; [done|]. split.
    + exists (if p d1 then f d1 else d1). split.
      * apply elem_of_update_where. eauto.
      * destruct (p d1); [|done]. specialize (Hkey d1). unfold delivery_key in Hkey.
        unfold same_event in *. congruence.
    + intros d (d0 & Hd0 & ->)%elem_of_update_where Hse.
      destruct (p d0) eqn:Ep; [|auto].
      destruct (Hst d0 Hd0 Ep) as [?|Hnp]; [done|].
      assert (event_pruned db (d_event (f d0)) = true)
        by (apply event_pruned_true; exists e; unfold same_event in Hse; auto).
      congruence.
Qed.

(** ** delivery_sinks *)

Lemma insert_sink_inv row n db db' id :
  insert_sink row n db = inr (db', id) →
  id = sink_seq db + 1 + Z.of_nat n ∧
  db' = set_sinks (delivery_sinks db ++ [row id]) id db ∧
  ∀ s, s ∈ delivery_sinks db → s_name s ≠ s_name (row id).
Proof.
  unfold insert_sink. intros H. destruct (negb _); [done|].
  destruct (exists_where _ _) eqn:E; [done|]. injection H as <- <-.
  split; [done|]. split; [done|]. intros s Hs.
  rewrite exists_where_false in E. specialize (E s Hs). by breflect.
Qed.

Lemma insert_sink_wf row n db db' id :
  (∀ k, s_id (row k) = k) →
  db_wf db → insert_sink row n db = inr (db', id) → db_wf db'.
Proof.
  intros Hrow Hwf H. apply insert_sink_inv in H as (-> & -> & Hn).
  destruct Hwf. split; simpl; auto.
  - apply StronglySorted_snoc_lt; [done|]. intros s Hs. rewrite Hrow.
    apply wf_sink_seq in Hs. lia.
  - intros s [Hs| ->]%elem_of_snoc; [apply wf_sink_seq in Hs; lia | rewrite Hrow; lia].
  - by apply NoDup_map_snoc.
  - intros d (s & Hs & E)%wf_delivery_sink. exists s. by rewrite elem_of_snoc; auto.
  - lia.
Qed.

Lemma update_sink_active_wf id b n db db' u :
  db_wf db → update_sink_active id b n db = inr (db', u) → db_wf db'.
Proof.
  intros Hwf [= <- _]. destruct Hwf. split; simpl; auto.
  - by rewrite (map_update_where s_id).
  - intros s (s0 & Hs & ->)%elem_of_update_where.
    apply wf_sink_seq in Hs. by destruct (s_id s0 =? id).
  - by rewrite (map_update_where s_name).
  - intros d (s & Hs & E)%wf_delivery_sink.
    exists (if s_id s =? id then with_active b s else s). split.
    + apply elem_of_update_where. eauto.
    + by destruct (s_id s =? id).
Qed.

(** ** spool_metadata and pruning *)

Lemma set_metadata_wf m db : db_wf db → db_wf (set_metadata m db).
Proof. intros []. by split. Qed.

Lemma undelivered_false db q :
  undelivered db q = false ↔
  (∃ d, d ∈ deliveries db ∧ d_event d = q) ∧
  (∀ d, d ∈ deliveries db → d_event d = q →
     d_state d = delivered ∧ d_delivered_at d ≠ None).
Proof.
  unfold undelivered. rewrite orb_false_iff, negb_false_iff,
    exists_where_true, exists_where_false. split.
  - intros [(d & Hd & Hq) Hall]. breflect. split; [eauto|].
    intros d' Hd' Hq'. specialize (Hall d' Hd'). rewrite Hq', Z.eqb_refl in Hall.
    destruct (d_state d'), (d_delivered_at d'); simpl in Hall; try done; split; done.
  - intros [(d & Hd & Hq) Hall]. split.
    + exists d. by rewrite Hq, Z.eqb_refl.
    + intros d' Hd'. destruct (d_event d' =? q) eqn:E; [|done]. breflect.
      destruct (Hall d' Hd' E) as [-> ?]. simpl. by destruct (d_delivered_at d').
Qed.

Lemma update_pruned_inv t q n db db' c :
  update_pruned t q n db = inr (db', c) →
  db' = set_events (update_where (prune_where q) (with_pruned t) (events db))
          (event_seq db) db ∧
  c = count_where (prune_where q) (events db) ∧
  (exists_where (prune_where q) (events db) = true → undelivered db q = false).
Proof.
  unfold update_pruned. intros H.
  destruct (exists_where _ _) eqn:E; simpl in H.
  - destruct (undelivered db q) eqn:U; [done|]. by injection H as <- <-.
  - by injection H as <- <-.
Qed.

Lemma update_pruned_wf t q n db db' c :
  db_wf db → update_pruned t q n db = inr (db', c) → db_wf db'.
Proof.
  intros Hwf H. apply update_pruned_inv in H as (-> & _ & Hu).
  destruct Hwf. split; simpl; auto.
  - by rewrite (map_update_where e_sequence).
  - intros e (e0 & He & ->)%elem_of_update_where. apply wf_event_seq in He.
    by destruct (prune_where q e0).
  - by rewrite (map_update_where event_key).
  - intros d (e & He & Hs)%wf_delivery_event.
    exists (if prune_where q e then with_pruned t e else e). split.
    + apply elem_of_update_where. eauto.
    + by destruct (prune_where q e).
  - intros e (e0 & He & ->)%elem_of_update_where Hp.
    destruct (prune_where q e0); [done | auto].
  - intros e (e0 & He & ->)%elem_of_update_where Hp.
    destruct (prune_where q e0) eqn:E; [|by auto].
    assert (undelivered db q = false) as Hd
      by (apply Hu; apply exists_where_true; eauto).
    unfold prune_where in E. breflect.
    apply undelivered_false in Hd as [(d & Hd & Hq) Hall].
    split; [done|]. split.
    + exists d. split; [done|]. unfold same_event. simpl. lia.
    + intros d' Hd' Hs'. unfold same_event in Hs'. simpl in Hs'.
      apply Hall; [done | lia].
Qed.

#[export] Hint Resolve insert_event_wf insert_sink_wf update_sink_active_wf
  set_metadata_wf update_pruned_wf : relay.
