(* ===== verification/Store.v ===== *)
(** * Store: capture persistence of internal/spool/sqlite/sqlite.go

    [PersistCommittedBatch] and what it calls, the durable checkpoint, and
    the refinement of an abstract append-only log with a checkpoint. *)

From S2P Require Import Prelude Rows Text Timestamp Sha256 Runtime Spool.
From S2P Require Import Schema SchemaFacts.

Definition durableLSNKey : string := "last_durable_lsn".

Definition durability (m : string) : error := wrapf ErrDurability m.

Section Store.
Context {codec : LsnCodec}.

(** ** Operations *)

(** [validateCapturedEvent]: [None] is Go's [nil]. *)
Definition validateCapturedEvent (batch : CommittedBatch) (captured : CapturedEvent)
    (index : Z) : option error :=
  if (ce_Source captured =? "")%string || (ce_ID captured =? "")%string ||
     (ce_Type captured =? "")%string then
    Some (durability "event %d has empty identity or type")
  else if negb (ce_TransactionID captured =? cb_TransactionID batch) ||
     negb (ce_CommitLSN captured =? cb_CommitLSN batch) ||
     negb (ce_CommitEndLSN captured =? cb_CommitEndLSN batch) ||
     negb (ce_CommitTime captured =? cb_CommitTime batch) ||
     negb (ce_MessageIndex captured =? index) then
    Some (durability "event %d metadata does not match committed batch")
  else if negb (Sum256 (ce_Payload captured) =? ce_PayloadSHA256 captured)%string then
    Some (durability "event %d payload digest is invalid")
  else None.

(** The row that [insertOrVerify] inserts; [NULLIF(?, '')] for the subject. *)
Definition event_row (captured : CapturedEvent) (captured_at : time) (seq : Z)
    : event_rec :=
  MkEvent seq (ce_Source captured) (ce_ID captured) (ce_Type captured)
    (if (ce_Subject captured =? "")%string then None else Some (ce_Subject captured))
    (ce_Payload captured) (ce_PayloadSHA256 captured) (ce_TransactionID captured)
    (LSN_String (ce_MessageLSN captured)) (LSN_String (ce_CommitLSN captured))
    (LSN_String (ce_CommitEndLSN captured))
    (formatRFC3339Nano (ce_CommitTime captured)) (ce_MessageIndex captured)
    (formatRFC3339Nano captured_at) None.

(** [insertOrVerify]: whether a row was inserted, and the event's sequence. *)
Definition insertOrVerify (captured : CapturedEvent) : M DB (bool * Z) :=
  captured_at ← now;
  r ← run (durability "insert event %s/%s: %v")
        (insert_event (event_row captured captured_at));
  driver_call (durability "inspect insert result: %v");;
  if r.1 =? 1 then
    driver_call (durability "inspect inserted event sequence: %v");;
    mret (true, r.2)
  else
    row ← run (durability "load replay digest: %v")
            (query (λ db, head (select (has_event_key (ce_Source captured) (ce_ID captured))
                                  (events db))));
    match row with
    | None => fail (durability "load replay digest: %v")
    | Some e =>
        if negb (String.length (e_sha256 e) =? String.length (ce_PayloadSHA256 captured))%nat
           || negb (e_sha256 e =? ce_PayloadSHA256 captured)%string
        then fail (wrapf ErrIdentityConflict "source=%q id=%q")
        else mret (false, e_sequence e)
    end.

(** A new delivery: [SELECT ?, sink_id, 'pending', 0, ?]. *)
Definition pending_delivery (seq sink : Z) (at_ : string) : delivery_rec :=
  MkDelivery seq sink pending 0 at_ None None None None None.

(** [ensureDeliveriesForEvent]. *)
Definition ensureDeliveriesForEvent (sequence : Z) : M DB unit :=
  t ← now;
  run (durability "create delivery records for event %d: %v")
    (insert_deliveries (λ db,
       if event_retained db sequence
       then map (λ s, pending_delivery sequence (s_id s) (formatTimestamp t))
              (select s_active (delivery_sinks db))
       else [])).

(** [lastDurableLSNTx]. *)
Definition lastDurableLSNTx : M DB (result LSN) :=
  r ← exec (query (λ db, spool_metadata db !! durableLSNKey));
  mret match r with
       | inl m => inl (errorf m)
       | inr None => inr 0
       | inr (Some value) =>
           match ParseLSN value with
           | Some lsn => inr lsn
           | None => inl (errorf "failed to parse LSN")
           end
       end.

(** [(s *Store) LastDurableLSN]. *)
Definition LastDurableLSN : M DB LSN :=
  r ← run (errorf "read durable LSN: %w")
        (query (λ db, spool_metadata db !! durableLSNKey));
  match r with
  | None => mret 0
  | Some value =>
      match ParseLSN value with
      | Some lsn => mret lsn
      | None => fail (errorf "parse durable LSN %q: %w")
      end
  end.

(** One iteration of the loop of [PersistCommittedBatch]. *)
Definition persist_event (hooks : Hooks) (batch : CommittedBatch)
    (index : Z) (captured : CapturedEvent) (result : PersistResult) : M DB PersistResult :=
  match validateCapturedEvent batch captured index with
  | Some e => fail e
  | None =>
      '(inserted, sequence) ← insertOrVerify captured;
      ensureDeliveriesForEvent sequence;;
      CallAfterSpoolEvent hooks index;;
      mret (if inserted : bool
            then MkResult (pr_Inserted result + 1) (pr_Replayed result) (pr_DurableLSN result)
            else MkResult (pr_Inserted result) (pr_Replayed result + 1) (pr_DurableLSN result))
  end.

(** The checkpoint update and the commit at the end of
    [PersistCommittedBatch]. *)
Definition persist_checkpoint (hooks : Hooks) (batch : CommittedBatch)
    (result : PersistResult) : M DB PersistResult :=
  current ← lastDurableLSNTx;
  match current with
  | inl _ => fail (durability "read durable checkpoint: %v")
  | inr current =>
      lsn ← (if current <? cb_CommitEndLSN batch then
               run (durability "update durable checkpoint: %v")
                 (upsert_metadata durableLSNKey (LSN_String (cb_CommitEndLSN batch)));;
               mret (cb_CommitEndLSN batch)
             else mret current);
      commit_tx (durability "commit batch: %v");;
      CallAfterSpoolCommit hooks;;
      mret (MkResult (pr_Inserted result) (pr_Replayed result) lsn)
  end.

(** [(s *Store) PersistCommittedBatch]. *)
Definition PersistCommittedBatch (hooks : Hooks) (batch : CommittedBatch)
    : M DB PersistResult :=
  reject (cb_CommitEndLSN batch <? cb_CommitLSN batch)
    (durability "commit end LSN %s precedes commit LSN %s");;
  CallBeforeSpoolTransaction hooks;;
  begin_tx (durability "begin transaction: %v");;
  rollback_on_error (
    result ← for_range (cb_Events batch) 0 (MkResult 0 0 0) (persist_event hooks batch);
    persist_checkpoint hooks batch result).

(** ** Abstract specification

    A spool is a log of identities with their digests, and a checkpoint. *)

Definition log_entry : Type := (string * string) * string.

Record SpoolAbs := MkAbs { a_log : list log_entry; a_checkpoint : LSN }.

Definition log_digest (k : string * string) (l : list log_entry) : option string :=
  snd <$> head (select (λ x, bool_decide (x.1 = k)) l).

(** A new identity is appended, a known one must have the same digest. *)
Definition log_insert (l : list log_entry) (c : CapturedEvent) : option (list log_entry) :=
  match log_digest (ce_key c) l with
  | None => Some (l ++ [(ce_key c, ce_PayloadSHA256 c)])
  | Some d => if decide (d = ce_PayloadSHA256 c) then Some l else None
  end.

Fixpoint log_insert_all (l : list log_entry) (cs : list CapturedEvent)
    : option (list log_entry) :=
  match cs with
  | [] => Some l
  | c :: cs' => match log_insert l c with Some l' => log_insert_all l' cs' | None => None end
  end.

(** All events of a batch and its checkpoint, or nothing. *)
Definition spec_persist (b : CommittedBatch) (a : SpoolAbs) : option SpoolAbs :=
  match log_insert_all (a_log a) (cb_Events b) with
  | Some l => Some (MkAbs l (Z.max (a_checkpoint a) (cb_CommitEndLSN b)))
  | None => None
  end.

Definition event_log (db : DB) : list log_entry :=
  map (λ e, (event_key e, e_sha256 e)) (events db).

Definition checkpoint (db : DB) : option LSN :=
  match spool_metadata db !! durableLSNKey with
  | None => Some 0
  | Some value => ParseLSN value
  end.

(** The spool file [db] represents the abstract spool [a]. *)
Definition represents (db : DB) (a : SpoolAbs) : Prop :=
  event_log db = a_log a ∧ checkpoint db = Some (a_checkpoint a).

(** ** What a processed part of a batch leaves behind *)

(** The row keeps the bytes and the identity of the captured event. *)
Definition stores_event (c : CapturedEvent) (e : event_rec) : Prop :=
  event_key e = ce_key c ∧ e_type e = ce_Type c ∧
  e_payload e = ce_Payload c ∧ e_sha256 e = ce_PayloadSHA256 c ∧
  e_pruned_at e = None.

(** A delivery that capture creates: pending, never attempted, of a retained
    event and an active sink. *)
Definition new_delivery (db : DB) (d : delivery_rec) : Prop :=
  d_state d = pending ∧ d_attempts d = 0 ∧
  ∃ e s, e ∈ events db ∧ e_pruned_at e = None ∧ d_event d = e_sequence e ∧
         s ∈ delivery_sinks db ∧ s_active s = true ∧ d_sink d = s_id s.

Record batch_progress (cs : list CapturedEvent) (db0 db : DB) : Prop := {
  bp_wf : db_wf db;
  bp_covered : db_covered db0 → db_covered db;
  bp_migrations : schema_migrations db = schema_migrations db0;
  bp_metadata : spool_metadata db = spool_metadata db0;
  bp_sinks : delivery_sinks db = delivery_sinks db0 ∧ sink_seq db = sink_seq db0;
  bp_log : log_insert_all (event_log db0) cs = Some (event_log db);
  bp_events : ∃ new, events db = events db0 ++ new ∧
    Forall (λ e, ∃ c, c ∈ cs ∧ stores_event c e) new;
  bp_deliveries : ∃ new, deliveries db = deliveries db0 ++ new ∧
    Forall (new_delivery db) new;
  bp_seq : events db = events db0 → event_seq db = event_seq db0;
}.

End Store.
