(* ===== verification/StoreFacts.v ===== *)
(** * StoreFacts: capture persistence is atomic and refines the log *)

From S2P Require Import Prelude Rows Text Timestamp Sha256 Runtime Spool.
From S2P Require Import Schema SchemaFacts Store.

Section StoreFacts.
Context {codec : LsnCodec}.

(** ** The log of identities *)

Lemma log_digest_events k db :
  log_digest k (event_log db) =
  e_sha256 <$> head (select (has_event_key k.1 k.2) (events db)).
Proof.
  unfold log_digest, event_log.
  induction (events db) as [|e l IH]; simpl; [done|].
  destruct (has_event_key k.1 k.2 e) eqn:E.
  - apply has_event_key_true in E. rewrite <- surjective_pairing in E.
    rewrite bool_decide_eq_true_2 by done. done.
  - rewrite bool_decide_eq_false_2; [exact IH|].
    intros H. enough (has_event_key k.1 k.2 e = true) by congruence.
    apply has_event_key_true. rewrite H. by destruct k.
Qed.

Lemma log_insert_all_app l cs cs' :
  log_insert_all l (cs ++ cs') =
  match log_insert_all l cs with Some l' => log_insert_all l' cs' | None => None end.
Proof.
  revert l. induction cs as [|c cs IH]; intros l; simpl; [done|].
  destruct (log_insert l c); auto.
Qed.

(** ** insertOrVerify *)

Lemma event_row_fresh c t :
  ce_PayloadSHA256 c = Sum256 (ce_Payload c) → fresh_event (event_row c t).
Proof. intros H n. by repeat split. Qed.

Lemma event_row_key c t n : event_key (event_row c t n) = ce_key c.
Proof. done. Qed.

(** Inserting a row, seen on the log. *)
Lemma insert_event_log c t n db db' r :
  insert_event (event_row c t) n db = inr (db', r) → r.1 = 1 →
  db' = set_events (events db ++ [event_row c t r.2]) r.2 db ∧
  log_insert (event_log db) c = Some (event_log db').
Proof.
  intros H Hr. apply insert_event_inv in H as [(_ & -> & _)|(-> & -> & Hk)]; [done|].
  simpl. split; [done|]. unfold log_insert. rewrite log_digest_events.
  assert (head (select (has_event_key (ce_key c).1 (ce_key c).2) (events db)) = None) as ->.
  { apply head_select_None. intros e He.
    destruct (has_event_key _ _ e) eqn:E; [|done].
    apply has_event_key_true in E. destruct (Hk e He).
    by rewrite E, event_row_key, <- surjective_pairing. }
  simpl. unfold event_log. simpl. by rewrite map_app.
Qed.

Definition insert_post (c : CapturedEvent) (env : Env) (db : DB)
    (w : World DB) (o : outcome (bool * Z)) (w' : World DB) : Prop :=
  match o with
  | Ok (ins, seq) => ∃ db', disk w' = disk w ∧ txn w' = Some db' ∧ db_wf db' ∧
      log_insert (event_log db) c = Some (event_log db') ∧
      (∃ e, e ∈ events db' ∧ event_key e = ce_key c ∧ e_sequence e = seq) ∧
      if ins : bool
      then ∃ t, db' = set_events (events db ++ [event_row c t seq]) seq db
      else db' = db
  | Fail e => disk w' = disk w ∧
      (faulty env ∨
       (log_insert (event_log db) c = None ∧ errors_is e ErrIdentityConflict = true))
  | Crash => False
  end.

Lemma insertOrVerify_wp c env w db :
  txn w = Some db → db_wf db → ce_PayloadSHA256 c = Sum256 (ce_Payload c) →
  wp (insertOrVerify c) env w (insert_post c env db w).
Proof.
  intros Ht Hwf Hsha. unfold insertOrVerify. do 2 wp_step. wp_step.
  eapply wp_run_txn; [done| |].
  { intros n k [Hf|(m & Hm)]; (split; [done|]); [by left|]. exfalso. revert Hm.
    unfold insert_event. simpl. rewrite Hsha, length_Sum256. simpl.
    by destruct (exists_where _ _). }
  intros n db1 r k Hins.
  pose proof (insert_event_wf _ _ _ _ _ (event_row_fresh c _ Hsha) Hwf Hins) as Hwf1.
  wp_step. eapply wp_driver_call; [done| |].
  { intros k' Hf. by split; [|left]. }
  intros k'. destruct (r.1 =? 1) eqn:Er.
  - breflect. destruct (insert_event_log _ _ _ _ _ _ Hins Er) as [-> Hlog].
    wp_step. eapply wp_driver_call; [done| |].
    { intros k2 Hf. by split; [|left]. }
    intros k2. wp_step. eexists. do 4 (split; [done|]). split; [|by eexists].
    eexists. split; [apply elem_of_snoc; by right|]. done.
  - apply insert_event_inv in Hins as [(-> & -> & e & He & Hk)|(_ & -> & _)]; [|done].
    wp_step. eapply wp_run_txn; [done| |].
    { intros n' k2 [Hf|(m & Hm)]; [by split; [|left] | done]. }
    intros n' db2 row k2 [= <- <-].
    rewrite event_row_key in Hk.
    destruct (head (select _ (events db))) as [e'|] eqn:Eh.
    + pose proof Eh as Eh'.
      apply head_select_Some in Eh as [He' Hk']. apply has_event_key_true in Hk'.
      assert (log_insert (event_log db) c =
        if decide (e_sha256 e' = ce_PayloadSHA256 c) then Some (event_log db) else None)
        as Hli by (unfold log_insert; rewrite log_digest_events; unfold ce_key; simpl; by rewrite Eh').
      destruct (negb _ || negb _) eqn:Ec.
      * wp_step. split; [done|]. right. split; [|apply errors_is_wrapf].
        rewrite Hli. destruct (decide _) as [E|E]; [|done]. exfalso.
        rewrite E, Nat.eqb_refl, String.eqb_refl in Ec. done.
      * breflect. wp_step. exists db. do 3 (split; [done|]). split.
        { rewrite Hli. by rewrite decide_True. }
        split; [|done]. exists e'. split; [done|]. split; [|done]. by rewrite Hk'.
    + wp_step. split; [done|]. exfalso.
      rewrite head_select_None in Eh. specialize (Eh e He).
      assert (has_event_key (ce_Source c) (ce_ID c) e = true)
        by (by apply has_event_key_true). congruence.
Qed.

(** ** ensureDeliveriesForEvent *)

Lemma pending_delivery_ok q s t : delivery_ok (pending_delivery q s t).
Proof. repeat split; simpl; lia. Qed.

Definition ensure_rows (t : string) (seq : Z) (db : DB) : list delivery_rec :=
  if event_retained db seq
  then map (λ s, pending_delivery seq (s_id s) t) (select s_active (delivery_sinks db))
  else [].

Lemma elem_of_ensure_rows t q db d :
  d ∈ ensure_rows t q db ↔
  event_retained db q = true ∧
  ∃ s, s ∈ delivery_sinks db ∧ s_active s = true ∧ d = pending_delivery q (s_id s) t.
Proof.
  unfold ensure_rows. destruct (event_retained db q).
  - rewrite elem_of_map_row. setoid_rewrite elem_of_select.
    split; [intros (s & [? ?] & ->) | intros (_ & s & ? & ? & ->)]; eauto 10.
  - split; [by intros ?%not_elem_of_nil | by intros [? _]].
Qed.

Lemma ensure_rows_acceptable t q db :
  db_wf db → Forall (acceptable db) (ensure_rows t q db).
Proof.
  intros Hwf. apply Forall_forall. intros d (Hr & s & Hs & _ & ->)%elem_of_ensure_rows.
  apply event_retained_true in Hr as (e & He & <- & Hn).
  split; [by apply retained_not_pruned|]. simpl. split; [lia|].
  split; [by exists e | by exists s].
Qed.

Definition ensure_post (q : Z) (env : Env) (db : DB) (w : World DB)
    (o : outcome unit) (w' : World DB) : Prop :=
  match o with
  | Ok _ => ∃ db', disk w' = disk w ∧ txn w' = Some db' ∧ db_wf db' ∧
      extends_deliveries db db' ∧
      (∀ s, event_retained db q = true → s ∈ delivery_sinks db → s_active s = true →
         ∃ d, d ∈ deliveries db' ∧ d_event d = q ∧ d_sink d = s_id s) ∧
      (∀ d, d ∈ deliveries db' → d ∈ deliveries db ∨ new_delivery db d)
  | Fail _ => disk w' = disk w ∧ faulty env
  | Crash => False
  end.

Lemma ensureDeliveries_wp q env w db :
  txn w = Some db → db_wf db →
  wp (ensureDeliveriesForEvent q) env w (ensure_post q env db w).
Proof.
  intros Ht Hwf. unfold ensureDeliveriesForEvent. do 2 wp_step.
  set (t := formatTimestamp _).
  eapply wp_run_txn; [done| |].
  - intros n k [Hf|(m & Hm)]; [by split|]. exfalso. revert Hm. unfold insert_deliveries.
    destruct (insert_delivery_rows_total _ _ (ensure_rows_acceptable t q db Hwf)) as (db' & E).
    unfold ensure_rows in E. by rewrite E.
  - intros n db' [] k H. apply insert_deliveries_inv in H.
    apply (insert_delivery_rows_spec (ensure_rows t q db)) in H
      as (Hwf' & Hext & Hrows & Hnew); [|apply Forall_forall|done].
    + exists db'. do 4 (split; [done|]). split.
      * intros s Hr Hs Ha. destruct (Hrows (pending_delivery q (s_id s) t)) as (d & Hd & Hk).
        { apply elem_of_ensure_rows. eauto. }
        exists d. split; [done|]. unfold delivery_key in Hk. simpl in Hk.
        by injection Hk.
      * intros d [Hd|Hd]%Hnew; [by left|]. right.
        apply elem_of_ensure_rows in Hd as (Hr & s & Hs & Ha & ->).
        apply event_retained_true in Hr as (e & He & <- & Hn).
        split; [done|]. split; [done|]. by exists e, s.
    + intros d (_ & s & _ & _ & ->)%elem_of_ensure_rows. apply pending_delivery_ok.
Qed.

(** ** One event of a batch *)

Lemma batch_progress_refl db : db_wf db → batch_progress [] db db.
Proof.
  intros Hwf. split; auto; exists []; by rewrite app_nil_r.
Qed.

(** Appending the event row and then its deliveries keeps coverage. *)
Lemma covered_insert db e seq db' :
  db_covered db → event_retained (set_events (events db ++ [e]) seq db) (e_sequence e) = true →
  extends_deliveries (set_events (events db ++ [e]) seq db) db' →
  (∀ s, event_retained (set_events (events db ++ [e]) seq db) (e_sequence e) = true →
     s ∈ delivery_sinks db → s_active s = true →
     ∃ d, d ∈ deliveries db' ∧ d_event d = e_sequence e ∧ d_sink d = s_id s) →
  db_covered db'.
Proof.
  intros Hcov Hr [E (l & Hl)] Hnew e' s He' Hn Hs Ha.
  rewrite E in He', Hs. simpl in He', Hs.
  apply elem_of_snoc in He' as [He'| ->]; [|by apply Hnew].
  destruct (Hcov e' s He' Hn Hs Ha) as (d & Hd & Hk).
  exists d. split; [|done]. rewrite Hl. simpl. rewrite elem_of_app. by left.
Qed.

Lemma covered_extends db db' :
  db_covered db → extends_deliveries db db' → db_covered db'.
Proof.
  intros Hcov [E (l & Hl)] e s He Hn Hs Ha. rewrite E in He, Hs. simpl in He, Hs.
  destruct (Hcov e s He Hn Hs Ha) as (d & Hd & Hk).
  exists d. split; [|done]. rewrite Hl, elem_of_app. by left.
Qed.

Lemma new_deliveries_tail (l l' new : list delivery_rec) (P : delivery_rec → Prop) :
  l' = l ++ new → (∀ d, d ∈ l' → d ∈ l ∨ P d) → NoDup l' → Forall P new.
Proof.
  intros -> H Hnd. apply Forall_forall. intros d Hd.
  destruct (H d) as [Hl|?]; [rewrite elem_of_app; by right | | done].
  apply NoDup_app in Hnd as (_ & Hdis & _). by destruct (Hdis d Hl).
Qed.

Lemma new_delivery_mono db db' d :
  (∀ e, e ∈ events db → e ∈ events db') → delivery_sinks db' = delivery_sinks db →
  new_delivery db d → new_delivery db' d.
Proof.
  intros He Hs (H1 & H2 & e & s & H & H'). split; [done|]. split; [done|].
  exists e, s. rewrite Hs. auto.
Qed.

Lemma wf_NoDup_deliveries db : db_wf db → NoDup (deliveries db).
Proof. intros Hwf. eapply NoDup_fmap_1. apply wf_delivery_keys, Hwf. Qed.

Lemma event_log_ext db db' : events db' = events db → event_log db' = event_log db.
Proof. unfold event_log. by intros ->. Qed.

Lemma stores_event_row c t n :
  stores_event c (event_row c t n).
Proof. by repeat split. Qed.

Lemma batch_progress_step cs c db0 db db1 db2 (ins : bool) q :
  batch_progress cs db0 db →
  log_insert (event_log db) c = Some (event_log db1) →
  db_wf db1 → db_wf db2 →
  (∃ e, e ∈ events db1 ∧ event_key e = ce_key c ∧ e_sequence e = q) →
  (if ins then ∃ t, db1 = set_events (events db ++ [event_row c t q]) q db else db1 = db) →
  extends_deliveries db1 db2 →
  (∀ s, event_retained db1 q = true → s ∈ delivery_sinks db1 → s_active s = true →
     ∃ d, d ∈ deliveries db2 ∧ d_event d = q ∧ d_sink d = s_id s) →
  (∀ d, d ∈ deliveries db2 → d ∈ deliveries db1 ∨ new_delivery db1 d) →
  batch_progress (cs ++ [c]) db0 db2.
Proof.
  intros [Hwf Hcov Hmig Hmeta [Hsink Hsseq] Hlog (new & Hev & Hst) (nd & Hdl & Hdst) Hseq]
    Hli Hwf1 Hwf2 He Hins Hext Hsinks Hnew.
  assert (events db2 = events db1 ∧ delivery_sinks db2 = delivery_sinks db1 ∧
    schema_migrations db2 = schema_migrations db1 ∧ spool_metadata db2 = spool_metadata db1 ∧
    sink_seq db2 = sink_seq db1) as (E1 & E2 & E3 & E4 & E5)
    by (destruct Hext as [-> _]; done).
  assert (delivery_sinks db1 = delivery_sinks db ∧ sink_seq db1 = sink_seq db ∧
    schema_migrations db1 = schema_migrations db ∧ spool_metadata db1 = spool_metadata db ∧
    deliveries db1 = deliveries db) as (F1 & F2 & F3 & F4 & F5)
    by (destruct ins; [destruct Hins as (t & ->) | subst]; done).
  split; try congruence; auto.
  - intros Hc0. destruct ins; [|subst db1; apply (covered_extends db); [by apply Hcov | exact Hext]].
    destruct Hins as (t & ->).
    assert (event_retained (set_events (events db ++ [event_row c t q]) q db) q = true) as Hr.
    { apply event_retained_true. exists (event_row c t q). simpl.
      by rewrite elem_of_snoc; auto. }
    apply (covered_insert db (event_row c t q) q db2);
      [by apply Hcov | exact Hr | exact Hext | exact Hsinks].
  - split; congruence.
  - rewrite log_insert_all_app, Hlog. simpl. rewrite Hli. f_equal.
    symmetry. by apply event_log_ext.
  - rewrite E1. destruct ins.
    + destruct Hins as (t & ->). exists (new ++ [event_row c t q]). simpl.
      split; [by rewrite Hev, app_assoc|]. apply Forall_app. split.
      * eapply Forall_impl; [exact Hst|]. intros e (c' & Hc' & Hs).
        exists c'. by rewrite elem_of_snoc; auto.
      * constructor; [|constructor]. exists c. rewrite elem_of_snoc.
        split; [by right | apply stores_event_row].
    + subst db1. exists new. split; [done|].
      eapply Forall_impl; [exact Hst|]. intros e (c' & Hc' & Hs).
      exists c'. by rewrite elem_of_snoc; auto.
  - destruct Hext as [_ (l & Hl)]. exists (nd ++ l).
    split; [by rewrite Hl, F5, Hdl, app_assoc|]. apply Forall_app. split.
    + eapply Forall_impl; [exact Hdst|]. intros d. apply new_delivery_mono; [|congruence].
      rewrite E1. intros e He'. destruct ins; [destruct Hins as (t & ->) | by subst].
      simpl. rewrite elem_of_snoc. by left.
    + eapply Forall_impl;
        [eapply new_deliveries_tail; [exact Hl | exact Hnew | by apply wf_NoDup_deliveries]|].
      intros d. apply new_delivery_mono; [by rewrite E1 | done].
  - rewrite E1. intros E0. assert (event_seq db2 = event_seq db1) as ->
      by (destruct Hext as [-> _]; done).
    destruct ins; [|subst db1; auto]. destruct Hins as (t & ->). exfalso. simpl in E0.
    apply (f_equal length) in E0. rewrite Hev, !length_app in E0. simpl in E0. lia.
Qed.

(** ** The loop over the events *)

Lemma validate_digest b c i :
  validateCapturedEvent b c i = None → ce_PayloadSHA256 c = Sum256 (ce_Payload c).
Proof.
  unfold validateCapturedEvent.
  destruct (_ || _); [done|]. destruct (_ || _); [done|].
  destruct (negb _) eqn:E; [done|]. breflect. auto.
Qed.

(** Why a batch is refused when no call fails. *)
Definition batch_refused (b : CommittedBatch) (db0 : DB) (e : error) : Prop :=
  (cb_CommitEndLSN b < cb_CommitLSN b ∧ errors_is e ErrDurability = true) ∨
  (∃ i c, cb_Events b !! i = Some c ∧
     validateCapturedEvent b c (Z.of_nat i) = Some e) ∨
  (log_insert_all (event_log db0) (cb_Events b) = None ∧
   errors_is e ErrIdentityConflict = true).

(** The batch passes the checks of [validateCapturedEvent]. *)
Definition events_valid (b : CommittedBatch) (cs : list CapturedEvent) : Prop :=
  ∀ i c, cs !! i = Some c → validateCapturedEvent b c (Z.of_nat i) = None.

Definition batch_valid (b : CommittedBatch) : Prop :=
  cb_CommitLSN b <= cb_CommitEndLSN b ∧ events_valid b (cb_Events b).

Lemma events_valid_snoc b cs c :
  events_valid b cs → validateCapturedEvent b c (Z.of_nat (length cs)) = None →
  events_valid b (cs ++ [c]).
Proof.
  intros Hcs Hc i x Hx. apply lookup_app_Some in Hx as [Hx|[Hi Hx]]; [by apply Hcs|].
  apply list_lookup_singleton_Some in Hx as [Hz ->].
  by replace i with (length cs) by lia.
Qed.

Definition loop_inv (b : CommittedBatch) (db0 : DB) (cs : list CapturedEvent) (r : PersistResult)
    (w : World DB) : Prop :=
  disk w = db0 ∧ events_valid b cs ∧ ∃ db, txn w = Some db ∧ batch_progress cs db0 db ∧
  pr_Inserted r = Z.of_nat (length (events db)) - Z.of_nat (length (events db0)) ∧
  pr_Inserted r + pr_Replayed r = Z.of_nat (length cs).

(** The outcome of the loop, and of the whole transaction before its commit. *)
Definition failed_before_commit (hooks : Hooks) (b : CommittedBatch) (env : Env) (db0 : DB)
    {A} (o : outcome A) (w' : World DB) : Prop :=
  match o with
  | Ok _ => False
  | Fail e => disk w' = db0 ∧ (faulty env ∨ batch_refused b db0 e)
  | Crash => disk w' = db0 ∧ hooks ≠ no_hooks
  end.

Lemma persist_event_wp hooks b env db0 cs c rest r w :
  cb_Events b = cs ++ c :: rest → loop_inv b db0 cs r w →
  wp (persist_event hooks b (Z.of_nat (length cs)) c r) env w (λ o w', match o with
    | Ok r' => loop_inv b db0 (cs ++ [c]) r' w'
    | Fail e => disk w' = db0 ∧ (faulty env ∨ batch_refused b db0 e)
    | Crash => disk w' = db0 ∧ hooks ≠ no_hooks
    end).
Proof.
  intros Hb (Hd & Hval & db & Ht & Hbp & Hins & Hsum). unfold persist_event.
  destruct (validateCapturedEvent _ _ _) as [e|] eqn:Ev.
  { wp_step. split; [done|]. right. right. left. exists (length cs), c.
    split; [|done]. rewrite Hb. by apply list_lookup_middle. }
  pose proof (events_valid_snoc _ _ _ Hval Ev) as Hval'.
  apply validate_digest in Ev. wp_step.
  eapply wp_mono; [apply (insertOrVerify_wp c env w db Ht (bp_wf _ _ _ Hbp) Ev)|].
  intros [[ins q]|e|] w1 Hpost; [| |done].
  2: { destruct Hpost as (Hd1 & Hf). split; [congruence|].
       destruct Hf as [?|[Hli He]]; [by left|]. right. right. right. split; [|done].
       rewrite Hb, log_insert_all_app, (bp_log _ _ _ Hbp). simpl. by rewrite Hli. }
  destruct Hpost as (db1 & Hd1 & Ht1 & Hwf1 & Hli & He & Hins1). wp_step.
  eapply wp_mono; [apply (ensureDeliveries_wp q env w1 db1 Ht1 Hwf1)|].
  intros [[]|e|] w2 Hpost; [| |done].
  2: { destruct Hpost as [Hd2 Hf]. split; [congruence | by left]. }
  destruct Hpost as (db2 & Hd2 & Ht2 & Hwf2 & Hext & Hsinks & Hnew).
  do 2 wp_step.
  { intros Hh. split; [congruence|]. intros ->. done. }
  wp_step. split; [congruence|]. split; [done|]. exists db2. split; [done|].
  split; [by eapply batch_progress_step|].
  assert (events db2 = events db1) as -> by (by destruct Hext as [-> _]).
  destruct ins; [destruct Hins1 as (t & ->) | subst db1]; simpl;
    rewrite ?length_app; simpl; lia.
Qed.

Lemma persist_loop_wp hooks b env w :
  db_wf (disk w) → txn w = Some (disk w) →
  wp (for_range (cb_Events b) 0 (MkResult 0 0 0) (persist_event hooks b)) env w
    (λ o w', match o with
      | Ok r => loop_inv b (disk w) (cb_Events b) r w'
      | o => failed_before_commit hooks b env (disk w) o w'
      end).
Proof.
  intros Hwf Ht.
  apply (wp_for_range (loop_inv b (disk w))).
  - intros cs c rest r w1 Hb HI.
    eapply wp_mono; [by eapply persist_event_wp|]. by intros [r'|e|] w2.
  - done.
  - split; [done|]. split; [by intros i c|]. exists (disk w). split; [done|].
    split; [by apply batch_progress_refl|]. simpl. lia.
Qed.

(** ** The checkpoint and the commit *)

Lemma lastDurableLSNTx_wp env (w : World DB) db ck (Q : outcome (result LSN) → World DB → Prop) :
  txn w = Some db → checkpoint db = Some ck →
  (∀ e k, faulty env → Q (Ok (inl e)) (MkWorld (disk w) (Some db) k)) →
  (∀ k, Q (Ok (inr ck)) (MkWorld (disk w) (Some db) k)) →
  wp lastDurableLSNTx env w Q.
Proof.
  intros Ht Hck Hf Hok. unfold lastDurableLSNTx. wp_step. eapply wp_exec_txn; [done| |].
  - intros n m k [H|H]; [|done]. wp_step. auto.
  - intros n db' a k [= <- <-]. wp_step. revert Hck. unfold checkpoint.
    destruct (_ !! _); [|by intros [= <-]].
    destruct (ParseLSN _); [by intros [= <-] | done].
Qed.

(** The database after a complete batch. *)
Definition batch_stored (b : CommittedBatch) (db0 : DB) (ck : LSN) (db' : DB) : Prop :=
  ∃ db, batch_progress (cb_Events b) db0 db ∧
    db' = if ck <? cb_CommitEndLSN b
          then set_metadata (<[durableLSNKey := LSN_String (cb_CommitEndLSN b)]>
                               (spool_metadata db)) db
          else db.

Definition counts_ok (b : CommittedBatch) (db0 db' : DB) (r : PersistResult) : Prop :=
  pr_Inserted r = Z.of_nat (length (events db')) - Z.of_nat (length (events db0)) ∧
  pr_Inserted r + pr_Replayed r = Z.of_nat (length (cb_Events b)).

(** What [PersistCommittedBatch] can do, in every environment. *)
Definition persist_post (hooks : Hooks) (b : CommittedBatch) (env : Env) (db0 : DB) (ck : LSN)
    (o : outcome PersistResult) (w' : World DB) : Prop :=
  match o with
  | Ok r => txn w' = None ∧ batch_stored b db0 ck (disk w') ∧
      counts_ok b db0 (disk w') r ∧ pr_DurableLSN r = Z.max ck (cb_CommitEndLSN b) ∧
      batch_valid b
  | Fail e => txn w' = None ∧
      ((disk w' = db0 ∧ (faulty env ∨ batch_refused b db0 e)) ∨
       (batch_stored b db0 ck (disk w') ∧ faulty env))
  | Crash => hooks ≠ no_hooks ∧ (disk w' = db0 ∨ batch_stored b db0 ck (disk w'))
  end.

Lemma persist_checkpoint_wp hooks b env db0 ck r w :
  checkpoint db0 = Some ck → cb_CommitLSN b <= cb_CommitEndLSN b → loop_inv b db0 (cb_Events b) r w →
  wp (persist_checkpoint hooks b r) env w (λ o w', match o with
    | Fail e => persist_post hooks b env db0 ck (Fail e) (MkWorld (disk w') None (tick w'))
    | o => persist_post hooks b env db0 ck o w'
    end).
Proof.
  intros Hck Hle (Hd & Hval & db & Ht & Hbp & Hins & Hsum). unfold persist_checkpoint. wp_step.
  eapply lastDurableLSNTx_wp; [done| | |].
  { instantiate (1 := ck). revert Hck. unfold checkpoint.
    by rewrite (bp_metadata _ _ _ Hbp). }
  { intros e k Hf. wp_step. split; [done|]. left. simpl. auto. }
  intros k. simpl. rewrite Hd.
  set (stored := if ck <? cb_CommitEndLSN b
          then set_metadata (<[durableLSNKey := LSN_String (cb_CommitEndLSN b)]>
                               (spool_metadata db)) db
          else db).
  assert (batch_stored b db0 ck stored) as Hst by (exists db; done).
  assert (∀ k' env', env' = env →
    wp (commit_tx (durability "commit batch: %v");;
        CallAfterSpoolCommit hooks;;
        mret (MkResult (pr_Inserted r) (pr_Replayed r) (Z.max ck (cb_CommitEndLSN b))))
      env' (MkWorld db0 (Some stored) k') (λ o w', match o with
    | Fail e => persist_post hooks b env db0 ck (Fail e) (MkWorld (disk w') None (tick w'))
    | o => persist_post hooks b env db0 ck o w'
    end)) as Hcommit.
  { intros k' env' ->. wp_step. eapply wp_commit; [done| | |].
    - intros k2 Hf. split; [done|]. left. simpl. auto.
    - intros k2 Hf. split; [done|]. right. simpl. auto.
    - intros k2. do 2 wp_step.
      + intros Hh. split; [intros ->; done | by right].
      + wp_step. do 2 (split; [done|]). split; [|by repeat split]. simpl.
        unfold counts_ok. simpl. split; [|done]. rewrite Hins. unfold stored. by destruct (ck <? _). }
  wp_step. destruct (ck <? cb_CommitEndLSN b) eqn:Elt.
  - wp_step. eapply wp_run_txn; [done| |].
    + intros n k' [Hf|(m & Hm)]; [|done]. split; [done|]. left. simpl. auto.
    + intros n db' [] k' [= <-]. wp_step. breflect.
      rewrite Z.max_r in Hcommit by lia. by apply Hcommit.
  - wp_step. breflect. rewrite Z.max_l in Hcommit by lia. by apply Hcommit.
Qed.

Lemma PersistCommittedBatch_wp hooks b env w ck :
  db_wf (disk w) → txn w = None → checkpoint (disk w) = Some ck →
  wp (PersistCommittedBatch hooks b) env w (persist_post hooks b env (disk w) ck).
Proof.
  intros Hwf Ht Hck. unfold PersistCommittedBatch. wp_step. wp_step.
  { split; [done|]. left. split; [done|]. right. left. breflect.
    split; [done | apply errors_is_wrapf]. }
  do 2 wp_step.
  { intros Hh. split; [intros ->; done | by left]. }
  do 2 wp_step.
  { split; [done|]. left. simpl. auto. }
  wp_step. wp_step.
  eapply wp_mono; [by apply persist_loop_wp|]. simpl.
  intros [r|e|] w' Hl.
  - eapply wp_mono; [apply persist_checkpoint_wp; try done; by breflect|].
    by intros [?|?|] ?.
  - simpl. split; [done|]. left. exact Hl.
  - simpl in Hl |- *. split; [apply Hl | left; apply Hl].
Qed.

End StoreFacts.
