(* ===== verification/StoreProps.v ===== *)
(** * StoreProps: what capture persistence guarantees

    The properties of [PersistCommittedBatch] and of the durable checkpoint,
    for every environment: whatever calls fail, whenever the process dies. *)

From S2P Require Import Prelude Rows Text Timestamp Sha256 Runtime Spool.
From S2P Require Import Schema SchemaFacts Store StoreFacts.

Section LogFacts.

Lemma log_digest_app k l l' :
  log_digest k (l ++ l') =
  match log_digest k l with Some d => Some d | None => log_digest k l' end.
Proof.
  unfold log_digest. induction l as [|x l IH]; simpl; [done|].
  by destruct (bool_decide (x.1 = k)).
Qed.

Lemma log_insert_digest l c l' :
  log_insert l c = Some l' → log_digest (ce_key c) l' = Some (ce_PayloadSHA256 c).
Proof.
  unfold log_insert. destruct (log_digest (ce_key c) l) as [d|] eqn:E.
  - destruct (decide _) as [->|]; [|done]. by intros [= <-].
  - intros [= <-]. rewrite log_digest_app, E.
    unfold log_digest. simpl. by rewrite bool_decide_eq_true_2.
Qed.

Lemma log_insert_keeps l c l' k d :
  log_insert l c = Some l' → log_digest k l = Some d → log_digest k l' = Some d.
Proof.
  unfold log_insert. destruct (log_digest (ce_key c) l).
  - destruct (decide _); [|done]. by intros [= <-].
  - intros [= <-] H. by rewrite log_digest_app, H.
Qed.

Lemma log_insert_all_keeps l cs l' k d :
  log_insert_all l cs = Some l' → log_digest k l = Some d → log_digest k l' = Some d.
Proof.
  revert l. induction cs as [|c cs IH]; intros l H Hk; simpl in H; [by injection H as <-|].
  destruct (log_insert l c) eqn:E; [|done]. eapply IH; [done|]. by eapply log_insert_keeps.
Qed.

(** Every event of an accepted batch is in the log with its digest. *)
Lemma log_insert_all_digest l cs l' c :
  log_insert_all l cs = Some l' → c ∈ cs →
  log_digest (ce_key c) l' = Some (ce_PayloadSHA256 c).
Proof.
  revert l. induction cs as [|c' cs IH]; intros l H Hc; simpl in H;
    [by apply not_elem_of_nil in Hc|].
  destruct (log_insert l c') eqn:E; [|done].
  apply elem_of_cons in Hc as [->|Hc]; [|by eapply IH].
  eapply log_insert_all_keeps; [done|]. by eapply log_insert_digest.
Qed.

(** A log that has all identities with their digests accepts them again and
    does not grow. *)
Lemma log_insert_all_idem l cs :
  (∀ c, c ∈ cs → log_digest (ce_key c) l = Some (ce_PayloadSHA256 c)) →
  log_insert_all l cs = Some l.
Proof.
  induction cs as [|c cs IH]; intros H; simpl; [done|].
  unfold log_insert. rewrite H by left. rewrite decide_True by done.
  apply IH. intros c' Hc'. apply H. by right.
Qed.

End LogFacts.

Section StoreProps.
Context {codec : LsnCodec}.

Lemma checkpoint_set_metadata db l :
  in_uint64 l →
  checkpoint (set_metadata (<[durableLSNKey := LSN_String l]> (spool_metadata db)) db) = Some l.
Proof.
  intros Hl. unfold checkpoint. simpl. rewrite lookup_insert_eq.
  by apply ParseLSN_String.
Qed.

Lemma batch_stored_log b db0 ck db' :
  batch_stored b db0 ck db' →
  log_insert_all (event_log db0) (cb_Events b) = Some (event_log db').
Proof.
  intros (db & Hbp & ->). rewrite (bp_log _ _ _ Hbp). by destruct (ck <? _).
Qed.

Lemma batch_stored_checkpoint b db0 ck db' :
  in_uint64 (cb_CommitEndLSN b) → checkpoint db0 = Some ck →
  batch_stored b db0 ck db' → checkpoint db' = Some (Z.max ck (cb_CommitEndLSN b)).
Proof.
  intros Hl Hck (db & Hbp & ->). destruct (ck <? _) eqn:E; breflect.
  - rewrite Z.max_r by lia. by apply checkpoint_set_metadata.
  - rewrite Z.max_l by lia. transitivity (checkpoint db0); [|done]. unfold checkpoint.
    by rewrite (bp_metadata _ _ _ Hbp).
Qed.

Lemma batch_stored_wf b db0 ck db' :
  batch_stored b db0 ck db' → db_wf db' ∧ (db_covered db0 → db_covered db').
Proof.
  intros (db & Hbp & ->). destruct Hbp.
  destruct (ck <? _); [|done]. split; [by apply set_metadata_wf | done].
Qed.

Lemma batch_stored_spec b db0 ck db' a :
  in_uint64 (cb_CommitEndLSN b) → represents db0 a → checkpoint db0 = Some ck →
  batch_stored b db0 ck db' →
  ∃ a', spec_persist b a = Some a' ∧ represents db' a' ∧
        a_checkpoint a' = Z.max ck (cb_CommitEndLSN b).
Proof.
  intros Hl [Hlog Hck] Hck' Hst. unfold spec_persist.
  rewrite <- Hlog, (batch_stored_log _ _ _ _ Hst).
  rewrite Hck in Hck'. injection Hck' as <-.
  eexists. split; [done|]. split; [|done]. split; [done|].
  exact (batch_stored_checkpoint _ _ _ _ Hl Hck Hst).
Qed.

(** The rows of the old tables are untouched and stay in front. *)
Definition rows_kept (db0 db' : DB) : Prop :=
  (∃ l, events db' = events db0 ++ l) ∧ (∃ l, deliveries db' = deliveries db0 ++ l) ∧
  delivery_sinks db' = delivery_sinks db0.

Lemma batch_stored_rows b db0 ck db' : batch_stored b db0 ck db' → rows_kept db0 db'.
Proof.
  intros (db & [] & ->). destruct bp_events as (l & E & _), bp_deliveries as (l' & E' & _).
  unfold rows_kept. destruct (ck <? _); simpl; (split; [eauto|]; split; [eauto|apply bp_sinks]).
Qed.

(** C2. Refinement: [PersistCommittedBatch] implements the abstract operation
    that stores all events of a batch together with its checkpoint or
    nothing.  A successful call returns the new checkpoint and the number of
    new log entries; a failed or killed call leaves either the old abstract
    spool or the complete new one, never a part of the batch. *)
Theorem persist_refines hooks b env w a :
  db_wf (disk w) → txn w = None → represents (disk w) a →
  in_uint64 (cb_CommitEndLSN b) →
  match PersistCommittedBatch hooks b env w with
  | (Ok r, w') => ∃ a', spec_persist b a = Some a' ∧ represents (disk w') a' ∧
      pr_DurableLSN r = a_checkpoint a' ∧
      pr_Inserted r = Z.of_nat (length (a_log a')) - Z.of_nat (length (a_log a)) ∧
      pr_Inserted r + pr_Replayed r = Z.of_nat (length (cb_Events b))
  | (_, w') => represents (disk w') a ∨
      ∃ a', spec_persist b a = Some a' ∧ represents (disk w') a'
  end.
Proof.
  intros Hwf Ht Hrep Hl. pose proof (proj2 Hrep) as Hck.
  pose proof (PersistCommittedBatch_wp hooks b env w _ Hwf Ht Hck) as H.
  apply wp_elim in H. destruct (PersistCommittedBatch _ _ _ _) as [[r|e|] w']; simpl in H.
  - destruct H as (_ & Hst & [Hn Hs] & Hd & _).
    destruct (batch_stored_spec _ _ _ _ _ Hl Hrep Hck Hst) as (a' & Hsp & Hr' & Hm).
    exists a'. split; [done|]. split; [done|]. split; [congruence|]. split; [|done].
    destruct Hrep as [<- _], Hr' as [<- _]. unfold event_log. rewrite !length_map. lia.
  - destruct H as (_ & [[-> _]|[Hst _]]); [by left|]. right.
    destruct (batch_stored_spec _ _ _ _ _ Hl Hrep Hck Hst) as (a' & ? & ? & _). eauto.
  - destruct H as (_ & [->|Hst]); [by left|]. right.
    destruct (batch_stored_spec _ _ _ _ _ Hl Hrep Hck Hst) as (a' & ? & ? & _). eauto.
Qed.
(** C8. Invariant: in every outcome, an error and the death of the process
    included, the spool on disk keeps its type invariant and the coverage of
    retained events by deliveries to active sinks, and no existing event,
    delivery or sink row is changed or reordered. *)
Theorem persist_invariant hooks b env w ck :
  db_wf (disk w) → db_covered (disk w) → txn w = None → checkpoint (disk w) = Some ck →
  let w' := recover (PersistCommittedBatch hooks b env w).2 in
  db_wf (disk w') ∧ db_covered (disk w') ∧ rows_kept (disk w) (disk w').
Proof.
  intros Hwf Hcov Ht Hck. cbv zeta.
  pose proof (PersistCommittedBatch_wp hooks b env w _ Hwf Ht Hck) as H.
  apply wp_elim in H. destruct (PersistCommittedBatch _ _ _ _) as [o w']. simpl in *.
  assert (disk w' = disk w ∨ batch_stored b (disk w) ck (disk w')) as [->|Hst].
  { destruct o as [r|e|]; simpl in H.
    - right. apply H.
    - destruct H as (_ & [[? _]|[? _]]); auto.
    - destruct H as (_ & [?|?]); auto. }
  - split; [done|]. split; [done|]. repeat split; try done; exists []; by rewrite app_nil_r.
  - destruct (batch_stored_wf _ _ _ _ Hst). split; [done|]. split; [auto|].
    by eapply batch_stored_rows.
Qed.

(** C25. Without failing calls and with inert hooks, a well-formed batch is
    stored exactly when the abstract log accepts it; otherwise the call
    fails with [ErrIdentityConflict] and the spool is as before, so the
    original payload stays. *)
Theorem persist_decides b env w a :
  db_wf (disk w) → txn w = None → represents (disk w) a →
  in_uint64 (cb_CommitEndLSN b) → batch_valid b → ¬ faulty env →
  match spec_persist b a, PersistCommittedBatch no_hooks b env w with
  | Some a', (Ok r, w') => represents (disk w') a' ∧ pr_DurableLSN r = a_checkpoint a'
  | None, (Fail e, w') => errors_is e ErrIdentityConflict = true ∧ disk w' = disk w
  | _, _ => False
  end.
Proof.
  intros Hwf Ht Hrep Hl [Hle Hval] Hnf. pose proof (proj2 Hrep) as Hck.
  pose proof (PersistCommittedBatch_wp no_hooks b env w _ Hwf Ht Hck) as H.
  apply wp_elim in H. destruct (PersistCommittedBatch _ _ _ _) as [[r|e|] w']; simpl in H.
  - destruct H as (_ & Hst & _ & Hd & _).
    destruct (batch_stored_spec _ _ _ _ _ Hl Hrep Hck Hst) as (a' & -> & Hr' & Hm).
    split; [done | congruence].
  - destruct H as (_ & [[Hd [?|Href]]|[_ ?]]); [done | | done].
    destruct Href as [[? _]|[(i & c & Hi & Hv)|[Hlog He]]].
    + lia.
    + rewrite (Hval i c Hi) in Hv. done.
    + unfold spec_persist. destruct Hrep as [<- _]. by rewrite Hlog.
  - by destruct H as [? _].
Qed.

(** Deliveries that a replay could add are there already. *)
Lemma no_new_deliveries db0 db new :
  db_covered db0 → events db = events db0 → delivery_sinks db = delivery_sinks db0 →
  NoDup (map delivery_key (deliveries db0 ++ new)) → Forall (new_delivery db) new → new = [].
Proof.
  intros Hcov He Hs Hnd Hnew. destruct new as [|d new]; [done|]. exfalso.
  apply Forall_cons in Hnew as [(_ & _ & e & s & H1 & H2 & H3 & H4 & H5 & H6) _].
  rewrite He in H1. rewrite Hs in H4.
  destruct (Hcov e s H1 H2 H4 H5) as (d' & Hd' & K1 & K2).
  rewrite map_app in Hnd. apply NoDup_app in Hnd as (_ & Hdis & _).
  apply (Hdis (delivery_key d)).
  - apply elem_of_map_row. exists d'. split; [done|]. unfold delivery_key. congruence.
  - simpl. left.
Qed.

(** C26. Replay: persisting a batch again after a successful call, in another
    environment without failing calls, succeeds, inserts nothing, counts
    every event as replayed, returns the same checkpoint and leaves the file
    as it was. *)
Theorem persist_replay hooks b env w ck r1 w1 env2 :
  db_wf (disk w) → db_covered (disk w) → txn w = None → checkpoint (disk w) = Some ck →
  in_uint64 (cb_CommitEndLSN b) →
  PersistCommittedBatch hooks b env w = (Ok r1, w1) → ¬ faulty env2 →
  ∃ w2, PersistCommittedBatch no_hooks b env2 w1 =
          (Ok (MkResult 0 (Z.of_nat (length (cb_Events b))) (pr_DurableLSN r1)), w2) ∧
        disk w2 = disk w1.
Proof.
  intros Hwf Hcov Ht Hck Hl E1 Hnf.
  pose proof (PersistCommittedBatch_wp hooks b env w _ Hwf Ht Hck) as H.
  apply wp_elim in H. rewrite E1 in H. simpl in H.
  destruct H as (Ht1 & Hst & _ & Hd1 & [Hle Hval]).
  destruct (batch_stored_wf _ _ _ _ Hst) as [Hwf1 Hcov1]. specialize (Hcov1 Hcov).
  pose proof (batch_stored_checkpoint _ _ _ _ Hl Hck Hst) as Hck1.
  assert (log_insert_all (event_log (disk w1)) (cb_Events b) = Some (event_log (disk w1)))
    as Hidem.
  { apply log_insert_all_idem. intros c Hc.
    eapply log_insert_all_digest; [by eapply batch_stored_log | done]. }
  pose proof (PersistCommittedBatch_wp no_hooks b env2 w1 _ Hwf1 Ht1 Hck1) as H.
  apply wp_elim in H.
  destruct (PersistCommittedBatch no_hooks b env2 w1) as [[r2|e|] w2]; simpl in H.
  2: { destruct H as (_ & [[_ [?|Href]]|[_ ?]]); [done | exfalso | done].
       destruct Href as [[? _]|[(i & c & Hi & Hv)|[Hlog _]]];
         [lia | rewrite (Hval i c Hi) in Hv; done | congruence]. }
  2: { by destruct H as [? _]. }
  destruct H as (_ & (db & [Hwf2 _ Hmig Hmeta [Hs Hss] Hlog (ne & He & _) (nd & Hd & Hnd) Hseq] & Hdisk)
    & [Hc1 Hc2] & Hd2 & _).
  rewrite Hidem in Hlog. injection Hlog as Hlog.
  assert (ne = []) as ->.
  { apply (f_equal length) in Hlog. unfold event_log in Hlog.
    rewrite !length_map, He, length_app in Hlog. destruct ne; [done | simpl in Hlog; lia]. }
  rewrite app_nil_r in He.
  assert (nd = []) as ->.
  { eapply (no_new_deliveries (disk w1) db); eauto. rewrite <- Hd. apply wf_delivery_keys, Hwf2. }
  rewrite app_nil_r in Hd.
  replace (Z.max ck (cb_CommitEndLSN b) <? cb_CommitEndLSN b) with false in Hdisk
    by (symmetry; apply Z.ltb_ge; lia).
  exists w2. split.
  - f_equal. f_equal. destruct r2. simpl in *. rewrite Hdisk, He in Hc1. f_equal; lia.
  - specialize (Hseq He). rewrite Hdisk. destruct db, (disk w1). simpl in *. subst. f_equal.
Qed.

End StoreProps.
