(* ===== verification/SpoolInterface.v ===== *)
(** * SpoolInterface: what [spool.Spool] promises to the replicator

    [SpoolStore] states the contract of the Go interface in terms of the
    abstract spool: a call persists a whole batch or nothing, in every
    environment, and the checkpoint read back is the abstract one.  The
    SQLite store discharges it. *)

From S2P Require Import Prelude Rows Text Timestamp Sha256 Runtime Spool.
From S2P Require Import Schema SchemaFacts Store StoreFacts StoreProps.

Class SpoolStore (D : Type) := {
  sp_Persist : CommittedBatch → M D PersistResult;
  sp_LastDurableLSN : M D LSN;
  sp_ok : D → Prop;
  sp_abs : D → SpoolAbs → Prop;
  sp_Persist_spec : ∀ b env w a,
    sp_ok (disk w) → txn w = None → sp_abs (disk w) a → in_uint64 (cb_CommitEndLSN b) →
    wp (sp_Persist b) env w (λ o w', sp_ok (disk w') ∧
      match o with
      | Ok r => txn w' = None ∧ ∃ a', spec_persist b a = Some a' ∧ sp_abs (disk w') a' ∧
          pr_DurableLSN r = a_checkpoint a'
      | Fail _ => txn w' = None ∧ (sp_abs (disk w') a ∨
          ∃ a', spec_persist b a = Some a' ∧ sp_abs (disk w') a')
      | Crash => sp_abs (disk w') a ∨ ∃ a', spec_persist b a = Some a' ∧ sp_abs (disk w') a'
      end);
  sp_Last_spec : ∀ env w a,
    txn w = None → sp_abs (disk w) a →
    wp sp_LastDurableLSN env w (λ o w', disk w' = disk w ∧ txn w' = None ∧
      match o with
      | Ok l => l = a_checkpoint a
      | Fail _ => faulty env
      | Crash => False
      end);
}.

Section Sqlite.
Context {codec : LsnCodec}.

Lemma sqlite_persist_spec hooks b env (w : World DB) a :
  db_wf (disk w) ∧ db_covered (disk w) → txn w = None → represents (disk w) a →
  in_uint64 (cb_CommitEndLSN b) →
  wp (PersistCommittedBatch hooks b) env w (λ o w', (db_wf (disk w') ∧ db_covered (disk w')) ∧
    match o with
    | Ok r => txn w' = None ∧ ∃ a', spec_persist b a = Some a' ∧ represents (disk w') a' ∧
        pr_DurableLSN r = a_checkpoint a'
    | Fail _ => txn w' = None ∧ (represents (disk w') a ∨
        ∃ a', spec_persist b a = Some a' ∧ represents (disk w') a')
    | Crash => represents (disk w') a ∨
        ∃ a', spec_persist b a = Some a' ∧ represents (disk w') a'
    end).
Proof.
  intros [Hwf Hcov] Ht Hrep Hl. pose proof (proj2 Hrep) as Hck.
  assert (∀ db', batch_stored b (disk w) (a_checkpoint a) db' →
    (db_wf db' ∧ db_covered db') ∧ ∃ a', spec_persist b a = Some a' ∧ represents db' a' ∧
      a_checkpoint a' = Z.max (a_checkpoint a) (cb_CommitEndLSN b)) as Hst.
  { intros db' Hst. destruct (batch_stored_wf _ _ _ _ Hst) as [? Hc].
    split; [auto|]. by eapply batch_stored_spec. }
  eapply wp_mono; [by apply (PersistCommittedBatch_wp hooks b env w _ Hwf Ht Hck)|].
  intros [r|e|] w' H; simpl in H.
  - destruct H as (Ht' & Hs & _ & Hd & _). destruct (Hst _ Hs) as (Hok & a' & ? & ? & Hm).
    split; [done|]. split; [done|]. exists a'. split; [done|]. split; [done|]. congruence.
  - destruct H as (Ht' & [[-> _]|[Hs _]]); [auto|].
    destruct (Hst _ Hs) as (Hok & a' & ? & ? & Hm). eauto 10.
  - destruct H as (_ & [->|Hs]); [auto|]. destruct (Hst _ Hs) as (Hok & a' & ? & ? & Hm). eauto 10.
Qed.

Lemma LastDurableLSN_wp env (w : World DB) ck (Q : outcome LSN → World DB → Prop) :
  txn w = None → checkpoint (disk w) = Some ck →
  (∀ k, faulty env → Q (Fail (errorf "read durable LSN: %w")) (MkWorld (disk w) None k)) →
  (∀ k, Q (Ok ck) (MkWorld (disk w) None k)) →
  wp LastDurableLSN env w Q.
Proof.
  intros Ht Hck Hf Hok. unfold LastDurableLSN. wp_step. apply wp_query_auto; [done|done|].
  intros k. revert Hck. unfold checkpoint. destruct (_ !! _) as [v|]; simpl.
  - destruct (ParseLSN v); [|done]. intros [= ->]. by wp_step.
  - intros [= <-]. by wp_step.
Qed.

Lemma sqlite_last_spec env (w : World DB) a :
  txn w = None → represents (disk w) a →
  wp LastDurableLSN env w (λ o w', disk w' = disk w ∧ txn w' = None ∧
    match o with Ok l => l = a_checkpoint a | Fail _ => faulty env | Crash => False end).
Proof.
  intros Ht [_ Hck]. by apply (LastDurableLSN_wp env w (a_checkpoint a)).
Qed.

(** The SQLite store is a spool. *)
#[global] Instance sqlite_spool (hooks : Hooks) : SpoolStore DB := {
  sp_Persist := PersistCommittedBatch hooks;
  sp_LastDurableLSN := LastDurableLSN;
  sp_ok := λ db, db_wf db ∧ db_covered db;
  sp_abs := represents;
  sp_Persist_spec := sqlite_persist_spec hooks;
  sp_Last_spec := sqlite_last_spec;
}.

End Sqlite.

(** Round trip of the checkpoint: after a successful
    [PersistCommittedBatch], [LastDurableLSN] returns the reported position,
    in any later environment in which its read succeeds, and changes
    nothing. *)
Theorem checkpoint_readback {codec : LsnCodec} hooks b env w ck r w' env2 :
  db_wf (disk w) → txn w = None → checkpoint (disk w) = Some ck →
  in_uint64 (cb_CommitEndLSN b) →
  PersistCommittedBatch hooks b env w = (Ok r, w') →
  match LastDurableLSN env2 w' with
  | (Ok l, w2) => l = pr_DurableLSN r ∧ l = Z.max ck (cb_CommitEndLSN b) ∧ disk w2 = disk w'
  | (Fail _, w2) => faulty env2 ∧ disk w2 = disk w'
  | (Crash, _) => False
  end.
Proof.
  intros Hwf Ht Hck Hl E. pose proof (PersistCommittedBatch_wp hooks b env w _ Hwf Ht Hck) as H.
  apply wp_elim in H. rewrite E in H. simpl in H. destruct H as (Ht' & Hst & _ & Hd & _).
  pose proof (batch_stored_checkpoint _ _ _ _ Hl Hck Hst) as Hck'.
  assert (wp LastDurableLSN env2 w' (λ o w2, disk w2 = disk w' ∧ match o with
    | Ok l => l = Z.max ck (cb_CommitEndLSN b) | Fail _ => faulty env2 | Crash => False end)) as H
    by (apply (LastDurableLSN_wp env2 w' _ _ Ht' Hck'); auto).
  apply wp_elim in H. destruct (LastDurableLSN env2 w') as [[l|e|] w2]; simpl in H.
  - destruct H as [? ->]. by rewrite Hd.
  - by destruct H.
  - by destruct H.
Qed.
