(* ===== verification/Sinks.v ===== *)
(** * Sinks: sink registration, [ConfigureSinks] of internal/spool/sqlite/sqlite.go

    At start the daemon registers the configured sinks: new names are
    inserted, known ones must keep type and configuration digest, every
    retained event is backfilled, and active sinks that are no longer
    configured are deactivated when nothing is left to deliver to them. *)

From S2P Require Import Prelude Rows Text Timestamp Sha256 Runtime.
From S2P Require Import Schema SchemaFacts Store StoreFacts.

(** [delivery.SinkRegistration]. *)
Record SinkRegistration := MkReg {
  sr_Name : string;
  sr_Type : string;
  sr_ConfigSHA256 : string;
}.

(** ** Operations *)

Definition sink_row (r : SinkRegistration) (now : string) (id : Z) : sink_rec :=
  MkSink id (sr_Name r) (sr_Type r) (sr_ConfigSHA256 r) true now.

(** The third case of the [switch]: another type or another digest. *)
Definition config_differs (r : SinkRegistration) (s : sink_rec) : bool :=
  negb (s_type s =? sr_Type r)%string ||
  negb (String.length (s_sha256 s) =? String.length (sr_ConfigSHA256 r))%nat ||
  negb (s_sha256 s =? sr_ConfigSHA256 r)%string.

(** [SELECT sequence, ?, 'pending', 0, ? FROM events WHERE payload_pruned_at
    IS NULL]. *)
Definition backfill_rows (sinkID : Z) (now : string) (db : DB) : list delivery_rec :=
  map (λ e, pending_delivery (e_sequence e) sinkID now)
    (select (λ e, is_null (e_pruned_at e)) (events db)).

(** One iteration of the loop over the registrations. *)
Definition configure_sink (now : string) (_ : Z) (registration : SinkRegistration)
    (configured : gset string) : M DB (gset string) :=
  reject ((sr_Name registration =? "")%string || (sr_Type registration =? "")%string)
    (durability "sink name and type are required");;
  reject (bool_decide (sr_Name registration ∈ configured)) (durability "duplicate sink %q");;
  row ← run (durability "inspect sink %q: %v")
          (query (λ db, head (select (λ s, (s_name s =? sr_Name registration)%string)
                                (delivery_sinks db))));
  sinkID ← match row with
    | None =>
        id ← run (durability "register sink %q: %v") (insert_sink (sink_row registration now));
        driver_call (durability "inspect registered sink %q: %v");;
        mret id
    | Some s =>
        if config_differs registration s then
          fail (wrapf ErrSinkConfigurationConflict
            "sink=%q; use a new sink name when changing its type or target")
        else
          run (durability "activate sink %q: %v") (update_sink_active (s_id s) true);;
          mret (s_id s)
    end;
  run (durability "backfill sink %q: %v") (insert_deliveries (backfill_rows sinkID now));;
  mret ({[sr_Name registration]} ∪ configured).

(** The scan loop: active sinks whose name is not configured. *)
Definition scan_active (configured : gset string) (_ : Z) (item : sink_rec)
    (deactivate : list sink_rec) : M DB (list sink_rec) :=
  driver_call (durability "scan active sink: %v");;
  mret (if bool_decide (s_name item ∈ configured) then deactivate else deactivate ++ [item]).

(** One iteration of the loop over the sinks to deactivate. *)
Definition deactivate_sink (_ : Z) (item : sink_rec) (_ : unit) : M DB unit :=
  pending ← run (durability "inspect sink %q deliveries: %v")
    (query (λ db, count_where (λ d, (d_sink d =? s_id item) && non_terminal (d_state d))
                    (deliveries db)));
  reject (negb (pending =? 0))
    (errorf "cannot remove active sink %q with %d non-terminal deliveries");;
  run (durability "deactivate sink %q: %v") (update_sink_active (s_id item) false).

(** [(s *Store) ConfigureSinks]. *)
Definition ConfigureSinks (registrations : list SinkRegistration) : M DB unit :=
  begin_tx (durability "begin sink configuration: %v");;
  rollback_on_error (
    t ← now;
    configured ← for_range registrations 0 ∅ (configure_sink (formatTimestamp t));
    active ← run (durability "list active sinks: %v")
               (query (λ db, select s_active (delivery_sinks db)));
    deactivate ← for_range active 0 [] (scan_active configured);
    driver_call (durability "close active sink rows: %v");;
    driver_call (durability "list active sinks: %v");;
    for_range deactivate 0 tt deactivate_sink;;
    commit_tx (durability "commit sink configuration: %v")).

(** ** Specification *)

Definition reg_names (rs : list SinkRegistration) : list string := map sr_Name rs.

(** The row is the registered sink. *)
Definition registers (r : SinkRegistration) (s : sink_rec) : Prop :=
  s_name s = sr_Name r ∧ s_type s = sr_Type r ∧ s_sha256 s = sr_ConfigSHA256 r.

(** Every retained event has a delivery for this sink. *)
Definition sink_covered (db : DB) (sink : Z) : Prop :=
  ∀ e, e ∈ events db → e_pruned_at e = None →
    ∃ d, d ∈ deliveries db ∧ d_event d = e_sequence e ∧ d_sink d = sink.

(** A delivery of this sink is still to be made. *)
Definition sink_busy (db : DB) (s : sink_rec) : Prop :=
  ∃ d, d ∈ deliveries db ∧ d_sink d = s_id s ∧ non_terminal (d_state d) = true.

(** When the code accepts a configuration. *)
Record configure_ok (rs : list SinkRegistration) (db : DB) : Prop := {
  co_named : ∀ r, r ∈ rs → sr_Name r ≠ "" ∧ sr_Type r ≠ "";
  co_distinct : NoDup (reg_names rs);
  co_same : ∀ r s, r ∈ rs → s ∈ delivery_sinks db → s_name s = sr_Name r → registers r s;
  co_idle : ∀ s, s ∈ delivery_sinks db → s_active s = true →
    s_name s ∉ reg_names rs → ¬ sink_busy db s;
}.

(** What holds of the database after the first [rs] registrations. *)
Record sinks_progress (rs : list SinkRegistration) (db0 db : DB) : Prop := {
  sp_wf : db_wf db;
  sp_rest : events db = events db0 ∧ event_seq db = event_seq db0 ∧
    spool_metadata db = spool_metadata db0 ∧ schema_migrations db = schema_migrations db0;
  sp_deliveries : ∃ l, deliveries db = deliveries db0 ++ l ∧
    ∀ d, d ∈ l → ∃ s, s ∈ delivery_sinks db ∧ d_sink d = s_id s ∧ s_name s ∈ reg_names rs ∧
      d_state d = pending;
  sp_registered : ∀ r, r ∈ rs → ∃ s, s ∈ delivery_sinks db ∧ registers r s ∧
    s_active s = true ∧ sink_covered db (s_id s);
  sp_old : ∀ s, s ∈ delivery_sinks db0 →
    with_active (s_active s || bool_decide (s_name s ∈ reg_names rs)) s ∈ delivery_sinks db;
  sp_all : ∀ s, s ∈ delivery_sinks db →
    (∃ s0, s0 ∈ delivery_sinks db0 ∧
       s = with_active (s_active s0 || bool_decide (s_name s0 ∈ reg_names rs)) s0) ∨
    (s_active s = true ∧ s_name s ∈ reg_names rs ∧
     ∀ s0, s0 ∈ delivery_sinks db0 → s_name s0 ≠ s_name s);
}.

(** The database after a successful [ConfigureSinks]. *)
Record sinks_configured (rs : list SinkRegistration) (db0 db : DB) : Prop := {
  sc_wf : db_wf db;
  sc_covered : db_covered db;
  sc_active : ∀ s, s ∈ delivery_sinks db → (s_active s = true ↔ s_name s ∈ reg_names rs);
  sc_registered : ∀ r, r ∈ rs → ∃ s, s ∈ delivery_sinks db ∧ registers r s;
  sc_kept : ∀ s, s ∈ delivery_sinks db0 →
    with_active (bool_decide (s_name s ∈ reg_names rs)) s ∈ delivery_sinks db;
  sc_rest : events db = events db0 ∧ event_seq db = event_seq db0 ∧
    spool_metadata db = spool_metadata db0 ∧ schema_migrations db = schema_migrations db0;
  sc_deliveries : ∃ l, deliveries db = deliveries db0 ++ l ∧
    Forall (λ d, d_state d = pending) l;
}.
