(* ===== verification/SinkFacts.v ===== *)
(** * SinkFacts: what [ConfigureSinks] does, step by step *)

From S2P Require Import Prelude Rows Text Timestamp Sha256 Runtime.
From S2P Require Import Schema SchemaFacts Store StoreFacts Sinks.

(** ** Backfill *)

Lemma elem_of_backfill sid t db d :
  d ∈ backfill_rows sid t db ↔
  ∃ e, e ∈ events db ∧ e_pruned_at e = None ∧ d = pending_delivery (e_sequence e) sid t.
Proof.
  unfold backfill_rows. rewrite elem_of_map_row. setoid_rewrite elem_of_select.
  setoid_rewrite is_null_true.
  split; [intros (e & [? ?] & ->) | intros (e & ? & ? & ->)]; eauto 10.
Qed.

Lemma backfill_acceptable sid t db s :
  db_wf db → s ∈ delivery_sinks db → s_id s = sid →
  Forall (acceptable db) (backfill_rows sid t db).
Proof.
  intros Hwf Hs <-. apply Forall_forall. intros d (e & He & Hn & ->)%elem_of_backfill.
  split; [by apply retained_not_pruned|]. simpl. split; [lia|]. eauto 10.
Qed.

Definition backfilled (sid : Z) (db db' : DB) : Prop :=
  db_wf db' ∧ extends_deliveries db db' ∧ sink_covered db' sid ∧
  ∀ d, d ∈ deliveries db' → d ∈ deliveries db ∨ (d_sink d = sid ∧ d_state d = pending).

Lemma backfill_spec sid t n db db' u :
  db_wf db → insert_deliveries (backfill_rows sid t) n db = inr (db', u) →
  backfilled sid db db'.
Proof.
  intros Hwf H. apply insert_deliveries_inv in H.
  apply insert_delivery_rows_spec in H as (Hwf' & Hext & Hrows & Hnew); [| |done].
  - do 2 (split; [done|]). split.
    + intros e He Hn. assert (events db' = events db) as Ee by (by destruct Hext as [-> _]).
      rewrite Ee in He.
      destruct (Hrows (pending_delivery (e_sequence e) sid t)) as (d & Hd & Hk).
      { apply elem_of_backfill. eauto. }
      exists d. split; [done|]. by injection Hk.
    + intros d [Hd|(e & _ & _ & ->)%elem_of_backfill]%Hnew; [by left | by right].
  - apply Forall_forall. intros d (e & _ & _ & ->)%elem_of_backfill. apply pending_delivery_ok.
Qed.

Lemma backfill_total sid t n db s :
  db_wf db → s ∈ delivery_sinks db → s_id s = sid →
  ∃ db', insert_deliveries (backfill_rows sid t) n db = inr (db', tt).
Proof.
  intros Hwf Hs Hid. unfold insert_deliveries.
  destruct (insert_delivery_rows_total _ _ (backfill_acceptable sid t db s Hwf Hs Hid))
    as (db' & ->). eauto.
Qed.

(** ** One registration *)

Lemma in_reg_names_snoc x rs r :
  bool_decide (x ∈ reg_names (rs ++ [r])) =
  bool_decide (x ∈ reg_names rs) || (x =? sr_Name r)%string.
Proof.
  apply eq_true_iff_eq. rewrite orb_true_iff, !bool_decide_eq_true, String.eqb_eq.
  unfold reg_names. rewrite map_app, elem_of_app. simpl. by rewrite list_elem_of_singleton.
Qed.

Lemma elem_of_reg_names_snoc x rs r :
  x ∈ reg_names (rs ++ [r]) ↔ x ∈ reg_names rs ∨ x = sr_Name r.
Proof.
  unfold reg_names. rewrite map_app, elem_of_app. simpl. by rewrite list_elem_of_singleton.
Qed.

Lemma with_active_id s : with_active (s_active s) s = s.
Proof. by destruct s. Qed.

(** The sinks table after one more registration. *)
Record sink_step (rs : list SinkRegistration) (r : SinkRegistration) (db0 db : DB)
    (l : list sink_rec) (sid : Z) : Prop := {
  ss_new : ∃ s, s ∈ l ∧ registers r s ∧ s_active s = true ∧ s_id s = sid;
  ss_kept : ∀ s, s ∈ delivery_sinks db → s_name s ≠ sr_Name r → s ∈ l;
  ss_from : ∀ s, s ∈ l → s_name s ≠ sr_Name r → s ∈ delivery_sinks db;
  ss_ids : ∀ s, s ∈ delivery_sinks db → ∃ s', s' ∈ l ∧ s_id s' = s_id s ∧ s_name s' = s_name s;
  ss_only : ∀ s, s ∈ l → s_name s = sr_Name r → s_active s = true ∧
    ((∃ s0, s0 ∈ delivery_sinks db0 ∧ s = with_active true s0) ∨
     ∀ s0, s0 ∈ delivery_sinks db0 → s_name s0 ≠ sr_Name r);
  ss_old : ∀ s0, s0 ∈ delivery_sinks db0 → s_name s0 = sr_Name r → with_active true s0 ∈ l;
}.

Lemma sink_step_insert rs r db0 db t id :
  sinks_progress rs db0 db →
  (∀ s, s ∈ delivery_sinks db → s_name s ≠ sr_Name r) →
  sink_step rs r db0 db (delivery_sinks db ++ [sink_row r t id]) id.
Proof.
  intros Hsp Hno. assert (∀ s0, s0 ∈ delivery_sinks db0 → s_name s0 ≠ sr_Name r) as Hno0.
  { intros s0 Hs0. apply (Hno _ (sp_old _ _ _ Hsp s0 Hs0)). }
  split.
  - exists (sink_row r t id). rewrite elem_of_snoc. by split; [right|].
  - intros s Hs _. rewrite elem_of_snoc. by left.
  - intros s [Hs| ->]%elem_of_snoc Hn; [done|]. by destruct Hn.
  - intros s Hs. exists s. rewrite elem_of_snoc. auto.
  - intros s [Hs| ->]%elem_of_snoc Hn; [by destruct (Hno s Hs)|]. auto.
  - intros s0 Hs0 Hn. by destruct (Hno0 s0 Hs0).
Qed.

Lemma sink_step_update rs r db0 db s :
  sinks_progress rs db0 db → sr_Name r ∉ reg_names rs →
  s ∈ delivery_sinks db → s_name s = sr_Name r → config_differs r s = false →
  sink_step rs r db0 db
    (update_where (λ s', s_id s' =? s_id s) (with_active true) (delivery_sinks db)) (s_id s).
Proof.
  intros Hsp Hr Hs Hn Hc. pose proof (sp_wf _ _ _ Hsp) as Hwf.
  assert (∀ s1, s1 ∈ delivery_sinks db → s_name s1 = sr_Name r → s1 = s) as Hu.
  { intros s1 Hs1 E1. apply (NoDup_map_inj s_name (delivery_sinks db)); [apply Hwf|done|done|].
    congruence. }
  assert (∀ s1, s1 ∈ delivery_sinks db → s_id s1 = s_id s → s1 = s) as Hi.
  { intros s1 Hs1 E1. by apply (sinks_unique db). }
  assert (∃ s0, s0 ∈ delivery_sinks db0 ∧ s = s0) as (s0 & Hs0 & ->).
  { destruct (sp_all _ _ _ Hsp s Hs) as [(s0 & Hs0 & ->)|(_ & Hin & _)].
    - exists s0. split; [done|]. simpl in Hn.
      rewrite Hn, bool_decide_eq_false_2, orb_false_r by done. apply with_active_id.
    - rewrite Hn in Hin. done. }
  assert (with_active true s0 ∈ update_where (λ s', s_id s' =? s_id s0) (with_active true)
    (delivery_sinks db)) as Hin.
  { apply elem_of_update_where. exists s0. by rewrite Z.eqb_refl. }
  unfold config_differs in Hc. breflect. split.
  - exists (with_active true s0). split; [done|]. by repeat split.
  - intros s Hs1 Hne. apply elem_of_update_where. exists s. split; [done|].
    destruct (s_id s =? s_id s0) eqn:E; [|done]. breflect. apply Hi in E; [|done]. by subst.
  - intros s (s1 & Hs1 & ->)%elem_of_update_where Hne.
    destruct (s_id s1 =? s_id s0) eqn:E; [|done]. breflect. apply Hi in E; [|done]. by subst.
  - intros s Hs1. exists (if s_id s =? s_id s0 then with_active true s else s).
    split; [apply elem_of_update_where; eauto|]. by destruct (_ =? _).
  - intros s (s1 & Hs1 & ->)%elem_of_update_where Hne.
    destruct (s_id s1 =? s_id s0) eqn:E.
    + breflect. apply Hi in E; [|done]. subst. split; [done|]. left. eauto.
    + assert (s1 = s0) as -> by (by apply Hu). by rewrite Z.eqb_refl in E.
  - intros s1 Hs1 Hne. replace s1 with s0; [done|]. symmetry.
    pose proof (sp_old _ _ _ Hsp s1 Hs1) as Ho. rewrite Hne, (bool_decide_eq_false_2 (_ ∈ _)) in Ho by done.
    rewrite orb_false_r, with_active_id in Ho. by apply Hu.
Qed.

Lemma sinks_progress_step rs r db0 db l n sid db2 :
  sinks_progress rs db0 db → sr_Name r ∉ reg_names rs →
  sink_step rs r db0 db l sid → backfilled sid (set_sinks l n db) db2 →
  sinks_progress (rs ++ [r]) db0 db2.
Proof.
  intros [Hwf Hrest (dl & Hdl & Hdn) Hreg Hold Hall] Hr [Hnew Hkept Hfrom Hids Honly Hss]
    (Hwf2 & Hext & Hcov & Hnd).
  destruct Hext as [E (l' & Hl')]. simpl in Hl'.
  assert (delivery_sinks db2 = l ∧ events db2 = events db) as [Es Ee] by (by rewrite E).
  split.
  - done.
  - rewrite E. exact Hrest.
  - exists (dl ++ l'). split; [by rewrite Hl', Hdl, app_assoc|].
    intros d [Hd|Hd]%elem_of_app.
    + destruct (Hdn d Hd) as (s & Hs & Hds & Hin & Hst).
      destruct (Hids s Hs) as (s' & Hs' & Ei & En). exists s'. rewrite Es, elem_of_reg_names_snoc.
      repeat split; [done | congruence | left; congruence | done].
    + destruct Hnew as (s & Hs & (Hname & _) & _ & Hid). exists s. rewrite Es, elem_of_reg_names_snoc.
      destruct (Hnd d) as [Hd'|[Hd' Hst]]; [rewrite Hl'; apply elem_of_app; by right| |].
      * exfalso. simpl in Hd'. pose proof (wf_delivery_keys _ Hwf2) as Hk.
        rewrite Hl', map_app in Hk. apply NoDup_app in Hk as (_ & Hdis & _).
        apply (Hdis (delivery_key d)); apply elem_of_map_row; eauto.
      * repeat split; [done | congruence | by right | done].
  - intros r' [Hr'| ->]%elem_of_snoc.
    + destruct (Hreg r' Hr') as (s & Hs & Hrs & Ha & Hc). exists s. rewrite Es.
      assert (s_name s ≠ sr_Name r) as Hne.
      { destruct Hrs as [-> _]. intros E'. apply Hr. rewrite <- E'.
        apply elem_of_map_row. eauto. }
      split; [by apply Hkept|]. do 2 (split; [done|]). intros e He Hn.
      rewrite Ee in He. destruct (Hc e He Hn) as (d & Hd & K). exists d.
      split; [|done]. rewrite Hl'. apply elem_of_app. by left.
    + destruct Hnew as (s & Hs & Hrs & Ha & <-). exists s. by rewrite Es.
  - intros s Hs. rewrite in_reg_names_snoc, Es. specialize (Hold s Hs).
    destruct (s_name s =? sr_Name r)%string eqn:En; breflect.
    + rewrite orb_true_r, orb_true_r. by apply Hss.
    + rewrite orb_false_r. by apply Hkept.
  - intros s Hs. rewrite Es in Hs. destruct (decide (s_name s = sr_Name r)) as [En|En].
    + destruct (Honly s Hs En) as [Ha [(s0 & Hs0 & ->)|Hn]].
      * left. exists s0. split; [done|]. rewrite in_reg_names_snoc. simpl in En.
        by rewrite En, String.eqb_refl, !orb_true_r.
      * right. split; [done|]. rewrite elem_of_reg_names_snoc. split; [by right|].
        by rewrite En.
    + destruct (Hall s (Hfrom s Hs En)) as [(s0 & Hs0 & ->)|(Ha & Hin & Hn)].
      * left. exists s0. split; [done|]. rewrite in_reg_names_snoc. simpl in En.
        replace (s_name s0 =? sr_Name r)%string with false by (symmetry; by apply String.eqb_neq).
        by rewrite orb_false_r.
      * right. rewrite elem_of_reg_names_snoc. auto.
Qed.

Lemma sinks_progress_refl db : db_wf db → sinks_progress [] db db.
Proof.
  intros Hwf. split; try done.
  - exists []. split; [by rewrite app_nil_r | by intros d ?%not_elem_of_nil].
  - by intros r ?%not_elem_of_nil.
  - intros s Hs. by rewrite orb_false_r, with_active_id.
  - intros s Hs. left. exists s. by rewrite orb_false_r, with_active_id.
Qed.

(** Sinks that were there before the call keep type and digest. *)
Lemma sinks_progress_same rs db0 db r s :
  sinks_progress rs db0 db → r ∈ rs → s ∈ delivery_sinks db0 → s_name s = sr_Name r →
  registers r s.
Proof.
  intros Hsp Hr Hs Hn. destruct (sp_registered _ _ _ Hsp r Hr) as (s' & Hs' & Hreg & _).
  pose proof (sp_old _ _ _ Hsp s Hs) as Hs1.
  assert (with_active (s_active s || bool_decide (s_name s ∈ reg_names rs)) s = s') as <-.
  { eapply (NoDup_map_inj s_name); [apply (sp_wf _ _ _ Hsp) | done | done |].
    destruct Hreg as [-> _]. done. }
  exact Hreg.
Qed.

(** ** The loop over the registrations *)

(** [ConfigSHA256] is a [[32]byte]. *)
Definition reg_typed (r : SinkRegistration) : Prop :=
  String.length (sr_ConfigSHA256 r) = 32%nat.

(** Why the code refuses a configuration, and with which error. *)
Definition configure_refused (rs : list SinkRegistration) (db : DB) (e : error) : Prop :=
  ((∃ r, r ∈ rs ∧ (sr_Name r = "" ∨ sr_Type r = "")) ∧ errors_is e ErrDurability = true) ∨
  (¬ NoDup (reg_names rs) ∧ errors_is e ErrDurability = true) ∨
  ((∃ r s, r ∈ rs ∧ s ∈ delivery_sinks db ∧ s_name s = sr_Name r ∧ ¬ registers r s) ∧
   errors_is e ErrSinkConfigurationConflict = true) ∨
  ((∃ s, s ∈ delivery_sinks db ∧ s_active s = true ∧ (s_name s ∉ reg_names rs) ∧ sink_busy db s) ∧
   sentinel e = None).

Lemma configure_refused_not_ok rs db e : configure_refused rs db e → ¬ configure_ok rs db.
Proof.
  intros Href [Hn Hd Hs Hi].
  destruct Href as [[(r & Hr & H) _]|[[H _]|[[(r & s & H1 & H2 & H3 & H4) _]|
    [(s & H1 & H2 & H3 & H4) _]]]].
  - destruct (Hn r Hr). by destruct H.
  - done.
  - by apply H4, Hs.
  - by apply (Hi s).
Qed.

Definition reg_inv (db0 : DB) (rs : list SinkRegistration) (configured : gset string)
    (w : World DB) : Prop :=
  disk w = db0 ∧ (∀ x, x ∈ configured ↔ x ∈ reg_names rs) ∧ NoDup (reg_names rs) ∧
  (∀ r, r ∈ rs → sr_Name r ≠ "" ∧ sr_Type r ≠ "") ∧
  ∃ db, txn w = Some db ∧ sinks_progress rs db0 db.

Definition refused_or_faulty (rs : list SinkRegistration) (env : Env) (db0 : DB)
    (e : error) (w : World DB) : Prop :=
  disk w = db0 ∧ (faulty env ∨ configure_refused rs db0 e).

Lemma backfill_wp rs r env db0 db l n sid t k (configured : gset string) all
    (Q : outcome (gset string) → World DB → Prop) :
  sinks_progress rs db0 db → sr_Name r ∉ reg_names rs → db_wf (set_sinks l n db) →
  sink_step rs r db0 db l sid →
  (∀ e w, refused_or_faulty all env db0 e w → Q (Fail e) w) →
  (∀ db2 k2, sinks_progress (rs ++ [r]) db0 db2 →
     Q (Ok ({[sr_Name r]} ∪ configured)) (MkWorld db0 (Some db2) k2)) →
  wp (run (durability "backfill sink %q: %v") (insert_deliveries (backfill_rows sid t));;
      mret ({[sr_Name r]} ∪ configured)) env
    (MkWorld db0 (Some (set_sinks l n db)) k) Q.
Proof.
  intros Hsp Hr Hwf Hst Hf Hok. wp_step. eapply wp_run_txn; [done| |].
  - intros n' k' [Hfl|(m & Hm)]; [apply Hf; by split; [|left]|]. exfalso.
    destruct Hst as [(s & Hs & _ & _ & Hid) _ _ _ _ _].
    destruct (backfill_total sid t n' (set_sinks l n db) s Hwf Hs Hid) as (db' & E).
    congruence.
  - intros n' db2 [] k' H. wp_step. apply Hok.
    eapply sinks_progress_step; [done..|]. by eapply backfill_spec.
Qed.

Lemma configure_sink_wp t rs r rest env db0 configured w all :
  all = rs ++ r :: rest → reg_typed r → reg_inv db0 rs configured w →
  wp (configure_sink t (Z.of_nat (length rs)) r configured) env w (λ o w', match o with
    | Ok configured' => reg_inv db0 (rs ++ [r]) configured' w'
    | Fail e => refused_or_faulty all env db0 e w'
    | Crash => False
    end).
Proof.
  intros Hall Hty (Hd & Hconf & Hnd & Hnamed & db & Ht & Hsp). unfold configure_sink.
  assert (r ∈ all) as Hin by (rewrite Hall; apply elem_of_app; right; left).
  do 2 wp_step.
  { split; [done|]. right. left. split; [|apply errors_is_wrapf]. exists r. split; [done|].
    apply orb_true_iff in H. destruct H; breflect; auto. }
  breflect. do 2 wp_step; breflect.
  { split; [done|]. right. right. left. split; [|apply errors_is_wrapf]. rewrite Hall.
    unfold reg_names. rewrite map_app. intros (_ & Hdis & _)%NoDup_app.
    apply (Hdis (sr_Name r)); [by apply Hconf | left]. }
  rewrite Hconf in H1.
  assert (∀ db2 k2, sinks_progress (rs ++ [r]) db0 db2 →
    reg_inv db0 (rs ++ [r]) ({[sr_Name r]} ∪ configured) (MkWorld db0 (Some db2) k2)) as Hdone.
  { intros db2 k2 Hsp2. split; [done|]. split.
    { intros x. rewrite elem_of_union, elem_of_singleton, Hconf, elem_of_reg_names_snoc. tauto. }
    split; [apply NoDup_map_snoc; [done|]; intros y Hy E; apply H1; rewrite <- E;
            apply elem_of_map_row; eauto|].
    split; [intros r' [?| ->]%elem_of_snoc; auto|]. eauto. }
  wp_step. eapply wp_run_txn; [done| |].
  { intros n k [Hf|(m & Hm)]; [by split; [|left] | done]. }
  intros n db1 row k [= <- <-]. rewrite Hd. wp_step.
  destruct (head (select _ _)) as [s|] eqn:Eh.
  - apply head_select_Some in Eh as [Hs Hn]. breflect.
    destruct (config_differs r s) eqn:Ec.
    + wp_step. split; [done|]. right. right. right. left. split; [|apply errors_is_wrapf].
      destruct (sp_all _ _ _ Hsp s Hs) as [(s0 & Hs0 & ->)|(_ & Hx & _)].
      * exists r, s0. do 3 (split; [done|]). intros (_ & E1 & E2). revert Ec.
        unfold config_differs. simpl. by rewrite E1, E2, !String.eqb_refl, Nat.eqb_refl.
      * by rewrite Hn in Hx.
    + wp_step. eapply wp_run_txn; [done| |].
      { intros n' k' [Hf|(m & Hm)]; [by split; [|left] | done]. }
      intros n' db1 [] k' Hup. pose proof (update_sink_active_wf _ _ _ _ _ _ (sp_wf _ _ _ Hsp) Hup) as Hwf1.
      injection Hup as <-. wp_step. simpl.
      eapply backfill_wp; [done | done | done | by apply sink_step_update | done | done].
  - pose proof (proj1 (head_select_None _ _) Eh) as Hno.
    assert (∀ s, s ∈ delivery_sinks db → s_name s ≠ sr_Name r) as Hno'.
    { intros s Hs E. specialize (Hno s Hs). simpl in Hno. by rewrite E, String.eqb_refl in Hno. }
    wp_step. eapply wp_run_txn; [done| |].
    { intros n' k' [Hf|(m & Hm)]; [by split; [|left]|]. exfalso. revert Hm.
      unfold insert_sink. simpl. rewrite Hty. simpl.
      rewrite (proj2 (exists_where_false _ _)); [done|]. exact Hno. }
    intros n' db1 id k' Hins.
    pose proof (insert_sink_wf (sink_row r t) _ _ _ _ (λ _, eq_refl) (sp_wf _ _ _ Hsp) Hins) as Hwf1.
    apply insert_sink_inv in Hins as (Hid & -> & _). wp_step.
    eapply wp_driver_call; [done| |].
    { intros k2 Hf. by split; [|left]. }
    intros k2. wp_step. simpl.
    eapply backfill_wp; [done | done | done | by apply (sink_step_insert rs) | done | done].
Qed.

(** ** Deactivation *)

Definition unconfigured (configured : gset string) (s : sink_rec) : bool :=
  negb (bool_decide (s_name s ∈ configured)).

Lemma scan_active_wp configured active env w db (Q : outcome (list sink_rec) → World DB → Prop) :
  txn w = Some db →
  (∀ e k, faulty env → Q (Fail e) (MkWorld (disk w) (Some db) k)) →
  (∀ k, Q (Ok (select (unconfigured configured) active)) (MkWorld (disk w) (Some db) k)) →
  wp (for_range active 0 [] (scan_active configured)) env w Q.
Proof.
  intros Ht Hf Hok.
  apply (wp_for_range (λ seen l w', l = select (unconfigured configured) seen ∧
    ∃ k, w' = MkWorld (disk w) (Some db) k)).
  - intros seen s rest l w' _ [-> (k & ->)]. unfold scan_active. wp_step.
    eapply wp_driver_call; [done| |].
    { intros k' Hfl. simpl. by apply Hf. }
    intros k'. wp_step. split; [|by eexists]. unfold select.
    rewrite List.filter_app. simpl. unfold unconfigured.
    destruct (bool_decide (s_name s ∈ configured)); simpl; [by rewrite app_nil_r | done].
  - intros l w' [-> (k & ->)]. apply Hok.
  - split; [done|]. exists (tick w). destruct w. simpl in *. by subst.
Qed.

Definition deactivated (items l : list sink_rec) : list sink_rec :=
  map (λ s, if bool_decide (s_id s ∈ map s_id items) then with_active false s else s) l.

Lemma deactivated_nil l : deactivated [] l = l.
Proof.
  unfold deactivated. rewrite <- (map_id l) at 2. apply map_ext. intros s.
  by rewrite bool_decide_eq_false_2 by apply not_elem_of_nil.
Qed.

Lemma deactivated_snoc items s l :
  update_where (λ s', s_id s' =? s_id s) (with_active false) (deactivated items l) =
  deactivated (items ++ [s]) l.
Proof.
  unfold deactivated, update_where. rewrite map_map. apply map_ext. intros s'.
  replace (bool_decide (s_id s' ∈ map s_id (items ++ [s]))) with
    (bool_decide (s_id s' ∈ map s_id items) || (s_id s' =? s_id s)).
  - destruct (bool_decide _); simpl; by destruct (s_id s' =? s_id s).
  - apply eq_true_iff_eq. rewrite orb_true_iff, !bool_decide_eq_true, Z.eqb_eq.
    rewrite map_app, elem_of_app. simpl. by rewrite list_elem_of_singleton.
Qed.

Lemma sink_busy_count db s :
  count_where (λ d, (d_sink d =? s_id s) && non_terminal (d_state d)) (deliveries db) ≠ 0 ↔
  sink_busy db s.
Proof.
  unfold sink_busy. split.
  - intros H. destruct (exists_where (λ d, (d_sink d =? s_id s) && non_terminal (d_state d))
      (deliveries db)) eqn:E.
    + apply exists_where_true in E as (d & Hd & Hp). breflect. eauto.
    + destruct H. apply count_where_0. by apply exists_where_false.
  - intros (d & Hd & H1 & H2) H. rewrite count_where_0 in H. specialize (H d Hd).
    simpl in H. by rewrite H1, Z.eqb_refl, H2 in H.
Qed.

Lemma deactivate_wp items env w db1 (Q : outcome unit → World DB → Prop) :
  txn w = Some db1 → db_wf db1 →
  (∀ e db k, faulty env ∨ (sentinel e = None ∧ ∃ s, s ∈ items ∧ sink_busy db1 s) →
     Q (Fail e) (MkWorld (disk w) (Some db) k)) →
  (∀ db2 k, db2 = set_sinks (deactivated items (delivery_sinks db1)) (sink_seq db1) db1 →
     db_wf db2 → (∀ s, s ∈ items → ¬ sink_busy db1 s) →
     Q (Ok tt) (MkWorld (disk w) (Some db2) k)) →
  wp (for_range items 0 tt deactivate_sink) env w Q.
Proof.
  intros Ht Hwf Hf Hok.
  apply (wp_for_range (λ seen _ w', ∃ db k, w' = MkWorld (disk w) (Some db) k ∧ db_wf db ∧
    db = set_sinks (deactivated seen (delivery_sinks db1)) (sink_seq db1) db1 ∧
    ∀ s, s ∈ seen → ¬ sink_busy db1 s)).
  - intros seen s rest [] w' Hl (db & k & -> & Hwfd & Edb & Hidle). unfold deactivate_sink.
    assert (deliveries db = deliveries db1) as Ed by (by rewrite Edb).
    wp_step. eapply wp_run_txn; [done| |].
    { intros n k' [Hfl|(m & Hm)]; [by apply Hf; left | done]. }
    intros n db' c k' [= <- <-]. rewrite Ed. do 2 wp_step; breflect.
    { apply Hf. right. split; [done|]. exists s.
      split; [rewrite Hl; apply elem_of_app; right; left | by apply sink_busy_count]. }
    eapply wp_run_txn; [done| |].
    { intros n' k2 [Hfl|(m & Hm)]; [by apply Hf; left | done]. }
    intros n' db2 [] k2 Hup. pose proof (update_sink_active_wf _ _ _ _ _ _ Hwfd Hup) as Hwf2.
    injection Hup as <-. eexists _, k2. split; [done|]. split; [exact Hwf2|].
    split; [by rewrite Edb; simpl; rewrite deactivated_snoc|].
    intros s' [Hs'| ->]%elem_of_snoc; [by apply Hidle|]. intros Hb.
    by apply sink_busy_count in Hb.
  - intros [] w' (db & k & -> & Hwfd & Edb & Hidle). by apply Hok.
  - exists db1, (tick w). split; [destruct w; simpl in *; by subst|]. split; [done|].
    split; [rewrite deactivated_nil; by destruct db1 | by intros s ?%not_elem_of_nil].
Qed.

(** ** The result *)

Section Finish.
Context (rs : list SinkRegistration) (configured : gset string) (db0 db1 : DB).
Context (Hsp : sinks_progress rs db0 db1).
Context (Hconf : ∀ x, x ∈ configured ↔ x ∈ reg_names rs).

Definition stale : list sink_rec :=
  select (unconfigured configured) (select s_active (delivery_sinks db1)).

Lemma elem_of_stale s :
  s ∈ stale ↔ s ∈ delivery_sinks db1 ∧ s_active s = true ∧ s_name s ∉ reg_names rs.
Proof.
  unfold stale, unconfigured. rewrite !elem_of_select, negb_true_iff, bool_decide_eq_false, Hconf.
  tauto.
Qed.

(** A sink to deactivate is an unchanged old sink, with its old backlog. *)
Lemma stale_old s :
  s ∈ stale → s ∈ delivery_sinks db0 ∧ (sink_busy db1 s ↔ sink_busy db0 s).
Proof.
  intros (Hs & Ha & Hn)%elem_of_stale. split.
  - destruct (sp_all _ _ _ Hsp s Hs) as [(s0 & Hs0 & E)|(_ & ? & _)]; [|done].
    assert (s_name s0 = s_name s) as En by (by rewrite E).
    rewrite En, bool_decide_eq_false_2, orb_false_r, with_active_id in E by done. by subst.
  - destruct (sp_deliveries _ _ _ Hsp) as (l & Hl & Hnew).
    unfold sink_busy. rewrite Hl. split; intros (d & Hd & H1 & H2); exists d; (split; [|done]).
    + apply elem_of_app in Hd as [Hd|Hd]; [done|]. exfalso.
      destruct (Hnew d Hd) as (s' & Hs' & Hid & Hin & _).
      assert (s' = s) as -> by (apply (sinks_unique db1); try done; [apply Hsp | congruence]). done.
    + apply elem_of_app. by left.
Qed.

Lemma deactivated_stale s :
  s ∈ delivery_sinks db1 →
  bool_decide (s_id s ∈ map s_id stale) = s_active s && negb (bool_decide (s_name s ∈ reg_names rs)).
Proof.
  intros Hs. apply eq_true_iff_eq.
  rewrite andb_true_iff, negb_true_iff, bool_decide_eq_false, bool_decide_eq_true, elem_of_map_row.
  split.
  - intros (s' & Hs' & Hid). apply elem_of_stale in Hs' as (Hs1 & Ha & Hn).
    assert (s = s') as -> by (apply (sinks_unique db1); try done; apply Hsp). done.
  - intros [Ha Hn]. exists s. split; [by apply elem_of_stale | done].
Qed.

Lemma active_registered s :
  s ∈ delivery_sinks db1 → s_name s ∈ reg_names rs → s_active s = true ∧ sink_covered db1 (s_id s).
Proof.
  intros Hs Hn. apply elem_of_map_row in Hn as (r & Hr & En).
  destruct (sp_registered _ _ _ Hsp r Hr) as (s' & Hs' & (En' & _) & Ha & Hc).
  assert (s = s') as -> by (eapply (NoDup_map_inj s_name); [apply (sp_wf _ _ _ Hsp)|..]; congruence).
  done.
Qed.

Lemma configured_finish db2 :
  db2 = set_sinks (deactivated stale (delivery_sinks db1)) (sink_seq db1) db1 → db_wf db2 →
  sinks_configured rs db0 db2.
Proof.
  intros E Hwf2.
  assert (∀ s, s ∈ delivery_sinks db1 →
    with_active (bool_decide (s_name s ∈ reg_names rs)) s ∈ delivery_sinks db2) as Hfwd.
  { intros s Hs. rewrite E. simpl. unfold deactivated. apply elem_of_map_row. exists s.
    split; [done|]. rewrite deactivated_stale by done.
    destruct (bool_decide (s_name s ∈ reg_names rs)) eqn:Eb; breflect.
    - destruct (active_registered s Hs Eb) as [Ha _]. rewrite Ha. simpl.
      rewrite <- Ha. apply with_active_id.
    - destruct (s_active s) eqn:Ea; [done|]. simpl. rewrite <- Ea. apply with_active_id. }
  assert (∀ s2, s2 ∈ delivery_sinks db2 → ∃ s, s ∈ delivery_sinks db1 ∧
    s2 = with_active (bool_decide (s_name s ∈ reg_names rs)) s) as Hbwd.
  { intros s2 Hs2. rewrite E in Hs2. apply elem_of_map_row in Hs2 as (s & Hs & Es2).
    exists s. split; [done|]. apply (sinks_unique db2); [done| |by apply Hfwd|].
    - rewrite E. apply elem_of_map_row. eauto.
    - rewrite Es2. by destruct (bool_decide _). }
  split.
  - done.
  - intros e s2 He Hn Hs2 Ha. destruct (Hbwd s2 Hs2) as (s & Hs & ->). simpl in *. breflect.
    destruct (active_registered s Hs Ha) as [_ Hc]. rewrite E in He |- *. by apply Hc.
  - intros s2 Hs2. destruct (Hbwd s2 Hs2) as (s & Hs & ->). simpl.
    apply bool_decide_eq_true.
  - intros r Hr. destruct (sp_registered _ _ _ Hsp r Hr) as (s & Hs & Hreg & _).
    eexists. split; [by apply Hfwd|]. exact Hreg.
  - intros s Hs. apply (sp_old _ _ _ Hsp), Hfwd in Hs. exact Hs.
  - rewrite E. apply Hsp.
  - destruct (sp_deliveries _ _ _ Hsp) as (l & Hl & Hnew). exists l. rewrite E. split; [done|].
    apply Forall_forall. intros d Hd. destruct (Hnew d Hd) as (? & ? & ? & ? & ?). done.
Qed.

End Finish.

Definition configure_post (rs : list SinkRegistration) (env : Env) (db0 : DB)
    (o : outcome unit) (w' : World DB) : Prop :=
  match o with
  | Ok _ => txn w' = None ∧ sinks_configured rs db0 (disk w') ∧ configure_ok rs db0
  | Fail e => txn w' = None ∧
      ((disk w' = db0 ∧ (faulty env ∨ configure_refused rs db0 e)) ∨
       (sinks_configured rs db0 (disk w') ∧ faulty env))
  | Crash => False
  end.

Lemma ConfigureSinks_wp rs env w :
  db_wf (disk w) → txn w = None → Forall reg_typed rs →
  wp (ConfigureSinks rs) env w (configure_post rs env (disk w)).
Proof.
  intros Hwf Ht Hty. unfold ConfigureSinks. do 2 wp_step.
  { split; [done|]. left. auto. }
  do 4 wp_step. simpl.
  eapply (wp_mono _ _ _ (λ o w', match o with
    | Ok conf => reg_inv (disk w) rs conf w'
    | Fail e => refused_or_faulty rs env (disk w) e w'
    | Crash => False end)).
  { apply (wp_for_range (reg_inv (disk w))).
    - intros seen r rest conf w1 Hl HI. eapply wp_mono; [eapply configure_sink_wp; try done|].
      + rewrite Hl in Hty. apply Forall_app in Hty as [_ Hty]. by apply Forall_cons in Hty as [? _].
      + by intros [?|?|].
    - done.
    - split; [done|]. split; [set_solver|]. split; [constructor|].
      split; [by intros r ?%not_elem_of_nil|]. eexists. split; [done|].
      by apply sinks_progress_refl. }
  intros [conf|e|] w1 Hinv; [| |done].
  2: { simpl. split; [done|]. left. exact Hinv. }
  destruct Hinv as (Hd & Hconf & Hnd & Hnamed & db1 & Ht1 & Hsp).
  assert (∀ e k, faulty env → configure_post rs env (disk w) (Fail e) (MkWorld (disk w) None k))
    as Hfault by (intros e ? Hf; split; [done|]; left; auto).
  wp_step. eapply wp_run_txn; [done| |].
  { intros n k1 [Hf|(m & Hm)]; [rewrite Hd; exact (Hfault _ 0%nat Hf) | done]. }
  intros n db' active k1 [= <- <-]. rewrite Hd. wp_step.
  eapply scan_active_wp; [done| |].
  { intros e k' Hf. exact (Hfault _ 0%nat Hf). }
  intros k'. simpl. wp_step. eapply wp_driver_call; [done| |].
  { intros k2 Hf. exact (Hfault _ 0%nat Hf). }
  intros k2. wp_step. eapply wp_driver_call; [done| |].
  { intros k3 Hf. exact (Hfault _ 0%nat Hf). }
  intros k3. wp_step. eapply deactivate_wp; [done | apply Hsp | |].
  { intros e db k4 [Hf|[He (s & Hs & Hb)]]; [exact (Hfault _ 0%nat Hf)|]. split; [done|]. left.
    split; [done|]. right. right. right. right. split; [|done]. exists s.
    destruct (stale_old rs conf (disk w) db1 Hsp Hconf s Hs) as [Hs0 Hbusy].
    apply (elem_of_stale rs conf db1 Hconf) in Hs as (_ & Ha & Hn). by rewrite <- Hbusy. }
  intros db2 k4 E2 Hwf2 Hidle.
  pose proof (configured_finish rs conf (disk w) db1 Hsp Hconf db2 E2 Hwf2) as Hfin.
  eapply wp_commit; [done| | |].
  - intros k5 Hf. exact (Hfault _ 0%nat Hf).
  - intros k5 Hf. split; [done|]. right. auto.
  - intros k5. split; [done|]. split; [done|]. split; [done|done| |].
    + intros r s Hr Hs Hn. by eapply sinks_progress_same.
    + intros s Hs Ha Hn Hb.
      assert (s ∈ stale conf db1) as Hst.
      { apply (elem_of_stale rs conf db1 Hconf). split; [|done].
        pose proof (sp_old _ _ _ Hsp s Hs) as Ho. rewrite Ha in Ho; simpl in Ho; by rewrite <- Ha, with_active_id in Ho. }
      apply (Hidle s Hst). by apply (stale_old rs conf (disk w) db1 Hsp Hconf s Hst).
Qed.
