(* ===== verification/SinkProps.v ===== *)
(** * SinkProps: what sink registration guarantees *)

From S2P Require Import Prelude Rows Text Timestamp Sha256 Runtime Spool.
From S2P Require Import Schema SchemaFacts Store StoreFacts Sinks SinkFacts.

(** C18. Functional behaviour of [ConfigureSinks] in every environment.  On
    success exactly the registered sinks are active, every retained event has
    a delivery to each of them, old sinks keep identity, type and digest, old
    deliveries are untouched and new ones are pending.  On an error the file
    is as before, or complete when a failing commit had taken effect. *)
Theorem configure_result rs env w :
  db_wf (disk w) → txn w = None → Forall reg_typed rs →
  match ConfigureSinks rs env w with
  | (Ok _, w') => sinks_configured rs (disk w) (disk w')
  | (Fail _, w') => disk w' = disk w ∨ sinks_configured rs (disk w) (disk w')
  | (Crash, _) => False
  end.
Proof.
  intros Hwf Ht Hty. pose proof (ConfigureSinks_wp rs env w Hwf Ht Hty) as H.
  apply wp_elim in H. destruct (ConfigureSinks rs env w) as [[u|e|] w']; simpl in H.
  - apply H.
  - destruct H as (_ & [[? _]|[? _]]); auto.
  - done.
Qed.

(** Without failing calls [ConfigureSinks] succeeds exactly when names and
    types are given, names are distinct, known sinks keep type and digest and
    no active sink with pending or retrying deliveries is dropped.  A refused
    call changes nothing and reports a changed sink as
    [ErrSinkConfigurationConflict]. *)
Theorem configure_decides rs env w :
  db_wf (disk w) → txn w = None → Forall reg_typed rs → ¬ faulty env →
  match ConfigureSinks rs env w with
  | (Ok _, _) => configure_ok rs (disk w)
  | (Fail e, w') => ¬ configure_ok rs (disk w) ∧ configure_refused rs (disk w) e ∧
      disk w' = disk w ∧ txn w' = None
  | (Crash, _) => False
  end.
Proof.
  intros Hwf Ht Hty Hnf. pose proof (ConfigureSinks_wp rs env w Hwf Ht Hty) as H.
  apply wp_elim in H. destruct (ConfigureSinks rs env w) as [[u|e|] w']; simpl in H.
  - apply H.
  - destruct H as (Ht' & [[Hd [?|Href]]|[_ ?]]); [done | | done].
    split; [by eapply configure_refused_not_ok | done].
  - done.
Qed.
