(* ===== verification/Deliveries.v ===== *)
(** * Deliveries: the delivery queue of internal/spool/sqlite/sqlite.go

    [NextDueDelivery], [MarkDelivered], [MarkFailed] and [RedriveDelivery]
    over the tables of Schema, with the specification of the queue: per
    sink, in commit order, the oldest unfinished delivery first. *)

From S2P Require Import Prelude Rows Text Timestamp Sha256 Runtime.
From S2P Require Import Schema SchemaFacts Store.

(** [delivery.Delivery]. *)
Record Delivery := MkItem {
  EventSequence : Z;
  SinkID : Z;
  SinkName : string;
  SinkType : string;
  Source : string;
  ID : string;
  Type_ : string;
  Subject : string;
  Payload : string;
  Attempts : Z;
}.

(** ** [NextDueDelivery] *)

(** [COALESCE(x, '')]. *)
Definition coalesce (o : option string) : string :=
  match o with Some s => s | None => "" end.

(** The scalar subquery: the oldest row of the sink in a non-terminal state. *)
Definition of_sink (sink : Z) (d : delivery_rec) : bool :=
  (d_sink d =? sink) && non_terminal (d_state d).
Definition head_sequence (db : DB) (sink : Z) : option Z :=
  d_event <$> first_by (λ a b, d_event a <=? d_event b)
                (select (of_sink sink) (deliveries db)).

(** A row of the join. *)
Record due_row := MkDue { du_event : event_rec; du_sink : sink_rec; du_delivery : delivery_rec }.

Definition join_on (db : DB) (now : string) (s : sink_rec) (d : delivery_rec) (e : event_rec) : bool :=
  (d_sink d =? s_id s) && bool_decide (head_sequence db (s_id s) = Some (d_event d)) &&
  (e_sequence e =? d_event d) && s_active s && str_leb (d_next d) now.

Definition due_rows (now : string) (db : DB) : list due_row :=
  flat_map (λ s, flat_map (λ d, flat_map (λ e,
    if join_on db now s d e then [MkDue e s d] else [])
    (events db)) (deliveries db)) (delivery_sinks db).

(** [ORDER BY e.sequence, s.sink_id]. *)
Definition due_leb (a b : due_row) : bool :=
  (e_sequence (du_event a) <? e_sequence (du_event b)) ||
  ((e_sequence (du_event a) =? e_sequence (du_event b)) &&
   (s_id (du_sink a) <=? s_id (du_sink b))).

Definition item_of (r : due_row) : Delivery :=
  MkItem (e_sequence (du_event r)) (s_id (du_sink r)) (s_name (du_sink r)) (s_type (du_sink r))
    (e_source (du_event r)) (e_id (du_event r)) (e_type (du_event r))
    (coalesce (e_subject (du_event r))) (e_payload (du_event r)) (d_attempts (du_delivery r)).

(** [(s *Store) NextDueDelivery]: [None] is [found = false]. *)
Definition NextDueDelivery (now : time) : M DB (option Delivery) :=
  run (errorf "query next due delivery: %w")
    (query (λ db, item_of <$> first_by due_leb (due_rows (formatTimestamp now) db))).

(** ** Recording an attempt *)

(** [WHERE event_sequence = ? AND sink_id = ? AND attempts = ? AND state IN
    ('pending', 'retry_wait')]. *)
Definition open_row (item : Delivery) (d : delivery_rec) : bool :=
  (d_event d =? EventSequence item) && (d_sink d =? SinkID item) &&
  (d_attempts d =? Attempts item) && non_terminal (d_state d).

Definition response_status (status : Z) : option Z :=
  if negb (status =? 0) then Some status else None.

Definition delivered_row (attempt status : Z) (at_ : time) (d : delivery_rec) : delivery_rec :=
  MkDelivery (d_event d) (d_sink d) delivered attempt (d_next d)
    (Some (formatTimestamp at_)) (Some (formatTimestamp at_)) None None
    (response_status status).

Definition failed_row (attempt : Z) (permanent : bool) (retryAt : time) (failure : string)
    (status : Z) (at_ : time) (d : delivery_rec) : delivery_rec :=
  MkDelivery (d_event d) (d_sink d) (if permanent then dead_letter else retry_wait) attempt
    (formatTimestamp retryAt) (Some (formatTimestamp at_)) None
    (if permanent then Some (formatTimestamp at_) else None) (Some failure)
    (response_status status).

(** [expectOneDeliveryUpdate]. *)
Definition expectOneDeliveryUpdate (result : string + Z) : M DB unit :=
  match result with
  | inl _ => fail (durability "%s: %v")
  | inr affected =>
      driver_call (durability "inspect %s: %v");;
      reject (negb (affected =? 1))
        (durability "%s changed %d rows; delivery state was modified concurrently")
  end.

(** [(s *Store) MarkDelivered]. *)
Definition MarkDelivered (item : Delivery) (attempt status : Z) (at_ : time) : M DB unit :=
  result ← exec (update_deliveries (open_row item) (delivered_row attempt status at_));
  expectOneDeliveryUpdate result.

(** [(s *Store) MarkFailed]. *)
Definition MarkFailed (item : Delivery) (attempt : Z) (permanent : bool) (retryAt : time)
    (failure : string) (status : Z) (at_ : time) : M DB unit :=
  result ← exec (update_deliveries (open_row item)
                   (failed_row attempt permanent retryAt failure status at_));
  expectOneDeliveryUpdate result.

(** ** [RedriveDelivery] *)

Definition active_sink_id (db : DB) (sinkName : string) : option Z :=
  s_id <$> head (select (λ s, (s_name s =? sinkName)%string && s_active s) (delivery_sinks db)).

Definition sequence_of (db : DB) (source id : string) : option Z :=
  e_sequence <$> head (select (has_event_key source id) (events db)).

(** [state = 'dead_letter' AND sink_id = (SELECT ...) AND event_sequence =
    (SELECT ...)]; an empty subquery is NULL, which equals nothing. *)
Definition redrive_where (sinkName source id : string) (db : DB) (d : delivery_rec) : bool :=
  is_dead_letter (d_state d) &&
  bool_decide (active_sink_id db sinkName = Some (d_sink d)) &&
  bool_decide (sequence_of db source id = Some (d_event d)).

Definition redriven_row (at_ : time) (d : delivery_rec) : delivery_rec :=
  MkDelivery (d_event d) (d_sink d) retry_wait 0 (formatTimestamp at_) None None None None None.

(** [(s *Store) RedriveDelivery]. *)
Definition RedriveDelivery (sinkName source id : string) (at_ : time) : M DB unit :=
  affected ← run (durability "redrive delivery: %v")
    (λ n db, update_deliveries (redrive_where sinkName source id db) (redriven_row at_) n db);
  driver_call (durability "inspect redrive: %v");;
  reject (negb (affected =? 1)) (errorf "no matching dead-letter delivery was found").

(** ** Specification *)

(** [d] is the oldest unfinished delivery of its sink. *)
Definition head_of_line (db : DB) (d : delivery_rec) : Prop :=
  d ∈ deliveries db ∧ non_terminal (d_state d) = true ∧
  ∀ d', d' ∈ deliveries db → d_sink d' = d_sink d → non_terminal (d_state d') = true →
    d_event d <= d_event d'.

(** The head of an active sink whose retry time has come. *)
Record due (db : DB) (now : string) (e : event_rec) (s : sink_rec) (d : delivery_rec) : Prop := {
  due_head : head_of_line db d;
  due_event : e ∈ events db ∧ e_sequence e = d_event d;
  due_sink : s ∈ delivery_sinks db ∧ s_id s = d_sink d ∧ s_active s = true;
  due_time : str_leb (d_next d) now = true;
}.

(** The item carries the stored bytes of the event. *)
Definition carries (item : Delivery) (e : event_rec) (s : sink_rec) (d : delivery_rec) : Prop :=
  EventSequence item = e_sequence e ∧ Source item = e_source e ∧ ID item = e_id e ∧
  Type_ item = e_type e ∧ Subject item = coalesce (e_subject e) ∧ Payload item = e_payload e ∧
  SinkID item = s_id s ∧ SinkName item = s_name s ∧ SinkType item = s_type s ∧
  Attempts item = d_attempts d.

(** The row of a delivery. *)
Definition delivery_at (db : DB) (seq sink : Z) : option delivery_rec :=
  head (select (has_delivery_key seq sink) (deliveries db)).

(** Only the row with this key differs, and it is now [f] of the old one. *)
Definition delivery_updated (seq sink : Z) (f : delivery_rec → delivery_rec) (db db' : DB) : Prop :=
  ∃ d, delivery_at db seq sink = Some d ∧
    db' = set_deliveries (update_where (has_delivery_key seq sink) f (deliveries db)) db.
