(* ===== verification/DeliveryFacts.v ===== *)
(** * DeliveryFacts: lemmas on the delivery queue *)

From S2P Require Import Prelude Rows Text Timestamp Sha256 Runtime.
From S2P Require Import Schema SchemaFacts Store Deliveries.

(** ** Selection *)

Lemma elem_of_flat_map {A B} (f : A → list B) l b :
  b ∈ flat_map f l ↔ ∃ a, a ∈ l ∧ b ∈ f a.
Proof.
  rewrite list_elem_of_In, in_flat_map. setoid_rewrite list_elem_of_In. done.
Qed.

Lemma elem_of_due_rows now db r :
  r ∈ due_rows now db ↔
  du_sink r ∈ delivery_sinks db ∧ du_delivery r ∈ deliveries db ∧ du_event r ∈ events db ∧
  join_on db now (du_sink r) (du_delivery r) (du_event r) = true.
Proof.
  unfold due_rows. rewrite elem_of_flat_map. split.
  - intros (s & Hs & H). apply elem_of_flat_map in H as (d & Hd & H).
    apply elem_of_flat_map in H as (e & He & H).
    destruct (join_on db now s d e) eqn:E; [|by apply not_elem_of_nil in H].
    apply list_elem_of_singleton in H as ->. done.
  - intros (Hs & Hd & He & Hj). exists (du_sink r). split; [done|].
    apply elem_of_flat_map. exists (du_delivery r). split; [done|].
    apply elem_of_flat_map. exists (du_event r). split; [done|]. rewrite Hj.
    apply list_elem_of_singleton. by destruct r.
Qed.

Lemma seq_leb_total (x y : delivery_rec) :
  (d_event x <=? d_event y) = true ∨ (d_event y <=? d_event x) = true.
Proof. rewrite !Z.leb_le. lia. Qed.

Lemma seq_leb_trans (x y z : delivery_rec) :
  (d_event x <=? d_event y) = true → (d_event y <=? d_event z) = true →
  (d_event x <=? d_event z) = true.
Proof. rewrite !Z.leb_le. lia. Qed.

(** The subquery finds the head of the line. *)
Lemma head_sequence_spec db sink d :
  db_wf db → d ∈ deliveries db → d_sink d = sink →
  head_sequence db sink = Some (d_event d) ↔ head_of_line db d.
Proof.
  intros Hwf Hd Hs. unfold head_sequence. split.
  - intros H. destruct (first_by _ _) as [d0|] eqn:E; [|done]. simpl in H. injection H as H.
    apply first_by_Some in E as [Hd0 Hmin]; [|exact seq_leb_total | exact seq_leb_trans].
    apply elem_of_select in Hd0 as [Hd0 Hp]. unfold of_sink in Hp. breflect.
    assert (d0 = d) as -> by (apply (deliveries_unique db); congruence).
    split; [done|]. split; [done|]. intros d' Hd' Es Hn. apply Z.leb_le, Hmin.
    apply elem_of_select. split; [done|]. unfold of_sink.
    by rewrite Hn, andb_true_r, Es, Hs, Z.eqb_refl.
  - intros (_ & Hn & Hmin).
    assert (d ∈ select (of_sink sink) (deliveries db)) as Hin.
    { apply elem_of_select. split; [done|]. unfold of_sink. by rewrite Hs, Z.eqb_refl, Hn. }
    destruct (first_by _ _) as [d0|] eqn:E.
    + apply first_by_Some in E as [Hd0 Hmin0]; [|exact seq_leb_total | exact seq_leb_trans].
      apply elem_of_select in Hd0 as [Hd0 Hp]. unfold of_sink in Hp. breflect. simpl. f_equal.
      specialize (Hmin d0 Hd0 ltac:(congruence) ltac:(done)).
      specialize (Hmin0 d Hin). breflect. lia.
    + apply first_by_None in E. rewrite E in Hin. by apply not_elem_of_nil in Hin.
Qed.

Lemma elem_of_due now db e s d :
  db_wf db → MkDue e s d ∈ due_rows now db ↔ due db now e s d.
Proof.
  intros Hwf. rewrite elem_of_due_rows. simpl. unfold join_on.
  rewrite !andb_true_iff, !Z.eqb_eq, bool_decide_eq_true. split.
  - intros (Hs & Hd & He & ((((E1 & E2) & E3) & E4) & E5)).
    apply head_sequence_spec in E2; [|done..]. by split.
  - intros [Hh [He Ee] (Hs & Es & Ha) Ht]. assert (d ∈ deliveries db) by apply Hh.
    do 3 (split; [done|]). split; [|done]. split; [|done]. split; [|done]. split; [congruence|].
    by apply head_sequence_spec.
Qed.

Lemma due_leb_spec a b :
  due_leb a b = true ↔
  e_sequence (du_event a) < e_sequence (du_event b) ∨
  (e_sequence (du_event a) = e_sequence (du_event b) ∧ s_id (du_sink a) <= s_id (du_sink b)).
Proof.
  unfold due_leb. by rewrite orb_true_iff, andb_true_iff, Z.ltb_lt, Z.eqb_eq, Z.leb_le.
Qed.

Lemma due_leb_total x y : due_leb x y = true ∨ due_leb y x = true.
Proof. rewrite !due_leb_spec. lia. Qed.

Lemma due_leb_trans x y z : due_leb x y = true → due_leb y z = true → due_leb x z = true.
Proof. rewrite !due_leb_spec. lia. Qed.

(** Among the due heads, the oldest event first, then the lowest sink id. *)
Definition first_due (db : DB) (now : string) (e : event_rec) (s : sink_rec) (d : delivery_rec)
    : Prop :=
  due db now e s d ∧
  ∀ e' s' d', due db now e' s' d' →
    e_sequence e < e_sequence e' ∨ (e_sequence e = e_sequence e' ∧ s_id s <= s_id s').

Definition next_due (now : string) (db : DB) : option Delivery :=
  item_of <$> first_by due_leb (due_rows now db).

Lemma next_due_Some now db item :
  db_wf db → next_due now db = Some item →
  ∃ e s d, first_due db now e s d ∧ carries item e s d.
Proof.
  intros Hwf H. unfold next_due in H. destruct (first_by _ _) as [[e s d]|] eqn:E; [|done].
  injection H as <-.
  apply first_by_Some in E as [Hin Hmin]; [|exact due_leb_total | exact due_leb_trans].
  exists e, s, d. split; [|by repeat split]. split; [by apply elem_of_due|].
  intros e' s' d' Hd'. apply elem_of_due in Hd'; [|done].
  apply Hmin in Hd'. by apply due_leb_spec in Hd'.
Qed.

Lemma next_due_None now db :
  db_wf db → next_due now db = None → ∀ e s d, ¬ due db now e s d.
Proof.
  intros Hwf H e s d Hd. unfold next_due in H. destruct (first_by _ _) eqn:E; [done|].
  apply first_by_None in E. apply elem_of_due in Hd; [|done]. rewrite E in Hd.
  by apply not_elem_of_nil in Hd.
Qed.

(** An unfinished delivery belongs to a retained payload. *)
Lemma unfinished_retained db e d :
  db_wf db → d ∈ deliveries db → non_terminal (d_state d) = true →
  e ∈ events db → e_sequence e = d_event d →
  e_pruned_at e = None ∧ e_sha256 e = Sum256 (e_payload e).
Proof.
  intros Hwf Hd Hn He Es. assert (e_pruned_at e = None) as Hp.
  { destruct (e_pruned_at e) eqn:E; [|done].
    destruct (wf_pruned _ Hwf e He ltac:(congruence)) as (_ & _ & Hall).
    rewrite (Hall d Hd) in Hn; [done|]. symmetry. exact Es. }
  split; [done|]. by apply (wf_digests _ Hwf).
Qed.

Lemma NextDueDelivery_wp now env w (Q : outcome (option Delivery) → World DB → Prop) :
  txn w = None →
  (∀ k, faulty env → Q (Fail (errorf "query next due delivery: %w")) (MkWorld (disk w) None k)) →
  (∀ k, Q (Ok (next_due (formatTimestamp now) (disk w))) (MkWorld (disk w) None k)) →
  wp (NextDueDelivery now) env w Q.
Proof. intros Ht Hf Hok. by apply wp_query_auto. Qed.

(** ** Updates of one row *)

Lemma delivery_at_Some db q s d :
  db_wf db → delivery_at db q s = Some d ↔ d ∈ deliveries db ∧ d_event d = q ∧ d_sink d = s.
Proof.
  intros Hwf. unfold delivery_at. split.
  - intros [Hd Hk]%head_select_Some. apply has_delivery_key_true in Hk. by injection Hk.
  - intros (Hd & E1 & E2). destruct (head _) as [d'|] eqn:E.
    + apply head_select_Some in E as [Hd' Hk]. apply has_delivery_key_true in Hk.
      injection Hk as K1 K2. f_equal. apply (deliveries_unique db); congruence.
    + pose proof (proj1 (head_select_None _ _) E d Hd) as Hk. simpl in Hk.
      unfold has_delivery_key in Hk. by rewrite E1, E2, !Z.eqb_refl in Hk.
Qed.

(** A WHERE clause that selects at most the row with one key. *)
Lemma update_one (p : delivery_rec → bool) f db q s d :
  db_wf db → delivery_at db q s = Some d → p d = true →
  (∀ d', p d' = true → has_delivery_key q s d' = true) →
  update_where p f (deliveries db) = update_where (has_delivery_key q s) f (deliveries db) ∧
  count_where p (deliveries db) = 1.
Proof.
  intros Hwf Hat Hp Himp. apply delivery_at_Some in Hat as (Hd & E1 & E2); [|done].
  assert (∀ d', d' ∈ deliveries db → has_delivery_key q s d' = true → d' = d) as Hu.
  { intros d' Hd' Hk. apply has_delivery_key_true in Hk. injection Hk as K1 K2.
    apply (deliveries_unique db); congruence. }
  split.
  - unfold update_where. apply list_fmap_ext. intros i d' Hi.
    assert (d' ∈ deliveries db) as Hd' by (by eapply list_elem_of_lookup_2).
    destruct (p d') eqn:Ep; [by rewrite Himp|].
    destruct (has_delivery_key q s d') eqn:Ek; [|done].
    apply Hu in Ek; [|done]. subst. congruence.
  - apply (count_where_unique delivery_key p (deliveries db) d); [apply Hwf | done | done |].
    intros d' Hd' Hp'. by rewrite (Hu d' Hd' (Himp _ Hp')).
Qed.

Lemma elem_of_updated q s f db d :
  delivery_at db q s = Some d → db_wf db →
  ∀ d', d' ∈ update_where (has_delivery_key q s) f (deliveries db) ↔
    d' = f d ∨ (d' ∈ deliveries db ∧ delivery_key d' ≠ (q, s)).
Proof.
  intros Hat Hwf d'. apply delivery_at_Some in Hat as (Hd & E1 & E2); [|done].
  rewrite elem_of_update_where. split.
  - intros (d0 & Hd0 & ->). destruct (has_delivery_key q s d0) eqn:Ek.
    + left. apply has_delivery_key_true in Ek. injection Ek as K1 K2. f_equal.
      apply (deliveries_unique db); congruence.
    + right. split; [done|]. intros Hk. apply has_delivery_key_true in Hk. congruence.
  - intros [->|[Hd' Hk]].
    + exists d. split; [done|]. unfold has_delivery_key. by rewrite E1, E2, !Z.eqb_refl.
    + exists d'. split; [done|]. destruct (has_delivery_key q s d') eqn:Ek; [|done].
      by apply has_delivery_key_true in Ek.
Qed.

(** The effect of the two statements that record an attempt. *)
Section Record.
Context (item : Delivery) (f : delivery_rec → delivery_rec).
Context (Hkey : ∀ d, delivery_key (f d) = delivery_key d).
Context (Hok : ∀ d, delivery_ok (f d)).

(** The row the item was read from is still as it was. *)
Definition still_open (db : DB) (d : delivery_rec) : Prop :=
  delivery_at db (EventSequence item) (SinkID item) = Some d ∧
  non_terminal (d_state d) = true ∧ d_attempts d = Attempts item.

Lemma open_row_true d :
  open_row item d = true ↔
  d_event d = EventSequence item ∧ d_sink d = SinkID item ∧
  d_attempts d = Attempts item ∧ non_terminal (d_state d) = true.
Proof. unfold open_row. rewrite !andb_true_iff, !Z.eqb_eq. tauto. Qed.

Lemma update_total p n db :
  db_wf db → (∀ d, p d = true → non_terminal (d_state d) = true ∨ d_state d = dead_letter) →
  update_deliveries p f n db =
    inr (set_deliveries (update_where p f (deliveries db)) db, count_where p (deliveries db)).
Proof.
  intros Hwf Hp. unfold update_deliveries. rewrite !(proj2 (exists_where_false _ _)); [done| |].
  - intros d Hd. apply andb_false_iff. right. apply Z.ltb_ge. apply Hok.
  - intros d Hd. destruct (p d) eqn:Ep; [simpl|done]. apply andb_false_iff. right.
    destruct (event_pruned db (d_event (f d))) eqn:Epr; [|done]. exfalso.
    apply event_pruned_true in Epr as (e & He & Es & Hpr).
    assert (d_event (f d) = d_event d) as Ef by (specialize (Hkey d); by injection Hkey).
    destruct (wf_pruned _ Hwf e He Hpr) as (_ & _ & Hall).
    specialize (Hall d Hd ltac:(unfold same_event; congruence)).
    destruct (Hp d Ep) as [Hn|Hn]; rewrite Hall in Hn; done.
Qed.

Lemma update_open_spec n db :
  db_wf db →
  (∃ d, still_open db d ∧
     update_deliveries (open_row item) f n db =
       inr (set_deliveries (update_where (has_delivery_key (EventSequence item) (SinkID item)) f
              (deliveries db)) db, 1)) ∨
  ((∀ d, ¬ still_open db d) ∧ update_deliveries (open_row item) f n db = inr (db, 0)).
Proof.
  intros Hwf. rewrite update_total; [|done|intros d Hd; apply open_row_true in Hd; left; apply Hd].
  destruct (exists_where (open_row item) (deliveries db)) eqn:E.
  - left. apply exists_where_true in E as (d & Hd & Hp). pose proof Hp as Hp'.
    apply open_row_true in Hp as (E1 & E2 & E3 & E4).
    assert (delivery_at db (EventSequence item) (SinkID item) = Some d) as Hat
      by (by apply delivery_at_Some).
    exists d. split; [done|].
    destruct (update_one (open_row item) f db _ _ d Hwf Hat Hp') as [-> ->]; [|done].
    intros d' (K1 & K2 & _)%open_row_true. apply has_delivery_key_true.
    unfold delivery_key. congruence.
  - right. pose proof (proj1 (exists_where_false _ _) E) as Hno. split.
    + intros d (Hat & Hn & Ha). apply delivery_at_Some in Hat as (Hd & E1 & E2); [|done].
      specialize (Hno d Hd). assert (open_row item d = true) by (by apply open_row_true).
      congruence.
    + rewrite update_where_none by done.
      rewrite (proj2 (count_where_0 _ _)) by done. by destruct db.
Qed.

Definition record_post (env : Env) (db : DB) (o : outcome unit) (w' : World DB) : Prop :=
  txn w' = None ∧
  let done_ := ∃ d, still_open db d ∧
    disk w' = set_deliveries (update_where (has_delivery_key (EventSequence item) (SinkID item)) f
                (deliveries db)) db in
  match o with
  | Ok _ => done_
  | Fail e => errors_is e ErrDurability = true ∧
      ((disk w' = db ∧ (faulty env ∨ ∀ d, ¬ still_open db d)) ∨ (done_ ∧ faulty env))
  | Crash => False
  end.

Lemma record_wp env w :
  db_wf (disk w) → txn w = None →
  wp (r ← exec (update_deliveries (open_row item) f); expectOneDeliveryUpdate r) env w
    (record_post env (disk w)).
Proof.
  intros Hwf Ht. wp_step. eapply wp_exec_auto; [done| | |].
  - intros n m k [Hf|Hm]; simpl.
    + wp_step. split; [done|]. split; [apply errors_is_wrapf|]. left. simpl. auto.
    + exfalso. destruct (update_open_spec n (disk w) Hwf) as [(d & _ & E)|[_ E]]; congruence.
  - intros n m db' a k Hf Hup. simpl. wp_step. split; [done|]. split; [apply errors_is_wrapf|].
    simpl. destruct (update_open_spec n (disk w) Hwf) as [(d & Ho & E)|[Hno E]];
      rewrite E in Hup; injection Hup as <- <-; eauto 10.
  - intros n db' a k Hup. simpl. wp_step. apply wp_query_auto; [done| |].
    + intros k' Hf. split; [done|]. split; [apply errors_is_wrapf|]. simpl.
      destruct (update_open_spec n (disk w) Hwf) as [(d & Ho & E)|[Hno E]];
        rewrite E in Hup; injection Hup as <- <-; eauto 10.
    + intros k'. destruct (update_open_spec n (disk w) Hwf) as [(d & Ho & E)|[Hno E]];
        rewrite E in Hup; injection Hup as <- <-; wp_step; breflect; try lia.
      * split; [done|]. simpl. eauto.
      * split; [done|]. split; [apply errors_is_wrapf|]. left. simpl. auto.
Qed.

End Record.

(** ** What the updates keep *)

Lemma delivered_row_key attempt status t d :
  delivery_key (delivered_row attempt status t d) = delivery_key d.
Proof. done. Qed.

Lemma failed_row_key attempt perm retry m status t d :
  delivery_key (failed_row attempt perm retry m status t d) = delivery_key d.
Proof. done. Qed.

Lemma redriven_row_key t d : delivery_key (redriven_row t d) = delivery_key d.
Proof. done. Qed.

Lemma delivered_row_ok attempt status t d :
  0 <= attempt → delivery_ok (delivered_row attempt status t d).
Proof. intros H. by repeat split. Qed.

Lemma failed_row_ok attempt perm retry m status t d :
  0 <= attempt → delivery_ok (failed_row attempt perm retry m status t d).
Proof. intros H. split; [done|]. by destruct perm. Qed.

Lemma redriven_row_ok t d : delivery_ok (redriven_row t d).
Proof. by repeat split. Qed.

#[export] Hint Resolve delivered_row_key failed_row_key redriven_row_key
  delivered_row_ok failed_row_ok redriven_row_ok : relay.

Lemma covered_update p f db :
  (∀ d, delivery_key (f d) = delivery_key d) → db_covered db →
  db_covered (set_deliveries (update_where p f (deliveries db)) db).
Proof.
  intros Hk Hcov e s He Hn Hs Ha. destruct (Hcov e s He Hn Hs Ha) as (d & Hd & E1 & E2).
  exists (if p d then f d else d). split; [apply elem_of_update_where; eauto|].
  specialize (Hk d). injection Hk as K1 K2. destruct (p d); split; congruence.
Qed.

(** The database in which one delivery row is replaced. *)
Definition updated (q s : Z) (f : delivery_rec → delivery_rec) (db : DB) : DB :=
  set_deliveries (update_where (has_delivery_key q s) f (deliveries db)) db.

Lemma updated_wf item f db d :
  (∀ d, delivery_key (f d) = delivery_key d) → (∀ d, delivery_ok (f d)) → db_wf db →
  still_open item db d → db_wf (updated (EventSequence item) (SinkID item) f db).
Proof.
  intros Hk Ho Hwf Hopen.
  destruct (update_open_spec item f Hk Ho 0 db Hwf) as [(d' & _ & E)|[Hno _]]; [|by destruct (Hno d)].
  eapply update_deliveries_wf; [..|exact E]; eauto.
Qed.

Lemma delivery_at_updated q s f db d q' s' :
  (∀ d, delivery_key (f d) = delivery_key d) → db_wf db → db_wf (updated q s f db) →
  delivery_at db q s = Some d →
  delivery_at (updated q s f db) q' s' =
    if decide ((q', s') = (q, s)) then Some (f d) else delivery_at db q' s'.
Proof.
  intros Hk Hwf Hwf' Hat.
  pose proof (proj1 (delivery_at_Some _ _ _ _ Hwf) Hat) as (Hd & Eq & Es).
  destruct (decide _) as [[= -> ->]|Hne].
  - apply delivery_at_Some; [done|]. split.
    + apply (elem_of_updated q s f db d Hat Hwf). by left.
    + specialize (Hk d). injection Hk as K1 K2. split; congruence.
  - destruct (delivery_at db q' s') as [d'|] eqn:E.
    + apply delivery_at_Some in E as (Hd' & E1 & E2); [|done].
      apply delivery_at_Some; [done|]. split; [|done].
      apply (elem_of_updated q s f db d Hat Hwf). right. split; [done|].
      unfold delivery_key. congruence.
    + unfold delivery_at in E |- *. apply head_select_None. intros d' Hd'.
      apply (elem_of_updated q s f db d Hat Hwf) in Hd' as [->|[Hd' _]].
      * destruct (has_delivery_key q' s' (f d)) eqn:Ek; [|done].
        apply has_delivery_key_true in Ek. rewrite Hk in Ek. destruct Hne.
        rewrite <- Ek. unfold delivery_key. congruence.
      * by apply (proj1 (head_select_None _ _) E).
Qed.

(** ** Redrive *)

(** The dead letter that a redrive names. *)
Definition dead_letter_of (db : DB) (sinkName source id : string) (d : delivery_rec) : Prop :=
  d ∈ deliveries db ∧ d_state d = dead_letter ∧
  (∃ s, s ∈ delivery_sinks db ∧ s_id s = d_sink d ∧ s_name s = sinkName ∧ s_active s = true) ∧
  (∃ e, e ∈ events db ∧ e_sequence e = d_event d ∧ event_key e = (source, id)).

Lemma active_sink_id_Some db n k :
  db_wf db → active_sink_id db n = Some k ↔
  ∃ s, s ∈ delivery_sinks db ∧ s_id s = k ∧ s_name s = n ∧ s_active s = true.
Proof.
  intros Hwf. unfold active_sink_id. split.
  - destruct (head _) as [s|] eqn:E; [|done]. intros [= <-].
    apply head_select_Some in E as [Hs Hp]. breflect. eauto.
  - intros (s & Hs & <- & <- & Ha). destruct (head _) as [s'|] eqn:E.
    + apply head_select_Some in E as [Hs' Hp]. breflect. simpl.
      by rewrite (NoDup_map_inj s_name _ _ _ (wf_sink_names _ Hwf) Hs' Hs H).
    + pose proof (proj1 (head_select_None _ _) E s Hs) as Hp. simpl in Hp.
      by rewrite String.eqb_refl, Ha in Hp.
Qed.

Lemma sequence_of_Some db src id q :
  db_wf db → sequence_of db src id = Some q ↔
  ∃ e, e ∈ events db ∧ e_sequence e = q ∧ event_key e = (src, id).
Proof.
  intros Hwf. unfold sequence_of. split.
  - destruct (head _) as [e|] eqn:E; [|done]. intros [= <-].
    apply head_select_Some in E as [He Hp]. apply has_event_key_true in Hp. eauto.
  - intros (e & He & <- & Hk). destruct (head _) as [e'|] eqn:E.
    + apply head_select_Some in E as [He' Hp]. apply has_event_key_true in Hp. simpl.
      by rewrite (NoDup_map_inj event_key _ e' e (wf_identities _ Hwf) He' He) by congruence.
    + pose proof (proj1 (head_select_None _ _) E e He) as Hp. simpl in Hp.
      apply has_event_key_true in Hk. congruence.
Qed.

Lemma redrive_where_true n src id db d :
  db_wf db → d ∈ deliveries db →
  redrive_where n src id db d = true ↔ dead_letter_of db n src id d.
Proof.
  intros Hwf Hd. unfold redrive_where, dead_letter_of.
  rewrite !andb_true_iff, !bool_decide_eq_true, active_sink_id_Some, sequence_of_Some by done.
  split.
  - intros [[H1 (s & ? & ? & ? & ?)] (e & ? & ? & ?)]. split; [done|].
    split; [by destruct (d_state d)|]. eauto 10.
  - intros (_ & H1 & (s & ? & ? & ? & ?) & (e & ? & ? & ?)). rewrite H1.
    split; [split; [done|]|]; eauto 10.
Qed.

Lemma redrive_spec n src id t k db :
  db_wf db →
  (∃ d, dead_letter_of db n src id d ∧
     update_deliveries (redrive_where n src id db) (redriven_row t) k db =
       inr (updated (d_event d) (d_sink d) (redriven_row t) db, 1)) ∨
  ((∀ d, ¬ dead_letter_of db n src id d) ∧
   update_deliveries (redrive_where n src id db) (redriven_row t) k db = inr (db, 0)).
Proof.
  intros Hwf. rewrite update_total; [| auto with relay | auto with relay | done |].
  2: { intros d Hd. right. unfold redrive_where in Hd. breflect. by destruct (d_state d). }
  destruct (exists_where (redrive_where n src id db) (deliveries db)) eqn:E.
  - left. apply exists_where_true in E as (d & Hd & Hp).
    pose proof (proj1 (redrive_where_true _ _ _ _ _ Hwf Hd) Hp) as Hdl. exists d. split; [done|].
    destruct (update_one (redrive_where n src id db) (redriven_row t) db (d_event d) (d_sink d) d)
      as [Hw Hc]; [done | by apply delivery_at_Some | done | | unfold updated; by rewrite Hw, Hc].
    intros d' Hp'. apply has_delivery_key_true. unfold redrive_where in Hp, Hp'. breflect.
    unfold delivery_key. congruence.
  - right. pose proof (proj1 (exists_where_false _ _) E) as Hno. split.
    + intros d Hd. assert (d ∈ deliveries db) as Hin by apply Hd.
      apply redrive_where_true in Hd; [|done..]. specialize (Hno d Hin). congruence.
    + rewrite update_where_none by done. rewrite (proj2 (count_where_0 _ _)) by done. by destruct db.
Qed.

(** ** The two ways to record an attempt *)

Lemma MarkDelivered_wp item attempt status at_ env w :
  db_wf (disk w) → txn w = None → 0 <= attempt →
  wp (MarkDelivered item attempt status at_) env w
    (record_post item (delivered_row attempt status at_) env (disk w)).
Proof. intros Hwf Ht Ha. apply record_wp; auto with relay. Qed.

Lemma MarkFailed_wp item attempt permanent retryAt failure status at_ env w :
  db_wf (disk w) → txn w = None → 0 <= attempt →
  wp (MarkFailed item attempt permanent retryAt failure status at_) env w
    (record_post item (failed_row attempt permanent retryAt failure status at_) env (disk w)).
Proof. intros Hwf Ht Ha. apply record_wp; auto with relay. Qed.

(** The dead letter is reopened and nothing else changes. *)
Definition redriven (sinkName source id : string) (at_ : time) (db db' : DB) : Prop :=
  ∃ d, dead_letter_of db sinkName source id d ∧
    db' = updated (d_event d) (d_sink d) (λ d, {|
      d_event := d_event d; d_sink := d_sink d; d_state := retry_wait; d_attempts := 0;
      d_next := formatTimestamp at_; d_last := None; d_delivered_at := None; d_dead_at := None;
      d_error := None; d_status := None |}) db ∧ db_wf db' ∧ db_covered db'.

Lemma redrive_stmt n src id t k db db' c :
  db_wf db → db_covered db →
  update_deliveries (redrive_where n src id db) (redriven_row t) k db = inr (db', c) →
  (c = 1 ∧ redriven n src id t db db') ∨
  (c = 0 ∧ db' = db ∧ ∀ d, ¬ dead_letter_of db n src id d).
Proof.
  intros Hwf Hcov H. assert (db_wf db') by (eapply update_deliveries_wf; [| | |exact H]; auto with relay).
  assert (db_covered db').
  { apply update_deliveries_inv in H as (-> & _). apply covered_update; auto with relay. }
  destruct (redrive_spec n src id t k db Hwf) as [(d & Hd & E)|[Hno E]];
    rewrite E in H; injection H as <- <-; [left|by right].
  split; [done|]. by exists d.
Qed.

Lemma RedriveDelivery_wp n src id t env w :
  db_wf (disk w) → db_covered (disk w) → txn w = None →
  wp (RedriveDelivery n src id t) env w (λ o w', match o with
    | Ok _ => redriven n src id t (disk w) (disk w')
    | Fail e =>
        (disk w' = disk w ∧ (faulty env ∨ ∀ d, ¬ dead_letter_of (disk w) n src id d)) ∨
        (faulty env ∧ redriven n src id t (disk w) (disk w'))
    | Crash => False
    end).
Proof.
  intros Hwf Hcov Ht. unfold RedriveDelivery. wp_step. eapply wp_run_auto; [done| | |].
  - intros k' k [Hf|(m & Hm)]; [left; auto|]. exfalso.
    destruct (redrive_spec n src id t k' (disk w) Hwf) as [(d & _ & E)|[_ E]]; congruence.
  - intros k' db' c k Hf Hm.
    destruct (redrive_stmt _ _ _ _ _ _ _ _ Hwf Hcov Hm) as [[_ ?]|(_ & -> & _)]; auto.
  - intros k' db' c k Hm.
    destruct (redrive_stmt _ _ _ _ _ _ _ _ Hwf Hcov Hm) as [[-> ?]|(-> & -> & ?)];
      (wp_step; apply wp_query_auto; [done | auto |]); intros k2; wp_step; try done; auto.
Qed.
