(* ===== verification/DeliveryProps.v ===== *)
(** * DeliveryProps: what the delivery queue guarantees *)

From S2P Require Import Prelude Rows Text Timestamp Sha256 Runtime.
From S2P Require Import Schema SchemaFacts Store Deliveries DeliveryFacts.

(** C4. Per-sink order: [NextDueDelivery] returns the oldest unfinished
    delivery of an active sink whose retry time has come, with the retained
    payload whose digest is on record; among several sinks the oldest event
    comes first.  It reports nothing exactly when no such head is due, so a
    waiting head is never skipped in favour of a later event. *)
Theorem next_due_in_order now env w :
  db_wf (disk w) → txn w = None →
  match NextDueDelivery now env w with
  | (Ok (Some item), w') => disk w' = disk w ∧
      ∃ e s d, first_due (disk w) (formatTimestamp now) e s d ∧ carries item e s d ∧
        e_pruned_at e = None ∧ e_sha256 e = Sum256 (Payload item)
  | (Ok None, w') => disk w' = disk w ∧ ∀ e s d, ¬ due (disk w) (formatTimestamp now) e s d
  | (Fail _, w') => disk w' = disk w ∧ faulty env
  | (Crash, _) => False
  end.
Proof.
  intros Hwf Ht.
  assert (wp (NextDueDelivery now) env w (λ o w', disk w' = disk w ∧ match o with
    | Ok r => r = next_due (formatTimestamp now) (disk w)
    | Fail _ => faulty env | Crash => False end)) as H
    by (apply NextDueDelivery_wp; auto).
  apply wp_elim in H. destruct (NextDueDelivery now env w) as [[[item|]|e|] w']; simpl in H.
  - destruct H as [Hd Hn]. split; [done|].
    destruct (next_due_Some _ _ _ Hwf (eq_sym Hn)) as (e & s & d & Hf & Hc).
    exists e, s, d. split; [done|]. split; [done|].
    destruct Hf as [[(Hin & Hnt & _) [He Ee] _ _] _].
    destruct Hc as (_ & _ & _ & _ & _ & -> & _). by apply (unfinished_retained (disk w) e d).
  - destruct H as [Hd Hn]. split; [done|]. by apply next_due_None.
  - done.
  - by destruct H.
Qed.

(** [MarkDelivered] replaces exactly the row the item was read from, if it
    is still unfinished with the same attempt count, and the spool stays
    well formed and covered.  Otherwise it fails with [ErrDurability] and
    nothing changes; only a failing driver call can report an error although
    the row was written. *)
Theorem mark_delivered_effect item attempt status at_ env w :
  db_wf (disk w) → db_covered (disk w) → txn w = None → 0 <= attempt →
  let f d := {|
    d_event := d_event d; d_sink := d_sink d; d_state := delivered; d_attempts := attempt;
    d_next := d_next d; d_last := Some (formatTimestamp at_);
    d_delivered_at := Some (formatTimestamp at_); d_dead_at := None; d_error := None;
    d_status := if negb (status =? 0) then Some status else None |} in
  let db' := updated (EventSequence item) (SinkID item) f (disk w) in
  match MarkDelivered item attempt status at_ env w with
  | (Ok _, w') => (∃ d, still_open item (disk w) d) ∧ disk w' = db' ∧ db_wf db' ∧ db_covered db'
  | (Fail e, w') => errors_is e ErrDurability = true ∧
      ((disk w' = disk w ∧ (faulty env ∨ ∀ d, ¬ still_open item (disk w) d)) ∨
       (disk w' = db' ∧ faulty env ∧ db_wf db' ∧ db_covered db'))
  | (Crash, _) => False
  end.
Proof.
  intros Hwf Hcov Ht Ha f db'. change f with (delivered_row attempt status at_) in *.
  pose proof (MarkDelivered_wp item attempt status at_ env w Hwf Ht Ha) as H. apply wp_elim in H.
  assert (∀ d, still_open item (disk w) d → db_wf db' ∧ db_covered db') as Hgood.
  { intros d Ho. split; [eapply updated_wf; eauto with relay | by apply covered_update]. }
  destruct (MarkDelivered item attempt status at_ env w) as [[u|e|] w']; simpl in H.
  - destruct H as (_ & d & Ho & Hd). split; [eauto|]. split; [done | eauto].
  - destruct H as (_ & He & [Hd|[(d & Ho & Hd) Hf]]); (split; [done|]); [by left|]. right.
    split; [done|]. split; [done | eauto].
  - by destruct H.
Qed.

(** The row is an unfinished delivery of the sink. *)
Definition unfinished_at (db : DB) (sink : Z) (d : delivery_rec) : Prop :=
  d ∈ deliveries db ∧ d_sink d = sink ∧ non_terminal (d_state d) = true.

(** A failed row in the updated queue: the other rows are as before. *)
Lemma failed_unfinished item f (db : DB) d d' :
  db_wf db → delivery_at db (EventSequence item) (SinkID item) = Some d →
  d' ∈ deliveries (updated (EventSequence item) (SinkID item) f db) →
  d_sink d' = SinkID item → non_terminal (d_state d') = true →
  d' = f d ∨ unfinished_at db (SinkID item) d'.
Proof.
  intros Hwf Hat Hd' Es Hn. apply (elem_of_updated _ _ f _ d Hat Hwf) in Hd' as [->|[Hd' _]]; [by left|].
  by right.
Qed.

(** C29. A failed attempt keeps the line: after [MarkFailed] with a retry time,
    before that time neither the failed delivery nor a later event of the
    same sink is returned; only an earlier event of the sink that was
    already unfinished when the failure was recorded, such as a dead letter
    redriven during the request, can be.  From that time on, if the sink is
    active, the failed delivery is due again exactly when it is the oldest
    unfinished one of its sink. *)
Theorem retry_holds_the_line item attempt retryAt failure status at_ env w w' now :
  db_wf (disk w) → txn w = None → 0 <= attempt →
  four_digit_year retryAt → four_digit_year now →
  MarkFailed item attempt false retryAt failure status at_ env w = (Ok tt, w') →
  (now < retryAt → ∀ item', next_due (formatTimestamp now) (disk w') = Some item' →
     SinkID item' = SinkID item →
     EventSequence item' < EventSequence item ∧
     ∃ d, unfinished_at (disk w) (SinkID item) d ∧ d_event d = EventSequence item') ∧
  (retryAt <= now → ∀ s, s ∈ delivery_sinks (disk w') → s_id s = SinkID item → s_active s = true →
     (∃ e d, due (disk w') (formatTimestamp now) e s d ∧ e_sequence e = EventSequence item) ↔
     ∀ d, unfinished_at (disk w) (SinkID item) d → EventSequence item <= d_event d).
Proof.
  intros Hwf Ht Ha Hy1 Hy2 E.
  set (f := failed_row attempt false retryAt failure status at_).
  pose proof (MarkFailed_wp item attempt false retryAt failure status at_ env w Hwf Ht Ha) as H.
  apply wp_elim in H. rewrite E in H. simpl in H. destruct H as (_ & d & Ho & Hd).
  fold f in Hd. assert (db_wf (disk w')) as Hwf' by (rewrite Hd; eapply updated_wf; eauto with relay).
  destruct Ho as (Hat & Hnt & Hatt). pose proof Hat as Hrow. apply delivery_at_Some in Hrow as (Hin & Eq & Es); [|done].
  assert (f d ∈ deliveries (disk w')) as Hfd
    by (rewrite Hd; apply (elem_of_updated _ _ f _ d Hat Hwf); by left).
  assert (∀ d', d' ∈ deliveries (disk w') → d_sink d' = SinkID item → non_terminal (d_state d') = true →
    d' = f d ∨ unfinished_at (disk w) (SinkID item) d') as Hrows
    by (intros d' H1 H2 H3; rewrite Hd in H1; by eapply failed_unfinished).
  split.
  - intros Hlt item' Hn Esink. destruct (next_due_Some _ _ _ Hwf' Hn) as (e & s & d' & [Hdue _] & Hc).
    destruct Hc as (Eseq & _ & _ & _ & _ & _ & Esk & _).
    destruct Hdue as [(Hd' & Hn' & Hmin) (_ & Ee) (_ & Es1 & _) Htime].
    assert (d_sink d' = SinkID item) as Ed' by congruence.
    destruct (Hrows d' Hd' Ed' Hn') as [->|Hold].
    + exfalso. simpl in Htime. rewrite formatTimestamp_leb in Htime by done. breflect. lia.
    + assert (d_event d' <= d_event (f d)) as Hle
        by (apply Hmin; [done | simpl; congruence | done]).
      assert (d_event d' ≠ EventSequence item) as Hne.
      { intros Ec. assert (d' = f d) as ->
          by (apply (deliveries_unique (disk w')); [done..| simpl; congruence | simpl; congruence]).
        simpl in Htime. rewrite formatTimestamp_leb in Htime by done. breflect. lia. }
      simpl in Hle. assert (EventSequence item' = d_event d') as Ei by congruence.
      split; [lia | exists d'; by split].
  - intros Hle s Hs Eid Hact. split.
    + intros (e & d' & [(Hd' & Hn' & Hmin) (_ & Ee) (_ & Es1 & _) _] & Ei) d2 (Hd2 & Es2 & Hn2).
      destruct (decide (d_event d2 = EventSequence item)) as [->|Hne]; [done|].
      assert (d2 ∈ deliveries (disk w')) as Hd2'.
      { rewrite Hd. apply (elem_of_updated _ _ f _ d Hat Hwf). right. split; [done|]. by intros [= ? ?]. }
      rewrite <- Ei, Ee. apply Hmin; [done | congruence | done].
    + intros Hmin. destruct (wf_delivery_event _ Hwf' (f d)) as (e & He & Ee); [done|].
      unfold same_event in Ee. exists e, (f d). split; [|simpl in Ee; congruence].
      split; [|by split | by repeat split; [|simpl; congruence|] |].
      * split; [done|]. split; [done|]. intros d' Hd' Es' Hn'. simpl in Es'. simpl. rewrite Eq.
        destruct (Hrows d' Hd' ltac:(congruence) Hn') as [->|Hold]; [simpl; lia | by apply Hmin].
      * simpl. rewrite formatTimestamp_leb by done. by apply Z.leb_le.
Qed.

(** An attempt is recorded once: after a successful [MarkDelivered] or
    [MarkFailed] that raised the attempt count, every further
    [MarkDelivered] for the same item, from whatever process, fails with
    [ErrDurability] and changes nothing. *)
Theorem stale_item_refused item attempt status at_ env w w' attempt2 status2 at2 env2 :
  db_wf (disk w) → txn w = None → 0 <= attempt → attempt ≠ Attempts item → 0 <= attempt2 →
  MarkDelivered item attempt status at_ env w = (Ok tt, w') ∨
    (∃ p r m, MarkFailed item attempt p r m status at_ env w = (Ok tt, w')) →
  match MarkDelivered item attempt2 status2 at2 env2 w' with
  | (Fail e, w2) => errors_is e ErrDurability = true ∧ disk w2 = disk w'
  | _ => False
  end.
Proof.
  intros Hwf Ht Ha Hne Ha2 Hrec.
  assert (∃ f d, (∀ d, delivery_key (f d) = delivery_key d) ∧ (∀ d, delivery_ok (f d)) ∧
    (∀ d, d_attempts (f d) = attempt) ∧ still_open item (disk w) d ∧ txn w' = None ∧
    disk w' = updated (EventSequence item) (SinkID item) f (disk w)) as (f & d & Hk & Hok & Hat & Ho & Ht' & Hd).
  { destruct Hrec as [E|(p & r & m & E)].
    - pose proof (MarkDelivered_wp item attempt status at_ env w Hwf Ht Ha) as H.
      apply wp_elim in H. rewrite E in H. destruct H as (? & d & Ho & Hd).
      exists (delivered_row attempt status at_), d. by auto 10 with relay.
    - pose proof (MarkFailed_wp item attempt p r m status at_ env w Hwf Ht Ha) as H.
      apply wp_elim in H. rewrite E in H. destruct H as (? & d & Ho & Hd).
      exists (failed_row attempt p r m status at_), d. by auto 10 with relay. }
  assert (db_wf (disk w')) as Hwf' by (rewrite Hd; eapply updated_wf; eauto).
  assert (∀ d', ¬ still_open item (disk w') d') as Hno.
  { intros d' (Hat' & _ & Hatt'). rewrite Hd in Hat', Hwf'.
    rewrite (delivery_at_updated _ _ _ _ d) in Hat' by (try done; apply Ho).
    rewrite decide_True in Hat' by done. injection Hat' as <-. rewrite Hat in Hatt'. done. }
  pose proof (MarkDelivered_wp item attempt2 status2 at2 env2 w' Hwf' Ht' Ha2) as H.
  apply wp_elim in H.
  destruct (MarkDelivered item attempt2 status2 at2 env2 w') as [[u|e|] w2]; simpl in H.
  - destruct H as (_ & d' & Ho' & _). by apply (Hno d').
  - destruct H as (_ & He & [[? _]|[(d' & Ho' & _) _]]); [done|]. by destruct (Hno d').
  - by destruct H.
Qed.

(** C30. [RedriveDelivery] reopens exactly the dead letter of the named event
    and active sink, with a fresh attempt count, and keeps the spool well
    formed and covered; when there is no such dead letter it reports so and
    changes nothing. *)
Theorem redrive_effect sinkName source id at_ env w :
  db_wf (disk w) → db_covered (disk w) → txn w = None →
  match RedriveDelivery sinkName source id at_ env w with
  | (Ok _, w') => redriven sinkName source id at_ (disk w) (disk w')
  | (Fail e, w') =>
      (disk w' = disk w ∧ (faulty env ∨ ∀ d, ¬ dead_letter_of (disk w) sinkName source id d)) ∨
      (faulty env ∧ redriven sinkName source id at_ (disk w) (disk w'))
  | (Crash, _) => False
  end.
Proof.
  intros Hwf Hcov Ht.
  pose proof (RedriveDelivery_wp sinkName source id at_ env w Hwf Hcov Ht) as H.
  apply wp_elim in H. by destruct (RedriveDelivery sinkName source id at_ env w) as [[u|e|] w'].
Qed.
