(* ===== verification/Listing.v ===== *)
(** * Listing: [ListEvents] and [ListDeliveries] (sqlite.go)

    The inspection commands read rows back and parse the timestamps that
    capture and delivery have written. *)

From S2P Require Import Prelude Rows Text Timestamp TimeParse Duration Sha256 Runtime.
From S2P Require Import Schema SchemaFacts Store Deliveries.

(** ** Rows *)

Record EventRow := MkEventRow {
  er_Sequence : Z;
  er_Source : string;
  er_ID : string;
  er_Type : string;
  er_Subject : string;
  er_Payload : option string;
  er_TransactionID : Z;
  er_MessageLSN : string;
  er_CommitLSN : string;
  er_CommitEndLSN : string;
  er_CommitTime : time;
  er_MessageIndex : Z;
  er_PayloadPrunedAt : option time;
}.

Record DeliveryRow := MkDeliveryRow {
  dr_EventSequence : Z;
  dr_SinkName : string;
  dr_State : DeliveryState;
  dr_Attempts : Z;
  dr_NextAttemptAt : time;
  dr_LastAttemptAt : option time;
  dr_DeliveredAt : option time;
  dr_DeadLetteredAt : option time;
  dr_LastError : string;
  dr_ResponseStatus : Z;
  dr_Source : string;
  dr_ID : string;
  dr_Type : string;
}.

(** The text of a state in the table. *)
Definition state_text (s : DeliveryState) : string :=
  match s with
  | pending => "pending"
  | retry_wait => "retry_wait"
  | delivered => "delivered"
  | dead_letter => "dead_letter"
  end.

(** [nullableTime]. *)
Definition nullableTime (value : option string) : result (option time) :=
  match value with
  | None => inr None
  | Some s =>
      match parse_time s with
      | Some t => inr (Some t)
      | None => inl (errorf "time.Parse")
      end
  end.

(** [if ...; err != nil { return nil, fmt.Errorf(m, err) }]. *)
Definition checked {A} (m : string) (r : result A) : M DB A :=
  match r with inl _ => fail (errorf m) | inr a => mret a end.

Definition parsed (value : string) : result time :=
  match parse_time value with Some t => inr t | None => inl (errorf "time.Parse") end.

(** ** [ListEvents] *)

Definition scan_event (_ : Z) (e : event_rec) (result : list EventRow) : M DB (list EventRow) :=
  driver_call (errorf "scan spool event: %w");;
  prunedAt ← checked "parse payload pruning time: %w" (nullableTime (e_pruned_at e));
  commitTime ← checked "parse event commit time: %w" (parsed (e_commit_time e));
  mret (result ++ [MkEventRow (e_sequence e) (e_source e) (e_id e) (e_type e)
    (coalesce (e_subject e)) (match prunedAt with Some _ => None | None => Some (e_payload e) end)
    (e_transaction_id e mod 2 ^ 32) (e_message_lsn e) (e_commit_lsn e) (e_commit_end_lsn e)
    commitTime (e_message_index e) prunedAt]).

(** [(s *Store) ListEvents]. *)
Definition ListEvents (limit : Z) : M DB (list EventRow) :=
  reject ((limit <? 1) || (1000 <? limit)) (errorf "limit must be between 1 and 1000");;
  rows ← run (errorf "list spool events: %w")
    (query (λ db, take (Z.to_nat limit) (sort_by (λ a b, e_sequence a <=? e_sequence b) (events db))));
  result ← for_range rows 0 [] scan_event;
  driver_call (errorf "rows.Err");;
  mret result.

(** ** [ListDeliveries] *)

(** A row of the join with its sink and its event. *)
Record listed_row := MkListed { li_delivery : delivery_rec; li_sink : sink_rec; li_event : event_rec }.

Definition list_rows (state : string) (db : DB) : list listed_row :=
  flat_map (λ d, flat_map (λ s, flat_map (λ e,
    if (s_id s =? d_sink d) && (e_sequence e =? d_event d) &&
       ((state =? "")%string || (state_text (d_state d) =? state)%string)
    then [MkListed d s e] else [])
    (events db)) (delivery_sinks db)) (deliveries db).

(** [ORDER BY d.event_sequence, s.sink_id]. *)
Definition listed_leb (a b : listed_row) : bool :=
  (d_event (li_delivery a) <? d_event (li_delivery b)) ||
  ((d_event (li_delivery a) =? d_event (li_delivery b)) &&
   (s_id (li_sink a) <=? s_id (li_sink b))).

Definition scan_delivery (_ : Z) (r : listed_row) (result : list DeliveryRow)
    : M DB (list DeliveryRow) :=
  let d := li_delivery r in
  driver_call (errorf "scan delivery: %w");;
  next ← checked "parse next delivery attempt: %w" (parsed (d_next d));
  last ← checked "parse last delivery attempt: %w" (nullableTime (d_last d));
  deliveredAt ← checked "parse delivered time: %w" (nullableTime (d_delivered_at d));
  deadAt ← checked "parse dead-letter time: %w" (nullableTime (d_dead_at d));
  mret (result ++ [MkDeliveryRow (d_event d) (s_name (li_sink r)) (d_state d) (d_attempts d)
    next last deliveredAt deadAt (coalesce (d_error d))
    (match d_status d with Some n => n | None => 0 end)
    (e_source (li_event r)) (e_id (li_event r)) (e_type (li_event r))]).

Definition known_state (state : string) : bool :=
  (state =? "")%string || (state =? "pending")%string || (state =? "retry_wait")%string ||
  (state =? "delivered")%string || (state =? "dead_letter")%string.

(** [(s *Store) ListDeliveries]. *)
Definition ListDeliveries (state : string) (limit : Z) : M DB (list DeliveryRow) :=
  reject ((limit <? 1) || (1000 <? limit)) (errorf "limit must be between 1 and 1000");;
  reject (negb (known_state state))
    (errorf "state must be pending, retry_wait, delivered, or dead_letter");;
  rows ← run (errorf "list deliveries: %w")
    (query (λ db, take (Z.to_nat limit) (sort_by listed_leb (list_rows state db))));
  result ← for_range rows 0 [] scan_delivery;
  driver_call (errorf "rows.Err");;
  mret result.

(** [ParseSequence]: [strconv.ParseInt] in base 10. *)
Definition ParseSequence (value : string) : option Z := ParseInt value.

(** ** Timestamps of the spool *)

Definition nano_text (s : string) : Prop := ∃ t, four_digit_year t ∧ s = formatRFC3339Nano t.
Definition fixed_text (s : string) : Prop := ∃ t, four_digit_year t ∧ s = formatTimestamp t.
Definition null_or (p : string → Prop) (o : option string) : Prop :=
  match o with None => True | Some s => p s end.

Definition event_stamped (e : event_rec) : Prop :=
  nano_text (e_commit_time e) ∧ nano_text (e_captured_at e) ∧ null_or fixed_text (e_pruned_at e).
Definition delivery_stamped (d : delivery_rec) : Prop :=
  fixed_text (d_next d) ∧ null_or fixed_text (d_last d) ∧ null_or fixed_text (d_delivered_at d) ∧
  null_or fixed_text (d_dead_at d).

(** Every time column holds a time the program wrote, in years 0 to 9999. *)
Record db_stamped (db : DB) : Prop := {
  st_events : Forall event_stamped (events db);
  st_deliveries : Forall delivery_stamped (deliveries db);
}.

(** ** What the listings show *)

Lemma nullable_fixed o :
  null_or fixed_text o → ∃ t, nullableTime o = inr t ∧
    match t with
    | None => o = None
    | Some t => four_digit_year t ∧ o = Some (formatTimestamp t)
    end.
Proof.
  destruct o as [s|]; simpl; [|by exists None]. intros (t & Ht & ->).
  rewrite parse_formatTimestamp by done. by exists (Some t).
Qed.

Lemma parsed_fixed s : fixed_text s → ∃ t, parsed s = inr t ∧ four_digit_year t ∧ s = formatTimestamp t.
Proof. intros (t & Ht & ->). unfold parsed. rewrite parse_formatTimestamp by done. by exists t. Qed.

Lemma parsed_nano s : nano_text s → ∃ t, parsed s = inr t ∧ four_digit_year t ∧ s = formatRFC3339Nano t.
Proof. intros (t & Ht & ->). unfold parsed. rewrite parse_formatRFC3339Nano by done. by exists t. Qed.

(** The row shows the event. *)
Record shows_event (e : event_rec) (r : EventRow) : Prop := {
  se_identity : (er_Sequence r, er_Source r, er_ID r, er_Type r) =
    (e_sequence e, e_source e, e_id e, e_type e);
  se_subject : er_Subject r = coalesce (e_subject e);
  se_position : (er_TransactionID r, er_MessageIndex r, er_CommitEndLSN r) =
    (e_transaction_id e mod 2 ^ 32, e_message_index e, e_commit_end_lsn e);
  se_commit : formatRFC3339Nano (er_CommitTime r) = e_commit_time e;
  se_pruned : formatTimestamp <$> er_PayloadPrunedAt r = e_pruned_at e;
  se_pruned_year : match er_PayloadPrunedAt r with Some t => four_digit_year t | None => True end;
  se_payload : er_Payload r = match e_pruned_at e with Some _ => None | None => Some (e_payload e) end;
}.

(** The row shows the delivery. *)
Record shows_delivery (db : DB) (d : delivery_rec) (r : DeliveryRow) : Prop := {
  sd_state : (dr_EventSequence r, dr_State r, dr_Attempts r) = (d_event d, d_state d, d_attempts d);
  sd_sink : ∃ s, s ∈ delivery_sinks db ∧ s_id s = d_sink d ∧ dr_SinkName r = s_name s;
  sd_event : ∃ e, e ∈ events db ∧ e_sequence e = d_event d ∧
    (dr_Source r, dr_ID r, dr_Type r) = (e_source e, e_id e, e_type e);
  sd_next : formatTimestamp (dr_NextAttemptAt r) = d_next d;
  sd_last : formatTimestamp <$> dr_LastAttemptAt r = d_last d;
  sd_delivered : formatTimestamp <$> dr_DeliveredAt r = d_delivered_at d;
  sd_dead : formatTimestamp <$> dr_DeadLetteredAt r = d_dead_at d;
}.
