(* ===== verification/Prune.v ===== *)
(** * Prune: payload retention of internal/spool/sqlite/prune.go

    [Prune] empties the payload of events whose deliveries all succeeded
    before a cutoff.  Identity, digest and delivery history stay. *)

From S2P Require Import Prelude Rows Text Timestamp Sha256 Runtime.
From S2P Require Import Schema SchemaFacts Store Deliveries DeliveryFacts.

Record PruneOptions := MkPruneOptions {
  po_Before : time;
  po_Limit : Z;
  po_DryRun : bool;
}.

Record PruneEntry := MkPruneEntry {
  pe_Sequence : Z;
  pe_Source : string;
  pe_ID : string;
  pe_PayloadBytes : Z;
}.

Record PruneResult := MkPruneResult {
  prr_DryRun : bool;
  prr_Before : time;
  prr_Limit : Z;
  prr_Events : Z;
  prr_PayloadBytes : Z;
  prr_Entries : list PruneEntry;
}.

(** What the operating system and SQLite report about the spool file:
    [os.Lstat] ([None] is an error, otherwise whether the file is regular)
    and [PRAGMA journal_mode]. *)
Record SpoolFile := MkSpoolFile { sf_lstat : option bool; sf_journal : string }.

(** [const currentSchemaVersion]. *)
Definition currentSchemaVersion : Z := 3.

(** [SELECT COALESCE(MAX(version), 0) FROM schema_migrations]. *)
Definition max_version (db : DB) : Z := foldr Z.max 0 (schema_migrations db).

(** ** Selection of the candidates *)

(** A delivery that forbids pruning its event. *)
Definition holds_payload (before : string) (d : delivery_rec) : bool :=
  negb (is_delivered (d_state d)) ||
  match d_delivered_at d with None => true | Some t => str_leb before t end.

Definition prunable (before : string) (db : DB) (e : event_rec) : bool :=
  is_null (e_pruned_at e) &&
  exists_where (λ d, d_event d =? e_sequence e) (deliveries db) &&
  negb (exists_where (λ d, (d_event d =? e_sequence e) && holds_payload before d) (deliveries db)).

Definition candidates (before : string) (limit : Z) (db : DB) : list event_rec :=
  take (Z.to_nat limit)
    (sort_by (λ a b, e_sequence a <=? e_sequence b) (select (prunable before db) (events db))).

Definition entry_of (e : event_rec) : PruneEntry :=
  MkPruneEntry (e_sequence e) (e_source e) (e_id e) (Z.of_nat (String.length (e_payload e))).

(** ** Operations *)

(** One [rows.Scan]. *)
Definition scan_candidate (_ : Z) (e : event_rec) (acc : list PruneEntry * Z)
    : M DB (list PruneEntry * Z) :=
  driver_call (errorf "scan");;
  mret (acc.1 ++ [entry_of e], int64 (acc.2 + pe_PayloadBytes (entry_of e))).

(** One iteration of the update loop. *)
Definition prune_entry (hooks : Hooks) (now : time) (index : Z) (entry : PruneEntry) (_ : unit)
    : M DB unit :=
  count ← run (errorf "prune payload: %w")
            (update_pruned (formatTimestamp now) (pe_Sequence entry));
  driver_call (errorf "prune changed %d rows, expected one (error=%v)");;
  reject (negb (count =? 1)) (errorf "prune changed %d rows, expected one (error=%v)");;
  CallAfterPrunePayload hooks index.

(** [pruneWithHooks]. *)
Definition pruneWithHooks (file : SpoolFile) (path : string) (options : PruneOptions)
    (hooks : Hooks) : M DB PruneResult :=
  now ← now;
  reject (IsZero (po_Before options) || (now <? po_Before options))
    (errorf "prune cutoff must be a non-zero timestamp no later than now");;
  reject ((po_Limit options <? 1) || (1000 <? po_Limit options))
    (errorf "prune limit must be between 1 and 1000");;
  reject (path =? "")%string (errorf "spool path is required");;
  match sf_lstat file with
  | None => fail (errorf "inspect existing spool for prune: %w")
  | Some regular =>
  reject (negb regular)
    (errorf "spool path must be a regular file, not a symbolic link or directory");;
  driver_call (errorf "filepath.Abs");;
  driver_call (errorf "open spool for prune: %w");;
  driver_call (errorf "db.Conn");;
  begin_tx (errorf "begin prune transaction: %w");;
  rollback_on_error (
    version ← run (errorf "read prune schema: %w") (query max_version);
    reject (negb (version =? currentSchemaVersion))
      (errorf "prune requires schema version %d, found %d; restart with the current daemon to migrate first");;
    driver_call (errorf "prune requires a WAL spool (mode=%q, error=%v)");;
    reject (negb (sf_journal file =? "wal")%string)
      (errorf "prune requires a WAL spool (mode=%q, error=%v)");;
    rows ← run (errorf "select prune candidates: %w")
      (query (candidates (formatTimestamp (po_Before options)) (po_Limit options)));
    '(entries, bytes) ← for_range rows 0 ([], 0) scan_candidate;
    driver_call (errorf "rows.Err");;
    driver_call (errorf "rows.Close");;
    (if po_DryRun options then mret tt
     else for_range entries 0 tt (prune_entry hooks now));;
    commit_tx (errorf "commit prune transaction: %w");;
    (if po_DryRun options then mret tt else CallAfterPruneCommit hooks);;
    mret (MkPruneResult (po_DryRun options) (po_Before options) (po_Limit options)
            (Z.of_nat (length entries)) bytes entries))
  end.

(** [Prune]. *)
Definition Prune (file : SpoolFile) (path : string) (options : PruneOptions) : M DB PruneResult :=
  pruneWithHooks file path options no_hooks.

(** ** Specification *)

(** The payloads of the events with these sequences are gone, nothing else. *)
Definition pruned_events (at_ : string) (seqs : list Z) (l : list event_rec) : list event_rec :=
  map (λ e, if bool_decide (e_sequence e ∈ seqs) then with_pruned at_ e else e) l.

Definition pruned_db (at_ : string) (seqs : list Z) (db : DB) : DB :=
  set_events (pruned_events at_ seqs (events db)) (event_seq db) db.

(** Every delivery of the event succeeded before the cutoff, and there is one. *)
Definition fully_delivered (before : string) (db : DB) (e : event_rec) : Prop :=
  (∃ d, d ∈ deliveries db ∧ d_event d = e_sequence e) ∧
  ∀ d, d ∈ deliveries db → d_event d = e_sequence e →
    d_state d = delivered ∧ ∃ t, d_delivered_at d = Some t ∧ str_ltb t before = true.

(** The call is well formed for the file it is given. *)
Definition prune_accepts (file : SpoolFile) (path : string) (options : PruneOptions) (now : time)
    (db : DB) : Prop :=
  po_Before options ≠ zeroTime ∧ po_Before options <= now ∧ 1 <= po_Limit options <= 1000 ∧
  path ≠ "" ∧ sf_lstat file = Some true ∧ sf_journal file = "wal" ∧
  max_version db = currentSchemaVersion.
