(* ===== verification/PruneProps.v ===== *)
(** * PruneProps: pruning removes delivered payloads and nothing else *)

From S2P Require Import Prelude Rows Text Timestamp Sha256 Runtime.
From S2P Require Import Schema SchemaFacts Store StoreFacts Deliveries DeliveryFacts Prune.

(** ** Candidates *)

Lemma prunable_true before db e :
  prunable before db e = true ↔ e_pruned_at e = None ∧ fully_delivered before db e.
Proof.
  unfold prunable, fully_delivered.
  rewrite !andb_true_iff, is_null_true, negb_true_iff, exists_where_true, exists_where_false.
  setoid_rewrite Z.eqb_eq. split.
  - intros [[Hn Hex] Hall]. do 2 (split; [done|]). intros d Hd Es.
    specialize (Hall d Hd). rewrite Es, Z.eqb_refl in Hall. unfold holds_payload in Hall. simpl in Hall.
    apply orb_false_iff in Hall as [H1 H2]. split; [by destruct (d_state d)|].
    destruct (d_delivered_at d) as [t|]; [|done]. exists t. split; [done|].
    rewrite str_leb_ltb in H2. by apply negb_false_iff in H2.
  - intros (Hn & Hex & Hall). split; [done|]. intros d Hd.
    destruct (d_event d =? e_sequence e) eqn:E; [breflect|done].
    destruct (Hall d Hd E) as [Hs (t & Ht & Hlt)]. unfold holds_payload.
    rewrite Hs, Ht, str_leb_ltb, Hlt. done.
Qed.

Lemma elem_of_candidates before n db e :
  e ∈ candidates before n db →
  e ∈ events db ∧ e_pruned_at e = None ∧ fully_delivered before db e.
Proof.
  unfold candidates. intros H. apply elem_of_take in H as (i & Hi & _).
  apply list_elem_of_lookup_2 in Hi. rewrite elem_of_sort_by, elem_of_select, prunable_true in Hi.
  done.
Qed.

(** The table is in sequence order already, so the oldest come first. *)
Lemma candidates_first before n db :
  db_wf db →
  candidates before n db = take (Z.to_nat n) (select (prunable before db) (events db)).
Proof.
  intros Hwf. unfold candidates. rewrite sort_by_id; [done|]. apply StronglySorted_select.
  eapply StronglySorted_weaken; [|apply StronglySorted_map_lt, Hwf].
  intros x y H. apply Z.leb_le. simpl in H. lia.
Qed.

Lemma candidates_NoDup before n db :
  db_wf db → NoDup (map e_sequence (candidates before n db)).
Proof.
  intros Hwf. rewrite candidates_first by done. apply StronglySorted_lt_NoDup.
  apply StronglySorted_map_lt, StronglySorted_take, StronglySorted_select, StronglySorted_map_lt, Hwf.
Qed.

(** ** One update *)

Lemma pruned_events_snoc at_ seqs q l e :
  NoDup (map e_sequence l) → e ∈ l → e_sequence e = q → e_pruned_at e = None → q ∉ seqs →
  update_where (prune_where q) (with_pruned at_) (pruned_events at_ seqs l) =
    pruned_events at_ (seqs ++ [q]) l ∧
  count_where (prune_where q) (pruned_events at_ seqs l) = 1.
Proof.
  intros Hnd He Eq Hn Hq. split.
  - unfold update_where, pruned_events. rewrite map_map. apply list_fmap_ext. intros i x Hi.
    assert (x ∈ l) as Hx by (by eapply list_elem_of_lookup_2).
    replace (bool_decide (e_sequence x ∈ seqs ++ [q])) with
      (bool_decide (e_sequence x ∈ seqs) || (e_sequence x =? q)).
    + unfold prune_where. destruct (bool_decide (e_sequence x ∈ seqs)) eqn:E; simpl.
      * by rewrite andb_false_r.
      * destruct (e_sequence x =? q) eqn:E2; [|done]. breflect.
        replace x with e; [by rewrite Hn|]. eapply (NoDup_map_inj e_sequence); eauto. congruence.
    + apply eq_true_iff_eq. rewrite orb_true_iff, !bool_decide_eq_true, Z.eqb_eq.
      by rewrite elem_of_app, list_elem_of_singleton.
  - assert (map e_sequence (pruned_events at_ seqs l) = map e_sequence l) as Em.
    { unfold pruned_events. rewrite map_map. apply map_ext. intros x. by destruct (bool_decide _). }
    apply (count_where_unique e_sequence _ _ e).
    + by rewrite Em.
    + apply elem_of_map_row. exists e. split; [done|]. by rewrite bool_decide_eq_false_2 by congruence.
    + unfold prune_where. by rewrite Eq, Z.eqb_refl, Hn.
    + intros y _ Hy. unfold prune_where in Hy. breflect. congruence.
Qed.

Lemma pruned_events_nil at_ l : pruned_events at_ [] l = l.
Proof.
  unfold pruned_events. rewrite <- (map_id l) at 2. apply map_ext. intros e.
  by rewrite bool_decide_eq_false_2 by apply not_elem_of_nil.
Qed.

Section Update.
Context (at_ : string) (before : string) (db0 : DB) (Hwf0 : db_wf db0).

(** A candidate that is not yet pruned can be pruned next. *)
Lemma update_pruned_step seqs e n :
  e ∈ events db0 → e_pruned_at e = None → fully_delivered before db0 e → e_sequence e ∉ seqs →
  update_pruned at_ (e_sequence e) n (pruned_db at_ seqs db0) =
    inr (pruned_db at_ (seqs ++ [e_sequence e]) db0, 1).
Proof.
  intros He Hn [Hex Hall] Hq. unfold update_pruned.
  assert (undelivered (pruned_db at_ seqs db0) (e_sequence e) = false) as ->.
  { apply undelivered_false. split; [done|]. intros d Hd Es.
    destruct (Hall d Hd Es) as [Hs (t & Ht & _)]. split; [done|]. by rewrite Ht. }
  rewrite andb_false_r. unfold pruned_db at 2 4. simpl.
  destruct (pruned_events_snoc at_ seqs (e_sequence e) (events db0) e) as [-> ->]; try done.
  apply StronglySorted_lt_NoDup, Hwf0.
Qed.

End Update.

Lemma pruned_db_covered at_ seqs db : db_covered db → db_covered (pruned_db at_ seqs db).
Proof.
  intros Hcov e s He Hn Hs Ha. apply elem_of_map_row in He as (e0 & He0 & ->).
  destruct (bool_decide _); [done|]. by apply Hcov.
Qed.

(** ** The loops *)

Lemma scan_candidates_wp rows env w db (Q : outcome (list PruneEntry * Z) → World DB → Prop) :
  txn w = Some db →
  (∀ e k, faulty env → Q (Fail e) (MkWorld (disk w) (Some db) k)) →
  (∀ bytes k, Q (Ok (map entry_of rows, bytes)) (MkWorld (disk w) (Some db) k)) →
  wp (for_range rows 0 ([], 0) scan_candidate) env w Q.
Proof.
  intros Ht Hf Hok.
  apply (wp_for_range (λ seen acc w', acc.1 = map entry_of seen ∧
    ∃ k, w' = MkWorld (disk w) (Some db) k)).
  - intros seen e rest [l n] w' _ [E (k & ->)]. simpl in E. subst. unfold scan_candidate. wp_step.
    eapply wp_driver_call; [done| |].
    { intros k' Hfl. simpl. by apply Hf. }
    intros k'. wp_step. split; [simpl; by rewrite map_app | by eexists].
  - intros [l n] w' [E (k & ->)]. simpl in E. subst. apply Hok.
  - split; [done|]. exists (tick w). destruct w. simpl in *. by subst.
Qed.

Lemma entry_sequences es : map pe_Sequence (map entry_of es) = map e_sequence es.
Proof. by rewrite map_map. Qed.

Lemma prune_loop_wp hooks t before es env w (Q : outcome unit → World DB → Prop) :
  txn w = Some (disk w) → db_wf (disk w) → NoDup (map e_sequence es) →
  (∀ e, e ∈ es → e ∈ events (disk w) ∧ e_pruned_at e = None ∧ fully_delivered before (disk w) e) →
  (∀ e db k, faulty env → Q (Fail e) (MkWorld (disk w) (Some db) k)) →
  (∀ db k, hooks ≠ no_hooks → Q Crash (MkWorld (disk w) (Some db) k)) →
  (∀ k, let db := pruned_db (formatTimestamp t) (map e_sequence es) (disk w) in
     db_wf db → Q (Ok tt) (MkWorld (disk w) (Some db) k)) →
  wp (for_range (map entry_of es) 0 tt (prune_entry hooks t)) env w Q.
Proof.
  intros Ht Hwf Hnd Hes Hf Hc Hok. set (ts := formatTimestamp t) in *.
  apply (wp_for_range (λ seen _ w', ∃ k, let db := pruned_db ts (map pe_Sequence seen) (disk w) in
    w' = MkWorld (disk w) (Some db) k ∧ db_wf db)).
  - intros seen x rest [] w' Hl (k & -> & Hwfd).
    assert (∃ done_ e tl, seen = map entry_of done_ ∧ x = entry_of e ∧ es = done_ ++ e :: tl)
      as (done_ & e & tl & -> & -> & Ees).
    { apply map_eq_app in Hl as (l1 & l2 & -> & <- & Hl).
      apply map_eq_cons in Hl as (e & tl & -> & <- & _). by exists l1, e, tl. }
    rewrite entry_sequences in Hwfd |- *. simpl in Hwfd.
    destruct (Hes e) as (He & Hn & Hfd); [rewrite Ees; apply elem_of_app; right; left|].
    assert (e_sequence e ∉ map e_sequence done_) as Hq.
    { rewrite Ees, map_app in Hnd. apply NoDup_app in Hnd as (_ & Hdis & _).
      intros Hin. apply (Hdis _ Hin). left. }
    pose proof (λ n, update_pruned_step ts before (disk w) Hwf _ e n He Hn Hfd Hq) as Hup.
    unfold prune_entry. wp_step. eapply wp_run_txn; [done| |].
    { intros n k' [Hfl|(m & Hm)]; [by apply Hf|]. simpl in Hm. by rewrite Hup in Hm. }
    intros n db' c k' Hu. simpl in Hu. fold ts in Hu.
    pose proof (update_pruned_wf _ _ _ _ _ _ Hwfd Hu) as Hwf'. rewrite Hup in Hu.
    injection Hu as <- <-. wp_step. eapply wp_driver_call; [done| |].
    { intros k2 Hfl. by apply Hf. }
    intros k2. wp_step. wp_step; [done|]. wp_step.
    { intros Hh. apply Hc. by intros ->. }
    exists k2. by rewrite map_app, entry_sequences.
  - intros [] w' (k & -> & Hwfd). rewrite entry_sequences in Hwfd |- *. by apply Hok.
  - exists (tick w). simpl. unfold pruned_db. rewrite pruned_events_nil.
    destruct w as [d tx tk]. simpl in *. subst. by destruct d.
Qed.

(** ** The whole call *)

Section PruneCall.
Context (file : SpoolFile) (path : string) (options : PruneOptions) (hooks : Hooks).
Context (env : Env) (w : World DB).

Definition prune_time : time := env_clock env (tick w).
Definition chosen : list event_rec :=
  candidates (formatTimestamp (po_Before options)) (po_Limit options) (disk w).
Definition prune_result_db : DB :=
  if po_DryRun options then disk w
  else pruned_db (formatTimestamp prune_time) (map e_sequence chosen) (disk w).

Definition prune_post (o : outcome PruneResult) (w' : World DB) : Prop :=
  match o with
  | Ok r => txn w' = None ∧ disk w' = prune_result_db ∧ db_wf (disk w') ∧
      prr_Entries r = map entry_of chosen ∧ prr_Events r = Z.of_nat (length chosen) ∧
      prune_accepts file path options prune_time (disk w)
  | Fail e => txn w' = None ∧
      ((disk w' = disk w ∧ (faulty env ∨ ¬ prune_accepts file path options prune_time (disk w))) ∨
       (disk w' = prune_result_db ∧ db_wf (disk w') ∧ faulty env))
  | Crash => hooks ≠ no_hooks ∧
      (disk w' = disk w ∨ (disk w' = prune_result_db ∧ db_wf (disk w')))
  end.

(** The transaction after its checks. *)
Lemma prune_body_wp bytes k :
  db_wf (disk w) → prune_accepts file path options prune_time (disk w) →
  wp ((if po_DryRun options then mret tt
       else for_range (map entry_of chosen) 0 tt (prune_entry hooks prune_time));;
      commit_tx (errorf "commit prune transaction: %w");;
      (if po_DryRun options then mret tt else CallAfterPruneCommit hooks);;
      mret (MkPruneResult (po_DryRun options) (po_Before options) (po_Limit options)
              (Z.of_nat (length (map entry_of chosen))) bytes (map entry_of chosen)))
    env (MkWorld (disk w) (Some (disk w)) k)
    (λ o w', match o with
       | Fail e => prune_post (Fail e) (MkWorld (disk w') None (tick w'))
       | o => prune_post o w'
       end).
Proof.
  intros Hwf Hacc.
  assert (∀ k', db_wf prune_result_db →
    wp (commit_tx (errorf "commit prune transaction: %w");;
        (if po_DryRun options then mret tt else CallAfterPruneCommit hooks);;
        mret (MkPruneResult (po_DryRun options) (po_Before options) (po_Limit options)
                (Z.of_nat (length (map entry_of chosen))) bytes (map entry_of chosen)))
      env (MkWorld (disk w) (Some prune_result_db) k')
      (λ o w', match o with
         | Fail e => prune_post (Fail e) (MkWorld (disk w') None (tick w'))
         | o => prune_post o w'
         end)) as Hcommit.
  { intros k' Hwf'. wp_step. eapply wp_commit; [done| | |].
    - intros k2 Hf. split; [done|]. left. simpl. auto.
    - intros k2 Hf. split; [done|]. right. simpl. auto.
    - intros k2. simpl. wp_step.
      assert (prune_post (Ok (MkPruneResult (po_DryRun options) (po_Before options)
        (po_Limit options) (Z.of_nat (length (map entry_of chosen))) bytes (map entry_of chosen)))
        (MkWorld prune_result_db None k2)) as Hok
        by (repeat (split; [done|]); by rewrite length_map).
      destruct (po_DryRun options) eqn:Ed.
      + do 2 wp_step. exact Hok.
      + wp_step.
        * intros Hh. split; [by intros ->|]. by right.
        * wp_step. exact Hok. }
  wp_step. unfold prune_result_db in Hcommit. destruct (po_DryRun options) eqn:Ed.
  - wp_step. by apply Hcommit.
  - eapply prune_loop_wp; [done | done | by apply candidates_NoDup | by apply elem_of_candidates |
      | |].
    + intros e db k' Hf. split; [done|]. left. simpl. auto.
    + intros db k' Hh. split; [done|]. by left.
    + intros k' db Hwf'. by apply Hcommit.
Qed.

(** A check at the start of the call. *)
Lemma prune_reject_wp b e A (m : M DB A) k (Q : outcome A → World DB → Prop) :
  (b = true → Q (Fail e) (MkWorld (disk w) None k)) →
  (b = false → wp m env (MkWorld (disk w) None k) Q) →
  wp (reject b e;; m) env (MkWorld (disk w) None k) Q.
Proof. intros H1 H2. do 2 wp_step; auto. Qed.

Lemma pruneWithHooks_wp :
  db_wf (disk w) → txn w = None →
  wp (pruneWithHooks file path options hooks) env w prune_post.
Proof.
  intros Hwf Ht. unfold pruneWithHooks. do 2 wp_step. fold prune_time.
  assert (faulty env ∨ ¬ prune_accepts file path options prune_time (disk w) →
    prune_post (Fail (errorf "")) (MkWorld (disk w) None 0)) as Hrej
    by (intros H; split; [done|]; left; auto).
  assert (advance w = MkWorld (disk w) None (S (tick w))) as -> by (unfold advance; by rewrite Ht).
  generalize (S (tick w)). intros k.
  apply prune_reject_wp; intros H1.
  { apply Hrej. right. intros (? & ? & _). apply orb_true_iff in H1 as [H1|H1]; [|breflect; lia].
    unfold IsZero in H1. by breflect. }
  apply prune_reject_wp; intros H2.
  { apply Hrej. right. intros (_ & _ & ? & _). apply orb_true_iff in H2 as [H2|H2]; breflect; lia. }
  apply prune_reject_wp; intros H3; breflect.
  { apply Hrej. right. by intros (_ & _ & _ & ? & _). }
  destruct (sf_lstat file) as [reg|] eqn:El.
  2: { wp_step. apply Hrej. right. intros (_ & _ & _ & _ & ? & _). congruence. }
  apply prune_reject_wp; intros H4; breflect.
  { apply Hrej. right. intros (_ & _ & _ & _ & ? & _). congruence. }
  do 3 (wp_step; apply wp_query_auto; [done | intros ? ?; apply Hrej; by left | intros ?]).
  do 2 wp_step.
  { intros Hf. apply Hrej. by left. }
  wp_step. wp_step.
  eapply wp_run_txn; [done| |].
  { intros n k' [Hf|(m & Hm)]; [apply Hrej; by left | done]. }
  intros n db' v k' [= <- <-]. do 2 wp_step.
  { apply Hrej. right. breflect. intros (_ & _ & _ & _ & _ & _ & ?). congruence. }
  wp_step. eapply wp_driver_call; [done | intros ? ?; apply Hrej; by left | intros ?].
  do 2 wp_step.
  { apply Hrej. right. breflect. intros (_ & _ & _ & _ & _ & ? & _). congruence. }
  wp_step. eapply wp_run_txn; [done| |].
  { intros n' kb [Hf|(m & Hm)]; [apply Hrej; by left | done]. }
  intros n' db' rows kb [= <- <-]. simpl. fold chosen. wp_step.
  eapply scan_candidates_wp; [done | intros ? ? ?; apply Hrej; by left |].
  intros bytes kc. simpl.
  do 2 (wp_step; eapply wp_driver_call; [done | intros ? ?; apply Hrej; by left | intros ?]).
  simpl. apply prune_body_wp; [done|]. unfold IsZero in *. breflect. repeat split; try done; congruence.
Qed.

End PruneCall.

(** The disk after any outcome. *)
Lemma prune_disk file path options hooks env w :
  db_wf (disk w) → txn w = None →
  let w' := (pruneWithHooks file path options hooks env w).2 in
  disk w' = disk w ∨ (disk w' = prune_result_db options env w ∧ db_wf (disk w')).
Proof.
  intros Hwf Ht w'. pose proof (pruneWithHooks_wp file path options hooks env w Hwf Ht) as H.
  apply wp_elim in H. unfold w'.
  destruct (pruneWithHooks file path options hooks env w) as [[r|e|] w1]; simpl in *.
  - right. split; apply H.
  - destruct H as (_ & [[? _]|(? & ? & _)]); auto.
  - apply H.
Qed.

(** Pruning is atomic: a successful call has emptied exactly the oldest
    [Limit] prunable payloads and reports them, a dry run reports them and
    changes nothing, and a failed or killed call leaves the old file or the
    complete result. *)
Theorem prune_atomic file path options hooks env w :
  db_wf (disk w) → txn w = None →
  match pruneWithHooks file path options hooks env w with
  | (Ok r, w') => disk w' = prune_result_db options env w ∧
      prr_Entries r = map entry_of (take (Z.to_nat (po_Limit options))
        (select (prunable (formatTimestamp (po_Before options)) (disk w)) (events (disk w))))
  | (_, w') => disk w' = disk w ∨ disk w' = prune_result_db options env w
  end.
Proof.
  intros Hwf Ht. pose proof (pruneWithHooks_wp file path options hooks env w Hwf Ht) as H.
  apply wp_elim in H.
  destruct (pruneWithHooks file path options hooks env w) as [[r|e|] w']; simpl in H.
  - destruct H as (_ & Hd & _ & He & _). split; [done|]. rewrite He.
    unfold chosen. by rewrite candidates_first.
  - destruct H as (_ & [[? _]|(? & _)]); auto.
  - destruct H as (_ & [?|[? _]]); auto.
Qed.

(** C17. Pruning is safe in every outcome: the spool stays well formed and
    covered, deliveries, sinks and checkpoint are untouched, and each event
    row is unchanged or has only lost its payload, in which case it was
    retained and every delivery of it had succeeded before the cutoff. *)
Theorem prune_safe file path options hooks env w :
  db_wf (disk w) → db_covered (disk w) → txn w = None →
  let db' := disk (recover (pruneWithHooks file path options hooks env w).2) in
  db_wf db' ∧ db_covered db' ∧ deliveries db' = deliveries (disk w) ∧
  delivery_sinks db' = delivery_sinks (disk w) ∧ spool_metadata db' = spool_metadata (disk w) ∧
  Forall2 (λ e e', e' = e ∨
    (e' = with_pruned (formatTimestamp (prune_time env w)) e ∧ e_pruned_at e = None ∧
     fully_delivered (formatTimestamp (po_Before options)) (disk w) e))
    (events (disk w)) (events db').
Proof.
  intros Hwf Hcov Ht db'.
  assert (Forall2 (λ e e', e' = e ∨
    (e' = with_pruned (formatTimestamp (prune_time env w)) e ∧ e_pruned_at e = None ∧
     fully_delivered (formatTimestamp (po_Before options)) (disk w) e))
    (events (disk w)) (events (disk w))) as Hrefl.
  { apply Forall_Forall2_diag, Forall_forall. auto. }
  destruct (prune_disk file path options hooks env w Hwf Ht) as [E|[E Hwf']];
    unfold db'; simpl; rewrite E; [done|].
  rewrite E in Hwf'. unfold prune_result_db in *. destruct (po_DryRun options); [done|].
  split; [done|]. split; [by apply pruned_db_covered|]. do 3 (split; [done|]).
  simpl. unfold pruned_events. apply Forall2_fmap_r, Forall_Forall2_diag, Forall_forall.
  intros e He. simpl. destruct (bool_decide _) eqn:Eb; [|by left]. right. breflect.
  apply elem_of_map_row in Eb as (e1 & He1 & Es). apply elem_of_candidates in He1 as (H1 & H2 & H3).
  assert (e = e1) as -> by (by apply (events_unique (disk w))). done.
Qed.

(** Without failing calls [Prune] succeeds exactly when its arguments and
    the file are acceptable: the triggers of the schema never abort it, and
    every update changes one row. *)
Theorem prune_succeeds file path options env w :
  db_wf (disk w) → txn w = None → ¬ faulty env →
  (∃ r w', Prune file path options env w = (Ok r, w')) ↔
  prune_accepts file path options (prune_time env w) (disk w).
Proof.
  intros Hwf Ht Hnf. pose proof (pruneWithHooks_wp file path options no_hooks env w Hwf Ht) as H.
  apply wp_elim in H. unfold Prune.
  destruct (pruneWithHooks file path options no_hooks env w) as [[r|e|] w']; simpl in H.
  - split; [intros _; apply H | eauto].
  - split; [by intros (? & ? & ?)|]. intros Hacc.
    destruct H as (_ & [[_ [?|?]]|(_ & _ & ?)]); done.
  - by destruct H as [? _].
Qed.
