(* ===== verification/Migrate.v ===== *)
(** * Migrate: opening a spool and bringing its schema up to date (sqlite.go)

    A file that was never initialised has no [schema_migrations] table; the
    table and its first row are created by one migration, so an empty list
    stands for the missing table.  Each migration runs in a transaction of
    its own. *)

From Stdlib Require Import Ascii.
From S2P Require Import Prelude Rows Text Timestamp Sha256 Runtime.
From S2P Require Import Schema SchemaFacts Store Prune.

(** ** Reading the version *)

(** [SELECT COALESCE(MAX(version), 0) FROM schema_migrations]. *)
Definition read_version : stmt DB Z := λ _ db,
  match schema_migrations db with
  | [] => inl "SQL logic error: no such table: schema_migrations (1)"
  | _ => inr (db, max_version db)
  end.

(** [value[i:i+len(fragment)] == fragment] at [i = 0]. *)
Fixpoint starts_with (fragment value : string) : bool :=
  match fragment, value with
  | "", _ => true
  | String a f, String b v => (a =? b)%char && starts_with f v
  | String _ _, "" => false
  end.

(** [contains]: every starting position, the one past the end included. *)
Fixpoint contains (value fragment : string) : bool :=
  starts_with fragment value ||
  match value with
  | "" => false
  | String _ v => contains v fragment
  end.

(** [stringsContainsNoTable]. *)
Definition stringsContainsNoTable (message : string) : bool :=
  contains message "no such table" || contains message "does not exist".

(** ** Migrations *)

Definition without_pruned (e : event_rec) : event_rec :=
  MkEvent (e_sequence e) (e_source e) (e_id e) (e_type e) (e_subject e) (e_payload e) (e_sha256 e)
    (e_transaction_id e) (e_message_lsn e) (e_commit_lsn e) (e_commit_end_lsn e)
    (e_commit_time e) (e_message_index e) (e_captured_at e) None.

(** 001: the tables of capture; 002: the tables of delivery; 003: the column
    [payload_pruned_at], NULL in every row. *)
Definition migrated (version : Z) (db : DB) : DB :=
  let db := set_migrations (schema_migrations db ++ [version]) db in
  if version =? 1 then set_events [] 0 (set_metadata ∅ db)
  else if version =? 2 then set_deliveries [] (set_sinks [] 0 db)
  else set_events (map without_pruned (events db)) (event_seq db) db.

(** The text of the migration: a table, column or row it creates must not
    exist yet, and what it refers to must. *)
Definition migration (version : Z) : stmt DB unit := λ _ db,
  if bool_decide (version ∈ schema_migrations db) then inl "table already exists"
  else if (version =? 1) || bool_decide (version - 1 ∈ schema_migrations db)
  then inr (migrated version db, tt)
  else inl "no such table".

(** The versions embedded in the program. *)
Definition embedded : list Z := [1; 2; 3].

(** [applyMigration]. *)
Definition applyMigration (version : Z) : M DB unit :=
  driver_call (errorf "read embedded migrations: %w");;
  reject (negb (bool_decide (version ∈ embedded))) (errorf "embedded migration %d is missing");;
  driver_call (errorf "read embedded migration %d: %w");;
  begin_tx (durability "begin migration %d: %v");;
  rollback_on_error (
    run (durability "apply migration %d: %v") (migration version);;
    commit_tx (durability "commit migration %d: %v")).

(** [for next := version + 1; next <= currentSchemaVersion; next++]: the
    values [next] takes. *)
Definition pending_versions (version : Z) : list Z :=
  map (λ i, version + 1 + Z.of_nat i) (seq 0 (Z.to_nat (currentSchemaVersion - version))).

(** [initialize]. *)
Definition pragmas : list string :=
  ["PRAGMA journal_mode = WAL"; "PRAGMA synchronous = FULL"; "PRAGMA foreign_keys = ON";
   "PRAGMA busy_timeout = 5000"].

Definition initialize : M DB unit :=
  for_range pragmas 0 tt (λ _ _ _, driver_call (durability "apply %q: %v"));;
  r ← exec read_version;
  version ← match r with
    | inr v => mret v
    | inl m => if negb (stringsContainsNoTable m)
               then fail (errorf "read spool schema version: %w") else mret 0
    end;
  reject (currentSchemaVersion <? version)
    (errorf "unsupported spool schema version %d (maximum %d)");;
  for_range (pending_versions version) 0 tt (λ _ next _, applyMigration next).

(** What the file system answers: [os.MkdirAll] succeeds, and [os.Lstat]
    finds nothing, a symbolic link, something else, or fails. *)
Inductive Lstat := NotExist | Symlink | Other | LstatError.
Record OpenFile := MkOpenFile { of_mkdir : bool; of_lstat : Lstat; of_chmod : bool }.

(** [OpenWithHooks]; [Open] passes inert hooks and the hooks are only stored. *)
Definition OpenWithHooks (file : OpenFile) (path : string) (hooks : Hooks) : M DB Hooks :=
  reject (path =? "")%string (errorf "spool path is required");;
  reject (negb (of_mkdir file)) (errorf "create spool directory: %w");;
  match of_lstat file with
  | Symlink => fail (errorf "spool path must not be a symbolic link")
  | LstatError => fail (errorf "inspect spool path: %w")
  | NotExist | Other =>
      driver_call (errorf "open SQLite spool: %w");;
      initialize;;
      reject (negb (of_chmod file)) (errorf "restrict spool permissions: %w");;
      mret hooks
  end.

Definition Open (file : OpenFile) (path : string) : M DB Hooks := OpenWithHooks file path no_hooks.

(** [SchemaVersion]: MAX of an empty table is NULL, which does not scan. *)
Definition SchemaVersion : M DB Z := run (errorf "SchemaVersion") read_version.

(** [EventCount]. *)
Definition EventCount : M DB Z :=
  run (errorf "EventCount") (query (λ db, Z.of_nat (length (events db)))).

(** ** Specification *)

(** The file has gone through the migrations up to [v] and holds nothing the
    schema of [v] has no place for. *)
Record at_version (v : Z) (db : DB) : Prop := {
  av_range : 0 <= v <= currentSchemaVersion;
  av_history : schema_migrations db = map (λ i, 1 + Z.of_nat i) (seq 0 (Z.to_nat v));
  av_capture : v < 1 → events db = [] ∧ event_seq db = 0 ∧ spool_metadata db = ∅;
  av_delivery : v < 2 → delivery_sinks db = [] ∧ sink_seq db = 0 ∧ deliveries db = [];
  av_pruned : v < 3 → Forall (λ e, e_pruned_at e = None) (events db);
}.

(** The same data. *)
Definition same_data (db db' : DB) : Prop :=
  spool_metadata db' = spool_metadata db ∧ events db' = events db ∧ event_seq db' = event_seq db ∧
  delivery_sinks db' = delivery_sinks db ∧ sink_seq db' = sink_seq db ∧ deliveries db' = deliveries db.

Lemma same_data_refl db : same_data db db.
Proof. by repeat split. Qed.

Lemma same_data_trans a b c : same_data a b → same_data b c → same_data a c.
Proof. unfold same_data. intuition congruence. Qed.

Lemma same_data_wf db db' : same_data db db' → db_wf db → db_wf db'.
Proof.
  intros (_ & E1 & E2 & E3 & E4 & E5) []. split; rewrite ?E1, ?E2, ?E3, ?E4, ?E5; done.
Qed.

Lemma same_data_covered db db' : same_data db db' → db_covered db → db_covered db'.
Proof.
  intros (_ & E1 & _ & E3 & _ & E5) H. unfold db_covered. by rewrite E1, E3, E5.
Qed.

(** ** Proofs *)

Lemma version_cases v : 0 <= v <= currentSchemaVersion → v = 0 ∨ v = 1 ∨ v = 2 ∨ v = 3.
Proof. unfold currentSchemaVersion. lia. Qed.

Lemma at_version_max v db : at_version v db → max_version db = v.
Proof.
  intros [Hr Hh _ _ _]. unfold max_version. rewrite Hh.
  by destruct (version_cases v Hr) as [->|[->|[->| ->]]].
Qed.

Lemma map_without_pruned l : Forall (λ e, e_pruned_at e = None) l → map without_pruned l = l.
Proof.
  induction 1 as [|e l He _ IH]; [done|]. simpl. rewrite IH. f_equal. destruct e. simpl in He.
  unfold without_pruned. simpl. by rewrite He.
Qed.

(** One migration from the version before it. *)
Lemma migration_step v n db db' :
  at_version v db → v < currentSchemaVersion → migration (v + 1) n db = inr (db', tt) →
  at_version (v + 1) db' ∧ same_data db db'.
Proof.
  intros [Hr Hh H1 H2 H3] Hlt. unfold migration, currentSchemaVersion in *.
  destruct (bool_decide _); [done|]. destruct (_ || _); [|done]. intros [= <-].
  assert (v = 0 ∨ v = 1 ∨ v = 2) as [->|[->| ->]] by lia; unfold migrated; simpl in *.
  - destruct (H1 ltac:(lia)) as (E1 & E2 & E3). destruct (H2 ltac:(lia)) as (E4 & E5 & E6).
    split; [split; simpl; rewrite ?Hh; unfold currentSchemaVersion; auto; lia|].
    by repeat split.
  - destruct (H2 ltac:(lia)) as (E4 & E5 & E6).
    split; [split; simpl; rewrite ?Hh; unfold currentSchemaVersion; auto; lia|].
    by repeat split.
  - assert (map without_pruned (events db) = events db) as E by (apply map_without_pruned, H3; lia).
    split; [split; simpl; rewrite ?Hh; unfold currentSchemaVersion; auto; lia|].
    repeat split; simpl; done.
Qed.

Lemma migration_runs v n db :
  at_version v db → v < currentSchemaVersion → ∃ db', migration (v + 1) n db = inr (db', tt).
Proof.
  intros [Hr Hh _ _ _] Hlt. unfold migration, currentSchemaVersion in *.
  assert (v = 0 ∨ v = 1 ∨ v = 2) as [->|[->| ->]] by lia; rewrite Hh; simpl; eauto.
Qed.

(** The file on the way from [db0]: at some version not below [v], same data. *)
Definition upgraded (v : Z) (db0 db : DB) : Prop :=
  ∃ v', v <= v' ∧ at_version v' db ∧ same_data db0 db.

(** A driver call outside a transaction. *)
Lemma wp_driver_call_auto e env (w : World DB) Q :
  txn w = None → (∀ k, faulty env → Q (Fail e) (MkWorld (disk w) None k)) →
  (∀ k, Q (Ok tt) (MkWorld (disk w) None k)) → wp (driver_call e) env w Q.
Proof. apply (wp_query_auto e (λ _, tt)). Qed.

Definition step_post (env : Env) (db0 : DB) (next : DB → Prop) (o : outcome unit) (w' : World DB)
    : Prop :=
  txn w' = None ∧
  match o with
  | Ok _ => next (disk w')
  | Fail _ => disk w' = db0 ∨ (faulty env ∧ next (disk w'))
  | Crash => False
  end.

(** A migration is applied as a whole or not at all. *)
Lemma applyMigration_wp v env (w : World DB) :
  txn w = None →
  wp (applyMigration v) env w (λ o w',
    step_post env (disk w) (λ db', ∃ n, migration v n (disk w) = inr (db', tt)) o w' ∧
    match o with
    | Fail _ => faulty env ∨ v ∉ embedded ∨ ∃ n m, migration v n (disk w) = inl m
    | _ => True
    end).
Proof.
  intros Ht. unfold applyMigration, step_post. wp_step. apply wp_driver_call_auto; [done|auto 10|]. intros k1.
  wp_step. wp_step.
  { split; [by split; [|left]|]. right; left. by breflect. }
  wp_step. apply wp_driver_call_auto; [done|auto 10|]. intros k2. wp_step. wp_step; [auto 10|].
  wp_step. wp_step. eapply wp_run_txn; [done| |].
  - intros n k3 [Hf|(m & Hm)]; simpl; (split; [by split; [|left]|]); eauto 10.
  - intros n db' [] k3 Hm. eapply wp_commit; [done| | |]; intros k4; simpl; eauto 10.
Qed.

Lemma pragmas_wp env (w : World DB) Q :
  txn w = None → (∀ k e, faulty env → Q (Fail e) (MkWorld (disk w) None k)) →
  (∀ k, Q (Ok tt) (MkWorld (disk w) None k)) →
  wp (for_range pragmas 0 tt (λ _ _ _, driver_call (durability "apply %q: %v"))) env w Q.
Proof.
  intros Ht Hf Hok.
  apply (wp_for_range (λ _ _ w', txn w' = None ∧ disk w' = disk w)); [| |done].
  - intros done x rest s w1 _ [Ht1 Hd1]. apply wp_driver_call_auto; [done| |].
    + intros k Hx. rewrite Hd1. by apply Hf.
    + intros k. done.
  - intros [] [d t k] [Ht' Hd']. simpl in *. subst. apply Hok.
Qed.

(** The loop over the missing versions. *)
Lemma migrate_loop_wp v env (w : World DB) :
  txn w = None → at_version v (disk w) →
  wp (for_range (pending_versions v) 0 tt (λ _ next _, applyMigration next)) env w (λ o w',
    txn w' = None ∧ upgraded v (disk w) (disk w') ∧
    match o with
    | Ok _ => at_version currentSchemaVersion (disk w')
    | Fail _ => faulty env
    | Crash => False
    end).
Proof.
  intros Ht Hv. pose proof (av_range _ _ Hv) as Hr.
  apply (wp_for_range (λ done _ w', txn w' = None ∧
    at_version (v + Z.of_nat (length done)) (disk w') ∧ same_data (disk w) (disk w'))).
  - intros done x rest s w1 Hl (Ht1 & Hv1 & Hs1).
    assert (x = v + Z.of_nat (length done) + 1 ∧ v + Z.of_nat (length done) < currentSchemaVersion)
      as [-> Hlt].
    { unfold pending_versions in Hl.
      assert (length done < Z.to_nat (currentSchemaVersion - v))%nat as Hlen.
      { apply (f_equal length) in Hl. rewrite length_map, length_seq, length_app in Hl.
        simpl in Hl. lia. }
      assert (map (λ i, v + 1 + Z.of_nat i) (seq 0 (Z.to_nat (currentSchemaVersion - v)))
        !! length done = Some x) as Hx by (rewrite Hl; by apply list_lookup_middle).
      rewrite list_lookup_fmap, lookup_seq_lt in Hx by done. injection Hx as <-. lia. }
    set (u := v + Z.of_nat (length done)) in *.
    assert (∀ db', (∃ n, migration (u + 1) n (disk w1) = inr (db', tt)) →
      at_version (u + 1) db' ∧ same_data (disk w) db') as Hstep.
    { intros db' (n & Hm). destruct (migration_step u n (disk w1) db') as [? ?]; [done..|].
      split; [done|]. by eapply same_data_trans. }
    eapply wp_mono; [by apply applyMigration_wp|]. intros [[]|e|] w2 [(Ht2 & H2) H3]; [| |done].
    + rewrite length_app. simpl length. replace (v + Z.of_nat (length done + 1)) with (u + 1) by lia.
      split; [done|]. by apply Hstep.
    + split; [done|]. split.
      * destruct H2 as [->|[_ H2]]; [exists u; split; [lia|done]|].
        destruct (Hstep _ H2). exists (u + 1). split; [lia|done].
      * destruct H3 as [?|[Hne|(n & m & Hm)]]; [done| |].
        -- destruct Hne. unfold embedded, currentSchemaVersion in *. pose proof (av_range _ _ Hv1).
           assert (u = 0 ∨ u = 1 ∨ u = 2) as [->|[->| ->]] by lia;
             rewrite !elem_of_cons; lia.
        -- destruct (migration_runs u n (disk w1)) as (db' & ?); [done..|]. congruence.
  - intros s w1 (Ht1 & Hv1 & Hs1). split; [done|].
    replace (v + Z.of_nat (length (pending_versions v))) with currentSchemaVersion in Hv1.
    + split; [exists currentSchemaVersion; split; [lia|done] | done].
    + unfold pending_versions. rewrite length_map, length_seq. lia.
  - simpl. rewrite Z.add_0_r. split; [done|]. split; [done | apply same_data_refl].
Qed.

Lemma history_nonempty v db : at_version v db → 1 <= v → ∃ rest, schema_migrations db = 1 :: rest.
Proof.
  intros [Hr -> _ _ _] Hv. destruct (version_cases v Hr) as [->|[->|[->| ->]]]; [lia|eauto..].
Qed.

(** A file that is not empty cannot be initialised again. *)
Lemma reinitialize_wp env (w : World DB) rest :
  txn w = None → schema_migrations (disk w) = 1 :: rest →
  wp (for_range (pending_versions 0) 0 tt (λ _ next _, applyMigration next)) env w (λ o w',
    txn w' = None ∧ disk w' = disk w ∧ ∃ e, o = Fail e).
Proof.
  intros Ht Hh. change (pending_versions 0) with [1; 2; 3]. simpl. wp_step.
  eapply wp_mono; [by apply applyMigration_wp|].
  assert (∀ n db', migration 1 n (disk w) ≠ inr (db', tt)) as Hno.
  { intros n db'. unfold migration. rewrite Hh. rewrite bool_decide_eq_true_2; [done|left]. }
  intros [[]|e|] w2 [(Ht2 & H2) _]; [| |done].
  - destruct H2 as (n & H2). by apply Hno in H2.
  - destruct H2 as [->|[_ (n & H2)]]; [eauto|]. by apply Hno in H2.
Qed.

Lemma initialize_wp v env (w : World DB) :
  txn w = None → at_version v (disk w) →
  wp initialize env w (λ o w', txn w' = None ∧ upgraded v (disk w) (disk w') ∧
    match o with
    | Ok _ => at_version currentSchemaVersion (disk w')
    | Fail _ => faulty env
    | Crash => False
    end).
Proof.
  intros Ht Hv. assert (upgraded v (disk w) (disk w)) as Hu 
    by (exists v; split; [lia|]; split; [done | apply same_data_refl]).
  unfold initialize. wp_step. apply pragmas_wp; [done|auto|]. intros k1. wp_step.
  assert (∀ k m, faulty env ∨ v = 0 → wp (
    version ← (if negb (stringsContainsNoTable m)
               then fail (errorf "read spool schema version: %w") else mret 0);
    reject (currentSchemaVersion <? version)
      (errorf "unsupported spool schema version %d (maximum %d)");;
    for_range (pending_versions version) 0 tt (λ _ next _, applyMigration next))
    env (MkWorld (disk w) None k) (λ o w', txn w' = None ∧ upgraded v (disk w) (disk w') ∧
    match o with
    | Ok _ => at_version currentSchemaVersion (disk w')
    | Fail _ => faulty env ∨ stringsContainsNoTable m = false
    | Crash => False
    end)) as Herr.
  { intros k m Hm. wp_step. destruct (stringsContainsNoTable m) eqn:Es; simpl negb; cbv iota;
      wp_step; [|auto]. wp_step. wp_step; [done|].
    destruct (decide (v = 0)) as [->|Hne].
    - eapply wp_mono; [by apply (migrate_loop_wp 0)|]. simpl. intros [[]|e|] w' (? & ? & ?); auto.
    - destruct (history_nonempty v (disk w) Hv) as (rest & Hh); [pose proof (av_range _ _ Hv); lia|].
      eapply wp_mono; [by eapply reinitialize_wp|]. simpl.
      intros o w' (Ht' & -> & e & ->). destruct Hm as [?|?]; [auto|lia]. }
  eapply wp_exec_auto; [done| | |].
  - intros n m k2 Hm. simpl in Hm. assert (faulty env ∨ v = 0 ∧ stringsContainsNoTable m = true) as Hc.
    { destruct Hm as [?|Hm]; [by left|]. right. unfold read_version in Hm.
      destruct (decide (v = 0)) as [->|Hne].
      - split; [done|]. destruct (schema_migrations (disk w)); [|done]. by injection Hm as <-.
      - destruct (history_nonempty v (disk w) Hv) as (rest & Hh); [pose proof (av_range _ _ Hv); lia|].
        by rewrite Hh in Hm. }
    eapply wp_mono; [apply Herr; destruct Hc as [?|[? _]]; auto|].
    intros [[]|e|] w' (H1 & H2 & H3); [done| |done]. split; [done|]. split; [done|].
    destruct H3 as [?|H3]; [done|]. destruct Hc as [?|[_ Hc]]; [done|congruence].
  - intros n m db' a k2 Hf Hm. unfold read_version in Hm. simpl in Hm.
    destruct (schema_migrations (disk w)); [done|]. injection Hm as <- <-.
    eapply wp_mono; [apply Herr; by left|]. intros [[]|e|] w' (H1 & H2 & H3); done.
  - intros n db' a k2 Hm. unfold read_version in Hm. simpl in Hm.
    destruct (schema_migrations (disk w)); [done|]. injection Hm as <- <-.
    rewrite (at_version_max _ _ Hv). wp_step. wp_step. wp_step.
    wp_step; [pose proof (av_range _ _ Hv); by breflect; lia|].
    exact (migrate_loop_wp v env (MkWorld (disk w) None k2) eq_refl Hv).
Qed.

Lemma OpenWithHooks_wp file path hooks env w v :
  txn w = None → at_version v (disk w) → db_wf (disk w) → db_covered (disk w) →
  wp (OpenWithHooks file path hooks) env w (λ o w', txn w' = None ∧
    (upgraded v (disk w) (disk w') ∧ db_wf (disk w') ∧ db_covered (disk w')) ∧ match o with
    | Ok h => h = hooks ∧ at_version currentSchemaVersion (disk w')
    | Fail _ => faulty env ∨ path = "" ∨ of_mkdir file = false ∨ of_chmod file = false ∨
        of_lstat file = Symlink ∨ of_lstat file = LstatError
    | Crash => False end).
Proof.
  intros Ht Hv Hwf Hcov.
  assert (upgraded v (disk w) (disk w)) as Hu
    by (exists v; split; [lia|]; split; [done | apply same_data_refl]).
  unfold OpenWithHooks. wp_step. wp_step; [breflect; auto 10|].
  wp_step. wp_step; [breflect; auto 10|].
  destruct (of_lstat file) eqn:El; [| wp_step; auto 10 | | wp_step; auto 10];
    (wp_step; apply wp_driver_call_auto; [done|auto 10|]; intros k; wp_step;
     eapply wp_mono; [by apply (initialize_wp v)|]; simpl;
     intros o w' (H1 & H2 & H3);
     assert (upgraded v (disk w) (disk w') ∧ db_wf (disk w') ∧ db_covered (disk w')) as Hd
       by (destruct H2 as (v' & ? & ? & Hs); split; [by exists v'|];
           split; [by eapply same_data_wf | by eapply same_data_covered]);
     destruct o as [[]|e|]; [| auto 10 | done];
     wp_step; wp_step; [breflect; auto 10|]; wp_step; auto).
Qed.

(** C16. Opening a spool: from a file at any schema version the result is at
    the current version with every row it had; a failure, wherever it
    strikes, leaves the file at some version in between, still with every
    row, so the next start continues the upgrade.  Well-formedness and
    coverage survive. *)
Theorem open_upgrades file path hooks env w v :
  txn w = None → at_version v (disk w) → db_wf (disk w) → db_covered (disk w) →
  let w' := (OpenWithHooks file path hooks env w).2 in
  txn w' = None ∧ upgraded v (disk w) (disk w') ∧ db_wf (disk w') ∧ db_covered (disk w') ∧
  match (OpenWithHooks file path hooks env w).1 with
  | Ok h => h = hooks ∧ at_version currentSchemaVersion (disk w')
  | Fail _ => faulty env ∨ path = "" ∨ of_mkdir file = false ∨ of_chmod file = false ∨
      of_lstat file = Symlink ∨ of_lstat file = LstatError
  | Crash => False
  end.
Proof.
  intros Ht Hv Hwf Hcov.
  pose proof (OpenWithHooks_wp file path hooks env w v Ht Hv Hwf Hcov) as H.
  apply wp_elim in H. cbv zeta. destruct H as (H1 & (H2 & H3 & H4) & H5). done.
Qed.

(** A spool written by a newer program is refused and left alone. *)
Lemma newer_refused file path hooks env w rest :
  txn w = None → schema_migrations (disk w) = 1 :: rest → currentSchemaVersion < max_version (disk w) →
  wp (OpenWithHooks file path hooks) env w (λ o w', disk w' = disk w ∧ ∃ e, o = Fail e).
Proof.
  intros Ht Hh Hm. unfold OpenWithHooks. wp_step. wp_step; [eauto|]. wp_step. wp_step; [eauto|].
  assert (∀ k, wp initialize env (MkWorld (disk w) None k) (λ o w', disk w' = disk w ∧ ∃ e, o = Fail e))
    as Hi.
  { intros k. unfold initialize. wp_step. apply pragmas_wp; [done|eauto|]. intros k1. wp_step.
    assert (∀ k m, wp (
      version ← (if negb (stringsContainsNoTable m)
                 then fail (errorf "read spool schema version: %w") else mret 0);
      reject (currentSchemaVersion <? version)
        (errorf "unsupported spool schema version %d (maximum %d)");;
      for_range (pending_versions version) 0 tt (λ _ next _, applyMigration next))
      env (MkWorld (disk w) None k) (λ o w', disk w' = disk w ∧ ∃ e, o = Fail e)) as Herr.
    { intros k' m. wp_step. destruct (stringsContainsNoTable m); simpl negb; cbv iota; wp_step; [|eauto].
      wp_step. wp_step; [done|].
      eapply wp_mono; [by eapply reinitialize_wp|]. simpl. intros o w' (_ & ? & ?). auto. }
    eapply wp_exec_auto; [done| | |].
    - intros n m k2 _. apply Herr.
    - intros n m db' a k2 _ Hr. unfold read_version in Hr. simpl in Hr. rewrite Hh in Hr.
      injection Hr as <- _. apply Herr.
    - intros n db' a k2 Hr. unfold read_version in Hr. simpl in Hr. rewrite Hh in Hr.
      injection Hr as <- <-. wp_step. wp_step. wp_step. wp_step; [eauto|]. breflect. lia. }
  destruct (of_lstat file); [| wp_step; eauto | | wp_step; eauto];
    (wp_step; apply wp_driver_call_auto; [done|eauto|]; intros k; wp_step;
     eapply wp_mono; [apply Hi|]; simpl; intros o w' (Hd & e & ->); eauto).
Qed.
