(* ===== verification/ListingProps.v ===== *)
(** * ListingProps: the listings show the tables *)

From S2P Require Import Prelude Rows Text Timestamp TimeParse Sha256 Runtime.
From S2P Require Import Schema SchemaFacts Store Deliveries Migrate Listing.

(** A loop that appends one row per record. *)
Lemma scan_loop {A B} (shows : A → B → Prop) (scan : Z → A → list B → M DB (list B)) l env w
    (Q : outcome (list B) → World DB → Prop) :
  txn w = None →
  (∀ i x acc w1, x ∈ l → txn w1 = None → wp (scan i x acc) env w1 (λ o w2,
     txn w2 = None ∧ disk w2 = disk w1 ∧ match o with
     | Ok acc' => ∃ y, shows x y ∧ acc' = acc ++ [y]
     | Fail _ => faulty env
     | Crash => False end)) →
  (∀ acc w', txn w' = None → disk w' = disk w → Forall2 shows l acc → Q (Ok acc) w') →
  (∀ e w', disk w' = disk w → faulty env → Q (Fail e) w') →
  wp (for_range l 0 [] scan) env w Q.
Proof.
  intros Ht Hscan Hok Hfail.
  apply (wp_for_range (λ done acc w', txn w' = None ∧ disk w' = disk w ∧ Forall2 shows done acc)).
  - intros done x rest acc w1 Hl (Ht1 & Hd1 & Hf).
    eapply wp_mono; [apply Hscan; [rewrite Hl; apply elem_of_app; right; left | done]|].
    intros [acc'|e|] w2 (Ht2 & Hd2 & H); [| apply Hfail; congruence | done].
    destruct H as (y & Hy & ->). split; [done|]. split; [congruence|].
    apply Forall2_app; [done | by constructor].
  - intros acc w' (H1 & H2 & H3). by apply Hok.
  - done.
Qed.

Lemma limit_ok limit : 1 <= limit <= 1000 → (limit <? 1) || (1000 <? limit) = false.
Proof. intros H. apply orb_false_iff. split; apply Z.ltb_ge; lia. Qed.

Lemma scan_event_wp i e acc env (w : World DB) :
  txn w = None → event_stamped e →
  wp (scan_event i e acc) env w (λ o w', txn w' = None ∧ disk w' = disk w ∧ match o with
    | Ok acc' => ∃ r, shows_event e r ∧ acc' = acc ++ [r]
    | Fail _ => faulty env
    | Crash => False end).
Proof.
  intros Ht (Hc & _ & Hp). unfold scan_event, checked. wp_step.
  apply wp_driver_call_auto; [done|done|]. intros k. wp_step.
  destruct (nullable_fixed _ Hp) as (pt & -> & Hpt). destruct (parsed_nano _ Hc) as (ct & -> & _ & Hct).
  wp_step. wp_step. wp_step. wp_step. split; [done|]. split; [done|]. eexists. split; [|done].
  split; simpl; [done | done | done | done | destruct pt; [by destruct Hpt as [_ ->] | done] | by destruct pt as [t|]; [destruct Hpt|] |].
  destruct pt; [by destruct Hpt as [_ ->] | by rewrite Hpt].
Qed.

Lemma ListEvents_wp limit env (w : World DB) :
  txn w = None → db_wf (disk w) → db_stamped (disk w) → 1 <= limit <= 1000 →
  wp (ListEvents limit) env w (λ o w', disk w' = disk w ∧ match o with
    | Ok rows => Forall2 shows_event (take (Z.to_nat limit) (events (disk w))) rows
    | Fail _ => faulty env
    | Crash => False end).
Proof.
  intros Ht Hwf Hst Hl. unfold ListEvents. wp_step. wp_step; [rewrite (limit_ok _ Hl) in *; done|]. wp_step.
  apply wp_query_auto; [done|done|]. intros k.
  rewrite (sort_by_key e_sequence) by apply Hwf.
  wp_step. eapply (scan_loop shows_event); [done| | |].
  - intros i e acc w1 He Ht1. apply scan_event_wp; [done|]. apply elem_of_take in He as (n & He & _).
    apply list_elem_of_lookup_2 in He.
    apply (proj1 (Forall_forall _ _) (st_events _ Hst)), He.
  - simpl. intros acc w' Ht' Hd Hf. wp_step. apply wp_driver_call_auto; [done| |].
    + intros k2 Hx. done.
    + intros k2. wp_step. done.
  - simpl. done.
Qed.

(** ** Deliveries *)

Definition in_state (state : string) (d : delivery_rec) : bool :=
  (state =? "")%string || (state_text (d_state d) =? state)%string.

(** The row belongs to its sink and event. *)
Definition joined (db : DB) (r : listed_row) : Prop :=
  li_delivery r ∈ deliveries db ∧
  li_sink r ∈ delivery_sinks db ∧ s_id (li_sink r) = d_sink (li_delivery r) ∧
  li_event r ∈ events db ∧ e_sequence (li_event r) = d_event (li_delivery r).

(** Each delivery joins one sink and one event. *)
Lemma join_one state db d :
  db_wf db → d ∈ deliveries db → ∃ s e, joined db (MkListed d s e) ∧
  flat_map (λ s, flat_map (λ e,
    if (s_id s =? d_sink d) && (e_sequence e =? d_event d) && in_state state d
    then [MkListed d s e] else []) (events db)) (delivery_sinks db) =
  if in_state state d then [MkListed d s e] else [].
Proof.
  intros Hwf Hd. destruct (wf_delivery_event _ Hwf d Hd) as (e & He & Ee).
  destruct (wf_delivery_sink _ Hwf d Hd) as (s & Hs & Es). unfold same_event in Ee.
  exists s, e. split; [done|].
  rewrite (flat_map_unique s_id _ _ s); [| |done|].
  - rewrite (flat_map_unique e_sequence _ _ e); [| |done|].
    + rewrite <- Es, Ee, !Z.eqb_refl. done.
    + apply StronglySorted_lt_NoDup, Hwf.
    + intros e' _ Hne. destruct (e_sequence e' =? d_event d) eqn:E; [breflect; congruence|].
      by rewrite andb_false_r.
  - apply StronglySorted_lt_NoDup, Hwf.
  - intros s' _ Hne. destruct (s_id s' =? d_sink d) eqn:E; [breflect; congruence|]. simpl.
    clear. by induction (events db).
Qed.

Lemma list_rows_spec state db :
  db_wf db →
  map li_delivery (list_rows state db) = select (in_state state) (deliveries db) ∧
  Forall (joined db) (list_rows state db).
Proof.
  intros Hwf. unfold list_rows.
  assert (∀ l, (∀ d, d ∈ l → d ∈ deliveries db) →
    let rows := flat_map (λ d, flat_map (λ s, flat_map (λ e,
      if (s_id s =? d_sink d) && (e_sequence e =? d_event d) &&
         ((state =? "")%string || (state_text (d_state d) =? state)%string)
      then [MkListed d s e] else []) (events db)) (delivery_sinks db)) l in
    map li_delivery rows = select (in_state state) l ∧ Forall (joined db) rows) as H; [|by apply H].
  induction l as [|d l IH]; intros Hl rows; [done|]. unfold rows. simpl.
  destruct (join_one state db d Hwf) as (s & e & Hj & E); [apply Hl; left|].
  unfold in_state in E. rewrite E. fold (in_state state d).
  destruct IH as [IH1 IH2]; [intros d' ?; apply Hl; by right|].
  destruct (in_state state d); simpl; [|done]. split; [f_equal; exact IH1 | by constructor].
Qed.

Lemma scan_delivery_wp i r acc env (w : World DB) db :
  txn w = None → delivery_stamped (li_delivery r) → joined db r →
  wp (scan_delivery i r acc) env w (λ o w', txn w' = None ∧ disk w' = disk w ∧ match o with
    | Ok acc' => ∃ y, shows_delivery db (li_delivery r) y ∧ acc' = acc ++ [y]
    | Fail _ => faulty env
    | Crash => False end).
Proof.
  intros Ht (Hn & Hl & Hd & Hx) (_ & Hs & Es & He & Ee). unfold scan_delivery, checked. wp_step.
  apply wp_driver_call_auto; [done|done|]. intros k.
  destruct (parsed_fixed _ Hn) as (nt & -> & _ & Hnt).
  destruct (nullable_fixed _ Hl) as (lt & -> & Hlt), (nullable_fixed _ Hd) as (dt & -> & Hdt),
    (nullable_fixed _ Hx) as (xt & -> & Hxt).
  do 9 wp_step. split; [done|]. split; [done|]. eexists. split; [|done].
  split; simpl; [done | eauto | eauto | done | | |].
  - destruct lt; [by destruct Hlt as [_ ->] | done].
  - destruct dt; [by destruct Hdt as [_ ->] | done].
  - destruct xt; [by destruct Hxt as [_ ->] | done].
Qed.

(** The order of the listing. *)
Definition listing_order (a b : delivery_rec) : Prop :=
  d_event a < d_event b ∨ (d_event a = d_event b ∧ d_sink a <= d_sink b).

Lemma listed_leb_total a b : listed_leb a b = true ∨ listed_leb b a = true.
Proof.
  unfold listed_leb. rewrite !orb_true_iff, !andb_true_iff, !Z.ltb_lt, !Z.eqb_eq, !Z.leb_le. lia.
Qed.

Lemma listed_leb_trans a b c : listed_leb a b = true → listed_leb b c = true → listed_leb a c = true.
Proof.
  unfold listed_leb. rewrite !orb_true_iff, !andb_true_iff, !Z.ltb_lt, !Z.eqb_eq, !Z.leb_le. lia.
Qed.

Lemma listed_order db l :
  Forall (joined db) l → StronglySorted (λ a b, listed_leb a b = true) l →
  StronglySorted listing_order (map li_delivery l).
Proof.
  intros Hj Hs. induction Hs as [|r l Hs IH Hall]; simpl; [constructor|].
  apply Forall_cons in Hj as [Hr Hj]. constructor; [by apply IH|].
  apply Forall_forall. intros d (r' & -> & Hr')%list_elem_of_fmap.
  pose proof (proj1 (Forall_forall _ _) Hall r' Hr') as H.
  destruct Hr as (_ & _ & E & _), (proj1 (Forall_forall _ _) Hj r' Hr') as (_ & _ & E' & _).
  unfold listed_leb in H. rewrite orb_true_iff, andb_true_iff, Z.ltb_lt, Z.eqb_eq, Z.leb_le in H.
  unfold listing_order. lia.
Qed.

Lemma ListDeliveries_wp state limit env (w : World DB) :
  txn w = None → db_wf (disk w) → db_stamped (disk w) → 1 <= limit <= 1000 →
  known_state state = true →
  wp (ListDeliveries state limit) env w (λ o w', disk w' = disk w ∧ match o with
    | Ok rows => ∃ ds, ds ≡ₚ select (in_state state) (deliveries (disk w)) ∧
        StronglySorted listing_order ds ∧
        Forall2 (shows_delivery (disk w)) (take (Z.to_nat limit) ds) rows
    | Fail _ => faulty env
    | Crash => False end).
Proof.
  intros Ht Hwf Hst Hl Hk. unfold ListDeliveries.
  wp_step. wp_step; [rewrite (limit_ok _ Hl) in *; done|].
  wp_step. wp_step; [rewrite Hk in *; done|]. wp_step.
  destruct (list_rows_spec state _ Hwf) as [Hm Hj].
  set (rows := sort_by listed_leb (list_rows state (disk w))).
  assert (Forall (joined (disk w)) rows) as Hjr by (unfold rows; by rewrite sort_by_perm).
  apply wp_query_auto; [done|done|]. intros k. wp_step.
  eapply (scan_loop (λ r, shows_delivery (disk w) (li_delivery r))); [done| | |].
  - intros i r acc w1 Hr Ht1. apply elem_of_take in Hr as (n & Hr & _).
    apply list_elem_of_lookup_2 in Hr.
    pose proof (proj1 (Forall_forall _ _) Hjr r Hr) as Hjo.
    apply scan_delivery_wp; [done| |done].
    apply (proj1 (Forall_forall _ _) (st_deliveries _ Hst)), Hjo.
  - simpl. intros acc w' Ht' Hd Hf. wp_step. apply wp_driver_call_auto; [done|done|].
    intros k2. wp_step. split; [done|]. exists (map li_delivery rows). split; [|split].
    + rewrite <- Hm. apply fmap_Permutation, sort_by_perm.
    + eapply listed_order; [done|]. apply sort_by_sorted; [apply listed_leb_total | apply listed_leb_trans].
    + change (map li_delivery rows) with (li_delivery <$> rows).
      rewrite <- fmap_take. by apply Forall2_fmap_l.
  - simpl. done.
Qed.

(** C36. [ListDeliveries] on a healthy spool returns the first [limit] rows, by
    event sequence and sink, of exactly the deliveries in the requested
    state; each row shows its delivery, the sink and the event it belongs
    to, and the times that were written, and nothing is changed. *)
Theorem list_deliveries_complete state limit env (w : World DB) :
  txn w = None → db_wf (disk w) → db_stamped (disk w) → ¬ faulty env →
  1 <= limit <= 1000 → known_state state = true →
  ∃ rows ds w', ListDeliveries state limit env w = (Ok rows, w') ∧ disk w' = disk w ∧
    ds ≡ₚ select (in_state state) (deliveries (disk w)) ∧ StronglySorted listing_order ds ∧
    Forall2 (shows_delivery (disk w)) (take (Z.to_nat limit) ds) rows.
Proof.
  intros Ht Hwf Hst Hq Hl Hk.
  pose proof (ListDeliveries_wp state limit env w Ht Hwf Hst Hl Hk) as H. apply wp_elim in H.
  destruct (ListDeliveries state limit env w) as [[rows|e|] w']; simpl in H;
    destruct H as [Hd H]; [| done | done].
  destruct H as (ds & H1 & H2 & H3). by exists rows, ds, w'.
Qed.
