(* ===== verification/Stats.v ===== *)
(** * Stats: the read-only summary of internal/spool/sqlite/stats.go

    [ReadStats] opens an existing spool read-only and takes one snapshot:
    events, checkpoint, and per sink the delivery counts and the oldest
    waiting event.  On an error the callers drop the partial result. *)

From S2P Require Import Prelude Rows Text Timestamp TimeParse Sha256 Runtime Spool.
From S2P Require Import Schema SchemaFacts Store Sinks Deliveries Listing Prune Migrate.

(** ** Data *)

Record DeliveryCounts := MkCounts {
  dc_Total : Z;
  dc_Pending : Z;
  dc_RetryWait : Z;
  dc_Delivered : Z;
  dc_DeadLetter : Z;
}.

Record WaitingStats := MkWaiting { ws_CapturedAt : time; ws_AgeSeconds : Z }.

Record SinkStats := MkSinkStats {
  ss_Name : string;
  ss_Type : string;
  ss_Active : bool;
  ss_Deliveries : DeliveryCounts;
  ss_OldestWaiting : option WaitingStats;
}.

Record FileSizes := MkSizes {
  DatabaseBytes : Z;
  WALBytes : Z;
  SHMBytes : Z;
  TotalBytes : Z;
}.

Record Stats := MkStats {
  ts_SampledAt : time;
  ts_EventCount : Z;
  ts_PrunedPayloads : Z;
  ts_LastDurableLSN : string;
  ts_Deliveries : DeliveryCounts;
  ts_OldestWaiting : option WaitingStats;
  ts_Storage : FileSizes;
  ts_Sinks : list SinkStats;
}.

Definition no_counts : DeliveryCounts := MkCounts 0 0 0 0 0.
Definition no_sizes : FileSizes := MkSizes 0 0 0 0.

(** ** The per-sink query *)

(** [LEFT JOIN ... ON p]: the matching rows, or one row of NULLs. *)
Definition left_join {R} (p : R → bool) (l : list R) : list (option R) :=
  match select p l with [] => [None] | m => map Some m end.

(** The joined rows of one sink. *)
Definition sink_rows (db : DB) (s : sink_rec) : list (option delivery_rec * option event_rec) :=
  flat_map (λ od, map (λ oe, (od, oe))
      match od with
      | None => [None]
      | Some d => left_join (λ e, e_sequence e =? d_event d) (events db)
      end)
    (left_join (λ d, d_sink d =? s_id s) (deliveries db)).

(** [COUNT(d.event_sequence)] and [COALESCE(SUM(d.state = ?), 0)]. *)
Definition count_some (rows : list (option delivery_rec * option event_rec)) : Z :=
  count_where (λ r, negb (is_null r.1)) rows.
Definition sum_state (p : DeliveryState → bool)
    (rows : list (option delivery_rec * option event_rec)) : Z :=
  count_where (λ r, match r.1 with Some d => p (d_state d) | None => false end) rows.

Definition is_pending (s : DeliveryState) : bool := match s with pending => true | _ => false end.
Definition is_retry_wait (s : DeliveryState) : bool := match s with retry_wait => true | _ => false end.

(** [CASE WHEN d.state IN ('pending', 'retry_wait') THEN e.captured_at END]. *)
Definition waiting_since (r : option delivery_rec * option event_rec) : option string :=
  match r.1 with
  | Some d => if non_terminal (d_state d) then e_captured_at <$> r.2 else None
  | None => None
  end.

(** [MIN(...)] of texts, NULLs skipped. *)
Definition min_text (l : list string) : option string := first_by str_leb l.

Record sink_group := MkGroup {
  sg_name : string;
  sg_type : string;
  sg_active : bool;
  sg_counts : DeliveryCounts;
  sg_oldest : option string;
}.

Definition group_of (db : DB) (s : sink_rec) : sink_group :=
  let rows := sink_rows db s in
  MkGroup (s_name s) (s_type s) (s_active s)
    (MkCounts (count_some rows) (sum_state is_pending rows) (sum_state is_retry_wait rows)
       (sum_state is_delivered rows) (sum_state is_dead_letter rows))
    (min_text (omap waiting_since rows)).

(** [GROUP BY s.sink_id ORDER BY s.sink_name]. *)
Definition sink_groups (db : DB) : list sink_group :=
  map (group_of db) (sort_by (λ a b, str_leb (s_name a) (s_name b)) (delivery_sinks db)).

(** ** Operations *)

Definition add_counts (a b : DeliveryCounts) : DeliveryCounts :=
  MkCounts (int64 (dc_Total a + dc_Total b)) (int64 (dc_Pending a + dc_Pending b))
    (int64 (dc_RetryWait a + dc_RetryWait b)) (int64 (dc_Delivered a + dc_Delivered b))
    (int64 (dc_DeadLetter a + dc_DeadLetter b)).

(** The accumulated part of the result: counts, oldest, sinks. *)
Record stats_acc := MkAcc {
  ac_counts : DeliveryCounts;
  ac_oldest : option WaitingStats;
  ac_sinks : list SinkStats;
}.

(** [&WaitingStats{CapturedAt: *capturedAt, AgeSeconds: ...}]. *)
Definition waiting_stats (sampledAt capturedAt : time) : WaitingStats :=
  MkWaiting capturedAt (Z.max 0 (Z.quot (Sub sampledAt capturedAt) Second)).

(** [result.OldestWaiting == nil || capturedAt.Before(...)]. *)
Definition older (w : WaitingStats) (current : option WaitingStats) : option WaitingStats :=
  match current with
  | None => Some w
  | Some c => if ws_CapturedAt w <? ws_CapturedAt c then Some w else Some c
  end.

(** One iteration of the loop over the sinks. *)
Definition scan_sink (sampledAt : time) (_ : Z) (g : sink_group) (acc : stats_acc)
    : M DB stats_acc :=
  driver_call (errorf "scan per-sink stats: %w");;
  capturedAt ← checked "parse oldest waiting capture time: %w" (nullableTime (sg_oldest g));
  let waiting := waiting_stats sampledAt <$> capturedAt in
  let sink := MkSinkStats (sg_name g) (sg_type g) (sg_active g) (sg_counts g) waiting in
  mret (MkAcc (add_counts (ac_counts acc) (sg_counts g))
          (match waiting with Some w => older w (ac_oldest acc) | None => ac_oldest acc end)
          (ac_sinks acc ++ [sink])).

Section Stats.
Context {codec : LsnCodec}.

(** [readStatsSnapshot]; the deferred rollback ends the transaction on every
    error. *)
Definition readStatsSnapshot : M DB Stats :=
  begin_tx (errorf "begin spool stats snapshot: %w");;
  rollback_on_error (
    version ← run (errorf "read spool stats schema: %w") read_version;
    sampledAt ← now;
    reject (negb (version =? currentSchemaVersion))
      (errorf "spool stats requires schema version %d, found %d; stats does not migrate the spool");;
    counted ← run (errorf "count captured events: %w")
      (query (λ db, (Z.of_nat (length (events db)),
                     count_where (λ e, negb (is_null (e_pruned_at e))) (events db))));
    lsn ← lastDurableLSNTx;
    match lsn with
    | inl _ => fail (errorf "read spool stats checkpoint: %w")
    | inr lsn =>
        groups ← run (errorf "read per-sink stats: %w") (query sink_groups);
        acc ← for_range groups 0 (MkAcc no_counts None []) (scan_sink sampledAt);
        driver_call (errorf "iterate per-sink stats: %w");;
        driver_call (errorf "close per-sink stats: %w");;
        commit_tx (errorf "finish spool stats snapshot: %w");;
        mret (MkStats sampledAt counted.1 counted.2 (LSN_String lsn)
                (ac_counts acc) (ac_oldest acc) no_sizes (ac_sinks acc))
    end).

(** ** File sizes *)

(** What [os.Stat] answers: no file, another error, or whether the file is
    regular and its size. *)
Inductive Stat := StatMissing | StatError | StatFile (regular : bool) (size : Z).

Definition set_size (suffix : string) (size : Z) (f : FileSizes) : FileSizes :=
  let total := int64 (TotalBytes f + size) in
  if (suffix =? "")%string then MkSizes size (WALBytes f) (SHMBytes f) total
  else if (suffix =? "-wal")%string then MkSizes (DatabaseBytes f) size (SHMBytes f) total
  else MkSizes (DatabaseBytes f) (WALBytes f) size total.

Fixpoint file_sizes (stat : string → Stat) (path : string) (suffixes : list string) (f : FileSizes)
    : result FileSizes :=
  match suffixes with
  | [] => inr f
  | suffix :: rest =>
      match stat (path +:+ suffix) with
      | StatMissing =>
          if negb (suffix =? "")%string then file_sizes stat path rest f
          else inl (errorf "measure spool file: %w")
      | StatError => inl (errorf "measure spool file: %w")
      | StatFile regular size =>
          if negb regular then inl (errorf "spool file %q is not a regular file")
          else file_sizes stat path rest (set_size suffix size f)
      end
  end.

Definition spoolFileSizes (stat : string → Stat) (path : string) : result FileSizes :=
  file_sizes stat path [""; "-wal"; "-shm"] no_sizes.

(** The file system around the spool: [os.Lstat] ([None] is an error,
    otherwise whether the file is regular), [filepath.Abs] and [os.Stat]. *)
Record StatsFiles := MkStatsFiles {
  sf_Lstat : option bool;
  sf_Abs : result string;
  sf_Stat : string → Stat;
}.

(** [ReadStats]. *)
Definition ReadStats (files : StatsFiles) (path : string) : M DB Stats :=
  reject (path =? "")%string (errorf "spool path is required");;
  match sf_Lstat files with
  | None => fail (errorf "inspect existing spool (stats requires an initialized spool): %w")
  | Some regular =>
      reject (negb regular)
        (errorf "spool path must be a regular file, not a symbolic link or directory");;
      abs ← checked "resolve spool path: %w" (sf_Abs files);
      driver_call (errorf "open spool for stats: %w");;
      s ← readStatsSnapshot;
      sizes ← match spoolFileSizes (sf_Stat files) abs with inl e => fail e | inr f => mret f end;
      mret (MkStats (ts_SampledAt s) (ts_EventCount s) (ts_PrunedPayloads s) (ts_LastDurableLSN s)
              (ts_Deliveries s) (ts_OldestWaiting s) sizes (ts_Sinks s))
  end.

End Stats.

(** ** Specification *)

(** The deliveries by state. *)
Definition state_count (p : DeliveryState → bool) (db : DB) : Z :=
  count_where (λ d, p (d_state d)) (deliveries db).

Definition counts_of (db : DB) : DeliveryCounts :=
  MkCounts (Z.of_nat (length (deliveries db))) (state_count is_pending db)
    (state_count is_retry_wait db) (state_count is_delivered db) (state_count is_dead_letter db).

(** An event with an unfinished delivery of the sink, captured at [t]. *)
Definition waits (db : DB) (s : sink_rec) (t : time) : Prop :=
  ∃ d e, d ∈ deliveries db ∧ d_sink d = s_id s ∧ non_terminal (d_state d) = true ∧
    e ∈ events db ∧ e_sequence e = d_event d ∧ four_digit_year t ∧
    e_captured_at e = formatRFC3339Nano t.

(** [w] is the capture time of a waiting event, and no event waits from an
    earlier second. *)
Definition oldest_to_second (waiting : time → Prop) (w : option WaitingStats) : Prop :=
  match w with
  | None => ∀ t, ¬ waiting t
  | Some w => waiting (ws_CapturedAt w) ∧ ∀ t, waiting t → ws_CapturedAt w / Second <= t / Second
  end.
