(* ===== verification/StatsProps.v ===== *)
(** * StatsProps: the statistics describe the spool

    Counts over the joins agree with the tables, totals with their parts,
    and the oldest waiting event is right to the second. *)

From S2P Require Import Prelude Rows Text Timestamp TimeParse Sha256 Runtime Spool.
From S2P Require Import Schema SchemaFacts Store StoreFacts Sinks Deliveries Listing Prune Migrate Stats.

(** ** Text order of times *)

Lemma compare_lt_trans s t u :
  String.compare s t ≠ Gt → String.compare t u ≠ Gt → String.compare s u ≠ Gt.
Proof.
  revert t u. induction s as [|a s IH]; intros [|b t] [|c u]; simpl; try done.
  unfold Ascii.compare. destruct (N.compare_spec (Ascii.N_of_ascii a) (Ascii.N_of_ascii b)) as [E1|L1|L1],
    (N.compare_spec (Ascii.N_of_ascii b) (Ascii.N_of_ascii c)) as [E2|L2|L2],
    (N.compare_spec (Ascii.N_of_ascii a) (Ascii.N_of_ascii c)) as [E3|L3|L3]; try done; try lia. apply IH.
Qed.

Lemma str_leb_trans s t u : str_leb s t = true → str_leb t u = true → str_leb s u = true.
Proof.
  pose proof (compare_lt_trans s t u) as H. unfold str_leb in *.
  destruct (String.compare s t), (String.compare t u), (String.compare s u);
    intros; try done; exfalso; by apply H.
Qed.

Lemma str_leb_total s t : str_leb s t = true ∨ str_leb t s = true.
Proof. unfold str_leb. rewrite (String.compare_antisym s t). destruct (String.compare t s); auto. Qed.

(** The text of a capture time orders whole seconds. *)
Lemma nano_leb_seconds t1 t2 :
  four_digit_year t1 → four_digit_year t2 →
  str_leb (formatRFC3339Nano t1) (formatRFC3339Nano t2) = true → t1 / Second <= t2 / Second.
Proof.
  intros H1 H2. unfold str_leb, formatRFC3339Nano.
  rewrite compare_then by (by rewrite !length_format_seconds). rewrite compare_seconds by done.
  destruct (Z.compare_spec (t1 / Second) (t2 / Second)); simpl; [lia | lia | done].
Qed.

Lemma min_text_spec l m :
  min_text l = Some m → m ∈ l ∧ ∀ s, s ∈ l → str_leb m s = true.
Proof. apply first_by_Some; [apply str_leb_total | apply str_leb_trans]. Qed.

Lemma min_text_none l : min_text l = None ↔ l = [].
Proof. apply first_by_None. Qed.

(** ** The joins *)

Lemma select_key {R} (g : R → Z) l x :
  NoDup (map g l) → x ∈ l → select (λ y, g y =? g x) l = [x].
Proof.
  intros Hnd Hx.
  induction l as [|y l IH]; [by apply not_elem_of_nil in Hx|].
  simpl in *. inversion Hnd as [|? ? Hni Hnd']; subst. apply elem_of_cons in Hx as [->|Hx].
  - rewrite Z.eqb_refl. f_equal. apply elem_of_nil_inv. intros z Hz.
    apply elem_of_select in Hz as [Hz Hk]. apply Hni. apply elem_of_map_row. exists z. by breflect.
  - destruct (g y =? g x) eqn:E; [|by apply IH]. breflect. destruct Hni. rewrite E.
    apply elem_of_map_row. eauto.
Qed.

(** The rows of a sink: its deliveries, each with its event. *)
Definition with_event (db : DB) (d : delivery_rec) : option delivery_rec * option event_rec :=
  (Some d, head (select (λ e, e_sequence e =? d_event d) (events db))).

Lemma sink_rows_spec db s :
  db_wf db →
  sink_rows db s = match select (λ d, d_sink d =? s_id s) (deliveries db) with
                   | [] => [(None, None)]
                   | ds => map (with_event db) ds
                   end.
Proof.
  intros Hwf. unfold sink_rows, left_join at 2.
  assert (∀ ds, (∀ d, d ∈ ds → d ∈ deliveries db) →
    flat_map (λ od, map (λ oe, (od, oe)) match od with
      | None => [None]
      | Some d => left_join (λ e, e_sequence e =? d_event d) (events db) end) (map Some ds) =
    map (with_event db) ds) as H.
  { induction ds as [|d ds IH]; intros Hds; simpl; [done|].
    destruct (wf_delivery_event _ Hwf d) as (e & He & Ee); [apply Hds; left|]. unfold same_event in Ee.
    rewrite IH by (intros; apply Hds; by right). unfold with_event at 2, left_join. rewrite Ee.
    rewrite (select_key e_sequence) by (done || apply StronglySorted_lt_NoDup, Hwf). done. }
  destruct (select _ (deliveries db)) as [|d ds] eqn:Es; [done|]. rewrite <- Es.
  assert (∀ x, x ∈ select (λ d, d_sink d =? s_id s) (deliveries db) → x ∈ deliveries db) as Hin
    by (intros x Hx; by apply elem_of_select in Hx as [? _]).
  rewrite Es in *. by apply H.
Qed.

(** A count over the rows of a sink counts its deliveries. *)
Lemma sink_rows_count db s f :
  db_wf db →
  count_where (λ r : option delivery_rec * option event_rec,
    match r.1 with Some d => f d | None => false end) (sink_rows db s) =
  count_where (λ d, (d_sink d =? s_id s) && f d) (deliveries db).
Proof.
  intros Hwf. rewrite sink_rows_spec by done.
  assert (∀ l, count_where (λ d, (d_sink d =? s_id s) && f d) l =
    count_where f (select (λ d, d_sink d =? s_id s) l)) as ->.
  { unfold count_where. induction l as [|d l IH]; simpl; [done|].
    destruct (d_sink d =? s_id s); simpl; [|done]. destruct (f d); simpl; lia. }
  destruct (select _ (deliveries db)) as [|d ds]; [done|]. unfold count_where. f_equal.
  generalize (d :: ds). induction l as [|x l IH]; simpl; [done|].
  destruct (f x); simpl; by rewrite IH.
Qed.

(** ** Sums over the sinks *)

(** Each delivery belongs to one sink. *)
Lemma total_by_sink db f :
  db_wf db →
  total (λ s, count_where (λ d, (d_sink d =? s_id s) && f d) (deliveries db)) (delivery_sinks db) =
  count_where f (deliveries db).
Proof.
  intros Hwf. pose proof (wf_delivery_sink _ Hwf) as Hs. revert Hs.
  generalize (deliveries db) as l. induction l as [|d l IH]; intros Hs.
  - unfold count_where. simpl. clear. by induction (delivery_sinks db).
  - rewrite (total_ext _ (λ s, (if d_sink d =? s_id s then (if f d then 1 else 0) else 0) +
      count_where (λ d, (d_sink d =? s_id s) && f d) l)).
    2: { intros s. unfold count_where. simpl. destruct (d_sink d =? s_id s), (f d); simpl; lia. }
    rewrite total_add, IH by (intros; apply Hs; by right).
    destruct (Hs d) as (s & Hin & E); [left|]. rewrite E.
    rewrite (total_key s_id) by (done || apply StronglySorted_lt_NoDup, Hwf).
    unfold count_where. simpl. destruct (f d); simpl; lia.
Qed.

(** ** Groups *)

(** The counts of one sink. *)
Definition sink_counts (db : DB) (s : sink_rec) : DeliveryCounts :=
  let n p := count_where (λ d, (d_sink d =? s_id s) && p (d_state d)) (deliveries db) in
  MkCounts (count_where (λ d, d_sink d =? s_id s) (deliveries db))
    (n is_pending) (n is_retry_wait) (n is_delivered) (n is_dead_letter).

Lemma count_where_ext {R} (p q : R → bool) l :
  (∀ x, p x = q x) → count_where p l = count_where q l.
Proof. intros H. unfold count_where, select. by rewrite (List.filter_ext _ _ H). Qed.

Lemma group_counts db s : db_wf db → sg_counts (group_of db s) = sink_counts db s.
Proof.
  intros Hwf. unfold group_of, sink_counts, sum_state. simpl.
  rewrite !(sink_rows_count db s (λ d, _ (d_state d))) by done. f_equal. unfold count_some.
  rewrite (count_where_ext _ (λ r : option delivery_rec * option event_rec,
    match r.1 with Some d => (λ _, true) d | None => false end)) by (by intros [[]]).
  rewrite sink_rows_count by done. apply count_where_ext. intros d. apply andb_true_r.
Qed.

(** The waiting texts of a group are the capture times of its waiting events. *)
Lemma waiting_texts db s x :
  db_wf db →
  x ∈ omap waiting_since (sink_rows db s) ↔
  ∃ d e, d ∈ deliveries db ∧ d_sink d = s_id s ∧ non_terminal (d_state d) = true ∧
    e ∈ events db ∧ e_sequence e = d_event d ∧ e_captured_at e = x.
Proof.
  intros Hwf. rewrite list_elem_of_omap, sink_rows_spec by done.
  assert (∀ d, d ∈ deliveries db → ∃ e, e ∈ events db ∧ e_sequence e = d_event d ∧
    with_event db d = (Some d, Some e)) as Hev.
  { intros d Hd. destruct (wf_delivery_event _ Hwf d Hd) as (e & He & Ee). unfold same_event in Ee.
    exists e. unfold with_event. rewrite Ee.
    by rewrite (select_key e_sequence) by (done || apply StronglySorted_lt_NoDup, Hwf). }
  assert (∀ d, d ∈ select (λ d, d_sink d =? s_id s) (deliveries db) ↔
    d ∈ deliveries db ∧ d_sink d = s_id s) as Hsel
    by (intros d; rewrite elem_of_select, Z.eqb_eq; done).
  destruct (select _ (deliveries db)) as [|d0 ds].
  - split.
    + intros (r & Hr & E). by apply list_elem_of_singleton in Hr as ->.
    + intros (d & e & Hd & Es & _). exfalso.
      apply (not_elem_of_nil d). by apply Hsel.
  - revert Hsel. generalize (d0 :: ds) as l. intros l Hsel. split.
    + intros (r & Hr & E). apply elem_of_map_row in Hr as (d & Hd & ->).
      apply Hsel in Hd as [Hd Hs]. destruct (Hev d Hd) as (e & He & Ee & Ew).
      rewrite Ew in E. unfold waiting_since in E. simpl in E.
      destruct (non_terminal (d_state d)) eqn:En; [|done]. injection E as <-. by exists d, e.
    + intros (d & e & Hd & Hs & Hn & He & Ee & <-). destruct (Hev d Hd) as (e' & He' & Ee' & Ew).
      exists (with_event db d). split; [apply elem_of_map_row; exists d; by split; [apply Hsel|]|].
      rewrite Ew. unfold waiting_since. simpl. rewrite Hn. simpl. do 2 f_equal.
      eapply events_unique; [done..|]. congruence.
Qed.

(** ** The oldest waiting event *)

Lemma captured_nano db e :
  db_stamped db → e ∈ events db →
  ∃ t, four_digit_year t ∧ e_captured_at e = formatRFC3339Nano t.
Proof. intros Hst He. by apply (proj1 (Forall_forall _ _) (st_events _ Hst) e He). Qed.

(** The column of a group: empty, or the text of a waiting event's time that
    is oldest to the second. *)
Lemma group_oldest db s :
  db_wf db → db_stamped db →
  match sg_oldest (group_of db s) with
  | None => ∀ t, ¬ waits db s t
  | Some x => ∃ c, four_digit_year c ∧ x = formatRFC3339Nano c ∧ waits db s c ∧
      ∀ t, waits db s t → c / Second <= t / Second
  end.
Proof.
  intros Hwf Hst. unfold group_of. simpl. destruct (min_text _) as [x|] eqn:E.
  - apply min_text_spec in E as [Hx Hmin]. apply waiting_texts in Hx as
      (d & e & Hd & Hs & Hn & He & Ee & <-); [|done].
    destruct (captured_nano db e Hst He) as (c & Hc & Ec). exists c.
    split; [done|]. split; [done|]. split; [by exists d, e|].
    intros t (d' & e' & Hd' & Hs' & Hn' & He' & Ee' & Ht & Et).
    apply nano_leb_seconds; [done..|]. rewrite <- Ec, <- Et. apply Hmin, waiting_texts; [done|].
    by exists d', e'.
  - apply min_text_none in E. intros t (d & e & Hd & Hs & Hn & He & Ee & Ht & Et).
    apply (not_elem_of_nil (e_captured_at e)). rewrite <- E. apply waiting_texts; [done|].
    by exists d, e.
Qed.

(** ** The loop *)

(** A line of the report. *)
Record shows_sink (db : DB) (sampledAt : time) (s : sink_rec) (r : SinkStats) : Prop := {
  sk_identity : (ss_Name r, ss_Type r, ss_Active r) = (s_name s, s_type s, s_active s);
  sk_counts : ss_Deliveries r = sink_counts db s;
  sk_oldest : oldest_to_second (waits db s) (ss_OldestWaiting r);
  sk_age : ∀ w, ss_OldestWaiting r = Some w →
    ws_AgeSeconds w = Z.max 0 (Z.quot (Sub sampledAt (ws_CapturedAt w)) Second);
}.

Definition wrapped (f : DeliveryCounts → Z) (db : DB) (l : list sink_rec) : Z :=
  int64 (total (λ s, f (sink_counts db s)) l).

Definition wrapped_counts (db : DB) (l : list sink_rec) : DeliveryCounts :=
  MkCounts (wrapped dc_Total db l) (wrapped dc_Pending db l) (wrapped dc_RetryWait db l)
    (wrapped dc_Delivered db l) (wrapped dc_DeadLetter db l).

Lemma int64_add a b : int64 (int64 a + b) = int64 (a + b).
Proof.
  unfold int64. f_equal.
  replace ((a + 2 ^ 63) mod 2 ^ 64 - 2 ^ 63 + b + 2 ^ 63) with ((a + 2 ^ 63) mod 2 ^ 64 + b) by lia.
  rewrite Zplus_mod_idemp_l. f_equal. lia.
Qed.

Lemma add_counts_wrapped db l s :
  add_counts (wrapped_counts db l) (sink_counts db s) = wrapped_counts db (l ++ [s]).
Proof.
  unfold add_counts, wrapped_counts, wrapped. cbn [dc_Total dc_Pending dc_RetryWait dc_Delivered dc_DeadLetter].
  rewrite !int64_add, !total_app. cbn [total foldr]. by rewrite !Z.add_0_r.
Qed.

Definition waits_in (db : DB) (l : list sink_rec) (t : time) : Prop := ∃ s, s ∈ l ∧ waits db s t.

(** What the loop has gathered over the sinks [l]. *)
Record gathered (db : DB) (sampledAt : time) (l : list sink_rec) (acc : stats_acc) : Prop := {
  ga_counts : ac_counts acc = wrapped_counts db l;
  ga_sinks : Forall2 (shows_sink db sampledAt) l (ac_sinks acc);
  ga_oldest : oldest_to_second (waits_in db l) (ac_oldest acc);
}.

Lemma oldest_snoc db l s w ws :
  oldest_to_second (waits_in db l) w → oldest_to_second (waits db s) ws →
  oldest_to_second (waits_in db (l ++ [s]))
    match ws with Some x => older x w | None => w end.
Proof.
  assert (∀ t, waits_in db (l ++ [s]) t ↔ waits_in db l t ∨ waits db s t) as Hin.
  { intros t. unfold waits_in. split.
    - intros (s' & [Hs| ->]%elem_of_snoc & Ht); [left; eauto | by right].
    - intros [(s' & Hs & Ht)|Ht]; [exists s' | exists s]; (split; [apply elem_of_snoc|]); auto. }
  unfold oldest_to_second, older. destruct w as [c|], ws as [x|]; simpl.
  - intros [Hc1 Hc2] [Hx1 Hx2]. destruct (ws_CapturedAt x <? ws_CapturedAt c) eqn:E; breflect;
      (split; [apply Hin; auto|]); intros t [H|H]%Hin; auto.
    + etransitivity; [|by apply Hc2]. apply Z.div_le_mono; unfold Second in *; lia.
    + etransitivity; [|by apply Hx2]. apply Z.div_le_mono; unfold Second in *; lia.
  - intros [Hc1 Hc2] Hx. split; [apply Hin; auto|]. intros t [H|H]%Hin; [auto | by apply Hx in H].
  - intros Hc [Hx1 Hx2]. split; [apply Hin; auto|]. intros t [H|H]%Hin; [by apply Hc in H | auto].
  - intros Hc Hx t [H|H]%Hin; [by apply Hc in H | by apply Hx in H].
Qed.

Lemma nullable_nano c :
  four_digit_year c → nullableTime (Some (formatRFC3339Nano c)) = inr (Some c).
Proof. intros Hc. simpl. by rewrite parse_formatRFC3339Nano. Qed.

Lemma scan_sink_wp sampledAt i s acc l env (w : World DB) db (Q : outcome stats_acc → World DB → Prop) :
  txn w = Some db → db_wf db → db_stamped db → gathered db sampledAt l acc →
  (∀ e k, faulty env → Q (Fail e) (MkWorld (disk w) (Some db) k)) →
  (∀ acc' k, gathered db sampledAt (l ++ [s]) acc' → Q (Ok acc') (MkWorld (disk w) (Some db) k)) →
  wp (scan_sink sampledAt i (group_of db s) acc) env w Q.
Proof.
  intros Ht Hwf Hst [Hc Hs Ho] Hf Hok. unfold scan_sink, checked. wp_step.
  eapply wp_driver_call; [done|auto|]. intros k. wp_step.
  pose proof (group_oldest db s Hwf Hst) as Hg.
  assert (∃ ct, nullableTime (sg_oldest (group_of db s)) = inr ct ∧
    oldest_to_second (waits db s) (waiting_stats sampledAt <$> ct)) as (ct & -> & Hct).
  { destruct (sg_oldest (group_of db s)) as [x|]; [|by exists None].
    destruct Hg as (c & H4 & -> & H1 & H2). exists (Some c). by rewrite nullable_nano. }
  do 2 wp_step. apply Hok. split; simpl.
  - rewrite Hc, <- add_counts_wrapped. f_equal. exact (group_counts db s Hwf).
  - apply Forall2_app; [done|]. constructor; [|constructor]. split; simpl; [done | by apply group_counts | done |].
    intros w'. by destruct ct as [c|]; [intros [= <-]|].
  - exact (oldest_snoc db l s (ac_oldest acc) (waiting_stats sampledAt <$> ct) Ho Hct).
Qed.

(** ** The snapshot *)

Definition by_name (a b : sink_rec) : Prop := str_leb (s_name a) (s_name b) = true.

Record stats_show {codec : LsnCodec} (db : DB) (r : Stats) : Prop := {
  sh_events : ts_EventCount r = Z.of_nat (length (events db)) ∧
    ts_PrunedPayloads r = count_where (λ e, negb (is_null (e_pruned_at e))) (events db);
  sh_lsn : ∃ l, checkpoint db = Some l ∧ ts_LastDurableLSN r = LSN_String l;
  sh_counts : ts_Deliveries r = wrapped_counts db (delivery_sinks db);
  sh_sinks : ∃ l, l ≡ₚ delivery_sinks db ∧ StronglySorted by_name l ∧
    Forall2 (shows_sink db (ts_SampledAt r)) l (ts_Sinks r);
  sh_oldest : oldest_to_second (waits_in db (delivery_sinks db)) (ts_OldestWaiting r);
}.

Lemma wrapped_counts_perm db l l' : l ≡ₚ l' → wrapped_counts db l = wrapped_counts db l'.
Proof. intros H. unfold wrapped_counts, wrapped. by rewrite !(total_perm _ _ _ H). Qed.

Lemma oldest_perm db l l' w :
  l ≡ₚ l' → oldest_to_second (waits_in db l) w → oldest_to_second (waits_in db l') w.
Proof.
  intros H. assert (∀ t, waits_in db l t ↔ waits_in db l' t) as Hw
    by (intros t; unfold waits_in; by setoid_rewrite H).
  unfold oldest_to_second. destruct w; setoid_rewrite Hw; done.
Qed.

Section Snapshot.
Context {codec : LsnCodec}.

Lemma readStatsSnapshot_wp env (w : World DB) ck :
  txn w = None → db_wf (disk w) → db_stamped (disk w) → checkpoint (disk w) = Some ck →
  schema_migrations (disk w) ≠ [] → max_version (disk w) = currentSchemaVersion →
  wp readStatsSnapshot env w (λ o w', txn w' = None ∧ disk w' = disk w ∧ match o with
    | Ok r => stats_show (disk w) r
    | Fail _ => faulty env
    | Crash => False end).
Proof.
  intros Ht Hwf Hst Hck Hm Hv. unfold readStatsSnapshot. wp_step. wp_step; [by simpl|].
  wp_step. wp_step. eapply wp_run_txn; [done| |].
  { intros n k0 [H|(m & H)]; [done|]. unfold read_version in H. by destruct (schema_migrations _). }
  intros n db' v k0 H. unfold read_version in H. destruct (schema_migrations _) as [|v0 vs] eqn:Em; [done|].
  injection H as <- <-. rewrite Hv. do 4 wp_step; [done|]. wp_step. eapply wp_run_txn; [done| |].
  { by intros n2 k2 [Hx|(m & Hx)]. }
  intros n2 db2 counted k2 [= <- <-]. wp_step. eapply lastDurableLSNTx_wp; [done|exact Hck| |].
  { intros e k3 Hf. by wp_step. }
  intros k3. wp_step. eapply wp_run_txn; [done| |].
  { by intros n4 k4 [Hx|(m & Hx)]. }
  intros n4 db4 groups k4 [= <- <-]. wp_step. simpl. unfold sink_groups.
  set (l := sort_by (λ a b, str_leb (s_name a) (s_name b)) (delivery_sinks (disk w))).
  set (at_ := env_clock env _).
  apply wp_for_range_map.
  eapply (wp_for_range (λ done acc w', txn w' = Some (disk w) ∧ disk w' = disk w ∧
    gathered (disk w) at_ done acc)).
  - intros done s rest acc w1 Hl (Ht1 & Hd1 & Hg). eapply scan_sink_wp; [done..| |].
    + intros e k5 Hf. done.
    + intros acc' k5 Hg'. done.
  - intros acc w1 (Ht1 & Hd1 & [Hgc Hgs Hgo]). wp_step. eapply wp_driver_call; [done|by simpl|].
    intros k5. wp_step. eapply wp_driver_call; [done|by simpl|]. intros k6. wp_step.
    eapply wp_commit; [done|by simpl|by simpl|]. intros k7. wp_step. split; [done|]. split; [done|].
    assert (l ≡ₚ delivery_sinks (disk w)) as Hp by apply sort_by_perm.
    split; simpl; [done | eauto | by rewrite Hgc; apply wrapped_counts_perm | | by eapply oldest_perm].
    exists l. split; [done|]. split; [|done].
    apply sort_by_sorted; [intros; apply str_leb_total | intros ? ? ?; apply str_leb_trans].
  - split; [done|]. split; [done|]. split; [done | constructor|].
    intros t (s & Hs & _). by apply not_elem_of_nil in Hs.
Qed.

(** The spool file and its sidecars can be measured. *)
Definition measurable (files : StatsFiles) (path : string) : Prop :=
  path ≠ "" ∧ sf_Lstat files = Some true ∧
  ∃ abs sizes, sf_Abs files = inr abs ∧ spoolFileSizes (sf_Stat files) abs = inr sizes.

Lemma ReadStats_ok files path env (w : World DB) ck :
  txn w = None → db_wf (disk w) → db_stamped (disk w) → checkpoint (disk w) = Some ck →
  schema_migrations (disk w) ≠ [] → max_version (disk w) = currentSchemaVersion →
  measurable files path → ¬ faulty env →
  ∃ r w', ReadStats files path env w = (Ok r, w') ∧ disk w' = disk w ∧ stats_show (disk w) r.
Proof.
  intros Ht Hwf Hst Hck Hm Hv (Hp & Hl & abs & sizes & Ha & Hs) Hq.
  assert (wp (ReadStats files path) env w (λ o w', disk w' = disk w ∧ match o with
    | Ok r => stats_show (disk w) r | Fail _ => faulty env | Crash => False end)) as H.
  { unfold ReadStats, checked. rewrite Hl, Ha. wp_step. wp_step; [by breflect|]. do 2 wp_step; [done|].
    do 3 wp_step. apply wp_driver_call_auto; [done|done|]. intros k. wp_step.
    eapply wp_mono; [by apply (readStatsSnapshot_wp _ _ ck)|]. simpl. intros [r|e|] w' (H1 & H2 & H3); [|done..].
    rewrite Hs. do 3 wp_step. split; [done|]. by destruct H3. }
  apply wp_elim in H. destruct (ReadStats files path env w) as [[r|e|] w']; simpl in H;
    destruct H as [Hd H]; [by exists r, w' | done | done].
Qed.

Lemma wrapped_exact p db :
  db_wf db → Z.of_nat (length (deliveries db)) < 2 ^ 63 →
  int64 (total (λ s, count_where (λ d, (d_sink d =? s_id s) && p d) (deliveries db)) (delivery_sinks db)) =
  count_where p (deliveries db).
Proof.
  intros Hwf Hlen. rewrite total_by_sink by done. apply int64_id. unfold in_int64, count_where.
  pose proof (List.filter_length_le p (deliveries db)) as H. unfold select. lia.
Qed.

Lemma wrapped_counts_exact db :
  db_wf db → Z.of_nat (length (deliveries db)) < 2 ^ 63 →
  wrapped_counts db (delivery_sinks db) = counts_of db.
Proof.
  intros Hwf Hlen. unfold wrapped_counts, counts_of, wrapped, state_count, sink_counts.
  cbn [dc_Total dc_Pending dc_RetryWait dc_Delivered dc_DeadLetter].
  rewrite !(wrapped_exact (λ d, _ (d_state d)) db Hwf Hlen). f_equal.
  rewrite (total_ext _ (λ s, count_where (λ d, (d_sink d =? s_id s) && true) (deliveries db)))
    by (intros s; apply count_where_ext; intros d; by rewrite andb_true_r).
  rewrite (wrapped_exact (λ _, true) db Hwf Hlen). unfold count_where. do 2 f_equal.
  clear. induction (deliveries db) as [|d l IH]; simpl; [done|]. by f_equal.
Qed.

(** The states partition the deliveries. *)
Lemma counts_partition db :
  dc_Total (counts_of db) = dc_Pending (counts_of db) + dc_RetryWait (counts_of db) +
    dc_Delivered (counts_of db) + dc_DeadLetter (counts_of db).
Proof.
  unfold counts_of, state_count, count_where. simpl.
  induction (deliveries db) as [|d l IH]; simpl; [done|]. destruct (d_state d); simpl; lia.
Qed.

(** C34. The statistics of a healthy spool at the current schema: the call
    succeeds and changes nothing; events, pruned payloads and checkpoint are
    those of the file; the delivery totals are the numbers of deliveries by
    state, they add up, and the sinks are listed by name, each with its own
    counts, type and activity. *)
Theorem stats_consistent files path env (w : World DB) ck :
  txn w = None → db_wf (disk w) → db_stamped (disk w) → checkpoint (disk w) = Some ck →
  schema_migrations (disk w) ≠ [] → max_version (disk w) = currentSchemaVersion →
  measurable files path → ¬ faulty env → Z.of_nat (length (deliveries (disk w))) < 2 ^ 63 →
  ∃ r w', ReadStats files path env w = (Ok r, w') ∧ disk w' = disk w ∧
    ts_EventCount r = Z.of_nat (length (events (disk w))) ∧
    ts_PrunedPayloads r = count_where (λ e, negb (is_null (e_pruned_at e))) (events (disk w)) ∧
    ts_LastDurableLSN r = LSN_String ck ∧
    ts_Deliveries r = counts_of (disk w) ∧
    dc_Total (ts_Deliveries r) = dc_Pending (ts_Deliveries r) + dc_RetryWait (ts_Deliveries r) +
      dc_Delivered (ts_Deliveries r) + dc_DeadLetter (ts_Deliveries r) ∧
    ∃ l, l ≡ₚ delivery_sinks (disk w) ∧ StronglySorted by_name l ∧
      Forall2 (λ s x, (ss_Name x, ss_Type x, ss_Active x) = (s_name s, s_type s, s_active s) ∧
        ss_Deliveries x = sink_counts (disk w) s) l (ts_Sinks r).
Proof.
  intros Ht Hwf Hst Hck Hm Hv Hf Hq Hlen.
  destruct (ReadStats_ok files path env w ck) as (r & w' & E & Hd & [[H1 H2] (ck' & Hc & H3) H4 H5 _]);
    [done..|].
  rewrite wrapped_counts_exact in H4 by done.
  exists r, w'. split; [done|]. split; [done|]. split; [done|]. split; [done|]. split; [congruence|].
  split; [done|]. split; [rewrite H4; apply counts_partition|].
  destruct H5 as (l & Hp & Hs & Hl). exists l. split; [done|]. split; [done|].
  eapply Forall2_impl; [exact Hl|]. by intros s x [].
Qed.

(** The oldest waiting event that the statistics report, overall and per
    sink, is an event with an unfinished delivery, and no event has waited
    since an earlier second; there is none exactly when nothing waits. *)
Theorem stats_oldest files path env (w : World DB) ck r w' :
  txn w = None → db_wf (disk w) → db_stamped (disk w) → checkpoint (disk w) = Some ck →
  schema_migrations (disk w) ≠ [] → max_version (disk w) = currentSchemaVersion →
  measurable files path → ¬ faulty env → ReadStats files path env w = (Ok r, w') →
  oldest_to_second (waits_in (disk w) (delivery_sinks (disk w))) (ts_OldestWaiting r) ∧
  ∃ l, l ≡ₚ delivery_sinks (disk w) ∧ Forall2 (λ s x,
    oldest_to_second (waits (disk w) s) (ss_OldestWaiting x) ∧
    ∀ o, ss_OldestWaiting x = Some o →
      ws_AgeSeconds o = Z.max 0 (Z.quot (Sub (ts_SampledAt r) (ws_CapturedAt o)) Second)) l (ts_Sinks r).
Proof.
  intros Ht Hwf Hst Hck Hm Hv Hf Hq E.
  destruct (ReadStats_ok files path env w ck) as (r' & w1 & E' & Hd & [_ _ _ (l & Hp & _ & Hl) Ho]);
    [done..|].
  rewrite E in E'. injection E' as <- <-. split; [done|]. exists l. split; [done|].
  eapply Forall2_impl; [exact Hl|]. by intros s x [].
Qed.

End Snapshot.

(** Within one second the minimum of the texts is not the earliest time: the
    text of 20.5 s sorts after that of 20.51 s, and of 20 s after both. *)
Example min_text_within_second :
  let t n := 1700000000 * Second + n in
  min_text (map formatRFC3339Nano [t 0; t 500000000; t 510000000]) =
  Some (formatRFC3339Nano (t 510000000)).
Proof. vm_compute. reflexivity. Qed.
