(* ===== verification/Json.v ===== *)
(** * Json: what [encoding/json] does for the event validator

    The scanner is the byte-by-byte automaton of the Go package: a state and
    a stack of open arrays and objects.  On top of it, reading one object
    into the raw bytes of its members ([map[string]json.RawMessage]) and
    unquoting a string literal, with Go's replacement of invalid UTF-8 and
    of lone surrogates. *)

From Stdlib Require Import Ascii.
From S2P Require Import Prelude Text.

(** ** Bytes *)

Definition byte_n (c : ascii) : N := N_of_ascii c.
Definition between (lo hi : N) (c : ascii) : bool :=
  (lo <=? byte_n c)%N && (byte_n c <=? hi)%N.

Definition is_space (c : ascii) : bool :=
  let n := byte_n c in (n =? 32)%N || (n =? 9)%N || (n =? 13)%N || (n =? 10)%N.
Definition is_dec (c : ascii) : bool := between 48 57 c.
Definition is_hex (c : ascii) : bool := between 48 57 c || between 97 102 c || between 65 70 c.

Definition QUOTE : ascii := ascii_of_N 34.
Definition BACKSLASH : ascii := ascii_of_N 92.

(** ** The scanner *)

(** [parseObjectKey], [parseObjectValue], [parseArrayValue]. *)
Inductive frame := ObjectKey | ObjectValue | ArrayValue.

Inductive scan_state :=
  | BeginValue
  | BeginValueOrEmpty
  | BeginStringOrEmpty
  | BeginString
  | EndValue
  | InString
  | InStringEsc
  | InStringEscU (missing : nat)
  | Neg | Zero | Digits
  | Dot | DotDigits
  | Exp | ExpSign | ExpDigits
  | Literal (rest : string)
  | EndTop
  | ScanError.

Record scanner := MkScanner { sc_state : scan_state; sc_stack : list frame }.

Definition goto (s : scan_state) (stack : list frame) : scanner := MkScanner s stack.
Definition scan_error (stack : list frame) : scanner := goto ScanError stack.

(** [maxNestingDepth]. *)
Definition maxNestingDepth : Z := 10000.

Definition push (f : frame) (s : scan_state) (stack : list frame) : scanner :=
  if maxNestingDepth <? Z.of_nat (length stack) + 1 then scan_error stack else goto s (f :: stack).

Definition pop (stack : list frame) : scanner :=
  match stack with
  | [] | [_] => goto EndTop []
  | _ :: stack' => goto EndValue stack'
  end.

(** [stateEndValue]. *)
Definition end_value (c : ascii) (stack : list frame) : scanner :=
  match stack with
  | [] => if is_space c then goto EndTop [] else scan_error []
  | f :: stack' =>
      if is_space c then goto EndValue stack
      else
        match f with
        | ObjectKey =>
            if (c =? ":")%char then goto BeginValue (ObjectValue :: stack') else scan_error stack
        | ObjectValue =>
            if (c =? ",")%char then goto BeginString (ObjectKey :: stack')
            else if (c =? "}")%char then pop stack else scan_error stack
        | ArrayValue =>
            if (c =? ",")%char then goto BeginValue stack
            else if (c =? "]")%char then pop stack else scan_error stack
        end
  end.

(** [stateBeginValue]. *)
Definition begin_value (c : ascii) (stack : list frame) : scanner :=
  if is_space c then goto BeginValue stack
  else if (c =? "{")%char then push ObjectKey BeginStringOrEmpty stack
  else if (c =? "[")%char then push ArrayValue BeginValueOrEmpty stack
  else if (c =? QUOTE)%char then goto InString stack
  else if (c =? "-")%char then goto Neg stack
  else if (c =? "0")%char then goto Zero stack
  else if (c =? "t")%char then goto (Literal "rue") stack
  else if (c =? "f")%char then goto (Literal "alse") stack
  else if (c =? "n")%char then goto (Literal "ull") stack
  else if between 49 57 c then goto Digits stack
  else scan_error stack.

Definition begin_string (c : ascii) (stack : list frame) : scanner :=
  if is_space c then goto BeginString stack
  else if (c =? QUOTE)%char then goto InString stack
  else scan_error stack.

Definition is_exp (c : ascii) : bool := (c =? "e")%char || (c =? "E")%char.

(** [state0] and [stateDot0]: the end of the digits before an exponent. *)
Definition after_zero (c : ascii) (stack : list frame) : scanner :=
  if (c =? ".")%char then goto Dot stack
  else if is_exp c then goto Exp stack
  else end_value c stack.

Definition exp_sign (c : ascii) (stack : list frame) : scanner :=
  if is_dec c then goto ExpDigits stack else scan_error stack.

Definition is_escape (c : ascii) : bool :=
  existsb (λ e, (c =? e)%char)
    ["b"; "f"; "n"; "r"; "t"; BACKSLASH; "/"; QUOTE]%char.

(** One byte. *)
Definition step (c : ascii) (s : scanner) : scanner :=
  let stack := sc_stack s in
  match sc_state s with
  | BeginValue => begin_value c stack
  | BeginValueOrEmpty =>
      if is_space c then s else if (c =? "]")%char then end_value c stack else begin_value c stack
  | BeginStringOrEmpty =>
      if is_space c then s
      else if (c =? "}")%char then
        match stack with
        | _ :: stack' => end_value c (ObjectValue :: stack')
        | [] => scan_error stack
        end
      else begin_string c stack
  | BeginString => begin_string c stack
  | EndValue => end_value c stack
  | InString =>
      if (c =? QUOTE)%char then goto EndValue stack
      else if (c =? BACKSLASH)%char then goto InStringEsc stack
      else if (byte_n c <? 32)%N then scan_error stack
      else s
  | InStringEsc =>
      if is_escape c then goto InString stack
      else if (c =? "u")%char then goto (InStringEscU 4) stack
      else scan_error stack
  | InStringEscU n =>
      if is_hex c then goto (match n with S (S m) => InStringEscU (S m) | _ => InString end) stack
      else scan_error stack
  | Neg =>
      if (c =? "0")%char then goto Zero stack
      else if between 49 57 c then goto Digits stack else scan_error stack
  | Zero => after_zero c stack
  | Digits => if is_dec c then s else after_zero c stack
  | Dot => if is_dec c then goto DotDigits stack else scan_error stack
  | DotDigits =>
      if is_dec c then s else if is_exp c then goto Exp stack else end_value c stack
  | Exp =>
      if (c =? "+")%char || (c =? "-")%char then goto ExpSign stack else exp_sign c stack
  | ExpSign => exp_sign c stack
  | ExpDigits => if is_dec c then s else end_value c stack
  | Literal (String d rest) =>
      if (c =? d)%char then
        goto (match rest with "" => EndValue | _ => Literal rest end) stack
      else scan_error stack
  | Literal "" => scan_error stack
  | EndTop => if is_space c then s else scan_error stack
  | ScanError => s
  end.

(** ** Reading an object *)

(** Leading and trailing white space of a span of bytes, kept in reverse. *)
Fixpoint trim_left (s : string) : string :=
  match s with
  | String c s' => if is_space c then trim_left s' else s
  | "" => ""
  end.

Fixpoint rev_string (s acc : string) : string :=
  match s with
  | "" => acc
  | String c s' => rev_string s' (String c acc)
  end.

Definition span (reversed : string) : string := trim_left (rev_string (trim_left reversed) "").

(** The members of the object whose opening brace was read, in order, as raw
    key and raw value, and the input after its closing brace.  [acc] has the
    bytes of the current key or value in reverse. *)
Fixpoint members (input : string) (sc : scanner) (key acc : string)
    (found : list (string * string)) : option (list (string * string) * string) :=
  match input with
  | "" => None
  | String c rest =>
      let sc' := step c sc in
      match sc_state sc' with
      | ScanError => None
      | _ =>
          match sc_stack sc, sc_stack sc' with
          | [ObjectKey], [ObjectValue] => members rest sc' (span acc) "" found
          | [ObjectValue], [ObjectKey] => members rest sc' "" "" (found ++ [(key, span acc)])
          | [ObjectValue], [] => Some (found ++ [(key, span acc)], rest)
          | [ObjectKey], [] => Some (found, rest)
          | _, _ => members rest sc' key (String c acc) found
          end
      end
  end.

(** [decoder.Decode(&object)] for an object at the start of the input. *)
Definition decode_object (input : string) : option (list (string * string) * string) :=
  match trim_left input with
  | String c rest =>
      if (c =? "{")%char then members rest (goto BeginStringOrEmpty [ObjectKey]) "" "" [] else None
  | "" => None
  end.

(** ** Unquoting a string literal *)

Definition hex_val (c : ascii) : N :=
  let n := byte_n c in
  if between 48 57 c then (n - 48)%N
  else if between 97 102 c then (n - 87)%N else (n - 55)%N.

Definition u4 (a b c d : ascii) : N :=
  (((hex_val a * 16 + hex_val b) * 16 + hex_val c) * 16 + hex_val d)%N.

Definition bytes (l : list N) : string :=
  foldr (λ n s, String (ascii_of_N n) s) "" l.

(** [utf8.EncodeRune]. *)
Definition encode_rune (r : N) : string :=
  if (r <? 128)%N then bytes [r]
  else if (r <? 2048)%N then bytes [192 + r / 64; 128 + r mod 64]%N
  else if (r <? 65536)%N then bytes [224 + r / 4096; 128 + r / 64 mod 64; 128 + r mod 64]%N
  else bytes [240 + r / 262144; 128 + r / 4096 mod 64; 128 + r / 64 mod 64; 128 + r mod 64]%N.

(** [unicode.ReplacementChar] in UTF-8. *)
Definition replacement : string := bytes [239; 191; 189]%N.

Definition is_surrogate (r : N) : bool := (55296 <=? r)%N && (r <=? 57343)%N.
Definition high_surrogate (r : N) : bool := (55296 <=? r)%N && (r <=? 56319)%N.
Definition low_surrogate (r : N) : bool := (56320 <=? r)%N && (r <=? 57343)%N.

Definition cont (c : ascii) : bool := between 128 191 c.

(** The escapes of one byte. *)
Definition unescape (c : ascii) : ascii :=
  if (c =? "b")%char then ascii_of_N 8
  else if (c =? "f")%char then ascii_of_N 12
  else if (c =? "n")%char then ascii_of_N 10
  else if (c =? "r")%char then ascii_of_N 13
  else if (c =? "t")%char then ascii_of_N 9
  else c.

(** Width of the valid UTF-8 sequence that starts with [a], given the bytes
    after it; 0 when there is none ([utf8.DecodeRune]). *)
Definition rune_width (a : ascii) (rest : string) : nat :=
  match rest with
  | String b rest' =>
      if between 194 223 a && cont b then 2
      else
        match rest' with
        | String c rest'' =>
            if ((between 224 224 a && between 160 191 b) || (between 225 236 a && cont b) ||
                (between 237 237 a && between 128 159 b) || (between 238 239 a && cont b)) && cont c
            then 3
            else
              match rest'' with
              | String d _ =>
                  if ((between 240 240 a && between 144 191 b) || (between 241 243 a && cont b) ||
                      (between 244 244 a && between 128 143 b)) && cont c && cont d
                  then 4 else 0
              | "" => 0
              end
        | "" => 0
        end
  | "" => 0
  end%nat.

(** The body of a literal, up to its closing quote ([unquoteBytes]).  [copy]
    is the number of bytes of a UTF-8 sequence still to be copied. *)
Fixpoint unquote_body (copy : nat) (s : string) : string :=
  match copy, s with
  | _, "" => ""
  | S n, String c s' => String c (unquote_body n s')
  | O, String c s' =>
      if (c =? QUOTE)%char then ""
      else if (c =? BACKSLASH)%char then
        match s' with
        | String "u" (String a (String b (String d (String e s2)))) =>
            let r := u4 a b d e in
            if negb (is_surrogate r) then encode_rune r +:+ unquote_body 0 s2
            else
              match s2 with
              | String x (String "u" (String a2 (String b2 (String d2 (String e2 s3))))) =>
                  if (x =? BACKSLASH)%char && high_surrogate r && low_surrogate (u4 a2 b2 d2 e2)
                  then encode_rune (65536 + (r - 55296) * 1024 + (u4 a2 b2 d2 e2 - 56320))%N +:+
                       unquote_body 0 s3
                  else replacement +:+ unquote_body 0 s2
              | _ => replacement +:+ unquote_body 0 s2
              end
        | String x s2 => String (unescape x) (unquote_body 0 s2)
        | "" => ""
        end
      else if (byte_n c <? 128)%N then String c (unquote_body 0 s')
      else
        match rune_width c s' with
        | S n => String c (unquote_body n s')
        | O => replacement +:+ unquote_body 0 s'
        end
  end.

(** [json.Unmarshal(raw, &value)] for a string [value]: [null] leaves it
    empty, anything but a string is an error. *)
Definition unmarshal_string (raw : string) : option string :=
  match raw with
  | String c body =>
      if (c =? QUOTE)%char then Some (unquote_body 0 body)
      else if (raw =? "null")%string then Some ""
      else None
  | "" => None
  end.

(** The object as a Go map: a repeated key keeps its last value. *)
Definition object_map (ms : list (string * string)) : gmap string string :=
  foldl (λ m kv, match unmarshal_string kv.1 with
                 | Some k => <[k := kv.2]> m
                 | None => m
                 end) ∅ ms.

Definition demo_json : string :=
  "{ 'a' : 'x\u00e9', 'n': [1, {'k': -2.5e+3}], 'a': 'last' } ".

(** Single quotes in an example stand for double quotes. *)
Definition quoted (s : string) : string :=
  let fix go (s : string) : string :=
    match s with
    | "" => ""
    | String c s' => String (if (c =? "'")%char then QUOTE else c) (go s')
    end in go s.

Example decode_demo :
  decode_object (quoted demo_json) =
    Some ([(quoted "'a'", quoted "'x\u00e9'"); (quoted "'n'", quoted "[1, {'k': -2.5e+3}]");
           (quoted "'a'", quoted "'last'")], " ").
Proof. vm_compute. reflexivity. Qed.

Example decode_rejects :
  decode_object (quoted "{'a': 01}") = None ∧ decode_object (quoted "{'a': 1,}") = None ∧
  decode_object "[]" = None ∧ decode_object (quoted "{'a' 1}") = None ∧ decode_object "{" = None.
Proof. vm_compute. auto. Qed.

Example unquote_pair :
  unmarshal_string (quoted "'\ud83d\ude00\n'") = Some (bytes [240; 159; 152; 128; 10]%N).
Proof. vm_compute. reflexivity. Qed.
