(* ===== verification/Event.v ===== *)
(** * Event: the validator of internal/event/event.go

    [Validate] decides which protected messages are events.  Its clients use
    it through [EventValidator], which the model of the code instantiates. *)

From S2P Require Import Prelude Text Timestamp TimeParse Json.

(** [event.Metadata]. *)
Record Metadata := MkMetadata {
  md_SpecVersion : string;
  md_ID : string;
  md_Source : string;
  md_Type : string;
  md_Subject : string;
  md_Time : option time;
  md_DataContentType : string;
}.

(** What the package promises: a validated payload is within the limit and
    names its identity and its type. *)
Class EventValidator := {
  ev_Validate : string → Z → result Metadata;
  ev_Validate_size : ∀ p n m, ev_Validate p n = inr m → Z.of_nat (String.length p) <= n;
  ev_Validate_named : ∀ p n m, ev_Validate p n = inr m →
    md_ID m ≠ "" ∧ md_Source m ≠ "" ∧ md_Type m ≠ "";
}.

Definition malformed (m : string) : error := wrapf ErrMalformed m.

(** [decodeString]. *)
Definition decodeString (raw : string) : result string :=
  match unmarshal_string raw with
  | Some value => inr value
  | None => inl (malformed "%s must be a string")
  end.

(** [requiredString]. *)
Definition requiredString (object : gmap string string) (name : string) : result string :=
  match object !! name with
  | None => inl (malformed "%s is required")
  | Some raw =>
      match decodeString raw with
      | inl e => inl e
      | inr value =>
          if (value =? "")%string then inl (malformed "%s must be a non-empty string")
          else inr value
      end
  end.

(** [optionalString]. *)
Definition optionalString (object : gmap string string) (name : string) (allowEmpty : bool)
    : result string :=
  match object !! name with
  | None => inr ""
  | Some raw =>
      match decodeString raw with
      | inl e => inl e
      | inr value =>
          if negb allowEmpty && (value =? "")%string
          then inl (malformed "%s must be a non-empty string")
          else inr value
      end
  end.

(** The optional [time] member. *)
Definition optionalTime (object : gmap string string) : result (option time) :=
  match object !! "time" with
  | None => inr None
  | Some raw =>
      match decodeString raw with
      | inl _ => inl (malformed "time must be an RFC 3339 string")
      | inr value =>
          if (value =? "")%string then inl (malformed "time must be an RFC 3339 string")
          else
            match parse_time value with
            | None => inl (malformed "time must be RFC 3339: %v")
            | Some t => inr (Some t)
            end
      end
  end.

(** [ensureEOF]: the rest of the input is white space. *)
Definition ensureEOF (rest : string) : option error :=
  if (trim_left rest =? "")%string then None
  else Some (malformed "multiple JSON values are not allowed").

Notation "'let!' x := m 'in' k" := (match m with inr x => k | inl e => inl e end)
  (at level 10, x pattern, m at level 100, k at level 200).

(** [Validate].  A root that is not an object fails like other bad JSON. *)
Definition Validate (payload : string) (maxBytes : Z) : result Metadata :=
  if maxBytes <? 1 then inl (wrapf ErrOversized "invalid maximum size %d")
  else if maxBytes <? Z.of_nat (String.length payload) then
    inl (wrapf ErrOversized "received %d bytes, limit is %d")
  else
    match decode_object payload with
    | None => inl (malformed "invalid JSON: %v")
    | Some (ms, rest) =>
        match ensureEOF rest with
        | Some e => inl e
        | None =>
            let object := object_map ms in
            let! specVersion := requiredString object "specversion" in
            if negb (specVersion =? "1.0")%string then inl (malformed "specversion must be %q")
            else
              let! id := requiredString object "id" in
              let! source := requiredString object "source" in
              let! type := requiredString object "type" in
              let! subject := optionalString object "subject" true in
              let! dataContentType := optionalString object "datacontenttype" false in
              let! t := optionalTime object in
              inr (MkMetadata specVersion id source type subject t dataContentType)
        end
    end.

(** ** Properties *)

Lemma requiredString_inv object name v :
  requiredString object name = inr v →
  v ≠ "" ∧ ∃ raw, object !! name = Some raw ∧ unmarshal_string raw = Some v.
Proof.
  unfold requiredString, decodeString. destruct (object !! name) as [raw|]; [|done].
  destruct (unmarshal_string raw) as [value|] eqn:E; [|done].
  destruct (value =? "")%string eqn:Ev; [done|]. intros [= <-]. breflect. eauto.
Qed.

Lemma requiredString_ok object name v :
  (object !! name) ≫= unmarshal_string = Some v → v ≠ "" → requiredString object name = inr v.
Proof.
  unfold requiredString, decodeString. destruct (object !! name) as [raw|]; [|done]. simpl.
  intros -> Hv. by rewrite (proj2 (String.eqb_neq _ _) Hv).
Qed.

Lemma optionalString_iff object name b v :
  optionalString object name b = inr v ↔
  match object !! name with
  | None => v = ""
  | Some raw => unmarshal_string raw = Some v ∧ (b = false → v ≠ "")
  end.
Proof.
  unfold optionalString, decodeString. destruct (object !! name) as [raw|].
  2: { split; [by intros [= <-] | by intros ->]. }
  destruct (unmarshal_string raw) as [value|] eqn:E; [|by split; [|intros [? _]]]. split.
  - destruct (_ && _) eqn:Ev; [done|]. intros [= <-]. split; [done|]. intros ->. simpl in Ev. by breflect.
  - intros [[= ->] Hv]. destruct b; [done|]. simpl. by rewrite (proj2 (String.eqb_neq _ _) (Hv eq_refl)).
Qed.

Lemma optionalTime_iff object t :
  optionalTime object = inr t ↔
  match object !! "time" with
  | None => t = None
  | Some raw => ∃ v i, unmarshal_string raw = Some v ∧ v ≠ "" ∧ parse_time v = Some i ∧ t = Some i
  end.
Proof.
  unfold optionalTime, decodeString. destruct (object !! "time") as [raw|].
  2: { split; [by intros [= <-] | by intros ->]. }
  destruct (unmarshal_string raw) as [v|]; [|by split; [|intros (? & ? & ? & _)]]. split.
  - destruct (v =? "")%string eqn:Ev; [done|]. breflect.
    destruct (parse_time v) as [i|] eqn:Ep; [|done]. intros [= <-]. eauto 6.
  - intros (v' & i & [= <-] & Hv & Ep & ->). by rewrite (proj2 (String.eqb_neq _ _) Hv), Ep.
Qed.

(** An error of the validator is a malformed event. *)
Definition is_malformed {A} (r : result A) : Prop :=
  match r with inl e => errors_is e ErrMalformed = true | inr _ => True end.

Lemma requiredString_malformed object name : is_malformed (requiredString object name).
Proof.
  unfold requiredString, decodeString. destruct (object !! name) as [raw|]; [|apply errors_is_wrapf].
  destruct (unmarshal_string raw); [|apply errors_is_wrapf].
  destruct (_ =? "")%string; [apply errors_is_wrapf | done].
Qed.

Lemma optionalString_malformed object name b : is_malformed (optionalString object name b).
Proof.
  unfold optionalString, decodeString. destruct (object !! name) as [raw|]; [|done].
  destruct (unmarshal_string raw); [|apply errors_is_wrapf].
  destruct (_ && _); [apply errors_is_wrapf | done].
Qed.

Lemma optionalTime_malformed object : is_malformed (optionalTime object).
Proof.
  unfold optionalTime, decodeString. destruct (object !! "time") as [raw|]; [|done].
  destruct (unmarshal_string raw) as [v|]; [|apply errors_is_wrapf].
  destruct (_ =? "")%string; [apply errors_is_wrapf|].
  destruct (parse_time v); [done | apply errors_is_wrapf].
Qed.

(** The member is there and decodes to the string. *)
Definition member_decodes (object : gmap string string) (name v : string) : Prop :=
  (object !! name) ≫= unmarshal_string = Some v.

(** What an accepted payload is, and what is read from it. *)
Record valid_event (payload : string) (maxBytes : Z) (m : Metadata) : Prop := {
  ve_size : 1 <= maxBytes ∧ Z.of_nat (String.length payload) <= maxBytes;
  ve_version : md_SpecVersion m = "1.0";
  ve_named : md_ID m ≠ "" ∧ md_Source m ≠ "" ∧ md_Type m ≠ "";
  ve_members : ∃ ms rest, decode_object payload = Some (ms, rest) ∧ trim_left rest = "" ∧
    let object := object_map ms in
    member_decodes object "specversion" "1.0" ∧ member_decodes object "id" (md_ID m) ∧
    member_decodes object "source" (md_Source m) ∧ member_decodes object "type" (md_Type m) ∧
    match object !! "subject" with
    | Some raw => unmarshal_string raw = Some (md_Subject m)
    | None => md_Subject m = ""
    end ∧
    match object !! "datacontenttype" with
    | Some raw => unmarshal_string raw = Some (md_DataContentType m) ∧ md_DataContentType m ≠ ""
    | None => md_DataContentType m = ""
    end ∧
    match object !! "time" with
    | Some raw => ∃ v t, unmarshal_string raw = Some v ∧ v ≠ "" ∧ parse_time v = Some t ∧ md_Time m = Some t
    | None => md_Time m = None
    end;
}.

Lemma Validate_sound payload maxBytes m :
  Validate payload maxBytes = inr m → valid_event payload maxBytes m.
Proof.
  unfold Validate. destruct (maxBytes <? 1) eqn:E1; [done|].
  destruct (maxBytes <? Z.of_nat (String.length payload)) eqn:E2; [done|]. breflect.
  destruct (decode_object payload) as [[ms rest]|] eqn:Ed; [|done].
  unfold ensureEOF. destruct (trim_left rest =? "")%string eqn:Er; [|done]. breflect.
  destruct (requiredString _ "specversion") as [e|sv] eqn:Esv; [done|].
  destruct (negb _) eqn:Ev; [done|]. breflect. subst sv.
  destruct (requiredString _ "id") as [e|id] eqn:Eid; [done|].
  destruct (requiredString _ "source") as [e|src] eqn:Esrc; [done|].
  destruct (requiredString _ "type") as [e|ty] eqn:Ety; [done|].
  destruct (optionalString _ "subject" true) as [e|su] eqn:Esu; [done|].
  destruct (optionalString _ "datacontenttype" false) as [e|dc] eqn:Edc; [done|].
  destruct (optionalTime _) as [e|t] eqn:Et; [done|]. intros [= <-].
  apply requiredString_inv in Esv as (_ & r0 & L0 & U0).
  apply requiredString_inv in Eid as (Hid & r1 & L1 & U1).
  apply requiredString_inv in Esrc as (Hsrc & r2 & L2 & U2).
  apply requiredString_inv in Ety as (Hty & r3 & L3 & U3).
  apply optionalString_iff in Esu, Edc. apply optionalTime_iff in Et.
  split; simpl; [lia | done | done |]. exists ms, rest. split; [done|]. split; [done|].
  unfold member_decodes. rewrite L0, L1, L2, L3. do 4 (split; [done|]).
  split; [by destruct (object_map ms !! "subject"); [apply Esu|]|]. split; [|exact Et].
  destruct (object_map ms !! "datacontenttype"); [|done]. destruct Edc as [? Hne]. by split; [|apply Hne].
Qed.

Lemma Validate_complete payload maxBytes m :
  valid_event payload maxBytes m → Validate payload maxBytes = inr m.
Proof.
  intros [[H1 H2] Hv (Hid & Hsrc & Hty) (ms & rest & Ed & Er & M0 & M1 & M2 & M3 & Msu & Mdc & Mt)].
  unfold Validate. rewrite (proj2 (Z.ltb_ge _ _) H1), (proj2 (Z.ltb_ge _ _) H2), Ed.
  unfold ensureEOF. rewrite Er. cbn [String.eqb]. cbv zeta.
  rewrite (requiredString_ok _ _ _ M0) by done. cbn [negb String.eqb].
  rewrite (requiredString_ok _ _ _ M1), (requiredString_ok _ _ _ M2), (requiredString_ok _ _ _ M3) by done.
  rewrite (proj2 (optionalString_iff (object_map ms) "subject" true (md_Subject m))).
  2: { by destruct (object_map ms !! "subject"). }
  rewrite (proj2 (optionalString_iff (object_map ms) "datacontenttype" false (md_DataContentType m))).
  2: { by destruct (object_map ms !! "datacontenttype"); [destruct Mdc|]. }
  rewrite (proj2 (optionalTime_iff (object_map ms) (md_Time m)) Mt).
  destruct m; simpl in *. by subst.
Qed.


(** Every rejection is classified: [ErrOversized] exactly when the limit
    is not positive or the payload exceeds it, [ErrMalformed] otherwise. *)
Theorem validate_rejects payload maxBytes e :
  Validate payload maxBytes = inl e →
  if bool_decide (1 <= maxBytes ∧ Z.of_nat (String.length payload) <= maxBytes)
  then errors_is e ErrMalformed = true
  else errors_is e ErrOversized = true.
Proof.
  unfold Validate. destruct (maxBytes <? 1) eqn:E1; breflect.
  { intros [= <-]. rewrite bool_decide_eq_false_2 by lia. apply errors_is_wrapf. }
  destruct (maxBytes <? Z.of_nat (String.length payload)) eqn:E2; breflect.
  { intros [= <-]. rewrite bool_decide_eq_false_2 by lia. apply errors_is_wrapf. }
  rewrite bool_decide_eq_true_2 by lia.
  destruct (decode_object payload) as [[ms rest]|]; [|intros [= <-]; apply errors_is_wrapf].
  unfold ensureEOF. destruct (_ =? "")%string; [|intros [= <-]; apply errors_is_wrapf].
  set (o := object_map ms). clearbody o.
  pose proof (requiredString_malformed o "specversion") as M1.
  destruct (requiredString o "specversion"); [by intros [= <-]|].
  destruct (negb _); [intros [= <-]; apply errors_is_wrapf|].
  pose proof (requiredString_malformed o "id") as M2.
  destruct (requiredString o "id"); [by intros [= <-]|].
  pose proof (requiredString_malformed o "source") as M3.
  destruct (requiredString o "source"); [by intros [= <-]|].
  pose proof (requiredString_malformed o "type") as M4.
  destruct (requiredString o "type"); [by intros [= <-]|].
  pose proof (optionalString_malformed o "subject" true) as M5.
  destruct (optionalString o "subject" true); [by intros [= <-]|].
  pose proof (optionalString_malformed o "datacontenttype" false) as M6.
  destruct (optionalString o "datacontenttype" false); [by intros [= <-]|].
  pose proof (optionalTime_malformed o) as M7.
  destruct (optionalTime o); [by intros [= <-] | done].
Qed.

Lemma Validate_size_ok p n m : Validate p n = inr m → Z.of_nat (String.length p) <= n.
Proof.
  unfold Validate. destruct (n <? 1); [done|]. destruct (n <? Z.of_nat (String.length p)) eqn:E; [done|]. by breflect.
Qed.

Lemma Validate_named_ok p n m :
  Validate p n = inr m → md_ID m ≠ "" ∧ md_Source m ≠ "" ∧ md_Type m ≠ "".
Proof.
  unfold Validate. repeat (case_match; try done). intros [= <-]. simpl.
  repeat match goal with H : requiredString _ _ = inr _ |- _ => apply requiredString_inv in H as [? _] end.
  done.
Qed.

#[global] Instance event_validator : EventValidator := {
  ev_Validate := Validate;
  ev_Validate_size := Validate_size_ok;
  ev_Validate_named := Validate_named_ok;
}.
