(* ===== verification/Marshal.v ===== *)
(** * Marshal: what [encoding/json] writes

    String literals as [json.Marshal] and an [Encoder] quote them, raw
    messages as they compact them, objects of raw members, and [json.Valid],
    on the scanner of [Json].  [html] says whether HTML characters are
    escaped: they are unless an encoder has [SetEscapeHTML(false)]. *)

From Stdlib Require Import Ascii.
From S2P Require Import Prelude Text Json.

(** ** UTF-8 *)

(** [utf8.Valid]; [copy] counts the bytes of a sequence still to be passed. *)
Fixpoint utf8_valid (copy : nat) (s : string) : bool :=
  match copy, s with
  | _, "" => true
  | S n, String _ s' => utf8_valid n s'
  | O, String c s' =>
      if (byte_n c <? 128)%N then utf8_valid 0 s'
      else match rune_width c s' with
           | S (S n) => utf8_valid (S n) s'
           | _ => false
           end
  end.

(** ** Strings *)

Definition html_unsafe (c : ascii) : bool := (c =? "<")%char || (c =? ">")%char || (c =? "&")%char.

(** The bytes that stand for themselves ([htmlSafeSet], [safeSet]). *)
Definition safe (html : bool) (c : ascii) : bool :=
  (32 <=? byte_n c)%N && negb ((c =? QUOTE)%char || (c =? BACKSLASH)%char || (html && html_unsafe c)).

(** ["\u00xx"]. *)
Definition escape_u00 (c : ascii) : string :=
  String BACKSLASH (String "u" (String "0" (String "0"
    (String (hex_digit (byte_n c / 16)) (String (hex_digit (byte_n c mod 16)) ""))))).

(** A byte below 128. *)
Definition quote_byte (html : bool) (c : ascii) : string :=
  if safe html c then String c ""
  else if (c =? QUOTE)%char || (c =? BACKSLASH)%char then String BACKSLASH (String c "")
  else if (byte_n c =? 8)%N then String BACKSLASH "b"
  else if (byte_n c =? 12)%N then String BACKSLASH "f"
  else if (byte_n c =? 10)%N then String BACKSLASH "n"
  else if (byte_n c =? 13)%N then String BACKSLASH "r"
  else if (byte_n c =? 9)%N then String BACKSLASH "t"
  else escape_u00 c.

(** The line separators U+2028 and U+2029. *)
Definition line_separator (c b d : ascii) : bool :=
  (byte_n c =? 226)%N && (byte_n b =? 128)%N && ((byte_n d =? 168)%N || (byte_n d =? 169)%N).

Definition escape_separator (d : ascii) : string :=
  String BACKSLASH ("u202" +:+ String (hex_digit (byte_n d mod 16)) "").

(** [appendString]: the literal's body. *)
Fixpoint quote_body (html : bool) (copy : nat) (s : string) : string :=
  match copy, s with
  | _, "" => ""
  | S n, String c s' => String c (quote_body html n s')
  | O, String c s' =>
      if (byte_n c <? 128)%N then quote_byte html c +:+ quote_body html 0 s'
      else
        match s' with
        | String b (String d s2) =>
            if line_separator c b d then escape_separator d +:+ quote_body html 0 s2
            else match rune_width c s' with
                 | S n => String c (quote_body html n s')
                 | O => String BACKSLASH "ufffd" +:+ quote_body html 0 s'
                 end
        | _ => match rune_width c s' with
               | S n => String c (quote_body html n s')
               | O => String BACKSLASH "ufffd" +:+ quote_body html 0 s'
               end
        end
  end.

Definition quote (html : bool) (s : string) : string := String QUOTE (quote_body html 0 s +:+ String QUOTE "").

(** ** Raw messages *)

Fixpoint scan (s : string) (sc : scanner) : scanner :=
  match s with
  | "" => sc
  | String c s' => scan s' (step c sc)
  end.

Definition start : scanner := goto BeginValue [].

(** [scanner.eof]: the value is complete, perhaps after a space. *)
Definition complete (sc : scanner) : bool :=
  match sc_state (step " " sc) with EndTop => true | _ => false end.

(** [json.Valid]. *)
Definition Valid (data : string) : bool := complete (scan data start).

(** The scanner reports [scanSkipSpace] or [scanEnd]: white space outside a
    string. *)
Definition skips (c : ascii) (sc : scanner) : bool :=
  is_space c &&
  match sc_state sc with
  | InString | InStringEsc | InStringEscU _ => false
  | _ => true
  end.

(** [appendCompact] with [escape := html], on valid input. *)
Fixpoint compact (html : bool) (s : string) (sc : scanner) : string :=
  match s with
  | "" => ""
  | String c s' =>
      let here := if html && html_unsafe c then escape_u00 c +:+ compact html s' (step c sc)
                  else if skips c sc then compact html s' (step c sc)
                  else String c (compact html s' (step c sc)) in
      match s' with
      | String b (String d s2) =>
          if html && line_separator c b d
          then escape_separator d +:+ compact html s2 (step d (step b (step c sc)))
          else here
      | _ => here
      end
  end.

(** [json.RawMessage] as a member of a struct. *)
Definition marshal_raw (html : bool) (data : string) : option string :=
  if Valid data then Some (compact html data start) else None.

(** ** Objects *)

(** The members of an object, with raw keys and values. *)
Fixpoint marshal_members (html : bool) (ms : list (string * string)) : string :=
  match ms with
  | [] => ""
  | [(k, v)] => quote html k +:+ ":" +:+ v
  | (k, v) :: ms' => quote html k +:+ ":" +:+ v +:+ "," +:+ marshal_members html ms'
  end.

Definition marshal_object (html : bool) (ms : list (string * string)) : string :=
  "{" +:+ marshal_members html ms +:+ "}".

Example quote_examples :
  quote true "a<b" = quoted "'a\u003cb'" ∧ quote true (bytes [226; 128; 168; 10; 7]%N) = quoted "'\u2028\n\u0007'" ∧
  quote true (bytes [195; 169; 34; 92; 255]%N) =
    String QUOTE (bytes [195; 169; 92; 34; 92; 92]%N +:+ quoted "\ufffd'").
Proof. vm_compute. auto. Qed.

Example compact_example :
  marshal_raw true (quoted " { 'a b' : [ 1 , true ] , 'x' : '<' } ") =
    Some (quoted "{'a b':[1,true],'x':'\u003c'}").
Proof. vm_compute. reflexivity. Qed.
