(* ===== verification/MarshalFacts.v ===== *)
(** * MarshalFacts: what is written is read back *)

From Stdlib Require Import Ascii.
From S2P Require Import Prelude Text Json Marshal.

(** Every byte is one of 256: for closed goals. *)
Ltac each_byte c := destruct c as [[] [] [] [] [] [] [] []].

(** ** Unquoting a quoted string *)

Lemma unquote_quote_byte html c t :
  (byte_n c <? 128)%N = true → unquote_body 0 (quote_byte html c +:+ t) = String c (unquote_body 0 t).
Proof. destruct html; each_byte c; intros H; try discriminate H; reflexivity. Qed.

Lemma line_separator_inv c b d :
  line_separator c b d = true →
  c = ascii_of_N 226 ∧ b = ascii_of_N 128 ∧ (d = ascii_of_N 168 ∨ d = ascii_of_N 169).
Proof.
  unfold line_separator. rewrite !andb_true_iff, orb_true_iff, !N.eqb_eq. unfold byte_n.
  intros [[<- <-] Hd]. rewrite !ascii_N_embedding. do 2 (split; [done|]).
  destruct Hd as [<-|<-]; rewrite ascii_N_embedding; auto.
Qed.

Lemma unquote_separator c b d t :
  line_separator c b d = true →
  unquote_body 0 (escape_separator d +:+ t) = String c (String b (String d (unquote_body 0 t))).
Proof. intros H. apply line_separator_inv in H as (-> & -> & [-> | ->]); reflexivity. Qed.

Lemma separator_width c b d s : line_separator c b d = true → rune_width c (String b (String d s)) = 3%nat.
Proof. intros H. apply line_separator_inv in H as (-> & -> & [-> | ->]); reflexivity. Qed.

(** A sequence of [n] more bytes is there. *)
Lemma rune_width_length c s n : rune_width c s = S n → (n <= String.length s)%nat.
Proof.
  unfold rune_width. destruct s as [|a [|b [|d s]]]; [done|..]; repeat case_next; intros [= <-]; simpl; lia.
Qed.

Lemma rune_width_range c s n : rune_width c s = S n → (1 <= n)%nat.
Proof.
  unfold rune_width. destruct s as [|a [|b [|d s]]]; [done|..]; repeat case_next; intros [= <-]; lia.
Qed.

(** The width depends on those bytes only. *)
Lemma rune_width_copy html c s n t :
  rune_width c s = S n → rune_width c (quote_body html n s +:+ t) = S n.
Proof.
  intros H. unfold rune_width in H. destruct s as [|a [|b [|d s]]]; [done|..];
    repeat case_match; simplify_eq; unfold rune_width; cbn [quote_body]; rewrite ?append_cons;
    repeat match goal with E : ?x = _ |- context [if ?x then _ else _] => rewrite E end; done.
Qed.

(** The string comes back, whatever follows the closing quote. *)
Lemma unquote_quote html s copy rest :
  (copy <= String.length s)%nat → utf8_valid copy s = true →
  unquote_body copy (quote_body html copy s +:+ String QUOTE rest) = s.
Proof.
  assert (∃ n, String.length s <= n)%nat as [n Hn] by eauto.
  revert s copy Hn. induction n as [n IH] using lt_wf_ind. intros s copy Hn Hc Hv.
  destruct s as [|c s]; simpl in *; [destruct copy; [done | lia]|].
  destruct copy as [|copy].
  - destruct (byte_n c <? 128)%N eqn:Ec.
    + rewrite <- append_assoc_string, unquote_quote_byte by done. f_equal.
      apply (IH (n - 1)%nat); [lia | lia | lia | done].
    + assert (∀ k, rune_width c s = S k →
        unquote_body 0 (String c (quote_body html k s +:+ String QUOTE rest)) = String c s) as Hrune.
      { intros k Hk. pose proof (rune_width_length _ _ _ Hk). pose proof (rune_width_range _ _ _ Hk).
        assert (utf8_valid k s = true) by (rewrite Hk in Hv; by destruct k as [|k]).
        cbn [unquote_body]. rewrite Ec, rune_width_copy by done.
        destruct (c =? QUOTE)%char eqn:E1; [apply Ascii.eqb_eq in E1; by subst c|].
        destruct (c =? BACKSLASH)%char eqn:E2; [apply Ascii.eqb_eq in E2; by subst c|].
        f_equal. apply (IH (n - 1)%nat); [lia | lia | lia | done]. }
      assert (rune_width c s ≠ O) as Hw by (intros Hw; by rewrite Hw in Hv).
      destruct (rune_width c s) as [|k] eqn:Ek; [done|]. specialize (Hrune k eq_refl).
      destruct s as [|b [|d s]]; [exact Hrune | exact Hrune|].
      destruct (line_separator c b d) eqn:El; [|exact Hrune].
      rewrite <- append_assoc_string, (unquote_separator c b d) by done. do 3 f_equal.
      apply (IH (n - 3)%nat); [simpl in *; lia | simpl in *; lia | lia |].
      rewrite separator_width in Ek by done. injection Ek as <-. exact Hv.
  - rewrite append_cons. cbn [unquote_body]. f_equal. apply (IH (n - 1)%nat); [lia | lia | lia | done].
Qed.

Lemma unmarshal_quote html s : utf8_valid 0 s = true → unmarshal_string (quote html s) = Some s.
Proof. intros H. unfold unmarshal_string, quote. simpl. f_equal. apply unquote_quote; [lia | done]. Qed.

(** ** Scanning inside a member *)

(** No error in [s], and the frame [f] at the bottom of the stack stays. *)
Fixpoint inside (f : frame) (s : string) (sc : scanner) : Prop :=
  match s with
  | "" => True
  | String c s' =>
      sc_state (step c sc) ≠ ScanError ∧ (∃ st, sc_stack (step c sc) = st ++ [f]) ∧ inside f s' (step c sc)
  end.

Lemma scan_app s t sc : scan (s +:+ t) sc = scan t (scan s sc).
Proof. revert sc. induction s as [|c s IH]; intros sc; simpl; [done | apply IH]. Qed.

Lemma inside_app f s t sc : inside f s sc → inside f t (scan s sc) → inside f (s +:+ t) sc.
Proof.
  revert sc. induction s as [|c s IH]; intros sc; simpl; [done|].
  intros (H1 & H2 & H3) Ht. split; [done|]. split; [done|]. by apply IH.
Qed.

(** With the same frame at the bottom, [members] takes its default branch. *)
Lemma same_bottom {A} f st st' (k v e1 e2 d : A) :
  match st ++ [f], st' ++ [f] with
  | [ObjectKey], [ObjectValue] => k
  | [ObjectValue], [ObjectKey] => v
  | [ObjectValue], [] => e1
  | [ObjectKey], [] => e2
  | _, _ => d
  end = d.
Proof.
  destruct st as [|[] [|h st]], st' as [|[] [|h' st']], f; done.
Qed.

(** The bytes of [s] go into the current key or value. *)
Lemma members_inside f s rest sc key acc found :
  (∃ st, sc_stack sc = st ++ [f]) → inside f s sc →
  members (s +:+ rest) sc key acc found = members rest (scan s sc) key (rev_string s acc) found.
Proof.
  revert sc acc. induction s as [|c s IH]; intros sc acc [st Hst] Hs; [done|].
  destruct Hs as (He & [st' Hst'] & Hs). rewrite append_cons. cbn [members scan rev_string].
  rewrite <- IH by eauto. rewrite Hst, Hst', same_bottom.
  by destruct (sc_state (step c sc)).
Qed.

(** Text that keeps a scanner that is inside a string where it is. *)
Definition string_text (s : string) : Prop :=
  ∀ st, scan s (goto InString st) = goto InString st ∧
    ∀ f st', st = st' ++ [f] → inside f s (goto InString st).

Lemma string_text_nil : string_text "".
Proof. by intros st. Qed.

Lemma string_text_app s t : string_text s → string_text t → string_text (s +:+ t).
Proof.
  intros Hs Ht st. destruct (Hs st) as [E1 H1], (Ht st) as [E2 H2]. split.
  - by rewrite scan_app, E1.
  - intros f st' E. apply inside_app; [by eapply H1|]. rewrite E1. by eapply H2.
Qed.

Lemma string_text_high c : (byte_n c <? 128)%N = false → string_text (String c "").
Proof.
  intros H st. assert (step c (goto InString st) = goto InString st) as E
    by (each_byte c; try discriminate H; reflexivity).
  simpl. rewrite E. split; [done|]. intros f st' ->. split; [done|]. eauto.
Qed.

Lemma string_text_byte html c : string_text (quote_byte html c).
Proof.
  intros st. split; [destruct html; each_byte c; reflexivity|].
  intros f st' ->. destruct html; each_byte c; simpl; repeat split; try discriminate; eauto.
Qed.

Lemma string_text_u00 c : string_text (escape_u00 c).
Proof.
  intros st. split; [each_byte c; reflexivity|].
  intros f st' ->. each_byte c; simpl; repeat split; try discriminate; eauto.
Qed.

Lemma string_text_separator c b d : line_separator c b d = true → string_text (escape_separator d).
Proof.
  intros (-> & -> & [-> | ->])%line_separator_inv st; (split; [reflexivity|]);
    intros f st' ->; simpl; repeat split; try discriminate; eauto.
Qed.

Lemma string_text_fffd : string_text (String BACKSLASH "ufffd").
Proof. intros st; (split; [reflexivity|]); intros f st' ->; simpl; repeat split; try discriminate; eauto. Qed.

(** The bytes copied after the first byte of a sequence are not ASCII. *)
Fixpoint high_bytes (n : nat) (s : string) : bool :=
  match n, s with
  | S n', String c s' => negb (byte_n c <? 128)%N && high_bytes n' s'
  | _, _ => true
  end.

Lemma between_high lo hi c : (128 <= lo)%N → between lo hi c = true → (byte_n c <? 128)%N = false.
Proof. unfold between. intros Hl H. breflect. apply N.leb_le in H. apply N.ltb_ge. lia. Qed.

Lemma rune_width_high c s n : rune_width c s = S n → high_bytes n s = true.
Proof.
  assert (∀ x, cont x = true → (byte_n x <? 128)%N = false) as Hcont by (intros x; by apply between_high).
  assert (∀ x lo hi, between lo hi x = true → (128 <=? lo)%N = true → (byte_n x <? 128)%N = false) as Hb
    by (intros x lo hi Hx Hl; apply N.leb_le in Hl; by eapply between_high).
  intros H. unfold rune_width in H. destruct s as [|a [|b [|d s]]]; [done|..];
    repeat case_match; simplify_eq; breflect; simpl; rewrite ?andb_true_r;
    repeat match goal with
    | H : (_ || _) = true |- _ => apply orb_true_iff in H as [H|H]; breflect
    end;
    rewrite ?andb_true_iff, ?negb_true_iff; split_and?; eauto.
Qed.

Lemma quote_body_text html s copy : high_bytes copy s = true → string_text (quote_body html copy s).
Proof.
  assert (∃ n, String.length s <= n)%nat as [n Hn] by eauto.
  revert s copy Hn. induction n as [n IH] using lt_wf_ind. intros s copy Hn Hc.
  destruct s as [|c s]; [destruct copy; apply string_text_nil|]. simpl in Hn. cbn [quote_body].
  assert (∀ copy, high_bytes copy s = true → string_text (quote_body html copy s)) as IH'
    by (intros; apply (IH (n - 1)%nat); [lia | lia | done]).
  destruct copy as [|copy].
  - destruct (byte_n c <? 128)%N eqn:Ec.
    + apply string_text_app; [apply string_text_byte | by apply IH'].
    + assert (string_text match rune_width c s with
        | S n => String c (quote_body html n s)
        | O => String BACKSLASH "ufffd" +:+ quote_body html 0 s
        end) as Hr.
      { destruct (rune_width c s) as [|k] eqn:Ek.
        - apply string_text_app; [apply string_text_fffd | by apply IH'].
        - apply (string_text_app (String c "")); [by apply string_text_high|].
          eapply IH', rune_width_high, Ek. }
      destruct s as [|b [|d s]]; [exact Hr | exact Hr|].
      destruct (line_separator c b d) eqn:El; [|exact Hr].
      apply string_text_app; [by eapply string_text_separator|].
      apply (IH (n - 3)%nat); simpl in *; [lia | lia | done].
  - cbn [high_bytes] in Hc. breflect. apply (string_text_app (String c "")); [by apply string_text_high | by apply IH'].
Qed.

(** ** Values *)

(** [v] can stand as a member's value: scanned after the colon, it ends
    where a comma or the closing brace may follow. *)
Record member_value (v : string) : Prop := {
  mv_inside : inside ObjectValue v (goto BeginValue [ObjectValue]);
  mv_comma : step "," (scan v (goto BeginValue [ObjectValue])) = goto BeginString [ObjectKey];
  mv_brace : step "}" (scan v (goto BeginValue [ObjectValue])) = goto EndTop [];
  mv_stack : sc_stack (scan v (goto BeginValue [ObjectValue])) = [ObjectValue];
}.

Lemma quote_scan html s f sc :
  step QUOTE sc = goto InString [f] →
  scan (quote html s) sc = goto EndValue [f] ∧ inside f (quote html s) sc.
Proof.
  intros E. destruct (quote_body_text html s 0 eq_refl [f]) as [E1 H1]. unfold quote. simpl. rewrite E.
  rewrite scan_app, E1. split; [done|]. split; [done|]. split; [by exists []|].
  apply inside_app; [by apply (H1 f [])|]. rewrite E1. simpl. split; [done|]. split; [by exists []|done].
Qed.

Lemma quote_value html s : member_value (quote html s).
Proof.
  destruct (quote_scan html s ObjectValue (goto BeginValue [ObjectValue]) eq_refl) as [E H].
  split; rewrite ?E; done.
Qed.

(** The raw bytes of a member. *)
Definition trimmed (v : string) : string := span (rev_string v "").

Lemma rev_string_app s t : rev_string s t = rev_string s "" +:+ t.
Proof.
  revert t. induction s as [|c s IH]; intros t; simpl; [done|].
  rewrite IH, (IH (String c "")). by rewrite <- append_assoc_string.
Qed.

Lemma rev_string_snoc s c : rev_string (s +:+ String c "") "" = String c (rev_string s "").
Proof.
  assert (∀ acc, rev_string (s +:+ String c "") acc = String c (rev_string s acc)) as H; [|apply H].
  induction s as [|a s IH]; intros acc; simpl; [done | apply IH].
Qed.

Lemma rev_string_involutive s : rev_string (rev_string s "") "" = s.
Proof.
  induction s as [|c s IH]; simpl; [done|]. by rewrite (rev_string_app s), rev_string_snoc, IH.
Qed.

Lemma trimmed_quote html s : trimmed (quote html s) = quote html s.
Proof.
  unfold trimmed, span, quote.
  change (String QUOTE (quote_body html 0 s +:+ String QUOTE ""))
    with (String QUOTE "" +:+ quote_body html 0 s +:+ String QUOTE "").
  rewrite append_assoc_string, rev_string_snoc. cbn [trim_left].
  change (is_space QUOTE) with false. cbv iota.
  rewrite <- rev_string_snoc, rev_string_involutive. reflexivity.
Qed.
