(* ===== verification/CompactFacts.v ===== *)
(** * CompactFacts: a compacted raw message is a value

    Data that [json.Valid] accepts at top level is, once compacted, a value
    inside an object: the scanner makes the same moves one level deeper
    ([raise]), and without the white space it differs only in where a number
    ends ([agrees]). *)

From Stdlib Require Import Ascii.
From S2P Require Import Prelude Text Json Marshal MarshalFacts.

(** ** One level deeper *)

Definition raise (sc : scanner) : scanner :=
  goto (match sc_state sc with EndTop => EndValue | s => s end) (sc_stack sc ++ [ObjectValue]).

Definition no_error (sc : scanner) : Prop := sc_state sc ≠ ScanError.

Lemma pop_raise st : st ≠ [] → pop (st ++ [ObjectValue]) = raise (pop st).
Proof. by destruct st as [|f [|g st]]. Qed.

Lemma end_value_raise c st :
  no_error (end_value c st) → end_value c (st ++ [ObjectValue]) = raise (end_value c st).
Proof.
  unfold end_value, no_error. destruct st as [|f st]; cbn [app].
  - by destruct (is_space c).
  - destruct (is_space c); [done|]. destruct f.
    + by destruct (c =? ":")%char.
    + destruct (c =? ",")%char; [done|]. destruct (c =? "}")%char; [|done].
      intros _. by apply (pop_raise (ObjectValue :: st)).
    + destruct (c =? ",")%char; [done|]. destruct (c =? "]")%char; [|done].
      intros _. by apply (pop_raise (ArrayValue :: st)).
Qed.

Definition shallow (sc : scanner) : Prop := Z.of_nat (length (sc_stack sc)) < maxNestingDepth.

Lemma push_raise f s st :
  s ≠ EndTop → no_error (push f s st) → shallow (push f s st) →
  push f s (st ++ [ObjectValue]) = raise (push f s st).
Proof.
  unfold push, no_error, shallow. intros Hs. destruct (maxNestingDepth <? _) eqn:E; [done|]. simpl. intros _ H.
  rewrite length_app. simpl. breflect. rewrite (proj2 (Z.ltb_ge _ _)) by lia. unfold raise. simpl.
  by destruct s.
Qed.

Lemma begin_value_raise c st :
  no_error (begin_value c st) → shallow (begin_value c st) →
  begin_value c (st ++ [ObjectValue]) = raise (begin_value c st).
Proof.
  unfold begin_value. repeat (case_next; [done || (intros; by apply push_raise)|]). done.
Qed.

Lemma begin_string_raise c st :
  no_error (begin_string c st) → begin_string c (st ++ [ObjectValue]) = raise (begin_string c st).
Proof. unfold begin_string. by repeat (case_next; [done|]). Qed.

Lemma after_zero_raise c st :
  no_error (after_zero c st) → after_zero c (st ++ [ObjectValue]) = raise (after_zero c st).
Proof. unfold after_zero. do 2 (case_next; [done|]). apply end_value_raise. Qed.

Lemma step_raise c sc :
  no_error (step c sc) → shallow (step c sc) → step c (raise sc) = raise (step c sc).
Proof.
  destruct sc as [s st]. destruct s; cbn [step raise sc_state sc_stack goto];
    try (by apply begin_value_raise); try (intros ? _; by apply begin_string_raise);
    try (intros ? _; by apply end_value_raise); try (intros ? _; by apply after_zero_raise).
  - destruct (is_space c); [done|]. destruct (c =? "]")%char; [|by apply begin_value_raise].
    intros ? _. by apply end_value_raise.
  - destruct (is_space c); [done|]. destruct (c =? "}")%char; [|intros ? _; by apply begin_string_raise].
    destruct st as [|f st]; [done|]. intros H _. by apply (end_value_raise c (ObjectValue :: st)).
  - by repeat case_next.
  - by repeat case_next.
  - by repeat case_next.
  - by repeat case_next.
  - destruct (is_dec c); [done|]. intros ? _. by apply after_zero_raise.
  - by repeat case_next.
  - destruct (is_dec c); [done|]. destruct (is_exp c); [done|]. intros ? _. by apply end_value_raise.
  - unfold exp_sign. by repeat case_next.
  - unfold exp_sign. by repeat case_next.
  - destruct (is_dec c); [done|]. intros ? _. by apply end_value_raise.
  - by repeat case_next.
  - destruct (is_space c) eqn:E; [|done]. intros _ _. simpl. unfold end_value.
    destruct (st ++ [ObjectValue]) eqn:Est; [by destruct st|]. by rewrite E, <- Est.
  - done.
Qed.

(** ** Without white space *)

(** States in which a number may end. *)
Definition number_end (s : scan_state) : bool :=
  match s with Zero | Digits | DotDigits | ExpDigits => true | _ => false end.

(** [b] has seen the compacted text of what [a] has seen. *)
Definition agrees (a b : scanner) : Prop :=
  sc_stack b = sc_stack a ∧
  (sc_state b = sc_state a ∨ (sc_state a = EndValue ∧ number_end (sc_state b) = true)).

Lemma agrees_refl a : agrees a a.
Proof. split; auto. Qed.

(** A byte that ends a value is no part of a number. *)
Lemma end_value_byte c st :
  is_space c = false → no_error (end_value c st) →
  (c =? ".")%char = false ∧ is_exp c = false ∧ is_dec c = false.
Proof.
  intros Hs. unfold end_value, no_error. rewrite Hs. destruct st as [|f st]; [done|].
  assert (∀ x, (c =? x)%char = true →
    (x =? ".")%char = false → is_exp x = false → is_dec x = false →
    (c =? ".")%char = false ∧ is_exp c = false ∧ is_dec c = false) as Hx
    by (intros x ->%Ascii.eqb_eq; auto).
  destruct f; repeat (case_next; [intros _; by eapply Hx|]); done.
Qed.

Lemma agrees_step a b c :
  agrees a b → no_error (step c a) → is_space c = false ∨ sc_state a ≠ EndValue →
  agrees (step c a) (step c b).
Proof.
  destruct a as [sa st], b as [sb st']. intros [E H] Hn Hc. simpl in E, H. subst st'.
  destruct H as [->|[-> Hb]]; [apply agrees_refl|]. destruct Hc as [Hc|]; [|done].
  cbn [step sc_state sc_stack] in Hn. destruct (end_value_byte _ _ Hc Hn) as (E1 & E2 & E3).
  assert (step c (MkScanner sb st) = step c (MkScanner EndValue st)) as ->; [|apply agrees_refl].
  destruct sb; try done; cbn [step sc_state sc_stack goto]; unfold after_zero; by rewrite ?E1, ?E2, ?E3.
Qed.

(** The word of a literal has no white space. *)
Fixpoint word (s : string) : bool :=
  match s with
  | "" => true
  | String c s' => between 97 122 c && word s'
  end.

Definition scanner_wf (sc : scanner) : Prop :=
  match sc_state sc with
  | Literal w => word w = true
  | EndTop => sc_stack sc = []
  | _ => True
  end.

Lemma pop_wf st : scanner_wf (pop st).
Proof. by destruct st as [|? [|? ?]]. Qed.

Lemma end_value_wf c st : scanner_wf (end_value c st).
Proof.
  unfold end_value. destruct st as [|f st]; [by destruct (is_space c)|]. destruct (is_space c); [done|].
  destruct f; repeat (case_next; [first [done | apply pop_wf]|]); done.
Qed.

Lemma begin_value_wf c st : scanner_wf (begin_value c st).
Proof. unfold begin_value, push. repeat (case_next; [done || by case_next|]). done. Qed.

Lemma step_wf c sc : scanner_wf sc → scanner_wf (step c sc).
Proof.
  destruct sc as [s st]. unfold step, after_zero, exp_sign, begin_string. cbn [sc_state sc_stack].
  pose proof (end_value_wf c) as He. pose proof (begin_value_wf c st) as Hb.
  destruct s; intros Hw; try done; repeat (case_next; try done).
  cbn [scanner_wf sc_state word] in Hw. apply andb_true_iff in Hw as [_ Hw]. exact Hw.
Qed.

(** Bytes that only strings contain. *)
Definition string_only (c : ascii) : bool := html_unsafe c || negb (byte_n c <? 128)%N.

Definition structural : list ascii :=
  [":"; ","; "}"; "]"; "{"; "["; QUOTE; "-"; "0"; "t"; "f"; "n"; "."; "+"; BACKSLASH; "u"]%char.

Lemma string_only_spec c :
  string_only c = true →
  Forall (λ x, (c =? x)%char = false) structural ∧ is_space c = false ∧ between 49 57 c = false ∧
  is_dec c = false ∧ is_hex c = false ∧ is_exp c = false ∧ is_escape c = false ∧
  (byte_n c <? 32)%N = false ∧ between 97 122 c = false.
Proof. intros H. each_byte c; try discriminate H; repeat constructor. Qed.

(** Decide the tests on a byte that the context knows to be false. *)
Ltac tests_false :=
  repeat match goal with H : ?t = false |- context [?t] => rewrite H end; cbn [orb].

Lemma string_byte c sc :
  string_only c = true → scanner_wf sc → no_error (step c sc) →
  ∃ st, sc = goto InString st ∧ step c sc = sc.
Proof.
  intros Hc Hw. destruct (string_only_spec c Hc) as (Hx & E1 & E2 & E3 & E4 & E5 & E6 & E7 & E8).
  unfold structural in Hx. repeat (apply Forall_cons in Hx as [? Hx]). clear Hx Hc.
  assert (∀ st, ¬ no_error (end_value c st)) as He.
  { intros st. unfold end_value, no_error. tests_false. destruct st as [|[] st]; tauto. }
  assert (∀ st, ¬ no_error (begin_value c st)) as Hb.
  { intros st. unfold begin_value. tests_false. intros Hn. by apply Hn. }
  assert (∀ st, ¬ no_error (begin_string c st)) as Hs.
  { intros st. unfold begin_string. tests_false. intros Hn. by apply Hn. }
  assert (∀ st, ¬ no_error (scan_error st)) as Hr by (intros st Hn; by apply Hn).
  destruct sc as [s st]. unfold step, after_zero, exp_sign. cbn [sc_state sc_stack].
  destruct s as [| | | | | | | | | | | | | | | |[|d w]| |]; tests_false; intros Hn;
    try (exfalso; first [exact (He _ Hn) | exact (Hb _ Hn) | exact (Hs _ Hn) | exact (Hr _ Hn)]).
  - by exists st.
  - exfalso. cbn [scanner_wf sc_state word] in Hw. destruct (c =? d)%char eqn:Ed; [|exact (Hr _ Hn)].
    apply Ascii.eqb_eq in Ed as <-. by rewrite E8 in Hw.
Qed.

(** White space outside strings changes nothing but the end of a number. *)
Lemma agrees_skip c o b :
  scanner_wf o → skips c o = true → no_error (step c o) → shallow (step c o) →
  agrees (raise o) b → agrees (raise (step c o)) b.
Proof.
  intros Hw Hk Hn Hs. unfold skips in Hk. apply andb_true_iff in Hk as [Hc Hk].
  rewrite <- step_raise by done. destruct o as [s st].
  assert (∃ f st', st ++ [ObjectValue] = f :: st') as (f & st' & Est) by (destruct st; simpl; eauto).
  assert (Forall (λ x, (c =? x)%char = false) structural ∧ is_dec c = false ∧ is_exp c = false ∧
    between 49 57 c = false ∧ between 97 122 c = false) as (Hx & E1 & E2 & E3 & E4)
    by (clear -Hc; each_byte c; try discriminate Hc; repeat constructor).
  unfold structural in Hx. repeat (apply Forall_cons in Hx as [? Hx]). clear Hx.
  unfold raise, step, after_zero, exp_sign, begin_value, begin_string, end_value in *.
  cbn [sc_state sc_stack goto] in *. rewrite Est, ?Hc in *.
  intros [E H'].
  destruct s as [| | | | | | | | | | | | | | | |[|d w]| |]; try discriminate Hk;
    cbn [sc_state sc_stack goto] in *; tests_false; try (by split; auto).
  all: try (exfalso; revert Hn; tests_false; intros Hn; by apply Hn).
  all: try (split; [done|]; right; split; [done|]; by destruct H' as [->|[? _]]).
  exfalso. cbn [scanner_wf sc_state word] in Hw. destruct (c =? d)%char eqn:Ed; [|by apply Hn].
  apply Ascii.eqb_eq in Ed as <-. by rewrite E4 in Hw.
Qed.

(** ** Compacting *)

(** The scan of [s] from [o] has no error and stays below the nesting limit
    by one. *)
Fixpoint sound_scan (s : string) (o : scanner) : Prop :=
  match s with
  | "" => True
  | String c s' => no_error (step c o) ∧ shallow (step c o) ∧ sound_scan s' (step c o)
  end.

Lemma inside_cons c s b :
  no_error (step c b) → (∃ st, sc_stack (step c b) = st ++ [ObjectValue]) →
  inside ObjectValue s (step c b) → inside ObjectValue (String c s) b.
Proof. by repeat split. Qed.

(** A string's text between agreeing scanners. *)
Lemma agrees_text t s st b (Q : scanner → Prop) :
  string_text t → agrees (raise (goto InString st)) b →
  inside ObjectValue s b ∧ Q (scan s b) → inside ObjectValue (t +:+ s) b ∧ Q (scan (t +:+ s) b).
Proof.
  intros Ht [E H] [Hi Hq]. destruct b as [sb stb]. simpl in E, H. destruct H as [->|[? _]]; [|done]. subst stb.
  destruct (Ht (st ++ [ObjectValue])) as [Es Hin]. rewrite scan_app. unfold goto in *. rewrite Es. split; [|done].
  apply inside_app; [by eapply Hin|]. by rewrite Es.
Qed.

Lemma compact_agrees html s o b :
  scanner_wf o → sound_scan s o → agrees (raise o) b →
  inside ObjectValue (compact html s o) b ∧ agrees (raise (scan s o)) (scan (compact html s o) b).
Proof.
  assert (∃ n, String.length s <= n)%nat as [n Hn] by eauto.
  revert s o b Hn. induction n as [n IH] using lt_wf_ind. intros s o b Hl Hw Hs Ha.
  destruct s as [|c s]; [done|]. destruct Hs as (Hn & Hd & Hs). simpl in Hl. cbn [compact scan].
  pose proof (step_wf c o Hw) as Hw'.
  assert (∀ b, agrees (raise (step c o)) b → inside ObjectValue (compact html s (step c o)) b ∧
    agrees (raise (scan s (step c o))) (scan (compact html s (step c o)) b)) as IH'
    by (intros; apply (IH (n - 1)%nat); [lia | lia | done | done | done]).
  assert (∀ t, let here := if html && html_unsafe c then escape_u00 c +:+ compact html s (step c o)
             else if skips c o then compact html s (step c o) else String c (compact html s (step c o)) in
    t = here → inside ObjectValue t b ∧ agrees (raise (scan s (step c o))) (scan t b)) as Hhere.
  { intros t here ->. unfold here. destruct (html && html_unsafe c) eqn:Eh.
    - destruct (string_byte c o) as (st & -> & E); [unfold string_only; apply andb_true_iff in Eh as [_ ->]; done | done | done|].
      apply (agrees_text _ _ st); [apply string_text_u00 | done|]. apply IH'. by rewrite E.
    - destruct (skips c o) eqn:Ek; [by apply IH', agrees_skip|].
      assert (agrees (raise (step c o)) (step c b)) as Hst.
      { rewrite <- step_raise by done. apply agrees_step; [done | |].
        - rewrite step_raise by done. unfold no_error, raise in *. simpl. by destruct (sc_state (step c o)).
        - unfold skips in Ek. destruct (is_space c); [right | by left]. simpl in *.
          destruct (sc_state o); simpl; done. }
      destruct (IH' _ Hst) as [Hi Hq]. split; [|done]. apply inside_cons; [| |done].
      + destruct Hst as [_ [E|[_ E]]]; unfold no_error in *; [|by destruct (sc_state (step c b))].
        rewrite E. simpl. by destruct (sc_state (step c o)).
      + destruct Hst as [E _]. eexists. exact E. }
  destruct s as [|b1 [|d s]]; [by apply Hhere | by apply Hhere|].
  destruct (html && line_separator c b1 d) eqn:El; [|by apply Hhere]. clear Hhere IH'.
  apply andb_true_iff in El as [_ El].
  destruct Hs as (Hn1 & _ & Hn2 & _ & Hs).
  pose proof (line_separator_inv _ _ _ El) as (Ec & Eb & Ed).
  assert (string_only d = true) as Hsd by (by destruct Ed as [-> | ->]).
  destruct (string_byte c o) as (st & -> & E); [by rewrite Ec | done | done|]. rewrite E in *.
  destruct (string_byte b1 (goto InString st)) as (_ & _ & E1); [by rewrite Eb | done | done|]. rewrite E1 in *.
  destruct (string_byte d (goto InString st)) as (_ & _ & E2); [done | done | done|].
  cbn [scan]. rewrite E1, E2 in *.
  apply (agrees_text _ _ st); [by eapply string_text_separator | done|].
  apply (IH (n - 3)%nat); simpl in *; [lia | lia | done | done | done].
Qed.

(** How deep the arrays and objects of a text are nested. *)
Fixpoint depth (s : string) (o : scanner) : nat :=
  match s with
  | "" => 0
  | String c s' => Nat.max (length (sc_stack (step c o))) (depth s' (step c o))
  end.

Definition nesting (data : string) : Z := Z.of_nat (depth data start).

Lemma scan_error_stays s st : sc_state (scan s (goto ScanError st)) = ScanError.
Proof. revert st. induction s as [|c s IH]; intros st; [done | apply IH]. Qed.

Lemma sound_scan_intro s o :
  no_error (scan s o) → Z.of_nat (depth s o) < maxNestingDepth → sound_scan s o.
Proof.
  revert o. induction s as [|c s IH]; intros o; [done|]. cbn [scan depth sound_scan]. intros Hn Hd.
  split; [|split; [unfold shallow; lia | apply IH; [done | lia]]].
  intros He. apply Hn. destruct (step c o) as [s' st]. simpl in He. subst s'. apply scan_error_stays.
Qed.

Lemma scan_wf s o : scanner_wf o → scanner_wf (scan s o).
Proof. revert o. induction s as [|c s IH]; intros o Ho; [done|]. by apply IH, step_wf. Qed.

(** Where a complete value leaves the scanner. *)
Lemma complete_end o :
  scanner_wf o → complete o = true →
  sc_stack o = [] ∧ (sc_state o = EndTop ∨ sc_state o = EndValue ∨ number_end (sc_state o) = true).
Proof.
  destruct o as [s st]. unfold complete, step, after_zero, exp_sign, begin_value, begin_string, end_value.
  cbn [sc_state sc_stack]. intros Hw.
  destruct s as [| | | | | | | | | | | | | | | |[|d w]| |]; cbn -[scanner_wf Ascii.eqb]; try done;
    try (destruct st; auto; done).
  cbn [scanner_wf sc_state word] in Hw. destruct (" " =? d)%char eqn:Ed; [|done].
  apply Ascii.eqb_eq in Ed as <-. done.
Qed.

Lemma raw_value html data d :
  marshal_raw html data = Some d → nesting data < maxNestingDepth → member_value d.
Proof.
  unfold marshal_raw, Valid. destruct (complete _) eqn:Ec; [|done]. intros [= <-] Hd.
  pose proof (scan_wf data start I) as Hw.
  destruct (complete_end _ Hw Ec) as [Est Hend].
  assert (no_error (scan data start)) as Hn.
  { unfold no_error. destruct Hend as [E|[E|E]]; rewrite ?E; [done | done|].
    by destruct (sc_state (scan data start)). }
  destruct (compact_agrees html data start (raise start) I (sound_scan_intro _ _ Hn Hd) (agrees_refl _)) as [Hi Ha].
  change (raise start) with (goto BeginValue [ObjectValue]) in *.
  set (b := scan (compact html data start) (goto BeginValue [ObjectValue])) in *.
  assert (sc_stack b = [ObjectValue] ∧ (sc_state b = EndValue ∨ number_end (sc_state b) = true)) as [Esb Hb].
  { destruct Ha as [Es Hs]. unfold raise in Es, Hs. simpl in Es, Hs. rewrite Est in Es. split; [done|].
    destruct Hs as [Hs|[_ Hs]]; [|by right]. rewrite Hs.
    destruct Hend as [->|[->|E]]; [by left | by left|]. right. by destruct (sc_state (scan data start)). }
  split; fold b; [done | | | done];
    destruct b as [sb stb]; simpl in *; subst stb; (destruct Hb as [->|Hb]; [done|]); by destruct sb.
Qed.

(** ** Objects *)

Lemma members_one html k v sc sep rest found :
  sc = goto BeginStringOrEmpty [ObjectKey] ∨ sc = goto BeginString [ObjectKey] → member_value v →
  members (quote html k +:+ ":" +:+ v +:+ String sep rest) sc "" "" found =
  members (String sep rest) (scan v (goto BeginValue [ObjectValue])) (quote html k) (rev_string v "") found.
Proof.
  intros Hsc [Hi _ _ _].
  assert (step QUOTE sc = goto InString [ObjectKey]) as Eq by (by destruct Hsc as [-> | ->]).
  destruct (quote_scan html k ObjectKey sc Eq) as [Es Hk].
  rewrite (members_inside ObjectKey) by (done || (destruct Hsc as [-> | ->]; by exists [])).
  rewrite Es. change (":" +:+ v +:+ String sep rest) with (String ":" (v +:+ String sep rest)).
  cbn [members]. change (step ":" (goto EndValue [ObjectKey])) with (goto BeginValue [ObjectValue]).
  cbn [sc_state sc_stack goto]. fold (trimmed (quote html k)). rewrite trimmed_quote.
  rewrite (members_inside ObjectValue) by (done || by exists []). done.
Qed.

Definition raw_members (html : bool) (ms : list (string * string)) : list (string * string) :=
  map (λ kv, (quote html kv.1, trimmed kv.2)) ms.

Lemma members_object html ms sc found :
  sc = goto BeginStringOrEmpty [ObjectKey] ∨ sc = goto BeginString [ObjectKey] → ms ≠ [] →
  Forall (λ kv, member_value kv.2) ms →
  members (marshal_members html ms +:+ "}") sc "" "" found = Some (found ++ raw_members html ms, "").
Proof.
  revert sc found. induction ms as [|[k v] ms IH]; intros sc found Hsc Hne Hv; [done|].
  apply Forall_cons in Hv as [Hv Hvs]. simpl in Hv. destruct (id Hv) as [_ Hcomma Hbrace Hstack].
  destruct ms as [|kv ms].
  - cbn [marshal_members]. rewrite <- !append_assoc_string.
    change ("}") with (String "}" ""). rewrite members_one by done.
    cbn [members]. rewrite Hbrace, Hstack. done.
  - change (marshal_members html ((k, v) :: kv :: ms)) with
      (quote html k +:+ ":" +:+ v +:+ "," +:+ marshal_members html (kv :: ms)).
    rewrite <- !append_assoc_string.
    change ("," +:+ marshal_members html (kv :: ms) +:+ "}") with (String "," (marshal_members html (kv :: ms) +:+ "}")).
    rewrite members_one by done. cbn [members]. rewrite Hcomma, Hstack. cbn [goto sc_state sc_stack].
    rewrite (IH (goto BeginString [ObjectKey])) by auto. f_equal. f_equal.
    by rewrite <- app_assoc.
Qed.

(** An object that was written is read as its members. *)
Lemma decode_marshal html ms :
  ms ≠ [] → Forall (λ kv, member_value kv.2) ms →
  decode_object (marshal_object html ms) = Some (raw_members html ms, "").
Proof.
  intros Hne Hv. unfold decode_object, marshal_object.
  change ("{" +:+ marshal_members html ms +:+ "}") with (String "{" (marshal_members html ms +:+ "}")).
  cbn [trim_left]. change (is_space "{") with false. cbv iota. rewrite Ascii.eqb_refl.
  rewrite members_object by auto. done.
Qed.

(** The last member of a name. *)
Fixpoint last_member (name : string) (ms : list (string * string)) (default : option string) : option string :=
  match ms with
  | [] => default
  | (k, v) :: ms' => last_member name ms' (if (k =? name)%string then Some (trimmed v) else default)
  end.

Lemma object_map_lookup html name ms :
  Forall (λ kv, utf8_valid 0 kv.1 = true) ms →
  object_map (raw_members html ms) !! name = last_member name ms None.
Proof.
  intros Hk. unfold object_map.
  assert (∀ m : gmap string string, foldl (λ m kv, match unmarshal_string kv.1 with
    | Some k => <[k := kv.2]> m | None => m end) m (raw_members html ms) !! name =
    last_member name ms (m !! name)) as H; [|by rewrite H, lookup_empty].
  induction ms as [|[k v] ms IH]; intros m; [done|]. apply Forall_cons in Hk as [Hk Hks].
  cbn [fst] in Hk. cbn [raw_members map foldl fst snd last_member]. fold (raw_members html ms).
  rewrite unmarshal_quote, IH by done. f_equal.
  destruct (k =? name)%string eqn:E; breflect; [subst; apply lookup_insert_eq | by apply lookup_insert_ne].
Qed.
