(* ===== verification/Emit.v ===== *)
(** * Emit: producing events (sdk/go/writerelay.go) *)

From Stdlib Require Import Ascii.
From S2P Require Import Prelude Text Timestamp TimeParse Json Marshal.

(** [Event]; a nil [Data] is [None]. *)
Record Event := MkEvent {
  ev_ID : string;
  ev_Source : string;
  ev_Type : string;
  ev_SpecVersion : string;
  ev_Subject : option string;
  ev_Time : string;
  ev_DataContentType : string;
  ev_Data : option string;
}.

(** [validString]. *)
Definition validString (value : string) : bool :=
  utf8_valid 0 value && negb (contains_byte (ascii_of_N 0) value).

(** The escapes that [validJSON] inspects in data that is valid JSON. *)
Fixpoint valid_escapes (data : string) : bool :=
  match data with
  | "" => true
  | String c rest =>
      if negb (c =? BACKSLASH)%char then valid_escapes rest
      else
        match rest with
        | String x rest =>
            if negb (x =? "u")%char then valid_escapes rest
            else
              match rest with
              | String a (String b (String d (String e rest))) =>
                  let code := u4 a b d e in
                  if (code =? 0)%N || low_surrogate code then false
                  else if high_surrogate code then
                    match rest with
                    | String y (String z (String a (String b (String d (String e rest))))) =>
                        if negb (y =? BACKSLASH)%char || negb (z =? "u")%char then false
                        else if negb (is_hex a && is_hex b && is_hex d && is_hex e) ||
                                negb (low_surrogate (u4 a b d e)) then false
                        else valid_escapes rest
                    | _ => false
                    end
                  else valid_escapes rest
              | _ => true
              end
        | "" => true
        end
  end.

(** [validJSON]. *)
Definition validJSON (data : string) : bool :=
  if negb (utf8_valid 0 data) || negb (Valid data) then false else valid_escapes data.

(** ** The pattern [timestamp] *)

Fixpoint take_digits (n : nat) (s : string) : option string :=
  match n, s with
  | O, _ => Some s
  | S n', String c s' => if is_digit c then take_digits n' s' else None
  | _, "" => None
  end.

Fixpoint drop_digits (s : string) : string :=
  match s with
  | String c s' => if is_digit c then drop_digits s' else s
  | "" => ""
  end.

(** [\d{n}] followed by the byte [c]. *)
Definition digits_then (n : nat) (c : ascii) (s : option string) : option string :=
  match s with
  | Some s => match take_digits n s with Some r => skip c r | None => None end
  | None => None
  end.

(** [(?:Z|[+-]\d{2}:\d{2})$]. *)
Definition zone_pattern (s : string) : bool :=
  match s with
  | String c rest =>
      ((c =? "Z")%char && (rest =? "")%string) ||
      (((c =? "+")%char || (c =? "-")%char) &&
       match digits_then 2 ":" (Some rest) with
       | Some minutes => match take_digits 2 minutes with Some "" => true | _ => false end
       | None => false
       end)
  | "" => false
  end.

(** [(?:\.\d+)?] and the zone. *)
Definition fraction_pattern (s : string) : bool :=
  match s with
  | String p (String c rest) =>
      if (p =? ".")%char then is_digit c && zone_pattern (drop_digits rest) else zone_pattern s
  | _ => zone_pattern s
  end.

Definition timestamp (s : string) : bool :=
  match digits_then 2 ":" (digits_then 2 ":" (digits_then 2 "T" (digits_then 2 "-"
          (digits_then 4 "-" (Some s))))) with
  | Some rest => match take_digits 2 rest with Some rest => fraction_pattern rest | None => false end
  | None => false
  end.

Definition invalid (m : string) : error := wrapf ErrInvalidEvent m.

(** The checks on [event.Time]. *)
Definition check_time (value : string) : option error :=
  if (value =? "")%string then None
  else
    match parse_time value with
    | None => Some (invalid "time must be RFC 3339")
    | Some _ =>
        if negb (timestamp value) then Some (invalid "time must be RFC 3339")
        else
          let n := String.length value in
          if (String.substring (n - 1) 1 value =? "Z")%string then None
          else
            let offset := String.substring (n - 5) 5 value in
            if str_ltb "23" (String.substring 0 2 offset) || str_ltb "59" (String.substring 3 2 offset)
            then Some (invalid "time has an invalid timezone offset")
            else None
    end.

Definition required (value : string) : bool := negb (value =? "")%string && validString value.

(** The members that [json.Marshal] writes, in the order of the fields; the
    [omitempty] ones only when they are not empty. *)
Definition envelope (event : Event) (data : option string) : list (string * string) :=
  [("id", quote true (ev_ID event)); ("source", quote true (ev_Source event)); ("type", quote true (ev_Type event));
   ("specversion", quote true (ev_SpecVersion event))] ++
  match ev_Subject event with Some s => [("subject", quote true s)] | None => [] end ++
  (if (ev_Time event =? "")%string then [] else [("time", quote true (ev_Time event))]) ++
  (if (ev_DataContentType event =? "")%string then []
   else [("datacontenttype", quote true (ev_DataContentType event))]) ++
  match data with Some d => [("data", d)] | None => [] end.

(** [json.Marshal(event)]. *)
Definition Marshal (event : Event) : option string :=
  match ev_Data event with
  | None | Some "" => Some (marshal_object true (envelope event None))
  | Some data =>
      match marshal_raw true data with
      | Some d => Some (marshal_object true (envelope event (Some d)))
      | None => None
      end
  end.

(** The defaults of [encode]. *)
Definition with_defaults (event : Event) : Event :=
  MkEvent (ev_ID event) (ev_Source event) (ev_Type event)
    (if (ev_SpecVersion event =? "")%string then "1.0" else ev_SpecVersion event)
    (ev_Subject event) (ev_Time event)
    (if (ev_DataContentType event =? "")%string
     then match ev_Data event with Some _ => "application/json" | None => "" end
     else ev_DataContentType event)
    (ev_Data event).

(** [encode]. *)
Definition encode (event : Event) : result string :=
  if negb (required (ev_ID event) && required (ev_Source event) && required (ev_Type event)) then
    inl (invalid "%s must be a non-empty UTF-8 string without NUL")
  else if negb (ev_SpecVersion (with_defaults event) =? "1.0")%string then
    inl (invalid "specversion must be 1.0")
  else if match ev_Subject event with Some s => negb (validString s) | None => false end then
    inl (invalid "subject must be UTF-8 without NUL")
  else if negb (validString (ev_DataContentType event)) then
    inl (invalid "datacontenttype must be UTF-8 without NUL")
  else
    match check_time (ev_Time event) with
    | Some e => inl e
    | None =>
        if match ev_Data event with Some d => negb (validJSON d) | None => false end then
          inl (invalid "data must be valid UTF-8 JSON without NUL or unpaired surrogates")
        else
          match Marshal (with_defaults event) with
          | None => inl (invalid "cannot encode envelope")
          | Some payload => inr payload
          end
    end.

Definition emitStatement : string := "SELECT writerelay.emit($1::jsonb)".

(** [Emit]: [tx] says whether a transaction was given, [exec]
    what the transaction answers to a statement with its argument.  The
    result has the statements sent. *)
Definition Emit (tx : bool) (exec : string → string → option error) (event : Event)
    : list (string * string) * option error :=
  if negb tx then ([], Some (wrapf ErrNilTransaction ""))
  else
    match encode event with
    | inl e => ([], Some e)
    | inr payload => ([(emitStatement, payload)], exec emitStatement payload)
    end.

(** [EmitSQL]: the same for a [database/sql] transaction. *)
Definition EmitSQL (tx : bool) (exec : string → string → option error) (event : Event)
    : list (string * string) * option error :=
  if negb tx then ([], Some (wrapf ErrNilTransaction ""))
  else
    match encode event with
    | inl e => ([], Some e)
    | inr payload => ([(emitStatement, payload)], exec emitStatement payload)
    end.
