(* ===== verification/EmitProps.v ===== *)
(** * EmitProps: what the SDK encodes is what the relay accepts *)

From Stdlib Require Import Ascii.
From S2P Require Import Prelude Text Timestamp TimeParse Json Marshal MarshalFacts CompactFacts Event Emit.

(** ** Timestamps are ASCII *)

Definition ascii_byte (c : ascii) : bool := (byte_n c <? 128)%N.

Fixpoint ascii_text (s : string) : bool :=
  match s with
  | "" => true
  | String c s' => ascii_byte c && ascii_text s'
  end.

Lemma ascii_text_utf8 s : ascii_text s = true → utf8_valid 0 s = true.
Proof. induction s as [|c s IH]; [done|]. cbn. unfold ascii_byte. intros [-> H]%andb_true_iff. auto. Qed.

Lemma is_digit_ascii c : is_digit c = true → ascii_byte c = true.
Proof. each_byte c; done. Qed.

Lemma take_digits_ascii n s r : take_digits n s = Some r → ascii_text r = true → ascii_text s = true.
Proof.
  revert s. induction n as [|n IH]; intros s; [by destruct s; intros [= ->]|].
  destruct s as [|c s]; [done|]. cbn [take_digits]. destruct (is_digit c) eqn:E; [|done].
  intros H Hr. cbn [ascii_text]. rewrite (is_digit_ascii _ E). by eapply IH.
Qed.

Lemma drop_digits_ascii s : ascii_text (drop_digits s) = true → ascii_text s = true.
Proof.
  induction s as [|c s IH]; [done|]. cbn [drop_digits]. destruct (is_digit c) eqn:E; [|done].
  intros H. cbn [ascii_text]. rewrite (is_digit_ascii _ E). by apply IH.
Qed.

Lemma digits_then_ascii n c s r :
  ascii_byte c = true → digits_then n c s = Some r → ascii_text r = true →
  ∃ s', s = Some s' ∧ ascii_text s' = true.
Proof.
  intros Hc. unfold digits_then. destruct s as [s|]; [|done].
  destruct (take_digits n s) as [t|] eqn:Et; [|done]. unfold skip. destruct t as [|d t]; [done|].
  destruct (_ =? _)%char eqn:Ed; [|done]. apply Ascii.eqb_eq in Ed. intros [= <-] Hr. exists s. split; [done|].
  eapply take_digits_ascii; [exact Et|]. cbn [ascii_text]. subst. by rewrite Hc.
Qed.

Lemma zone_ascii s : zone_pattern s = true → ascii_text s = true.
Proof.
  unfold zone_pattern. destruct s as [|c rest]; [done|]. rewrite orb_true_iff, !andb_true_iff, orb_true_iff.
  intros [[Hc Hr]|[Hc Hr]]; cbn [ascii_text].
  - apply Ascii.eqb_eq in Hc. breflect. by subst.
  - assert (ascii_byte c = true) as -> by (by destruct Hc as [->%Ascii.eqb_eq| ->%Ascii.eqb_eq]).
    destruct (digits_then 2 ":" (Some rest)) as [m|] eqn:Ed; [|done].
    destruct (take_digits 2 m) as [[|? ?]|] eqn:Em; [|done|done].
    apply digits_then_ascii in Ed as (s & [= <-] & Hs); [done | done|]. by eapply take_digits_ascii.
Qed.

Lemma timestamp_ascii s : timestamp s = true → ascii_text s = true.
Proof.
  unfold timestamp. destruct (digits_then _ _ _) as [r|] eqn:E; [|done].
  destruct (take_digits 2 r) as [t|] eqn:Et; [|done]. intros Hf.
  assert (ascii_text t = true) as Ht.
  { unfold fraction_pattern in Hf. destruct t as [|p [|c t]]; [done | by apply zone_ascii|].
    destruct (p =? ".")%char eqn:Ep; [|by apply zone_ascii].
    apply Ascii.eqb_eq in Ep. subst p. apply andb_true_iff in Hf as [Hd Hz].
    cbn [ascii_text]. rewrite (is_digit_ascii _ Hd). by apply drop_digits_ascii, zone_ascii. }
  pose proof (take_digits_ascii _ _ _ Et Ht) as Hr.
  do 5 (apply digits_then_ascii in E as (? & E & ?); [|done|done]; clear Hr; rename H into Hr).
  by injection E as <-.
Qed.

(** ** Encoding *)

(** The metadata of an event that was encoded. *)
Definition event_metadata (event : Event) : Metadata :=
  let event := with_defaults event in
  MkMetadata (ev_SpecVersion event) (ev_ID event) (ev_Source event) (ev_Type event)
    (match ev_Subject event with Some s => s | None => "" end)
    (if (ev_Time event =? "")%string then None else parse_time (ev_Time event))
    (ev_DataContentType event).

Definition data_nesting (event : Event) : Z :=
  match ev_Data event with Some data => nesting data | None => 0 end.

(** What the checks of [encode] establish. *)
Record encodable (event : Event) : Prop := {
  en_required : ∀ s, s ∈ [ev_ID event; ev_Source event; ev_Type event] → s ≠ "" ∧ utf8_valid 0 s = true;
  en_version : ev_SpecVersion event = "1.0";
  en_subject : ∀ s, ev_Subject event = Some s → utf8_valid 0 s = true;
  en_content : utf8_valid 0 (ev_DataContentType event) = true;
  en_time : ev_Time event ≠ "" → utf8_valid 0 (ev_Time event) = true ∧ is_Some (parse_time (ev_Time event));
  en_data : ∀ d, ev_Data event = Some d → d ≠ "" ∧ Valid d = true;
}.

Lemma required_inv s : required s = true → s ≠ "" ∧ utf8_valid 0 s = true.
Proof. unfold required, validString. intros H. breflect. auto. Qed.

Lemma encode_inv event payload :
  encode event = inr payload →
  encodable (with_defaults event) ∧ Marshal (with_defaults event) = Some payload.
Proof.
  unfold encode. destruct (negb _) eqn:E1; [done|]. breflect.
  destruct (negb _) eqn:E2; [done|]. breflect. 
  destruct (match ev_Subject event with Some s => negb (validString s) | None => false end) eqn:E3; [done|].
  destruct (negb (validString _)) eqn:E4; [done|]. breflect.
  destruct (check_time _) eqn:E5; [done|].
  destruct (match ev_Data event with Some d => negb (validJSON d) | None => false end) eqn:E6; [done|].
  destruct (Marshal _) as [p|] eqn:E7; [|done]. intros [= <-]. split; [|done].
  split; simpl.
  - intros s Hs. apply required_inv. set_solver.
  - done.
  - intros s Es. rewrite Es in E3. unfold validString in E3. by breflect.
  - unfold validString in E4. breflect. destruct (_ =? "")%string; [by destruct (ev_Data event) | done].
  - intros Ht. unfold check_time in E5. destruct (_ =? "")%string eqn:Et; breflect; [done|].
    destruct (parse_time _); [|done]. destruct (timestamp _) eqn:Ets; [|done].
    split; [by apply ascii_text_utf8, timestamp_ascii | by eexists].
  - intros d Ed. rewrite Ed in E6. unfold validJSON in E6. destruct (_ || _) eqn:Ev; [done|]. breflect.
    split; [|done]. by intros ->.
Qed.

(** The text is the object of the envelope's members. *)
Lemma Marshal_object event payload :
  encodable event → Marshal event = Some payload → data_nesting event < maxNestingDepth →
  ∃ data, payload = marshal_object true (envelope event data) ∧
    ∀ d, data = Some d → member_value d.
Proof.
  intros He. unfold Marshal, data_nesting. destruct (ev_Data event) as [d|] eqn:Ed.
  - destruct (en_data _ He _ Ed) as [Hne _]. destruct d as [|c d]; [done|].
    destruct (marshal_raw _ _) as [r|] eqn:Er; [|done]. intros [= <-] Hn. exists (Some r).
    split; [done|]. intros ? [= <-]. by eapply raw_value.
  - intros [= <-] _. by exists None.
Qed.

Lemma envelope_values event data :
  (∀ d, data = Some d → member_value d) → Forall (λ kv, member_value kv.2) (envelope event data).
Proof.
  intros Hd. unfold envelope. rewrite !Forall_app, !Forall_cons. cbn [snd].
  split_and!; try apply quote_value; repeat case_match;
    rewrite ?Forall_cons; split_and?; try apply quote_value; try apply Forall_nil; auto.
Qed.

Lemma envelope_keys event data : Forall (λ kv, utf8_valid 0 kv.1 = true) (envelope event data).
Proof.
  unfold envelope. repeat (apply Forall_app; split); repeat case_match; repeat constructor.
Qed.

(** The members as the validator looks them up. *)
Definition optional_member (present : bool) (s : string) : option string :=
  if present then Some (trimmed (quote true s)) else None.

Record envelope_object (event : Event) (object : gmap string string) : Prop := {
  eo_id : object !! "id" = Some (trimmed (quote true (ev_ID event)));
  eo_source : object !! "source" = Some (trimmed (quote true (ev_Source event)));
  eo_type : object !! "type" = Some (trimmed (quote true (ev_Type event)));
  eo_version : object !! "specversion" = Some (trimmed (quote true (ev_SpecVersion event)));
  eo_subject : object !! "subject" = ev_Subject event ≫= λ s, Some (trimmed (quote true s));
  eo_time : object !! "time" = optional_member (negb (ev_Time event =? "")%string) (ev_Time event);
  eo_content : object !! "datacontenttype" =
    optional_member (negb (ev_DataContentType event =? "")%string) (ev_DataContentType event);
}.

Lemma envelope_lookup event data :
  envelope_object event (object_map (raw_members true (envelope event data))).
Proof.
  split; rewrite object_map_lookup by apply envelope_keys; unfold envelope, optional_member;
    destruct (ev_Subject event), (ev_Time event =? "")%string, (ev_DataContentType event =? "")%string, data;
    done.
Qed.

Lemma decode_quote s : utf8_valid 0 s = true → decodeString (trimmed (quote true s)) = inr s.
Proof. intros H. unfold decodeString. by rewrite trimmed_quote, unmarshal_quote. Qed.

(** Reading back a member that is there, and one that is not. *)
Lemma requiredString_quote object name s :
  object !! name = Some (trimmed (quote true s)) → s ≠ "" → utf8_valid 0 s = true →
  requiredString object name = inr s.
Proof.
  intros E Hs Hu. unfold requiredString. rewrite E, decode_quote by done.
  apply String.eqb_neq in Hs. by rewrite Hs.
Qed.

Lemma optionalString_quote object name allowEmpty s :
  object !! name = Some (trimmed (quote true s)) → utf8_valid 0 s = true → (allowEmpty = false → s ≠ "") →
  optionalString object name allowEmpty = inr s.
Proof.
  intros E Hu Hs. unfold optionalString. rewrite E, decode_quote by done.
  destruct allowEmpty; [done|]. simpl. rewrite (proj2 (String.eqb_neq s "")); auto.
Qed.

Lemma encode_accepted event payload maxBytes :
  encode event = inr payload →
  data_nesting event < maxNestingDepth →
  1 <= maxBytes → Z.of_nat (String.length payload) <= maxBytes →
  Validate payload maxBytes = inr (event_metadata event).
Proof.
  intros He Hn Hm Hl. apply encode_inv in He as [He Hp]. unfold event_metadata.
  change (data_nesting event) with (data_nesting (with_defaults event)) in Hn.
  set (ev := with_defaults event) in *. clearbody ev. cbv zeta.
  destruct (Marshal_object ev payload He Hp Hn) as (data & -> & Hd).
  unfold Validate. rewrite (proj2 (Z.ltb_ge maxBytes 1)), (proj2 (Z.ltb_ge maxBytes _)) by lia.
  rewrite decode_marshal by (done || by apply envelope_values). simpl ensureEOF. cbv iota zeta.
  destruct (envelope_lookup ev data) as [L1 L2 L3 L4 L5 L6 L7].
  set (o := object_map _) in *. clearbody o.
  pose proof (en_required _ He) as Hreq.
  rewrite (requiredString_quote o "specversion" "1.0") by (rewrite ?L4, ?(en_version _ He); done).
  rewrite (en_version _ He). simpl negb. cbv iota.
  rewrite (requiredString_quote o "id" _ L1), (requiredString_quote o "source" _ L2),
    (requiredString_quote o "type" _ L3) by (apply Hreq; set_solver).
  assert (optionalString o "subject" true = inr (match ev_Subject ev with Some s => s | None => "" end)) as ->.
  { destruct (ev_Subject ev) as [s|] eqn:Es; simpl in L5; [|unfold optionalString; by rewrite L5].
    apply optionalString_quote; [done | by apply (en_subject _ He) | done]. }
  assert (optionalString o "datacontenttype" false = inr (ev_DataContentType ev)) as ->.
  { destruct (ev_DataContentType ev =? "")%string eqn:Ec; simpl in L7; breflect.
    - unfold optionalString. by rewrite L7, Ec.
    - apply optionalString_quote; [done | apply (en_content _ He) | done]. }
  assert (optionalTime o = inr (if (ev_Time ev =? "")%string then None else parse_time (ev_Time ev))) as ->; [|done].
  unfold optionalTime. rewrite L6. destruct (ev_Time ev =? "")%string eqn:Et; [done|]. simpl. breflect.
  destruct (en_time _ He Et) as [Hu [t Ht]].
  rewrite decode_quote, (proj2 (String.eqb_neq _ "")), Ht by done. done.
Qed.

(** C21. Round trip: an event that the SDK encodes is accepted by the
    relay's validator whenever the payload is within the limit, with the
    event's identity, source, type, subject, time and content type as its
    metadata, whatever Unicode text they contain and whatever the data is,
    provided the data is nested less deeply than the decoder's limit. *)
Theorem encode_validates event payload maxBytes :
  encode event = inr payload →
  data_nesting event < maxNestingDepth →
  1 <= maxBytes → Z.of_nat (String.length payload) <= maxBytes →
  Validate payload maxBytes = inr (event_metadata event).
Proof. apply encode_accepted. Qed.
