(* ===== verification/StateMachine.v ===== *)
(** * StateMachine: transaction assembly of internal/postgres/state.go

    [Consume] turns the pgoutput messages of a replication stream into
    complete transactions.  [event.Validate] is used through the interface
    [EventValidator]. *)

From S2P Require Import Prelude Rows Text Timestamp Sha256 Spool Store StoreFacts Event.

(** [pglogrepl.LogicalDecodingMessage]. *)
Record LogicalMessage := MkLogical {
  lm_Transactional : bool;
  lm_LSN : LSN;
  lm_Prefix : string;
  lm_Content : string;
}.

(** [pglogrepl.Message]: the cases of the type switch. *)
Inductive Message :=
  | BeginMessage (Xid : Z)
  | LogicalDecodingMessage (m : LogicalMessage)
  | CommitMessage (CommitLSN TransactionEndLSN : LSN) (CommitTime : time)
  | TableChangeMessage
  | OtherMessage.

(** [type StateMachine struct]. *)
Record StateMachine := MkSM {
  prefix : string;
  maxEventBytes : Z;
  maxEvents : Z;
  maxBytes : Z;
  inTransaction : bool;
  transactionID : Z;
  sm_events : list CapturedEvent;
  bufferedBytes : Z;
}.

Definition NewStateMachine (p : string) (eb me mb : Z) : StateMachine :=
  MkSM p eb me mb false 0 [] 0.

(** [reset]. *)
Definition reset (s : StateMachine) : StateMachine :=
  MkSM (prefix s) (maxEventBytes s) (maxEvents s) (maxBytes s) false 0 [] 0.

(** [Reset]. *)
Definition Reset (s : StateMachine) : StateMachine := reset s.

Section Consume.
Context {validator : EventValidator}.

(** The event appended by [consumeLogicalMessage]; the fields of the commit
    are zero until it arrives. *)
Definition captured_of (m : LogicalMessage) (metadata : Metadata) : CapturedEvent :=
  MkCaptured (md_Source metadata) (md_ID metadata) (md_Type metadata) (md_Subject metadata)
    (lm_Content m) (Sum256 (lm_Content m)) 0 (lm_LSN m) 0 0 zeroTime 0.

(** [len] of a byte slice. *)
Definition len (s : string) : Z := Z.of_nat (String.length s).

(** [consumeLogicalMessage]: [None] is [nil]. *)
Definition consumeLogicalMessage (message : LogicalMessage) (s : StateMachine)
    : StateMachine * option error :=
  if negb (lm_Prefix message =? prefix s)%string then (s, None)
  else if negb (lm_Transactional message) then
    (s, Some (wrapf ErrProtectedEvent "prefix %q was used by a non-transactional message"))
  else if negb (inTransaction s) then
    (s, Some (wrapf ErrProtocolState "protected transactional message outside Begin/Commit"))
  else if maxEvents s <=? Z.of_nat (length (sm_events s)) then
    (s, Some (wrapf ErrTransactionLimit "more than %d accepted events"))
  else if int64 (maxBytes s - bufferedBytes s) <? len (lm_Content message) then
    (s, Some (wrapf ErrTransactionLimit "accepted event bytes exceed %d"))
  else
    match ev_Validate (lm_Content message) (maxEventBytes s) with
    | inl _ => (s, Some (wrapf ErrProtectedEvent "%v"))
    | inr metadata =>
        (MkSM (prefix s) (maxEventBytes s) (maxEvents s) (maxBytes s) (inTransaction s)
           (transactionID s) (sm_events s ++ [captured_of message metadata])
           (int64 (bufferedBytes s + len (lm_Content message))), None)
    end.

(** The loop that fills in the fields of the commit. *)
Definition stamp (xid : Z) (commitLSN endLSN : LSN) (commitTime : time) (index : nat)
    (e : CapturedEvent) : CapturedEvent :=
  MkCaptured (ce_Source e) (ce_ID e) (ce_Type e) (ce_Subject e) (ce_Payload e)
    (ce_PayloadSHA256 e) xid (ce_MessageLSN e) commitLSN endLSN commitTime (Z.of_nat index).

(** [Consume]. *)
Definition Consume (message : Message) (s : StateMachine)
    : StateMachine * result (option CommittedBatch) :=
  match message with
  | BeginMessage xid =>
      if inTransaction s then (s, inl (wrapf ErrProtocolState "nested Begin"))
      else (MkSM (prefix s) (maxEventBytes s) (maxEvents s) (maxBytes s) true xid [] 0, inr None)
  | LogicalDecodingMessage m =>
      match consumeLogicalMessage m s with
      | (s', Some e) => (s', inl e)
      | (s', None) => (s', inr None)
      end
  | CommitMessage commitLSN endLSN commitTime =>
      if negb (inTransaction s) then (s, inl (wrapf ErrProtocolState "Commit without Begin"))
      else (reset s, inr (Some (MkBatch (transactionID s) commitLSN endLSN commitTime
              (imap (stamp (transactionID s) commitLSN endLSN commitTime) (sm_events s)))))
  | TableChangeMessage | OtherMessage => (s, inr None)
  end.

(** ** Invariant *)

Definition total_bytes (es : list CapturedEvent) : Z :=
  foldr (λ e n, len (ce_Payload e) + n) 0 es.

(** An event the state machine accepted. *)
Definition accepted (limit : Z) (e : CapturedEvent) : Prop :=
  ce_ID e ≠ "" ∧ ce_Source e ≠ "" ∧ ce_Type e ≠ "" ∧
  ce_PayloadSHA256 e = Sum256 (ce_Payload e) ∧ len (ce_Payload e) <= limit.

Record sm_wf (s : StateMachine) : Prop := {
  sm_max : 0 <= maxBytes s < 2 ^ 63;
  sm_count : sm_events s = [] ∨ Z.of_nat (length (sm_events s)) <= maxEvents s;
  sm_bytes : bufferedBytes s = total_bytes (sm_events s) ∧ bufferedBytes s <= maxBytes s;
  sm_accepted : Forall (accepted (maxEventBytes s)) (sm_events s);
  sm_idle : inTransaction s = false → sm_events s = [];
}.

(** ** Specification: transactions of the stream *)

(** What can stand between Begin and Commit. *)
Inductive Item := Logical (m : LogicalMessage) | TableChange | Unknown.

Definition item_message (i : Item) : Message :=
  match i with
  | Logical m => LogicalDecodingMessage m
  | TableChange => TableChangeMessage
  | Unknown => OtherMessage
  end.

Record Transaction := MkTx {
  tx_xid : Z;
  tx_items : list Item;
  tx_CommitLSN : LSN;
  tx_EndLSN : LSN;
  tx_CommitTime : time;
}.

Definition tx_messages (t : Transaction) : list Message :=
  BeginMessage (tx_xid t) :: map item_message (tx_items t) ++
  [CommitMessage (tx_CommitLSN t) (tx_EndLSN t) (tx_CommitTime t)].

(** The messages with the protected prefix, in order. *)
Definition protected_of (p : string) (t : Transaction) : list LogicalMessage :=
  omap (λ i, match i with
    | Logical m => if (lm_Prefix m =? p)%string then Some m else None
    | _ => None
    end) (tx_items t).

Definition metadata_of (limit : Z) (m : LogicalMessage) : option Metadata :=
  match ev_Validate (lm_Content m) limit with inr md => Some md | inl _ => None end.

(** The messages that pass validation, with their metadata. *)
Definition accepted_of (limit : Z) (ms : list LogicalMessage) : list (LogicalMessage * Metadata) :=
  omap (λ m, pair m <$> metadata_of limit m) ms.

(** The event that the [i]-th protected message of a committed transaction
    should become. *)
Definition committed_event (t : Transaction) (i : nat) (x : LogicalMessage * Metadata)
    : CapturedEvent := {|
  ce_Source := md_Source x.2;
  ce_ID := md_ID x.2;
  ce_Type := md_Type x.2;
  ce_Subject := md_Subject x.2;
  ce_Payload := lm_Content x.1;
  ce_PayloadSHA256 := Sum256 (lm_Content x.1);
  ce_TransactionID := tx_xid t;
  ce_MessageLSN := lm_LSN x.1;
  ce_CommitLSN := tx_CommitLSN t;
  ce_CommitEndLSN := tx_EndLSN t;
  ce_CommitTime := tx_CommitTime t;
  ce_MessageIndex := Z.of_nat i;
|}.

(** The batch the transaction should become. *)
Definition batch_of (s : StateMachine) (t : Transaction) : CommittedBatch :=
  MkBatch (tx_xid t) (tx_CommitLSN t) (tx_EndLSN t) (tx_CommitTime t)
    (imap (committed_event t) (accepted_of (maxEventBytes s) (protected_of (prefix s) t))).

Definition content_bytes (ms : list LogicalMessage) : Z :=
  foldr (λ m n, len (lm_Content m) + n) 0 ms.

(** The transaction respects the limits and all its protected messages are
    valid. *)
Definition tx_ok (s : StateMachine) (t : Transaction) : Prop :=
  let ms := protected_of (prefix s) t in
  Forall (λ m, lm_Transactional m = true ∧ is_Some (metadata_of (maxEventBytes s) m)) ms ∧
  (ms = [] ∨ Z.of_nat (length ms) <= maxEvents s) ∧ content_bytes ms <= maxBytes s.

(** Feeding a stream: the batches until the first error. *)
Fixpoint consume_all (ms : list Message) (s : StateMachine)
    : StateMachine * list CommittedBatch * option error :=
  match ms with
  | [] => (s, [], None)
  | m :: ms' =>
      match Consume m s with
      | (s', inl e) => (s', [], Some e)
      | (s', inr ob) =>
          let '(s'', bs, e) := consume_all ms' s' in
          (s'', match ob with Some b => b :: bs | None => bs end, e)
      end
  end.

End Consume.
