(* ===== verification/StateMachineProps.v ===== *)
(** * StateMachineProps: assembled transactions are complete, bounded and valid *)

From S2P Require Import Prelude Rows Text Timestamp Sha256 Spool Store StoreFacts Event StateMachine.

Section Props.
Context {validator : EventValidator}.

(** ** Sizes *)

Lemma len_nonneg s : 0 <= len s.
Proof. unfold len. lia. Qed.

Lemma total_bytes_app a b : total_bytes (a ++ b) = total_bytes a + total_bytes b.
Proof. induction a as [|e a IH]; simpl; [done|]. rewrite IH. lia. Qed.

Lemma content_bytes_app a b : content_bytes (a ++ b) = content_bytes a + content_bytes b.
Proof. induction a as [|e a IH]; simpl; [done|]. rewrite IH. lia. Qed.

Lemma content_bytes_nonneg ms : 0 <= content_bytes ms.
Proof. induction ms as [|m ms IH]; simpl; [done|]. pose proof (len_nonneg (lm_Content m)). lia. Qed.

Lemma total_bytes_nonneg es : 0 <= total_bytes es.
Proof. induction es as [|e es IH]; simpl; [done|]. pose proof (len_nonneg (ce_Payload e)). lia. Qed.

Lemma captured_accepted m md limit :
  ev_Validate (lm_Content m) limit = inr md → accepted limit (captured_of m md).
Proof.
  intros H. destruct (ev_Validate_named _ _ _ H) as (? & ? & ?). repeat split; try done.
  exact (ev_Validate_size _ _ _ H).
Qed.

(** ** The invariant is kept *)

Lemma sm_wf_new p eb me mb : 0 <= mb < 2 ^ 63 → sm_wf (NewStateMachine p eb me mb).
Proof. intros H. split; simpl; auto. split; [done | lia]. Qed.

Lemma sm_wf_reset s : sm_wf s → sm_wf (reset s).
Proof. intros []. split; simpl; auto. split; [done | lia]. Qed.

Lemma sub_bytes s : sm_wf s → int64 (maxBytes s - bufferedBytes s) = maxBytes s - bufferedBytes s.
Proof.
  intros [Hm _ [Hb Hle] _ _]. pose proof (total_bytes_nonneg (sm_events s)).
  apply int64_id. unfold in_int64. lia.
Qed.

Lemma consumeLogical_wf m s : sm_wf s → sm_wf (consumeLogicalMessage m s).1.
Proof.
  intros Hwf. unfold consumeLogicalMessage. rewrite sub_bytes by done.
  destruct (negb _); [done|]. destruct (negb _); [done|].
  destruct (negb (inTransaction s)) eqn:Et; [done|].
  destruct (_ <=? _) eqn:Ec; [done|]. destruct (_ <? len _) eqn:Eb; [done|].
  destruct (ev_Validate _ _) as [e|md] eqn:Ev; [done|]. breflect.
  destruct Hwf as [Hm Hc [Hb Hle] Ha Hi]. pose proof (total_bytes_nonneg (sm_events s)).
  pose proof (len_nonneg (lm_Content m)).
  split; simpl.
  - done.
  - right. rewrite length_app. simpl. lia.
  - rewrite total_bytes_app. simpl. rewrite int64_id by (unfold in_int64; lia). lia.
  - apply Forall_app. split; [done|]. constructor; [|done]. by apply captured_accepted.
  - congruence.
Qed.

Lemma Consume_wf m s : sm_wf s → sm_wf (Consume m s).1.
Proof.
  intros Hwf. destruct m as [xid|m|cl el ct| |]; simpl; try done.
  - destruct (inTransaction s); [done|]. destruct Hwf. split; simpl; auto. split; [done | lia].
  - pose proof (consumeLogical_wf m s Hwf) as H.
    by destruct (consumeLogicalMessage m s) as [s' [e|]].
  - destruct (negb _); [done | by apply sm_wf_reset].
Qed.

(** ** One transaction *)

(** The events buffered for the protected messages. *)
Definition event_of (limit : Z) (m : LogicalMessage) : option CapturedEvent :=
  captured_of m <$> metadata_of limit m.

Lemma buffered_events limit ms :
  omap (event_of limit) ms = (λ x, captured_of x.1 x.2) <$> accepted_of limit ms.
Proof.
  unfold accepted_of. induction ms as [|m ms IH]; [done|]. simpl. unfold event_of at 1.
  destruct (metadata_of limit m); simpl; [f_equal; exact IH | exact IH].
Qed.

(** The commit turns them into the events of the batch. *)
Lemma stamped_events limit t ms :
  imap (stamp (tx_xid t) (tx_CommitLSN t) (tx_EndLSN t) (tx_CommitTime t))
    (omap (event_of limit) ms) = imap (committed_event t) (accepted_of limit ms).
Proof. rewrite buffered_events. apply imap_fmap. Qed.

Section Transaction.
Context (s : StateMachine) (Hwf : sm_wf s) (xid : Z).

Definition good (ms : list LogicalMessage) : Prop :=
  Forall (λ m, lm_Transactional m = true ∧ is_Some (metadata_of (maxEventBytes s) m)) ms ∧
  (ms = [] ∨ Z.of_nat (length ms) <= maxEvents s) ∧ content_bytes ms <= maxBytes s.

(** The state after the protected messages [ms] of transaction [xid]. *)
Definition state_of (ms : list LogicalMessage) : StateMachine :=
  MkSM (prefix s) (maxEventBytes s) (maxEvents s) (maxBytes s) true xid
    (omap (event_of (maxEventBytes s)) ms) (content_bytes ms).

Lemma good_nil : good [].
Proof. split; [done|]. split; [by left|]. simpl. apply (sm_max _ Hwf). Qed.

Lemma good_prefix ms ms' : good (ms ++ ms') → good ms.
Proof.
  intros (Hf & Hl & Hb). apply Forall_app in Hf as [Hf _]. split; [done|].
  rewrite length_app in Hl. rewrite content_bytes_app in Hb.
  pose proof (content_bytes_nonneg ms'). split; [|lia].
  destruct Hl as [Hl|Hl]; [left; by apply app_eq_nil in Hl as [? _] | right; lia].
Qed.

Lemma length_events ms :
  good ms → length (omap (event_of (maxEventBytes s)) ms) = length ms.
Proof.
  intros [Hf _]. induction Hf as [|m ms [_ [md Hm]] Hf IH]; [done|]. simpl.
  unfold event_of at 1. rewrite Hm. simpl. f_equal. exact IH.
Qed.

(** One more protected message is accepted exactly when the list stays good. *)
Lemma consume_protected ms m :
  good ms → lm_Prefix m = prefix s →
  match consumeLogicalMessage m (state_of ms) with
  | (s', None) => good (ms ++ [m]) ∧ s' = state_of (ms ++ [m])
  | (_, Some e) => ¬ good (ms ++ [m]) ∧
      (errors_is e ErrProtectedEvent = true ∨ errors_is e ErrTransactionLimit = true)
  end.
Proof.
  intros Hg Hp. pose proof (length_events ms Hg) as Hlen. pose proof (sm_max _ Hwf).
  pose proof (content_bytes_nonneg ms). pose proof (len_nonneg (lm_Content m)).
  assert (content_bytes ms <= maxBytes s) by apply Hg.
  unfold consumeLogicalMessage. simpl. rewrite Hp, String.eqb_refl, Hlen. simpl.
  rewrite int64_id by (unfold in_int64; lia).
  destruct (lm_Transactional m) eqn:Et; simpl.
  2: { split; [|left; apply errors_is_wrapf]. intros (Hf & _).
       apply Forall_app in Hf as [_ Hf]. apply Forall_cons in Hf as [[? _] _]. congruence. }
  destruct (maxEvents s <=? _) eqn:Ec; breflect.
  { split; [|right; apply errors_is_wrapf]. intros (_ & [Hl|Hl] & _);
      [by apply app_eq_nil in Hl as [_ ?]|]. rewrite length_app in Hl. simpl in Hl. lia. }
  destruct (_ <? len _) eqn:Eb; breflect.
  { split; [|right; apply errors_is_wrapf]. intros (_ & _ & Hb).
    rewrite content_bytes_app in Hb. simpl in Hb. lia. }
  destruct (ev_Validate _ _) as [e|md] eqn:Ev.
  { split; [|left; apply errors_is_wrapf]. intros (Hf & _).
    apply Forall_app in Hf as [_ Hf]. apply Forall_cons in Hf as [[_ [md Hm]] _].
    unfold metadata_of in Hm. by rewrite Ev in Hm. }
  assert (metadata_of (maxEventBytes s) m = Some md) as Hm by (unfold metadata_of; by rewrite Ev).
  split.
  - split; [apply Forall_app; split; [apply Hg|]; constructor; [by rewrite Hm | done]|].
    rewrite length_app, content_bytes_app. simpl. split; [right; lia | lia].
  - unfold state_of. rewrite content_bytes_app, omap_app. simpl. unfold event_of at 3.
    rewrite Hm. simpl. rewrite int64_id by (unfold in_int64; lia). do 2 f_equal. lia.
Qed.

Definition protected_items (items : list Item) : list LogicalMessage :=
  omap (λ i, match i with
    | Logical m => if (lm_Prefix m =? prefix s)%string then Some m else None
    | _ => None
    end) items.

Lemma consume_items items ms rest :
  good ms →
  consume_all (map item_message items ++ rest) (state_of ms) =
    consume_all rest (state_of (ms ++ protected_items items)) ∧ good (ms ++ protected_items items) ∨
  (∃ s' e, consume_all (map item_message items ++ rest) (state_of ms) = (s', [], Some e) ∧
    ¬ good (ms ++ protected_items items) ∧
    (errors_is e ErrProtectedEvent = true ∨ errors_is e ErrTransactionLimit = true)).
Proof.
  revert ms. induction items as [|i items IH]; intros ms Hg.
  - left. simpl. by rewrite app_nil_r.
  - assert (∀ s', Consume (item_message i) (state_of ms) = (s', inr None) →
      consume_all (map item_message (i :: items) ++ rest) (state_of ms) =
      consume_all (map item_message items ++ rest) s') as Hnext.
    { intros s' E. cbn [map app consume_all]. rewrite E.
      by destruct (consume_all _ s') as [[? ?] ?]. }
    destruct i as [m| |]; cbn [protected_items omap list_omap];
      [|rewrite (Hnext (state_of ms) eq_refl); by apply IH..].
    destruct (lm_Prefix m =? prefix s)%string eqn:Ep; breflect.
    + fold (protected_items items).
      replace (ms ++ m :: protected_items items) with ((ms ++ [m]) ++ protected_items items)
        by (by rewrite <- app_assoc).
      pose proof (consume_protected ms m Hg Ep) as Hc.
      destruct (consumeLogicalMessage m (state_of ms)) as [s' [e|]] eqn:El.
      * right. destruct Hc as [Hng He]. exists s', e. split; [simpl; by rewrite El|].
        split; [|done]. intros Hg'. by apply Hng, (good_prefix _ _ Hg').
      * destruct Hc as [Hg' ->]. rewrite (Hnext (state_of (ms ++ [m]))) by (simpl; by rewrite El).
        by apply IH.
    + assert (consumeLogicalMessage m (state_of ms) = (state_of ms, None)) as El.
      { unfold consumeLogicalMessage. simpl. by rewrite (proj2 (String.eqb_neq _ _) Ep). }
      rewrite (Hnext (state_of ms)) by (simpl; by rewrite El). by apply IH.
Qed.

End Transaction.

(** A whole transaction, with whatever follows it. *)
Lemma consume_transaction s t rest :
  sm_wf s → inTransaction s = false →
  (tx_ok s t ∧ consume_all (tx_messages t ++ rest) s =
     let '(s', bs, e) := consume_all rest (reset s) in (s', batch_of s t :: bs, e)) ∨
  (¬ tx_ok s t ∧ ∃ s' e, consume_all (tx_messages t ++ rest) s = (s', [], Some e) ∧
     (errors_is e ErrProtectedEvent = true ∨ errors_is e ErrTransactionLimit = true)).
Proof.
  intros Hwf Hidle. unfold tx_messages. rewrite <- app_comm_cons, <- app_assoc.
  cbn [consume_all Consume]. rewrite Hidle.
  change (MkSM (prefix s) (maxEventBytes s) (maxEvents s) (maxBytes s) true (tx_xid t) [] 0)
    with (state_of s (tx_xid t) []).
  destruct (consume_items s Hwf (tx_xid t) (tx_items t) []
    ([CommitMessage (tx_CommitLSN t) (tx_EndLSN t) (tx_CommitTime t)] ++ rest) (good_nil s Hwf))
    as [[-> Hg]|(s' & e & -> & Hng & He)].
  - left. split; [exact Hg|]. cbn [consume_all Consume app]. simpl. rewrite stamped_events.
    change (reset (state_of s (tx_xid t) (protected_items s (tx_items t)))) with (reset s).
    by destruct (consume_all rest (reset s)) as [[s' bs] e].
  - right. split; [exact Hng|]. exists s', e. done.
Qed.

(** C19. Transaction assembly refines the stream's own structure: from an
    idle machine, Begin, the items and Commit of a transaction yield exactly
    one batch with its protected messages in order, when limits and
    validation allow it, and leave the machine idle; otherwise no batch at
    all and a fatal error. *)
Theorem transaction_assembled s t :
  sm_wf s → inTransaction s = false →
  match consume_all (tx_messages t) s with
  | (s', bs, None) => tx_ok s t ∧ bs = [batch_of s t] ∧ s' = reset s
  | (_, bs, Some e) => ¬ tx_ok s t ∧ bs = [] ∧
      (errors_is e ErrProtectedEvent = true ∨ errors_is e ErrTransactionLimit = true)
  end.
Proof.
  intros Hwf Hidle. pose proof (consume_transaction s t [] Hwf Hidle) as H.
  rewrite app_nil_r in H. destruct H as [[Hok ->]|(Hno & s' & e & -> & He)]; done.
Qed.

(** What a batch satisfies: the spool's checks of its events, and the limits. *)
Record batch_fits (eventBytes events bytes : Z) (b : CommittedBatch) : Prop := {
  bf_events : events_valid b (cb_Events b);
  bf_count : cb_Events b = [] ∨ Z.of_nat (length (cb_Events b)) <= events;
  bf_sizes : Forall (λ e, len (ce_Payload e) <= eventBytes) (cb_Events b);
  bf_total : total_bytes (cb_Events b) <= bytes;
}.

Lemma imap_payloads (f : nat → CapturedEvent → CapturedEvent) es :
  (∀ i e, ce_Payload (f i e) = ce_Payload e) → total_bytes (imap f es) = total_bytes es.
Proof.
  revert f. induction es as [|e es IH]; intros f Hf; [done|]. simpl. rewrite Hf. f_equal.
  apply IH. intros i x. apply Hf.
Qed.

Lemma Consume_batch m s s' b :
  sm_wf s → Consume m s = (s', inr (Some b)) →
  batch_fits (maxEventBytes s) (maxEvents s) (maxBytes s) b ∧
  m = CommitMessage (cb_CommitLSN b) (cb_CommitEndLSN b) (cb_CommitTime b).
Proof.
  intros Hwf E. destruct m as [xid|lm|cl el ct| |]; simpl in E; try done.
  - by destruct (inTransaction s).
  - by destruct (consumeLogicalMessage lm s) as [? [?|]].
  - destruct (negb _); [done|]. injection E as _ <-. split; [|done].
    destruct Hwf as [_ Hc [Hb Hbl] Ha _]. split; simpl.
    + intros i c Hi. rewrite list_lookup_imap in Hi.
      destruct (sm_events s !! i) as [e|] eqn:Ei; [|done]. injection Hi as <-.
      pose proof (Forall_lookup_1 _ _ _ _ Ha Ei) as (H1 & H2 & H3 & H4 & _).
      unfold validateCapturedEvent. simpl. rewrite H4, !Z.eqb_refl, String.eqb_refl.
      by rewrite !(proj2 (String.eqb_neq _ _)).
    + rewrite length_imap. destruct Hc as [->|]; auto.
    + apply Forall_lookup. intros i c Hi. rewrite list_lookup_imap in Hi.
      destruct (sm_events s !! i) as [e|] eqn:Ei; [|done]. injection Hi as <-.
      by pose proof (Forall_lookup_1 _ _ _ _ Ha Ei) as (_ & _ & _ & _ & ?).
    + rewrite imap_payloads by done. lia.
Qed.

(** The limits of a machine do not change. *)
Lemma Consume_limits m s :
  let s' := (Consume m s).1 in
  maxEventBytes s' = maxEventBytes s ∧ maxEvents s' = maxEvents s ∧ maxBytes s' = maxBytes s.
Proof.
  destruct m as [xid|m|cl el t| |]; simpl; try done.
  - by destruct (inTransaction s).
  - unfold consumeLogicalMessage. repeat case_match; by simplify_eq.
  - by destruct (negb _).
Qed.

Lemma consume_all_batches ms s s' bs err b :
  sm_wf s → consume_all ms s = (s', bs, err) → b ∈ bs →
  batch_fits (maxEventBytes s) (maxEvents s) (maxBytes s) b ∧
  CommitMessage (cb_CommitLSN b) (cb_CommitEndLSN b) (cb_CommitTime b) ∈ ms.
Proof.
  revert s bs. induction ms as [|m ms IH]; intros s bs Hwf E Hb; simpl in E.
  { injection E as _ <- _. by apply not_elem_of_nil in Hb. }
  pose proof (Consume_wf m s Hwf) as Hwf'. pose proof (Consume_limits m s) as (L1 & L2 & L3).
  destruct (Consume m s) as [s1 [e|ob]] eqn:Ec; simpl in Hwf', L1, L2, L3.
  { injection E as _ <- _. by apply not_elem_of_nil in Hb. }
  destruct (consume_all ms s1) as [[s2 bs'] err'] eqn:Ea. injection E as -> <- ->.
  assert (b ∈ bs' → batch_fits (maxEventBytes s) (maxEvents s) (maxBytes s) b ∧
    CommitMessage (cb_CommitLSN b) (cb_CommitEndLSN b) (cb_CommitTime b) ∈ m :: ms) as Hrest.
  { intros Hin. destruct (IH s1 bs' Hwf' Ea Hin) as [H1 H2]. rewrite L1, L2, L3 in H1.
    split; [done | by right]. }
  destruct ob as [b0|]; [|by apply Hrest].
  apply elem_of_cons in Hb as [->|Hin]; [|by apply Hrest].
  destruct (Consume_batch m s s1 b0 Hwf Ec) as [H1 H2]. split; [done|]. rewrite <- H2. left.
Qed.


End Props.
