(* ===== verification/DiskGuard.v ===== *)
(** * DiskGuard: admission by free space, internal/diskspace

    [availableBytes] of statfs_unix.go and the [Guard] of guard.go, whose two
    thresholds keep capture from flapping.  The mutexes serialise [Check] and
    [Snapshot], so each is one step on the guard's state.  The clock reading
    and the probe's answer are arguments. *)

From S2P Require Import Prelude Timestamp.

(** [math.MaxUint64/uint64(blockSize)] guards the product. *)
Definition availableBytes (blocks blockSize : Z) : result Z :=
  if (blockSize <=? 0) || (maxUint64 / uint64 blockSize <? blocks) then
    inl (errorf "invalid filesystem space measurement")
  else inr (uint64 (blocks * uint64 blockSize)).

(** [AvailableBytes] on Linux and macOS: [stat] is the answer of [statfs],
    free blocks and block size. *)
Definition AvailableBytes (stat : result (Z * Z)) : result Z :=
  match stat with
  | inl e => inl e
  | inr (bavail, bsize) => availableBytes bavail (int64 bsize)
  end.

(** [AvailableBytes] elsewhere. *)
Definition AvailableBytes_other : result Z :=
  inl (errorf "disk-space protection requires Linux or macOS").

(** [diskspace.Status]. *)
Record Status := MkStatus {
  st_Enabled : bool;
  st_Paused : bool;
  st_Reason : string;
  st_AvailableBytes : Z;
  st_SampledAt : time;
  st_SampleFresh : bool;
  st_PauseBelowBytes : Z;
  st_ResumeAtBytes : Z;
}.

(** [diskspace.Guard]. *)
Record Guard := MkGuard {
  g_interval : duration;
  g_status : Status;
  g_sampleOK : bool;
}.

(** [config.DiskSpaceConfig]. *)
Record DiskSpaceConfig := MkDiskSpace {
  PauseBelowBytes : Z;
  ResumeAtBytes : Z;
  CheckInterval : duration;
  CheckIntervalValue : string;
}.

(** [New] / [NewWithProbe]. *)
Definition NewGuard (cfg : DiskSpaceConfig) : Guard :=
  MkGuard (if CheckInterval cfg <=? 0 then 5 * Second else CheckInterval cfg)
    (MkStatus (0 <? PauseBelowBytes cfg) false "" 0 zeroTime false
       (PauseBelowBytes cfg) (ResumeAtBytes cfg))
    false.

(** [Interval]. *)
Definition Interval (g : Guard) : duration := g_interval g.

(** [Snapshot]. *)
Definition Snapshot (now : time) (g : Guard) : Status :=
  let s := g_status g in
  MkStatus (st_Enabled s) (st_Paused s) (st_Reason s) (st_AvailableBytes s) (st_SampledAt s)
    (st_Enabled s && g_sampleOK g && negb (IsZero (st_SampledAt s)) &&
     (Sub now (st_SampledAt s) <=? int64 (2 * g_interval g)))
    (st_PauseBelowBytes s) (st_ResumeAtBytes s).

Definition pausedError : error := wrapf ErrPaused "".

(** [Check]: [None] is [nil]. *)
Definition Check (now : time) (probe : result Z) (force : bool) (g : Guard) : Guard * option error :=
  let previous := g_status g in
  if negb (st_Enabled previous) then (g, None)
  else if negb force && negb (IsZero (st_SampledAt previous)) &&
          (Sub now (st_SampledAt previous) <? g_interval g) then
    (g, if st_Paused previous then Some pausedError else None)
  else
    let '(paused, reason, avail) :=
      match probe with
      | inl _ => (true, "disk_check_failed", st_AvailableBytes previous)
      | inr available =>
          if (available <? uint64 (st_PauseBelowBytes previous)) ||
             (st_Paused previous && (available <? uint64 (st_ResumeAtBytes previous)))
          then (true, "low_disk", available)
          else (false, "", available)
      end in
    (MkGuard (g_interval g)
       (MkStatus (st_Enabled previous) paused reason avail now (st_SampleFresh previous)
          (st_PauseBelowBytes previous) (st_ResumeAtBytes previous))
       (match probe with inl _ => false | inr _ => true end),
     if paused : bool then Some pausedError else None).

(** ** Properties *)

(** The byte count is the exact product of blocks and block size
    whenever it is reported: it never wraps, and a product beyond 64 bits or
    a non-positive block size is an error. *)
Theorem available_exact blocks blockSize :
  in_uint64 blocks → in_int64 blockSize →
  match availableBytes blocks blockSize with
  | inr n => n = blocks * blockSize ∧ in_uint64 n ∧ 0 < blockSize
  | inl _ => blockSize <= 0 ∨ 2 ^ 64 <= blocks * blockSize
  end.
Proof.
  unfold in_uint64, in_int64, availableBytes. intros Hb Hs.
  destruct (blockSize <=? 0) eqn:E1; breflect; [by left|]. simpl.
  rewrite (uint64_id blockSize) by (unfold in_uint64; lia). unfold maxUint64.
  assert (blocks <= (2 ^ 64 - 1) / blockSize ↔ blocks * blockSize <= 2 ^ 64 - 1) as Hdiv.
  { split; intros H; [|apply Z.div_le_lower_bound; lia].
    pose proof (Z.mul_div_le (2 ^ 64 - 1) blockSize ltac:(lia)). nia. }
  destruct (_ <? blocks) eqn:E2; breflect.
  - right. destruct (Z.le_gt_cases (blocks * blockSize) (2 ^ 64 - 1)) as [H|H]; [|lia].
    apply Hdiv in H. lia.
  - apply Hdiv in E2. rewrite uint64_id by (unfold in_uint64; nia).
    unfold in_uint64. split; [done|]. nia.
Qed.

(** Feeding samples: each is a clock reading, a probe answer and the flag. *)
Fixpoint checks (l : list (time * result Z * bool)) (g : Guard) : Guard :=
  match l with
  | [] => g
  | (now, probe, force) :: l' => checks l' (Check now probe force g).1
  end.

(** A sample that lets a paused guard resume. *)
Definition recovers (cfg : DiskSpaceConfig) (x : time * result Z * bool) : Prop :=
  match x.1.2 with
  | inr n => PauseBelowBytes cfg <= n ∧ ResumeAtBytes cfg <= n
  | inl _ => False
  end.

Definition guard_of (cfg : DiskSpaceConfig) (g : Guard) : Prop :=
  st_Enabled (g_status g) = true ∧ st_PauseBelowBytes (g_status g) = PauseBelowBytes cfg ∧
  st_ResumeAtBytes (g_status g) = ResumeAtBytes cfg.

Lemma Check_guard_of cfg now probe force g :
  guard_of cfg g → guard_of cfg (Check now probe force g).1.
Proof.
  intros (H1 & H2 & H3). unfold Check. rewrite H1. simpl. destruct (_ && _); [done|].
  destruct probe as [e|n]; [done|]. by destruct (_ || _).
Qed.

Lemma Check_paused now probe force g :
  st_Enabled (g_status g) = true →
  (Check now probe force g).2 =
    if st_Paused (g_status (Check now probe force g).1) then Some pausedError else None.
Proof.
  intros He. unfold Check. rewrite He. simpl. destruct (_ && _); [done|].
  destruct probe as [e|n]; [done|]. by destruct (_ || _).
Qed.

Lemma Check_stays_paused cfg now probe force g :
  in_uint64 (PauseBelowBytes cfg) → in_uint64 (ResumeAtBytes cfg) → guard_of cfg g →
  st_Paused (g_status g) = true → ¬ recovers cfg (now, probe, force) →
  st_Paused (g_status (Check now probe force g).1) = true.
Proof.
  intros Hp Hr (H1 & H2 & H3) Hpa Hno. unfold Check. rewrite H1. simpl.
  destruct (_ && _); [done|]. destruct probe as [e|n]; [done|].
  rewrite Hpa, H2, H3, !uint64_id by done. simpl.
  destruct (_ || _) eqn:E; [done|]. breflect. destruct Hno. unfold recovers. simpl. lia.
Qed.

(** Hysteresis: an enabled guard that is paused stays paused, and every
    check on the way reports [ErrPaused], as long as no sample reaches both
    thresholds, however many checks are made. *)
Theorem pause_is_sticky cfg l g now probe force :
  in_uint64 (PauseBelowBytes cfg) → in_uint64 (ResumeAtBytes cfg) → guard_of cfg g →
  st_Paused (g_status g) = true → Forall (λ x, ¬ recovers cfg x) (l ++ [(now, probe, force)]) →
  (Check now probe force (checks l g)).2 = Some pausedError.
Proof.
  intros Hp Hr Hg Hpa Hl. revert g Hg Hpa.
  induction l as [|[[t p] f] l IH]; intros g Hg Hpa; simpl in Hl; apply Forall_cons in Hl as [Hx Hl].
  - simpl. rewrite Check_paused by apply Hg.
    by rewrite (Check_stays_paused cfg).
  - simpl. apply IH; [done | by apply Check_guard_of | by apply (Check_stays_paused cfg)].
Qed.

(** A forced check that admits a batch has just measured the disk: the
    probe succeeded and found at least the pause threshold, and at least the
    resume threshold if capture was paused. *)
Theorem forced_check_admits cfg now probe g :
  in_uint64 (PauseBelowBytes cfg) → in_uint64 (ResumeAtBytes cfg) → guard_of cfg g →
  (Check now probe true g).2 = None →
  ∃ n, probe = inr n ∧ PauseBelowBytes cfg <= n ∧
    (st_Paused (g_status g) = true → ResumeAtBytes cfg <= n) ∧
    st_Paused (g_status (Check now probe true g).1) = false ∧
    st_SampledAt (g_status (Check now probe true g).1) = now.
Proof.
  intros Hp Hr (H1 & H2 & H3). unfold Check. rewrite H1. simpl.
  destruct probe as [e|n]; [done|]. rewrite H2, H3, !uint64_id by done.
  destruct (_ || _) eqn:E; [done|]. intros _. exists n. simpl. breflect.
  split; [done|]. split; [lia|]. split; [|done]. intros Hpa. rewrite Hpa in *. simpl in *.
  breflect. lia.
Qed.
