(* ===== verification/Config.v ===== *)
(** * Config: defaults and validation of the configuration (internal/config)

    [setDefaultsAndValidate] of the three configuration structs.  The YAML
    decoder is outside; the answers of [net/url] and [net/netip] and the
    process environment are arguments. *)

From Stdlib Require Import Ascii.
From S2P Require Import Prelude Rows Text Timestamp TimeParse Duration DiskGuard.

Definition CurrentVersion : Z := 1.
Definition RequiredPrefix : string := "writerelay.v1".
Definition DefaultMaxEventBytes : Z := 256 * 1024.

(** ** Data *)

Record PostgresConfig := MkPostgres {
  DSN : string;
  DSNEnv : string;
  Slot : string;
  Publication : string;
  MessagePrefix : string;
  StatusInterval : duration;
  StatusIntervalValue : string;
  CreateSlotIfMissing : bool;
  MaxTransactionEvents : Z;
  MaxTransactionBytes : Z;
}.

Record SpoolConfig := MkSpoolConfig {
  Path : string;
  MaxEventBytes : Z;
  DiskSpace : DiskSpaceConfig;
}.

Record RetryConfig := MkRetry {
  InitialDelay : duration;
  InitialDelayValue : string;
  MaxDelay : duration;
  MaxDelayValue : string;
  MaxAttempts : Z;
}.

Record SinkConfig := MkSinkConfig {
  sk_Name : string;
  sk_Type : string;
  sk_URL : string;
  AuthorizationEnv : string;
  SigningSecretEnv : string;
  AllowInsecureHTTP : bool;
}.

Record DeliveryConfig := MkDeliveryConfig {
  PollInterval : duration;
  PollIntervalValue : string;
  RequestTimeout : duration;
  RequestTimeoutValue : string;
  Retry : RetryConfig;
  Sinks : list SinkConfig;
}.

Record MonitoringConfig := MkMonitoring {
  Listen : string;
  SampleInterval : duration;
  SampleIntervalValue : string;
}.

Record LoggingConfig := MkLogging { Level : string; Format : string }.

Record Config := MkConfig {
  Version : Z;
  Postgres : PostgresConfig;
  SpoolSection : SpoolConfig;
  DeliverySection : DeliveryConfig;
  Monitoring : MonitoringConfig;
  Logging : LoggingConfig;
}.

(** What the code reads of a [url.URL]. *)
Record URL := MkURL { Scheme : string; Host : string; HasUser : bool; Fragment : string }.

(** ** Patterns *)

Fixpoint all_bytes (p : ascii → bool) (s : string) : bool :=
  match s with
  | "" => true
  | String c s' => p c && all_bytes p s'
  end.

Definition byte_between (lo hi : ascii) (c : ascii) : bool :=
  (N_of_ascii lo <=? N_of_ascii c)%N && (N_of_ascii c <=? N_of_ascii hi)%N.

Definition is_lower (c : ascii) : bool := byte_between "a" "z" c.
Definition is_upper (c : ascii) : bool := byte_between "A" "Z" c.

(** [^[a-z_][a-z0-9_]{0,62}$]. *)
Definition identifierPattern (s : string) : bool :=
  match s with
  | "" => false
  | String c s' =>
      (is_lower c || (c =? "_")%char) &&
      all_bytes (λ d, is_lower d || is_digit d || (d =? "_")%char) s' &&
      (String.length s' <=? 62)%nat
  end.

(** [^[A-Z_][A-Z0-9_]*$]. *)
Definition envPattern (s : string) : bool :=
  match s with
  | "" => false
  | String c s' =>
      (is_upper c || (c =? "_")%char) &&
      all_bytes (λ d, is_upper d || is_digit d || (d =? "_")%char) s'
  end.

(** [strings.ToLower] of an ASCII text. *)
Fixpoint to_lower (s : string) : string :=
  match s with
  | "" => ""
  | String c s' => String (if is_upper c then ascii_of_N (N_of_ascii c + 32) else c) (to_lower s')
  end.

(** ** Checks *)

(** [if cond { return err }]. *)
Notation "'reject?' b 'with' m 'in' k" := (if b then inl (errorf m) else k)
  (at level 10, b at level 100, m at level 9, k at level 200).
Notation "'try?' x := m 'in' k" := (match m with inl e => inl e | inr x => k end)
  (at level 10, x pattern, m at level 100, k at level 200).

(** [if value == "" { value = d }] and [if n == 0 { n = d }]. *)
Definition default_string (d value : string) : string := if (value =? "")%string then d else value.
Definition default_int (d n : Z) : Z := if n =? 0 then d else n.

(** [boundedDuration]. *)
Definition boundedDuration (value : string) (minimum maximum : duration) : result duration :=
  match ParseDuration value with
  | None => inl (errorf "%s: %w")
  | Some d =>
      reject? (d <? minimum) || (maximum <? d) with "%s must be between %s and %s" in
      inr d
  end.

(** [validateOptionalEnvironmentName]. *)
Definition validateOptionalEnvironmentName (value : string) : result unit :=
  if (value =? "")%string then inr tt
  else
    reject? negb (envPattern value) with "%s must be an uppercase environment variable name" in
    inr tt.

(** [(c *DiskSpaceConfig) setDefaultsAndValidate]. *)
Definition validate_disk_space (c : DiskSpaceConfig) : result DiskSpaceConfig :=
  reject? (PauseBelowBytes c <? 0) || (ResumeAtBytes c <? 0)
    with "spool.disk_space thresholds must be non-negative byte counts" in
  reject? (PauseBelowBytes c =? 0) && negb (ResumeAtBytes c =? 0)
    with "spool.disk_space.resume_at_bytes requires pause_below_bytes" in
  reject? negb (PauseBelowBytes c =? 0) && (ResumeAtBytes c <=? PauseBelowBytes c)
    with "spool.disk_space.resume_at_bytes must exceed pause_below_bytes" in
  let value := default_string "5s" (CheckIntervalValue c) in
  try? interval := boundedDuration value Second Minute in
  inr (MkDiskSpace (PauseBelowBytes c) (ResumeAtBytes c) interval value).

Section Validate.
Context (url_Parse : string → option URL) (ParseAddrPort : string → option Z).

(** The case ["webhook"] of the loop over the sinks. *)
Definition validate_webhook (sink : SinkConfig) : result unit :=
  match url_Parse (sk_URL sink) with
  | None => inl (errorf "%s.url must be an absolute HTTP(S) URL")
  | Some endpoint =>
      reject? (Host endpoint =? "")%string with "%s.url must be an absolute HTTP(S) URL" in
      reject? HasUser endpoint || negb (Fragment endpoint =? "")%string
        with "%s.url must not contain user information or a fragment" in
      let scheme := to_lower (Scheme endpoint) in
      reject? (scheme =? "http")%string && negb (AllowInsecureHTTP sink)
        with "%s.url requires HTTPS unless allow_insecure_http is true" in
      reject? negb ((scheme =? "https")%string || (scheme =? "http")%string)
        with "%s.url must use HTTP or HTTPS" in
      try? _ := validateOptionalEnvironmentName (AuthorizationEnv sink) in
      validateOptionalEnvironmentName (SigningSecretEnv sink)
  end.

(** One iteration of that loop: the names seen so far. *)
Definition validate_sink (names : gset string) (sink : SinkConfig) : result (gset string) :=
  reject? negb (identifierPattern (sk_Name sink))
    with "%s.name must match ^[a-z_][a-z0-9_]{0,62}$" in
  reject? bool_decide (sk_Name sink ∈ names) with "%s.name %q is duplicated" in
  try? _ :=
    (if (sk_Type sink =? "webhook")%string then validate_webhook sink
     else if (sk_Type sink =? "stdout")%string then
       reject? negb (sk_URL sink =? "")%string || negb (AuthorizationEnv sink =? "")%string
         || negb (SigningSecretEnv sink =? "")%string || AllowInsecureHTTP sink
         with "%s stdout sink does not accept webhook fields" in
       inr tt
     else inl (errorf "%s.type must be webhook or stdout")) in
  inr ({[sk_Name sink]} ∪ names).

Fixpoint validate_sinks (names : gset string) (sinks : list SinkConfig) : result unit :=
  match sinks with
  | [] => inr tt
  | sink :: rest => try? names' := validate_sink names sink in validate_sinks names' rest
  end.

(** The retry part of [(c *DeliveryConfig) setDefaultsAndValidate]. *)
Definition validate_retry (c : RetryConfig) : result RetryConfig :=
  let initialValue := default_string "1s" (InitialDelayValue c) in
  try? initialDelay := boundedDuration initialValue (100 * Millisecond) Hour in
  let maxValue := default_string "5m" (MaxDelayValue c) in
  try? maxDelay := boundedDuration maxValue (100 * Millisecond) (24 * Hour) in
  reject? maxDelay <? initialDelay
    with "delivery.retry.max_delay must not be less than initial_delay" in
  let attempts := default_int 10 (MaxAttempts c) in
  reject? (attempts <? 1) || (1000 <? attempts)
    with "delivery.retry.max_attempts must be between 1 and 1000" in
  inr (MkRetry initialDelay initialValue maxDelay maxValue attempts).

(** [(c *DeliveryConfig) setDefaultsAndValidate]. *)
Definition validate_delivery (c : DeliveryConfig) : result DeliveryConfig :=
  let pollValue := default_string "1s" (PollIntervalValue c) in
  try? pollInterval := boundedDuration pollValue (50 * Millisecond) Minute in
  let timeoutValue := default_string "10s" (RequestTimeoutValue c) in
  try? requestTimeout := boundedDuration timeoutValue (100 * Millisecond) (2 * Minute) in
  try? retry := validate_retry (Retry c) in
  try? _ := validate_sinks ∅ (Sinks c) in
  inr (MkDeliveryConfig pollInterval pollValue requestTimeout timeoutValue retry (Sinks c)).

(** The monitoring part of [(c *Config) setDefaultsAndValidate]. *)
Definition validate_monitoring (c : MonitoringConfig) : result MonitoringConfig :=
  reject? negb (Listen c =? "")%string &&
      match ParseAddrPort (Listen c) with Some port => port =? 0 | None => true end
    with "monitoring.listen must be an IP address and port between 1 and 65535 (for example 127.0.0.1:9090)" in
  let value := default_string "15s" (SampleIntervalValue c) in
  try? interval := boundedDuration value Second (5 * Minute) in
  inr (MkMonitoring (Listen c) interval value).

(** The [postgres] part. *)
Definition validate_postgres (c : PostgresConfig) : result PostgresConfig :=
  reject? Bool.eqb (DSN c =? "")%string (DSNEnv c =? "")%string
    with "postgres requires exactly one of dsn and dsn_env" in
  reject? negb (DSNEnv c =? "")%string && negb (envPattern (DSNEnv c))
    with "postgres.dsn_env must be an uppercase environment variable name" in
  reject? negb (identifierPattern (Slot c)) with "postgres.slot must match ^[a-z_][a-z0-9_]{0,62}$" in
  reject? negb (identifierPattern (Publication c))
    with "postgres.publication must match ^[a-z_][a-z0-9_]{0,62}$" in
  reject? negb (MessagePrefix c =? RequiredPrefix)%string
    with "postgres.message_prefix must be exactly %q" in
  let value := default_string "10s" (StatusIntervalValue c) in
  try? interval := boundedDuration value Second (5 * Minute) in
  let events := default_int 10000 (MaxTransactionEvents c) in
  reject? (events <? 1) || (1000000 <? events)
    with "postgres.max_transaction_events must be between 1 and 1000000" in
  let bytes := default_int (8 * 1024 * 1024) (MaxTransactionBytes c) in
  reject? bytes <? DefaultMaxEventBytes with "postgres.max_transaction_bytes must be at least %d" in
  inr (MkPostgres (DSN c) (DSNEnv c) (Slot c) (Publication c) (MessagePrefix c) interval value
         (CreateSlotIfMissing c) events bytes).

(** The [spool] part. *)
Definition validate_spool (c : SpoolConfig) : result SpoolConfig :=
  reject? (Path c =? "")%string with "spool.path is required" in
  let bytes := default_int DefaultMaxEventBytes (MaxEventBytes c) in
  reject? (bytes <? 1) || (DefaultMaxEventBytes <? bytes)
    with "spool.max_event_bytes must be between 1 and %d" in
  try? disk := validate_disk_space (DiskSpace c) in
  inr (MkSpoolConfig (Path c) bytes disk).

(** The [logging] part. *)
Definition validate_logging (c : LoggingConfig) : result LoggingConfig :=
  let level := default_string "info" (Level c) in
  reject? negb ((level =? "debug") || (level =? "info") || (level =? "warn") || (level =? "error"))%string
    with "logging.level must be debug, info, warn, or error" in
  let format := default_string "text" (Format c) in
  reject? negb ((format =? "text") || (format =? "json"))%string
    with "logging.format must be text or json" in
  inr (MkLogging level format).

(** [(c *Config) setDefaultsAndValidate]. *)
Definition setDefaultsAndValidate (c : Config) : result Config :=
  try? monitoring := validate_monitoring (Monitoring c) in
  reject? negb (Version c =? CurrentVersion) with "configuration version must be %d" in
  try? postgres := validate_postgres (Postgres c) in
  try? spool := validate_spool (SpoolSection c) in
  try? delivery := validate_delivery (DeliverySection c) in
  try? logging := validate_logging (Logging c) in
  inr (MkConfig (Version c) postgres spool delivery monitoring logging).

(** [Decode], from the answer of the YAML decoder. *)
Definition Decode (decoded : result Config) : result Config :=
  match decoded with
  | inl _ => inl (errorf "decode YAML: %w")
  | inr cfg => setDefaultsAndValidate cfg
  end.

(** [Load]: the file can be opened and what the decoder makes of it. *)
Definition Load (file : option (result Config)) : result Config :=
  match file with
  | None => inl (errorf "open config: %w")
  | Some decoded =>
      match Decode decoded with
      | inl _ => inl (errorf "load config %q: %w")
      | inr cfg => inr cfg
      end
  end.

End Validate.

(** [(c Config) PostgreSQLDSN]. *)
Definition PostgreSQLDSN (LookupEnv : string → option string) (c : Config) : result string :=
  if negb (DSN (Postgres c) =? "")%string then inr (DSN (Postgres c))
  else
    match LookupEnv (DSNEnv (Postgres c)) with
    | Some value => if (value =? "")%string then inl (errorf "environment variable %s is not set") else inr value
    | None => inl (errorf "environment variable %s is not set")
    end.

(** ** Specification *)

(** A name of at most 63 bytes among lower-case letters, digits and the
    underscore that does not start with a digit. *)
Definition identifier (s : string) : Prop :=
  (1 <= String.length s <= 63)%nat ∧
  (∀ c, c ∈ String.list_ascii_of_string s → (97 <= N_of_ascii c <= 122 ∨ 48 <= N_of_ascii c <= 57 ∨
     N_of_ascii c = 95)%N) ∧
  (∀ c, head (String.list_ascii_of_string s) = Some c → ¬ (48 <= N_of_ascii c <= 57)%N).

(** A non-empty name among upper-case letters, digits and the underscore. *)
Definition environment_name (s : string) : Prop :=
  s ≠ "" ∧
  (∀ c, c ∈ String.list_ascii_of_string s → (65 <= N_of_ascii c <= 90 ∨ 48 <= N_of_ascii c <= 57 ∨
     N_of_ascii c = 95)%N) ∧
  (∀ c, head (String.list_ascii_of_string s) = Some c → ¬ (48 <= N_of_ascii c <= 57)%N).

Record sink_valid (url_Parse : string → option URL) (s : SinkConfig) : Prop := {
  sv_name : identifier (sk_Name s);
  sv_type : sk_Type s = "webhook" ∨ sk_Type s = "stdout";
  sv_webhook : sk_Type s = "webhook" → ∃ u, url_Parse (sk_URL s) = Some u ∧ Host u ≠ "" ∧
    HasUser u = false ∧ Fragment u = "" ∧
    (to_lower (Scheme u) = "https" ∨ (to_lower (Scheme u) = "http" ∧ AllowInsecureHTTP s = true));
  sv_env : (AuthorizationEnv s = "" ∨ environment_name (AuthorizationEnv s)) ∧
    (SigningSecretEnv s = "" ∨ environment_name (SigningSecretEnv s));
  sv_stdout : sk_Type s = "stdout" →
    sk_URL s = "" ∧ AuthorizationEnv s = "" ∧ SigningSecretEnv s = "" ∧ AllowInsecureHTTP s = false;
}.

(** A duration is the value of its text and lies in its range. *)
Definition in_range (value : string) (d lo hi : duration) : Prop :=
  ParseDuration value = Some d ∧ lo <= d <= hi.

(** What the rest of the program relies on. *)
Record config_valid (url_Parse : string → option URL) (ParseAddrPort : string → option Z) (c : Config)
    : Prop := {
  cv_version : Version c = 1;
  cv_dsn : (DSN (Postgres c) = "") ↔ (DSNEnv (Postgres c) ≠ "");
  cv_dsn_env : DSNEnv (Postgres c) ≠ "" → environment_name (DSNEnv (Postgres c));
  cv_slot : identifier (Slot (Postgres c));
  cv_publication : identifier (Publication (Postgres c));
  cv_prefix : MessagePrefix (Postgres c) = "writerelay.v1";
  cv_status : in_range (StatusIntervalValue (Postgres c)) (StatusInterval (Postgres c)) Second (5 * Minute);
  cv_events : 1 <= MaxTransactionEvents (Postgres c) <= 1000000;
  cv_bytes : 262144 <= MaxTransactionBytes (Postgres c);
  cv_path : Path (SpoolSection c) ≠ "";
  cv_event_bytes : 1 <= MaxEventBytes (SpoolSection c) <= 262144;
  cv_disk : (PauseBelowBytes (DiskSpace (SpoolSection c)) = 0 ∧
             ResumeAtBytes (DiskSpace (SpoolSection c)) = 0) ∨
    0 < PauseBelowBytes (DiskSpace (SpoolSection c)) < ResumeAtBytes (DiskSpace (SpoolSection c));
  cv_check : in_range (CheckIntervalValue (DiskSpace (SpoolSection c)))
    (CheckInterval (DiskSpace (SpoolSection c))) Second Minute;
  cv_poll : in_range (PollIntervalValue (DeliverySection c)) (PollInterval (DeliverySection c))
    (50 * Millisecond) Minute;
  cv_timeout : in_range (RequestTimeoutValue (DeliverySection c)) (RequestTimeout (DeliverySection c))
    (100 * Millisecond) (2 * Minute);
  cv_initial : in_range (InitialDelayValue (Retry (DeliverySection c)))
    (InitialDelay (Retry (DeliverySection c))) (100 * Millisecond) Hour;
  cv_max : in_range (MaxDelayValue (Retry (DeliverySection c)))
    (MaxDelay (Retry (DeliverySection c))) (100 * Millisecond) (24 * Hour);
  cv_delays : InitialDelay (Retry (DeliverySection c)) <= MaxDelay (Retry (DeliverySection c));
  cv_attempts : 1 <= MaxAttempts (Retry (DeliverySection c)) <= 1000;
  cv_names : NoDup (map sk_Name (Sinks (DeliverySection c)));
  cv_sinks : Forall (sink_valid url_Parse) (Sinks (DeliverySection c));
  cv_listen : Listen (Monitoring c) ≠ "" → ∃ port, ParseAddrPort (Listen (Monitoring c)) = Some port ∧ port ≠ 0;
  cv_sample : in_range (SampleIntervalValue (Monitoring c)) (SampleInterval (Monitoring c)) Second (5 * Minute);
  cv_level : Level (Logging c) ∈ ["debug"; "info"; "warn"; "error"];
  cv_format : Format (Logging c) ∈ ["text"; "json"];
}.

(** The setting of the file, or its documented default where the file has
    none. *)
Definition or_default {A} `{EqDecision A} (none : A) (d a a' : A) : Prop :=
  (a = none → a' = d) ∧ (a ≠ none → a' = a).

(** [c'] has the settings of [c], with the documented defaults. *)
Record config_of (c c' : Config) : Prop := {
  co_postgres : (DSN (Postgres c'), DSNEnv (Postgres c'), Slot (Postgres c'), Publication (Postgres c'),
      CreateSlotIfMissing (Postgres c')) =
    (DSN (Postgres c), DSNEnv (Postgres c), Slot (Postgres c), Publication (Postgres c),
      CreateSlotIfMissing (Postgres c));
  co_status : or_default "" "10s" (StatusIntervalValue (Postgres c)) (StatusIntervalValue (Postgres c'));
  co_events : or_default 0 10000 (MaxTransactionEvents (Postgres c)) (MaxTransactionEvents (Postgres c'));
  co_bytes : or_default 0 8388608 (MaxTransactionBytes (Postgres c)) (MaxTransactionBytes (Postgres c'));
  co_spool : (Path (SpoolSection c'), PauseBelowBytes (DiskSpace (SpoolSection c')),
      ResumeAtBytes (DiskSpace (SpoolSection c'))) =
    (Path (SpoolSection c), PauseBelowBytes (DiskSpace (SpoolSection c)),
      ResumeAtBytes (DiskSpace (SpoolSection c)));
  co_event_bytes : or_default 0 262144 (MaxEventBytes (SpoolSection c)) (MaxEventBytes (SpoolSection c'));
  co_check : or_default "" "5s" (CheckIntervalValue (DiskSpace (SpoolSection c)))
    (CheckIntervalValue (DiskSpace (SpoolSection c')));
  co_poll : or_default "" "1s" (PollIntervalValue (DeliverySection c)) (PollIntervalValue (DeliverySection c'));
  co_timeout : or_default "" "10s" (RequestTimeoutValue (DeliverySection c))
    (RequestTimeoutValue (DeliverySection c'));
  co_initial : or_default "" "1s" (InitialDelayValue (Retry (DeliverySection c)))
    (InitialDelayValue (Retry (DeliverySection c')));
  co_max : or_default "" "5m" (MaxDelayValue (Retry (DeliverySection c)))
    (MaxDelayValue (Retry (DeliverySection c')));
  co_attempts : or_default 0 10 (MaxAttempts (Retry (DeliverySection c)))
    (MaxAttempts (Retry (DeliverySection c')));
  co_sinks : Sinks (DeliverySection c') = Sinks (DeliverySection c);
  co_listen : Listen (Monitoring c') = Listen (Monitoring c);
  co_sample : or_default "" "15s" (SampleIntervalValue (Monitoring c)) (SampleIntervalValue (Monitoring c'));
  co_level : or_default "" "info" (Level (Logging c)) (Level (Logging c'));
  co_format : or_default "" "text" (Format (Logging c)) (Format (Logging c'));
}.

(** ** Soundness *)

(** Invert a successful chain of checks. *)
Ltac unwind H :=
  repeat match type of H with
  | (match ?x with inl _ => _ | inr _ => _ end) = _ => destruct x eqn:?; [discriminate H|]
  | (if ?b then _ else _) = _ => destruct b eqn:?; [discriminate H|]
  | (let _ := _ in _) = _ => cbv zeta in H
  end.
Ltac accepted H := unwind H; breflect.

Lemma bounded_spec value lo hi d : boundedDuration value lo hi = inr d → in_range value d lo hi.
Proof.
  unfold boundedDuration. destruct (ParseDuration value) as [d'|] eqn:Ep; [|done].
  destruct (_ || _) eqn:E; [done|]. intros [= <-]. breflect. split; [done | lia].
Qed.

Lemma all_bytes_spec p s :
  all_bytes p s = true → ∀ c, c ∈ String.list_ascii_of_string s → p c = true.
Proof.
  induction s as [|c s IH]; simpl; [by intros _ c ?%not_elem_of_nil|].
  intros [H1 H2]%andb_true_iff d [->|Hd]%elem_of_cons; auto.
Qed.

(** A letter of the pattern in its byte range. *)
Ltac byte_class :=
  unfold is_lower, is_upper, is_digit, byte_between in *;
  repeat match goal with
  | H : (_ || _) = true |- _ => apply orb_true_iff in H; destruct H
  | H : (_ && _) = true |- _ => apply andb_true_iff in H; destruct H
  | H : (_ <=? _)%N = true |- _ => apply N.leb_le in H
  | H : (_ =? _)%char = true |- _ => apply Ascii.eqb_eq in H; subst
  end;
  simpl in *; lia.

Lemma identifier_spec s : identifierPattern s = true → identifier s.
Proof.
  destruct s as [|c s]; [done|]. unfold identifierPattern. intros H.
  apply andb_true_iff in H as [[Hc Hs]%andb_true_iff Hl%Nat.leb_le].
  split; [simpl; lia|]. split.
  - intros d [->|Hd]%elem_of_cons; [byte_class|].
    apply (all_bytes_spec _ _ Hs) in Hd. byte_class.
  - intros d [= <-]. byte_class.
Qed.

Lemma environment_name_spec s : envPattern s = true → environment_name s.
Proof.
  destruct s as [|c s]; [done|]. unfold envPattern. intros [Hc Hs]%andb_true_iff.
  split; [done|]. split.
  - intros d [->|Hd]%elem_of_cons; [byte_class|].
    apply (all_bytes_spec _ _ Hs) in Hd. byte_class.
  - intros d [= <-]. byte_class.
Qed.

Lemma optional_env_spec v :
  validateOptionalEnvironmentName v = inr tt → v = "" ∨ environment_name v.
Proof.
  unfold validateOptionalEnvironmentName. destruct (v =? "")%string eqn:E; breflect; [by left|].
  destruct (negb _) eqn:E2; [done|]. intros _. breflect. right. by apply environment_name_spec.
Qed.

Lemma or_default_string d v : or_default "" d v (default_string d v).
Proof. unfold default_string. destruct (v =? "")%string eqn:E; breflect; by split. Qed.

Lemma or_default_int d n : or_default 0 d n (default_int d n).
Proof. unfold default_int. destruct (n =? 0) eqn:E; breflect; by split. Qed.

Lemma default_string_idem d v : d ≠ "" → default_string d (default_string d v) = default_string d v.
Proof.
  intros Hd. unfold default_string. destruct (v =? "")%string eqn:E; [|by rewrite E].
  destruct (d =? "")%string eqn:E'; [|done]. by breflect.
Qed.

Lemma default_int_idem d n : d ≠ 0 → default_int d (default_int d n) = default_int d n.
Proof.
  intros Hd. unfold default_int. destruct (n =? 0) eqn:E; [|by rewrite E].
  destruct (d =? 0) eqn:E'; [|done]. by breflect.
Qed.

Section Sound.
Context (url_Parse : string → option URL) (ParseAddrPort : string → option Z).

Lemma validate_webhook_spec s :
  validate_webhook url_Parse s = inr tt → (∃ u, url_Parse (sk_URL s) = Some u ∧ Host u ≠ "" ∧
    HasUser u = false ∧ Fragment u = "" ∧
    (to_lower (Scheme u) = "https" ∨ (to_lower (Scheme u) = "http" ∧ AllowInsecureHTTP s = true))) ∧
  (AuthorizationEnv s = "" ∨ environment_name (AuthorizationEnv s)) ∧
  (SigningSecretEnv s = "" ∨ environment_name (SigningSecretEnv s)).
Proof.
  unfold validate_webhook. destruct (url_Parse (sk_URL s)) as [u|]; [|done]. intros H. accepted H.
  split; [|split; apply optional_env_spec; [by destruct u0 | done]].
  exists u. do 4 (split; [done|]).
  destruct (to_lower (Scheme u) =? "http")%string eqn:E1; simpl in *; breflect; [by right|].
  left. apply orb_true_iff in Heqb2 as [?|?]; [by breflect | done].
Qed.

Lemma validate_sink_spec names s names' :
  validate_sink url_Parse names s = inr names' →
  sink_valid url_Parse s ∧ (sk_Name s ∉ names) ∧ names' = {[sk_Name s]} ∪ names.
Proof.
  unfold validate_sink. intros H. accepted H. injection H as <-. split; [|done].
  assert (identifier (sk_Name s)) by by apply identifier_spec.
  destruct (sk_Type s =? "webhook")%string eqn:E1; breflect.
  - destruct u. apply validate_webhook_spec in Heqr as [Hu He].
    split; [done | by left | done | done | congruence].
  - destruct (sk_Type s =? "stdout")%string eqn:E2; [|done]. breflect.
    accepted Heqr. split; [done | by right | congruence | by split; left | done].
Qed.

Lemma validate_sinks_spec names l :
  validate_sinks url_Parse names l = inr tt →
  Forall (sink_valid url_Parse) l ∧ NoDup (map sk_Name l) ∧ ∀ s, s ∈ l → sk_Name s ∉ names.
Proof.
  revert names. induction l as [|s l IH]; intros names H; simpl in H.
  { split; [done|]. split; [constructor|]. by intros s ?%not_elem_of_nil. }
  destruct (validate_sink url_Parse names s) as [e|names'] eqn:E; [done|].
  apply validate_sink_spec in E as (Hs & Hn & ->). destruct (IH _ H) as (H1 & H2 & H3).
  split; [by constructor|]. split.
  - simpl. constructor; [|done]. intros (s' & E & Hs')%elem_of_map_row.
    apply (H3 s' E). apply elem_of_union. left. by apply elem_of_singleton.
  - intros s' [->|Hs']%elem_of_cons; [done|]. specialize (H3 s' Hs').
    by apply not_elem_of_union in H3 as [_ ?].
Qed.

Lemma validate_disk_spec c c' :
  validate_disk_space c = inr c' →
  ((PauseBelowBytes c' = 0 ∧ ResumeAtBytes c' = 0) ∨ 0 < PauseBelowBytes c' < ResumeAtBytes c') ∧
  in_range (CheckIntervalValue c') (CheckInterval c') Second Minute.
Proof.
  unfold validate_disk_space. intros H. accepted H. injection H as <-. simpl.
  split; [|by apply bounded_spec].
  destruct (PauseBelowBytes c =? 0) eqn:E; simpl in *; breflect; lia.
Qed.

Lemma validate_retry_spec c c' :
  validate_retry c = inr c' →
  in_range (InitialDelayValue c') (InitialDelay c') (100 * Millisecond) Hour ∧
  in_range (MaxDelayValue c') (MaxDelay c') (100 * Millisecond) (24 * Hour) ∧
  InitialDelay c' <= MaxDelay c' ∧ 1 <= MaxAttempts c' <= 1000.
Proof.
  unfold validate_retry. intros H. accepted H. injection H as <-. simpl.
  apply bounded_spec in Heqr, Heqr0. do 2 (split; [done|]). lia.
Qed.

Lemma validate_logging_spec c c' :
  validate_logging c = inr c' →
  Level c' ∈ ["debug"; "info"; "warn"; "error"] ∧ Format c' ∈ ["text"; "json"].
Proof.
  unfold validate_logging. intros H. accepted H. injection H as <-. simpl.
  repeat match goal with H : (_ || _) = true |- _ => apply orb_true_iff in H; destruct H end; breflect;
    match goal with H : default_string "info" _ = _ |- _ => rewrite H end;
    match goal with H : default_string "text" _ = _ |- _ => rewrite H end;
    split; repeat constructor.
Qed.

Lemma validate_listen_spec (l : string) :
  negb (l =? "")%string && match ParseAddrPort l with Some port => port =? 0 | None => true end = false →
  l ≠ "" → ∃ port, ParseAddrPort l = Some port ∧ port ≠ 0.
Proof.
  intros H Hl. apply String.eqb_neq in Hl. rewrite Hl in H. simpl in H.
  destruct (ParseAddrPort l) as [port|]; [|done]. breflect. by exists port.
Qed.

Lemma validate_dsn_spec c :
  Bool.eqb (DSN c =? "")%string (DSNEnv c =? "")%string = false →
  negb (DSNEnv c =? "")%string && negb (envPattern (DSNEnv c)) = false →
  (DSN c = "" ↔ DSNEnv c ≠ "") ∧ (DSNEnv c ≠ "" → environment_name (DSNEnv c)).
Proof.
  intros H1 H2. split.
  - destruct (DSN c =? "")%string eqn:E1, (DSNEnv c =? "")%string eqn:E2; simpl in *; breflect; done.
  - intros Hn. apply String.eqb_neq in Hn. rewrite Hn in H2. simpl in H2. breflect.
    by apply environment_name_spec.
Qed.

(** What each section's checks establish. *)
Ltac section_facts :=
  repeat match goal with
  | H : boundedDuration _ _ _ = inr _ |- _ => apply bounded_spec in H
  | H : identifierPattern _ = true |- _ => apply identifier_spec in H
  | H : validate_disk_space _ = inr _ |- _ => apply validate_disk_spec in H as [? ?]
  | H : validate_retry _ = inr _ |- _ => apply validate_retry_spec in H as (? & ? & ? & ?)
  | H : validate_logging _ = inr _ |- _ => apply validate_logging_spec in H as [? ?]
  | H : validate_sinks _ _ _ = inr ?u |- _ => destruct u; apply validate_sinks_spec in H as (? & ? & _)
  end.

Lemma validate_postgres_spec c c' :
  validate_postgres c = inr c' →
  (DSN c' = "" ↔ DSNEnv c' ≠ "") ∧ (DSNEnv c' ≠ "" → environment_name (DSNEnv c')) ∧
  identifier (Slot c') ∧ identifier (Publication c') ∧ MessagePrefix c' = "writerelay.v1" ∧
  in_range (StatusIntervalValue c') (StatusInterval c') Second (5 * Minute) ∧
  1 <= MaxTransactionEvents c' <= 1000000 ∧ 262144 <= MaxTransactionBytes c'.
Proof.
  unfold validate_postgres. intros H. unwind H. injection H as <-.
  destruct (validate_dsn_spec c Heqb Heqb0) as [? ?]. breflect. section_facts. simpl.
  do 6 (split; [done|]). unfold DefaultMaxEventBytes in *. lia.
Qed.

Lemma validate_delivery_spec c c' :
  validate_delivery url_Parse c = inr c' →
  in_range (PollIntervalValue c') (PollInterval c') (50 * Millisecond) Minute ∧
  in_range (RequestTimeoutValue c') (RequestTimeout c') (100 * Millisecond) (2 * Minute) ∧
  validate_retry (Retry c) = inr (Retry c') ∧
  NoDup (map sk_Name (Sinks c')) ∧ Forall (sink_valid url_Parse) (Sinks c').
Proof.
  unfold validate_delivery. intros H. unwind H. injection H as <-. simpl.
  apply bounded_spec in Heqr, Heqr0. destruct u. apply validate_sinks_spec in Heqr2 as (? & ? & _). done.
Qed.

Lemma validated_config c c' :
  setDefaultsAndValidate url_Parse ParseAddrPort c = inr c' → config_valid url_Parse ParseAddrPort c'.
Proof.
  unfold setDefaultsAndValidate. intros H. unwind H. injection H as <-. breflect.
  rename m into mo, p into po, s into sp, d into de, l into lo.
  apply validate_postgres_spec in Heqr0 as (? & ? & ? & ? & ? & ? & ? & ?).
  apply validate_delivery_spec in Heqr2 as (? & ? & ? & ? & ?).
  unfold validate_monitoring in Heqr. unwind Heqr. injection Heqr as <-.
  unfold validate_spool in Heqr1. accepted Heqr1. injection Heqr1 as <-. section_facts.
  split; simpl; try done. by apply validate_listen_spec.
Qed.

Lemma validated_config_of c c' :
  setDefaultsAndValidate url_Parse ParseAddrPort c = inr c' → config_of c c'.
Proof.
  unfold setDefaultsAndValidate. intros H. unwind H. injection H as <-.
  unfold validate_monitoring in Heqr. unwind Heqr. injection Heqr as <-.
  unfold validate_postgres in Heqr0. unwind Heqr0. injection Heqr0 as <-.
  unfold validate_spool in Heqr1. unwind Heqr1. injection Heqr1 as <-.
  unfold validate_delivery in Heqr2. unwind Heqr2. injection Heqr2 as <-.
  unfold validate_logging in Heqr3. unwind Heqr3. injection Heqr3 as <-.
  repeat match goal with
  | H : validate_disk_space _ = inr _ |- _ => unfold validate_disk_space in H; unwind H; injection H as <-
  | H : validate_retry _ = inr _ |- _ => unfold validate_retry in H; unwind H; injection H as <-
  end.
  split; simpl; first [done | apply or_default_string | apply or_default_int].
Qed.

(** C35. What validation guarantees: the accepted configuration has the
    settings of the file, with the documented default exactly where the file
    has none; every interval and delay is the value of its text and lies in
    its documented range, the retry delays are ordered, every count and byte
    limit and both disk thresholds are in range, slot, publication and sink
    names are identifiers and the sink names distinct, each sink's target is
    admissible, and every environment variable is named as one. *)
Theorem config_sound c c' :
  setDefaultsAndValidate url_Parse ParseAddrPort c = inr c' →
  config_valid url_Parse ParseAddrPort c' ∧ config_of c c'.
Proof. intros H. split; [by eapply validated_config | by apply validated_config_of]. Qed.

(** ** A validated configuration is a fixed point *)

(** Run the checks of the goal again with the results they had. *)
Ltac replay :=
  repeat match goal with
  | H : ?b = false |- context [if ?b then _ else _] => rewrite H
  | H : ?x = inr _ |- context [match ?x with inl _ => _ | inr _ => _ end] => rewrite H
  end.

(** One section of the file: invert, simplify, run again. *)
Ltac idem H :=
  cbv beta delta [validate_disk_space validate_retry validate_delivery validate_monitoring
    validate_postgres validate_spool validate_logging] in H |- *;
  unwind H; injection H as <-; cbv zeta; simpl;
  rewrite ?default_string_idem, ?default_int_idem by done; replay.

Lemma validate_disk_idem c c' : validate_disk_space c = inr c' → validate_disk_space c' = inr c'.
Proof. intros H. by idem H. Qed.

Lemma validate_retry_idem c c' : validate_retry c = inr c' → validate_retry c' = inr c'.
Proof. intros H. by idem H. Qed.

Lemma validate_delivery_idem c c' :
  validate_delivery url_Parse c = inr c' → validate_delivery url_Parse c' = inr c'.
Proof.
  unfold validate_delivery. intros H. unwind H. injection H as <-. cbv zeta. simpl.
  rewrite !default_string_idem by done. replay. erewrite validate_retry_idem by done. by replay.
Qed.

Lemma validate_monitoring_idem c c' :
  validate_monitoring ParseAddrPort c = inr c' → validate_monitoring ParseAddrPort c' = inr c'.
Proof. intros H. by idem H. Qed.

Lemma validate_postgres_idem c c' : validate_postgres c = inr c' → validate_postgres c' = inr c'.
Proof. intros H. by idem H. Qed.

Lemma validate_spool_idem c c' : validate_spool c = inr c' → validate_spool c' = inr c'.
Proof.
  unfold validate_spool. intros H. unwind H. injection H as <-. cbv zeta. simpl.
  rewrite default_int_idem by done. replay. by erewrite validate_disk_idem by done.
Qed.

Lemma validate_logging_idem c c' : validate_logging c = inr c' → validate_logging c' = inr c'.
Proof. intros H. by idem H. Qed.

(** Validation is idempotent: a configuration it returns is accepted
    again and comes back unchanged, so defaults are applied once and the
    value the daemon runs with is itself a valid configuration file. *)
Theorem config_fixpoint c c' :
  setDefaultsAndValidate url_Parse ParseAddrPort c = inr c' →
  setDefaultsAndValidate url_Parse ParseAddrPort c' = inr c'.
Proof.
  unfold setDefaultsAndValidate. intros H. unwind H. injection H as <-. cbn [Monitoring Postgres
    SpoolSection DeliverySection Logging Version].
  erewrite validate_monitoring_idem by done. replay.
  erewrite validate_postgres_idem, validate_spool_idem, validate_delivery_idem,
    validate_logging_idem by done. done.
Qed.

End Sound.
