(* ===== verification/Io.v ===== *)
(** * Io: programs with a state of their own beside the database

    The replicator and the delivery worker keep state in memory and talk to
    PostgreSQL or to a sink.  [P D S A] is a program over the database
    monad's world and a state [S], which survives errors: what was sent
    stays sent. *)

From S2P Require Import Prelude Timestamp Runtime.

Definition P (D S A : Type) : Type := Env → World D → S → outcome A * World D * S.

#[global] Instance P_ret D S : MRet (P D S) := λ A a env w s, (Ok a, w, s).
#[global] Instance P_bind D S : MBind (P D S) := λ A B k m env w s,
  match m env w s with
  | (Ok a, w', s') => k a env w' s'
  | (Fail e, w', s') => (Fail e, w', s')
  | (Crash, w', s') => (Crash, w', s')
  end.

Section Io.
Context {D S : Type}.

Definition lift {A} (m : M D A) : P D S A := λ env w s, (m env w, s).

Definition pfail {A} (e : error) : P D S A := λ env w s, (Fail e, w, s).

Definition get_state : P D S S := λ env w s, (Ok s, w, s).

Definition modify (f : S → S) : P D S unit := λ env w s, (Ok tt, w, f s).

(** The number of the next outside event, for answers that depend on when
    they are asked for. *)
Definition moment : P D S nat := λ env w s, (Ok (tick w), w, s).

(** [if err != nil { return err }]. *)
Definition check_error (o : option error) : P D S unit :=
  match o with Some e => pfail e | None => mret tt end.

Definition check_result {A} (r : result A) : P D S A :=
  match r with inl e => pfail e | inr a => mret a end.

(** Run [m]; its error becomes a value. *)
Definition try {A} (m : P D S A) : P D S (result A) := λ env w s,
  match m env w s with
  | (Ok a, w', s') => (Ok (inr a), w', s')
  | (Fail e, w', s') => (Ok (inl e), w', s')
  | (Crash, w', s') => (Crash, w', s')
  end.

(** [defer]: [f] runs when [m] returns, with or without an error. *)
Definition deferred {A} (f : S → S) (m : P D S A) : P D S A := λ env w s,
  match m env w s with
  | (Crash, w', s') => (Crash, w', s')
  | (o, w', s') => (o, w', f s')
  end.

(** ** Weakest preconditions *)

Definition pwp {A} (m : P D S A) (env : Env) (w : World D) (s : S)
    (Q : outcome A → World D → S → Prop) : Prop :=
  let '(o, w', s') := m env w s in Q o w' s'.

Lemma pwp_elim {A} (m : P D S A) env w s Q o w' s' :
  pwp m env w s Q → m env w s = (o, w', s') → Q o w' s'.
Proof. unfold pwp. intros H E. by rewrite E in H. Qed.

Lemma pwp_intro {A} (m : P D S A) env w s (o : outcome A) w' s' (Q : outcome A → World D → S → Prop) :
  m env w s = (o, w', s') → Q o w' s' → pwp m env w s Q.
Proof. unfold pwp. intros E. by rewrite E. Qed.

Lemma pwp_mono {A} (m : P D S A) env w s (Q Q' : outcome A → World D → S → Prop) :
  pwp m env w s Q → (∀ o w' s', Q o w' s' → Q' o w' s') → pwp m env w s Q'.
Proof. unfold pwp. destruct (m env w s) as [[o w'] s']. auto. Qed.

Lemma pwp_true {A} (m : P D S A) env w s (Q : outcome A → World D → S → Prop) :
  (∀ o w' s', Q o w' s') → pwp m env w s Q.
Proof. unfold pwp. intros H. by destruct (m env w s) as [[o w'] s']. Qed.

Lemma pwp_ret {A} (a : A) env w s (Q : outcome A → World D → S → Prop) :
  Q (Ok a) w s → pwp (mret a) env w s Q.
Proof. done. Qed.

Lemma pwp_bind {A B} (m : P D S A) (k : A → P D S B) env w s Q :
  pwp m env w s (λ o w' s', match o with
    | Ok a => pwp (k a) env w' s' Q
    | Fail e => Q (Fail e) w' s'
    | Crash => Q Crash w' s'
    end) →
  pwp (x ← m; k x) env w s Q.
Proof.
  unfold pwp, mbind, P_bind. destruct (m env w s) as [[[a|e|] w'] s']; done.
Qed.

Lemma pwp_fail {A} e env w s (Q : outcome A → World D → S → Prop) :
  Q (Fail e) w s → pwp (pfail e) env w s Q.
Proof. done. Qed.

Lemma pwp_lift {A} (m : M D A) env w s Q :
  wp m env w (λ o w', Q o w' s) → pwp (lift m) env w s Q.
Proof.
  intros H. apply wp_elim in H. unfold pwp, lift. by destruct (m env w) as [o w'].
Qed.

Lemma pwp_get env w s Q : Q (Ok s) w s → pwp get_state env w s Q.
Proof. done. Qed.

Lemma pwp_modify f env w s Q : Q (Ok tt) w (f s) → pwp (modify f) env w s Q.
Proof. done. Qed.

Lemma pwp_moment env w s Q : Q (Ok (tick w)) w s → pwp moment env w s Q.
Proof. done. Qed.

Lemma pwp_check_error o env w s Q :
  (∀ e, o = Some e → Q (Fail e) w s) → (o = None → Q (Ok tt) w s) →
  pwp (check_error o) env w s Q.
Proof. intros H1 H2. unfold pwp. destruct o; simpl; auto. Qed.

Lemma pwp_check_result {A} (r : result A) env w s Q :
  (∀ e, r = inl e → Q (Fail e) w s) → (∀ a, r = inr a → Q (Ok a) w s) →
  pwp (check_result r) env w s Q.
Proof. intros H1 H2. unfold pwp. destruct r; simpl; auto. Qed.

Lemma pwp_try {A} (m : P D S A) env w s Q :
  pwp m env w s (λ o w' s', match o with
    | Ok a => Q (Ok (inr a)) w' s'
    | Fail e => Q (Ok (inl e)) w' s'
    | Crash => Q Crash w' s'
    end) →
  pwp (try m) env w s Q.
Proof. unfold pwp, try. destruct (m env w s) as [[[a|e|] w'] s']; done. Qed.

Lemma pwp_deferred {A} f (m : P D S A) env w s Q :
  pwp m env w s (λ o w' s', Q o w' (match o with Crash => s' | _ => f s' end)) →
  pwp (deferred f m) env w s Q.
Proof. unfold pwp, deferred. destruct (m env w s) as [[[a|e|] w'] s']; done. Qed.

End Io.

#[global] Opaque pwp.

(** One step of a [pwp] goal. *)
Ltac pwp_step :=
  match goal with
  | |- pwp (mbind _ _) _ _ _ _ => apply pwp_bind
  | |- pwp (mret _) _ _ _ _ => apply pwp_ret
  | |- pwp (pfail _) _ _ _ _ => apply pwp_fail
  | |- pwp (lift _) _ _ _ _ => apply pwp_lift
  | |- pwp get_state _ _ _ _ => apply pwp_get
  | |- pwp (modify _) _ _ _ _ => apply pwp_modify
  | |- pwp moment _ _ _ _ => apply pwp_moment
  | |- pwp (check_error _) _ _ _ _ => apply pwp_check_error
  | |- pwp (check_result _) _ _ _ _ => apply pwp_check_result
  | |- pwp (try _) _ _ _ _ => apply pwp_try
  | |- pwp (deferred _ _) _ _ _ _ => apply pwp_deferred
  end.
