(* ===== verification/Slot.v ===== *)
(** * Slot: the replication slot checks of internal/postgres/setup.go

    PostgreSQL's answers are arguments: a row of [pg_replication_slots], the
    server version, the error of a connection attempt. *)

From S2P Require Import Prelude Timestamp Spool.

(** [SlotInfo]. *)
Record SlotInfo := MkSlot {
  sl_Name : string;
  sl_Plugin : string;
  sl_Database : string;
  sl_Active : bool;
  sl_ConfirmedFlushLSN : LSN;
  sl_RestartLSN : LSN;
  sl_Exists : bool;
}.

(** A row of the query of [readSlot]; the two LSN columns can be NULL. *)
Record SlotRow := MkSlotRow {
  row_slot_name : string;
  row_plugin : string;
  row_database : string;
  row_active : bool;
  row_confirmed : option string;
  row_restart : option string;
}.

Section Slot.
Context {codec : LsnCodec}.

(** A NULL column leaves the LSN at zero. *)
Definition parse_nullable (m : string) (o : option string) : result LSN :=
  match o with
  | None => inr 0
  | Some text =>
      match ParseLSN text with Some l => inr l | None => inl (errorf m) end
  end.

(** [readSlot]: [inr None] is [pgx.ErrNoRows]. *)
Definition readSlot (answer : result (option SlotRow)) : result SlotInfo :=
  match answer with
  | inl _ => inl (errorf "inspect replication slot: %w")
  | inr None => inr (MkSlot "" "" "" false 0 0 false)
  | inr (Some r) =>
      match parse_nullable "parse slot confirmed_flush_lsn: %w" (row_confirmed r) with
      | inl e => inl e
      | inr confirmed =>
          match parse_nullable "parse slot restart_lsn: %w" (row_restart r) with
          | inl e => inl e
          | inr restart =>
              inr (MkSlot (row_slot_name r) (row_plugin r) (row_database r) (row_active r)
                     confirmed restart true)
          end
      end
  end.

End Slot.

(** [validateSlot]. *)
Definition validateSlot (slot : SlotInfo) (database : string) : option error :=
  if negb (sl_Plugin slot =? "pgoutput")%string then
    Some (wrapf ErrSlotMismatch "slot %q uses plugin %q, expected pgoutput")
  else if negb (sl_Database slot =? database)%string then
    Some (wrapf ErrSlotMismatch "slot %q belongs to database %q, connected to %q")
  else if sl_Active slot then
    Some (wrapf ErrSlotMismatch "slot %q is active in another session")
  else None.

(** [validateServerVersion]. *)
Definition validateServerVersion (version : Z) : option error :=
  if (version <? 140000) || (190000 <=? version) then
    Some (wrapf ErrUnsupportedVersion
      "server_version_num=%d, supported range is PostgreSQL 14 through 18")
  else None.

(** [safePGError]: a server error is shown, anything else is redacted. *)
Inductive PgFailure := ServerError (Message Code : string) | ConnectionError (detail : string).

Definition safePGError (f : PgFailure) : string :=
  match f with
  | ServerError m c => m +:+ " (SQLSTATE " +:+ c +:+ ")"
  | ConnectionError _ => "connection unavailable (details redacted)"
  end.

(** [redactConnectionError]. *)
Definition redactConnectionError (o : option PgFailure) : option error :=
  match o with
  | None => None
  | Some f => Some (errorf ("PostgreSQL connection failed: " +:+ safePGError f))
  end.

(** [connectReplication]: the result of [pgconn.ParseConfig] and the error of
    [pgconn.ConnectConfig]. *)
Definition connectReplication (parsed : bool) (connect : option PgFailure) : option error :=
  if negb parsed then Some (errorf "parse PostgreSQL connection configuration")
  else redactConnectionError connect.

Lemma validateSlot_ok slot db :
  validateSlot slot db = None ↔
  sl_Plugin slot = "pgoutput" ∧ sl_Database slot = db ∧ sl_Active slot = false.
Proof.
  unfold validateSlot. destruct (_ =? "pgoutput")%string eqn:E1; simpl; breflect.
  - destruct (sl_Database slot =? db)%string eqn:E2; simpl; breflect.
    + destruct (sl_Active slot); split; try done. by intros (_ & _ & ?).
    + split; [done|]. by intros (_ & ? & _).
  - split; [done|]. by intros (? & _).
Qed.
