(* ===== verification/Setup.v ===== *)
(** * Setup: database objects and diagnosis (internal/postgres/setup.go, doctor.go)

    [Setup] checks the server and then creates what is missing; [Doctor]
    only looks.  The server is a state with the emit function, publications
    and replication slots; every statement can fail, as everywhere. *)

From S2P Require Import Prelude Rows Text Timestamp TimeParse Duration Spool Runtime Config Slot.

(** What the code reads and writes of a PostgreSQL server.  The function
    [writerelay.emit(jsonb)], if there is one, has the text that defined it, a
    publication its number of tables. *)
Record PgServer := MkServerState {
  srv_database : string;
  srv_version_num : string;
  srv_wal_level : string;
  srv_max_slots : string;
  srv_max_senders : string;
  srv_replication : bool;
  srv_superuser : bool;
  srv_function : option string;
  srv_publications : gmap string Z;
  srv_slots : gmap string SlotRow;
}.

Definition set_objects (function : option string) (pubs : gmap string Z) (slots : gmap string SlotRow)
    (s : PgServer) : PgServer :=
  MkServerState (srv_database s) (srv_version_num s) (srv_wal_level s) (srv_max_slots s)
    (srv_max_senders s) (srv_replication s) (srv_superuser s) function pubs slots.

(** [to_regprocedure('writerelay.emit(jsonb)') IS NOT NULL]. *)
Definition srv_emit (s : PgServer) : bool := match srv_function s with Some _ => true | None => false end.

(** The digits of [strconv.ParseUint], up to the first that leaves 64 bits. *)
Fixpoint scan_digits (acc : Z) (s : string) : option Z :=
  match s with
  | "" => Some acc
  | String c s' =>
      if is_digit c then
        let n := 10 * acc + digit_val c in
        if 2 ^ 64 <=? n then Some n else scan_digits n s'
      else None
  end.

(** [strconv.Atoi] with its error dropped: zero for a text that is no number,
    the nearest [int] for a number out of range. *)
Definition Atoi (s : string) : Z :=
  let '(neg, digits) := cut_sign s in
  if (digits =? "")%string then 0
  else
    match scan_digits 0 digits with
    | None => 0
    | Some n => if neg then Z.max (- n) (- 2 ^ 63) else Z.min n (2 ^ 63 - 1)
    end.

Example Atoi_values : map Atoi ["160003"; "-5"; "+7"; ""; "12x"; "9223372036854775808"; "-99999999999999999999"] =
  [160003; -5; 7; 0; 0; 9223372036854775807; -9223372036854775808].
Proof. reflexivity. Qed.

(** The text cast [::integer] of the server. *)
Definition version_of (s : PgServer) : Z := Atoi (srv_version_num s).

(** ** Statements *)

(** The text of the embedded install script, by its name. *)
Definition InstallSQL : string := "sql/postgres/001_install.sql".

(** The script's [CREATE OR REPLACE FUNCTION]: it would replace a function
    that is there. *)
Definition install_sql : stmt PgServer unit := λ _ s,
  inr (set_objects (Some InstallSQL) (srv_publications s) (srv_slots s) s, tt).

(** [CREATE PUBLICATION name]. *)
Definition create_publication (name : string) : stmt PgServer unit := λ _ s,
  match srv_publications s !! name with
  | Some _ => inl "publication already exists"
  | None => inr (set_objects (srv_function s) (<[name := 0]> (srv_publications s)) (srv_slots s) s, tt)
  end.

(** [CREATE_REPLICATION_SLOT name LOGICAL pgoutput NOEXPORT_SNAPSHOT] at the
    server's position [lsn]. *)
Definition create_slot (name lsn : string) : stmt PgServer unit := λ _ s,
  match srv_slots s !! name with
  | Some _ => inl "replication slot already exists"
  | None => inr (set_objects (srv_function s) (srv_publications s)
      (<[name := MkSlotRow name "pgoutput" (srv_database s) false (Some lsn) (Some lsn)]>
         (srv_slots s)) s, tt)
  end.

(** ** [Setup] *)

Record SetupResult := MkSetupResult {
  InstalledFunction : bool;
  CreatedPublication : bool;
  CreatedSlot : bool;
}.

Section Setup.
Context {codec : LsnCodec} (LookupEnv : string → option string).
(** What the driver makes of a failed connection. *)
Context (pg_failure : string → PgFailure).

Definition lift_result {A} (r : result A) : M PgServer A :=
  match r with inl e => fail e | inr a => mret a end.
Definition lift_error (o : option error) : M PgServer unit :=
  match o with Some e => fail e | None => mret tt end.

(** A connection through [connector], whose errors are redacted. *)
Definition connect (connector : option PgFailure → option error) : M PgServer unit :=
  answer ← exec (query (λ _, tt));
  lift_error (connector (match answer with inl m => Some (pg_failure m) | inr _ => None end)).

(** [readSlot] on a connection. *)
Definition read_slot (name : string) : M PgServer SlotInfo :=
  row ← run (errorf "inspect replication slot: %w") (query (λ s, srv_slots s !! name));
  lift_result (readSlot (inr row)).

(** The checks of [Setup] before it changes anything: what is missing. *)
Definition preflight (cfg : PostgresConfig) (createSlot : bool) : M PgServer (bool * bool * bool) :=
  dv ← run (errorf "read current database/version: %w")
    (query (λ s, (srv_database s, version_of s)));
  lift_error (validateServerVersion dv.2);;
  functionExists ← run (errorf "inspect emit function: %w") (query srv_emit);
  publicationExists ← run (errorf "inspect publication: %w")
    (query (λ s, negb (bool_decide (srv_publications s !! Publication cfg = None))));
  (if negb publicationExists then mret tt
   else
     tables ← run (errorf "inspect publication tables: %w")
       (query (λ s, match srv_publications s !! Publication cfg with Some n => n | None => 0 end));
     reject (negb (tables =? 0))
       (wrapf ErrSlotMismatch "publication %q contains %d table(s), expected empty"));;
  slot ← read_slot (Slot cfg);
  (if sl_Exists slot then lift_error (validateSlot slot dv.1)
   else reject (negb createSlot)
     (errorf "replication slot %q is missing; rerun setup with --create-slot"));;
  mret (functionExists, publicationExists, sl_Exists slot).

(** [createReplicationSlot]: [pgconn.ParseConfig] has parsed the same text
    for the first connection. *)
Definition createReplicationSlot (slot lsn : string) : M PgServer unit :=
  connect (connectReplication true);;
  run (errorf "create pgoutput replication slot %q: %w") (create_slot slot lsn).

(** [Setup]; [lsn] is where the server puts a new slot. *)
Definition Setup (cfg : Config) (createSlot : bool) (lsn : string) : M PgServer SetupResult :=
  lift_result (PostgreSQLDSN LookupEnv cfg);;
  connect redactConnectionError;;
  found ← preflight (Postgres cfg) createSlot;
  let '(functionExists, publicationExists, slotExists) := found in
  (if negb functionExists
   then run (errorf "install SQL API (administrator privileges may be required): %w") install_sql
   else mret tt);;
  (if negb publicationExists
   then run (errorf "create empty publication: %w") (create_publication (Publication (Postgres cfg)))
   else mret tt);;
  if slotExists : bool then mret (MkSetupResult (negb functionExists) (negb publicationExists) false)
  else
    driver_call (errorf "close setup SQL connection: %w");;
    createReplicationSlot (Slot (Postgres cfg)) lsn;;
    mret (MkSetupResult (negb functionExists) (negb publicationExists) true).

(** ** [Doctor] *)

Record Check := MkCheck { ck_Name : string; ck_Status : string; ck_Detail : string }.

Definition checkValue (name : string) (ok : bool) (detail : string) : Check :=
  MkCheck name (if ok then "pass" else "fail") detail.

Definition checkPositive (name value : string) : Check := checkValue name (0 <? Atoi value) value.

Definition show_bool (b : bool) : string := if b then "true" else "false".

(** The checks on what the queries answered: settings [s], role attributes,
    the emit function, the publication with its tables, the slot and, if its
    query succeeds, the WAL the slot retains. *)
Definition report (cfg : Config) (configured : string) (s : PgServer) (role : bool * bool)
    (functionExists : bool) (publication : bool * Z) (slot : SlotInfo) (retained : option string)
    : list Check :=
  [MkCheck "database connectivity" "pass" "connected";
   checkValue "PostgreSQL version"
     (negb ((Atoi (srv_version_num s) <? 140000) || (190000 <=? Atoi (srv_version_num s))))
     (srv_version_num s);
   checkValue "wal_level" (srv_wal_level s =? "logical")%string (srv_wal_level s);
   checkPositive "max_replication_slots" (srv_max_slots s);
   checkPositive "max_wal_senders" (srv_max_senders s);
   checkValue "replication privilege" (role.1 || role.2)
     ("replication=" +:+ show_bool role.1 +:+ " superuser=" +:+ show_bool role.2);
   checkValue "SQL emit function" functionExists "writerelay.emit(jsonb)";
   checkValue "publication exists" publication.1 (Publication (Postgres cfg));
   checkValue "publication is empty" (publication.1 && (publication.2 =? 0))
     (itoa publication.2 +:+ " table(s)");
   checkValue "replication slot exists" (sl_Exists slot) (Slot (Postgres cfg))] ++
  (if sl_Exists slot then
     [checkValue "slot plugin" (sl_Plugin slot =? "pgoutput")%string (sl_Plugin slot);
      checkValue "slot database" (sl_Database slot =? configured)%string (sl_Database slot);
      checkValue "slot inactive" (negb (sl_Active slot)) ("active=" +:+ show_bool (sl_Active slot));
      MkCheck "slot confirmed flush LSN" "pass" (LSN_String (sl_ConfirmedFlushLSN slot))] ++
     match retained with
     | Some size => [MkCheck "slot retained WAL" "pass" size]
     | None => []
     end
   else []) ++
  [MkCheck "message-size configuration" "pass"
     (itoa (MaxEventBytes (SpoolSection cfg)) +:+ " bytes")].

(** [Doctor]; with an error the checks made so far are dropped, as its
    caller does.  [configured] is [conn.Config().Database], [retained] the
    answer of the WAL size query. *)
Definition Doctor (cfg : Config) (configured retained : string) : M PgServer (list Check) :=
  lift_result (PostgreSQLDSN LookupEnv cfg);;
  connected ← exec (query (λ _, tt));
  match connected with
  | inl m => mret [MkCheck "database connectivity" "fail" (safePGError (pg_failure m))]
  | inr _ =>
      s ← run (errorf "read PostgreSQL settings: %w") (query (λ s, s));
      role ← run (errorf "inspect current role: %w") (query (λ s, (srv_replication s, srv_superuser s)));
      functionExists ← run (errorf "inspect emit function: %w") (query srv_emit);
      publication ← run (errorf "inspect publication: %w")
        (query (λ s, match srv_publications s !! Publication (Postgres cfg) with
                     | Some n => (true, n)
                     | None => (false, 0)
                     end));
      slot ← read_slot (Slot (Postgres cfg));
      size ← (if sl_Exists slot then exec (query (λ _, retained)) else mret (inl ""));
      mret (report cfg configured s role functionExists publication slot
        (match size with inr text => Some text | inl _ => None end))
  end.

End Setup.
