(* ===== verification/SetupProps.v ===== *)
(** * SetupProps: setup looks before it leaps *)

From S2P Require Import Prelude Rows Text Timestamp TimeParse Duration Spool Runtime Config Slot Setup.

Section SetupProps.
Context {codec : LsnCodec} (LookupEnv : string → option string) (pg_failure : string → PgFailure).

(** The slot is one that capture can use. *)
Definition usable_slot (s : PgServer) (r : SlotRow) : Prop :=
  row_plugin r = "pgoutput" ∧ row_database r = srv_database s ∧ row_active r = false.

(** Everything capture needs is there. *)
Record server_ready (cfg : PostgresConfig) (s : PgServer) : Prop := {
  sr_version : 140000 <= version_of s < 190000;
  sr_emit : srv_emit s = true;
  sr_publication : srv_publications s !! Publication cfg = Some 0;
  sr_slot : ∃ r, srv_slots s !! Slot cfg = Some r ∧ usable_slot s r;
}.

(** [s'] has the objects of [s], and possibly the ones named in [cfg]. *)
Record grown (cfg : PostgresConfig) (s s' : PgServer) : Prop := {
  gr_server : srv_database s' = srv_database s ∧ srv_version_num s' = srv_version_num s;
  gr_function : ∀ text, srv_function s = Some text → srv_function s' = Some text;
  gr_publications : srv_publications s' = srv_publications s ∨
    (srv_publications s !! Publication cfg = None ∧
     srv_publications s' = <[Publication cfg := 0]> (srv_publications s));
  gr_slots : srv_slots s' = srv_slots s ∨
    (srv_slots s !! Slot cfg = None ∧ ∃ r, usable_slot s r ∧
     srv_slots s' = <[Slot cfg := r]> (srv_slots s));
}.

Lemma grown_refl cfg s : grown cfg s s.
Proof. split; auto. Qed.

(** What the checks found when they pass. *)
Record checked_server (cfg : PostgresConfig) (createSlot : bool) (s : PgServer)
    (found : bool * bool * bool) : Prop := {
  cs_version : 140000 <= version_of s < 190000;
  cs_function : found.1.1 = srv_emit s;
  cs_publication : srv_publications s !! Publication cfg = if found.1.2 then Some 0 else None;
  cs_slot : if found.2 then ∃ r, srv_slots s !! Slot cfg = Some r ∧ usable_slot s r
            else srv_slots s !! Slot cfg = None ∧ createSlot = true;
}.

Lemma read_slot_wp name env (w : World PgServer) (Q : outcome SlotInfo → World PgServer → Prop) :
  txn w = None →
  (∀ e k, Q (Fail e) (MkWorld (disk w) None k)) →
  (∀ slot k, match srv_slots (disk w) !! name with
     | None => sl_Exists slot = false
     | Some r => sl_Exists slot = true ∧
         (sl_Plugin slot, sl_Database slot, sl_Active slot) = (row_plugin r, row_database r, row_active r)
     end → Q (Ok slot) (MkWorld (disk w) None k)) →
  wp (read_slot name) env w Q.
Proof.
  intros Ht Hf Hok. unfold read_slot. wp_step. apply wp_query_auto; [done|auto|]. intros k.
  unfold lift_result, readSlot. destruct (srv_slots (disk w) !! name) as [r|] eqn:E.
  - destruct (parse_nullable _ (row_confirmed r)) as [e|l1]; [wp_step; apply Hf|].
    destruct (parse_nullable _ (row_restart r)) as [e|l2]; [wp_step; apply Hf|].
    wp_step. by apply Hok.
  - wp_step. by apply Hok.
Qed.

Lemma connect_wp connector env (w : World PgServer) (Q : outcome unit → World PgServer → Prop) :
  txn w = None → (∀ f, is_Some (connector (Some f))) → connector None = None →
  (∀ e k, faulty env → Q (Fail e) (MkWorld (disk w) None k)) →
  (∀ k, Q (Ok tt) (MkWorld (disk w) None k)) →
  wp (connect pg_failure connector) env w Q.
Proof.
  intros Ht Hsome Hnone Hf Hok. unfold connect. wp_step. apply wp_exec_auto; [done|..].
  - intros n m k [Hx|?]; [|done]. destruct (Hsome (pg_failure m)) as [e ->]. simpl. wp_step. by apply Hf.
  - intros n m db' a k Hx [= <- <-]. destruct (Hsome (pg_failure m)) as [e ->]. simpl. wp_step. by apply Hf.
  - intros n db' a k [= <- <-]. rewrite Hnone. simpl. wp_step. apply Hok.
Qed.

Lemma preflight_wp cfg createSlot env (w : World PgServer) (Q : outcome (bool * bool * bool) → World PgServer → Prop) :
  txn w = None →
  (∀ e k, Q (Fail e) (MkWorld (disk w) None k)) →
  (∀ found k, checked_server cfg createSlot (disk w) found → Q (Ok found) (MkWorld (disk w) None k)) →
  wp (preflight cfg createSlot) env w Q.
Proof.
  intros Ht Hf Hok. unfold preflight. wp_step. apply wp_query_auto; [done|auto|]. intros k1. wp_step.
  unfold lift_error at 1, validateServerVersion. simpl.
  destruct (_ || _) eqn:Ev; wp_step; [apply Hf|]. breflect.
  wp_step. apply wp_query_auto; [done|auto|]. intros k2. wp_step. apply wp_query_auto; [done|auto|].
  intros k3. wp_step. simpl.
  assert (∀ k (pub : bool), srv_publications (disk w) !! Publication cfg = (if pub then Some 0 else None) →
    wp (slot ← read_slot (Slot cfg);
        (if sl_Exists slot then lift_error (validateSlot slot (srv_database (disk w)))
         else reject (negb createSlot)
           (errorf "replication slot %q is missing; rerun setup with --create-slot"));;
        mret (srv_emit (disk w), pub, sl_Exists slot)) env (MkWorld (disk w) None k) Q) as Hslot.
  { intros k pub Hpub. wp_step. apply read_slot_wp; [done | intros; apply Hf|].
    intros slot k4 Hs. simpl in Hs. wp_step. destruct (srv_slots (disk w) !! Slot cfg) as [r|] eqn:Er.
    - destruct Hs as [Hx [= Hp Hd Ha]]. rewrite Hx. unfold lift_error.
      destruct (validateSlot slot _) eqn:Es; wp_step; [apply Hf|]. apply validateSlot_ok in Es as (? & ? & ?).
      wp_step. apply Hok. split; simpl; [lia | done | done |]. exists r. split; [done|].
      unfold usable_slot. rewrite <- Hp, <- Hd, <- Ha. done.
    - rewrite Hs. destruct createSlot; simpl; wp_step; [|apply Hf]. wp_step. apply Hok.
      by split; simpl; [lia|..]. }
  destruct (srv_publications (disk w) !! Publication cfg) as [n|] eqn:Ep; simpl.
  - wp_step. apply wp_query_auto; [done | intros; apply Hf|]. intros k4. simpl. rewrite Ep.
    wp_step; [apply Hf|]. breflect. subst n. by apply (Hslot _ true).
  - wp_step. by apply (Hslot _ false).
Qed.

(** ** [Setup] *)

(** The steps that create objects: each adds what is missing, or nothing. *)
Lemma install_wp cfg (missing : bool) e env (w : World PgServer) s0 Q :
  txn w = None → grown cfg s0 (disk w) → srv_emit (disk w) = negb missing →
  (∀ e w', txn w' = None → grown cfg s0 (disk w') → faulty env → Q (Fail e) w') →
  (∀ k s', grown cfg s0 s' → srv_emit s' = true →
     s' = set_objects (srv_function s') (srv_publications (disk w)) (srv_slots (disk w)) (disk w) →
     Q (Ok tt) (MkWorld s' None k)) →
  wp (if missing then run e install_sql else mret tt) env w Q.
Proof.
  intros Ht Hg He Hf Hok. destruct missing.
  - assert (grown cfg s0 (set_objects (Some InstallSQL) (srv_publications (disk w)) (srv_slots (disk w)) (disk w)))
      as Hg'.
    { destruct Hg as [[] Hfn ? ?]. split; try done. intros text Hx. apply Hfn in Hx.
      unfold srv_emit in He. by rewrite Hx in He. }
    eapply wp_run_auto; [done| | |].
    + intros n k [Hx|(m & Hx)]; [by apply Hf | done].
    + intros n db' [] k Hx [= <-]. by apply Hf.
    + intros n db' [] k [= <-]. by apply Hok.
  - wp_step. destruct w as [s t k]. simpl in *. subst t. destruct s; simpl in *; subst. by apply Hok.
Qed.

Lemma publish_wp cfg (missing : bool) e env (w : World PgServer) s0 Q :
  txn w = None → grown cfg s0 (disk w) → srv_publications (disk w) = srv_publications s0 →
  srv_publications s0 !! Publication cfg = (if missing then None else Some 0) →
  (∀ e w', txn w' = None → grown cfg s0 (disk w') → faulty env → Q (Fail e) w') →
  (∀ k s', grown cfg s0 s' → srv_publications s' !! Publication cfg = Some 0 →
     srv_emit s' = srv_emit (disk w) → srv_slots s' = srv_slots (disk w) →
     Q (Ok tt) (MkWorld s' None k)) →
  wp (if missing then run e (create_publication (Publication cfg)) else mret tt) env w Q.
Proof.
  intros Ht Hg Ep Hp Hf Hok. destruct missing.
  - set (s' := set_objects (srv_function (disk w)) (<[Publication cfg := 0]> (srv_publications (disk w)))
      (srv_slots (disk w)) (disk w)).
    assert (∀ n, create_publication (Publication cfg) n (disk w) = inr (s', tt)) as E
      by (intros n; unfold create_publication; rewrite <- Ep in Hp; by rewrite Hp).
    assert (grown cfg s0 s') as Hg'
      by (destruct Hg as [[] ? ? ?]; split; cbn; auto; right; by rewrite Ep).
    eapply wp_run_auto; [done| | |].
    + intros n k [Hx|(m & Hx)]; [by apply Hf | by rewrite E in Hx].
    + intros n db' [] k Hx Hy. rewrite E in Hy. injection Hy as <-. by apply Hf.
    + intros n db' [] k Hy. rewrite E in Hy. injection Hy as <-. apply Hok; [done | | done | done].
      apply lookup_insert_eq.
  - wp_step. destruct w as [s t k]. simpl in *. subst t. apply Hok; [done | by rewrite Ep | done | done].
Qed.

Lemma new_slot_wp cfg lsn e env (w : World PgServer) s0 Q :
  txn w = None → grown cfg s0 (disk w) → srv_slots (disk w) = srv_slots s0 →
  srv_slots s0 !! Slot cfg = None →
  (∀ e w', txn w' = None → grown cfg s0 (disk w') → faulty env → Q (Fail e) w') →
  (∀ k s', grown cfg s0 s' → (∃ r, srv_slots s' !! Slot cfg = Some r ∧ usable_slot s' r) →
     srv_emit s' = srv_emit (disk w) → srv_publications s' = srv_publications (disk w) →
     Q (Ok tt) (MkWorld s' None k)) →
  wp (run e (create_slot (Slot cfg) lsn)) env w Q.
Proof.
  intros Ht Hg Es Hs Hf Hok.
  set (r := MkSlotRow (Slot cfg) "pgoutput" (srv_database (disk w)) false (Some lsn) (Some lsn)).
  set (s' := set_objects (srv_function (disk w)) (srv_publications (disk w))
    (<[Slot cfg := r]> (srv_slots (disk w))) (disk w)).
  assert (∀ n, create_slot (Slot cfg) lsn n (disk w) = inr (s', tt)) as E
    by (intros n; unfold create_slot; rewrite <- Es in Hs; by rewrite Hs).
  assert (grown cfg s0 s') as Hg'.
  { destruct Hg as [[Ed Ev] ? ? ?]. split; cbn; auto. right. split; [done|]. exists r.
    split; [by split|]. by rewrite Es. }
  eapply wp_run_auto; [done| | |].
  - intros n k [Hx|(m & Hx)]; [by apply Hf | by rewrite E in Hx].
  - intros n db' [] k Hx Hy. rewrite E in Hy. injection Hy as <-. by apply Hf.
  - intros n db' [] k Hy. rewrite E in Hy. injection Hy as <-. apply Hok; [done | | done | done].
    exists r. split; [apply lookup_insert_eq | done].
Qed.

Definition setup_post (cfg : PostgresConfig) (env : Env) (s : PgServer) (o : outcome SetupResult)
    (w' : World PgServer) : Prop :=
  grown cfg s (disk w') ∧
  match o with
  | Ok r => server_ready cfg (disk w') ∧ InstalledFunction r = negb (srv_emit s) ∧
      CreatedPublication r = bool_decide (srv_publications s !! Publication cfg = None) ∧
      CreatedSlot r = bool_decide (srv_slots s !! Slot cfg = None)
  | Fail _ => disk w' = s ∨ faulty env
  | Crash => False
  end.

Lemma Setup_wp cfg createSlot lsn env (w : World PgServer) :
  txn w = None →
  wp (Setup LookupEnv pg_failure cfg createSlot lsn) env w (setup_post (Postgres cfg) env (disk w)).
Proof.
  intros Ht. set (p := Postgres cfg).
  assert (∀ e (w' : World PgServer), disk w' = disk w → setup_post p env (disk w) (Fail e) w') as Hsame
    by (intros e w' E; split; [rewrite E; apply grown_refl | by left]).
  assert (∀ e (w' : World PgServer), txn w' = None → grown p (disk w) (disk w') → faulty env →
    setup_post p env (disk w) (Fail e) w') as Hf by (intros; split; [done | by right]).
  unfold Setup. wp_step. unfold lift_result. destruct (PostgreSQLDSN _ _); wp_step; [by apply Hsame|].
  wp_step. apply connect_wp; [done | by eexists | done | intros; by apply Hsame|]. intros k1.
  wp_step. apply preflight_wp; [done | intros; by apply Hsame|]. intros [[fe pe] se] k2 [Hv Hfn Hpub Hslot].
  simpl in *. fold p in Hpub, Hslot. wp_step. eapply (install_wp p); [done | apply grown_refl | by rewrite negb_involutive | done |].
  intros k3 s1 Hg1 He1 E1. wp_step.
  eapply (publish_wp p); [done | exact Hg1 | by rewrite E1 | by etransitivity; [exact Hpub | destruct pe] | done |].
  intros k4 s2 Hg2 Hp2 He2 Hs2. simpl in He2, Hs2. rewrite E1 in Hs2. simpl in Hs2.
  assert (version_of s2 = version_of (disk w)) as Hver
    by (unfold version_of; by rewrite (proj2 (gr_server _ _ _ Hg2))).
  assert (negb pe = bool_decide (srv_publications (disk w) !! Publication p = None)) as Hpe
    by (rewrite Hpub; by destruct pe).
  destruct se.
  - wp_step. split; [done|]. destruct Hslot as (r & Hr & Hu). split; [|rewrite <- Hpe, Hfn, Hr; done].
    cbn [disk]. split; [by rewrite Hver | congruence | done |]. exists r. rewrite Hs2. split; [done|].
    unfold usable_slot in *. by rewrite (proj1 (gr_server _ _ _ Hg2)).
  - destruct Hslot as [Hnone ->].
    wp_step. apply (wp_query_auto _ (λ _, tt)); [done | intros; by apply Hf|]. intros k5.
    wp_step. unfold createReplicationSlot.
    wp_step. apply connect_wp; [done | by eexists | done | intros; by apply Hf|]. intros k6.
    eapply (new_slot_wp p); [done | exact Hg2 | done | done | done |].
    intros k7 s3 Hg3 Hs3 He3 Hp3. simpl in He3, Hp3. wp_step. split; [done|].
    split; [|rewrite <- Hpe, Hfn, Hnone; done].
    cbn [disk]. split; [|congruence | by rewrite Hp3 | done].
    unfold version_of in *. by rewrite (proj2 (gr_server _ _ _ Hg3)).
Qed.

(** C22. Setup never changes or removes an object that exists, neither the
    emit function, whose install script would replace it, nor a publication
    or a slot; it touches nothing before every check has passed; and when it
    succeeds everything capture needs is there and the result says exactly
    what was created. *)
Theorem setup_safe cfg createSlot lsn env (w : World PgServer) :
  txn w = None →
  let s := disk w in
  let s' := disk (Setup LookupEnv pg_failure cfg createSlot lsn env w).2 in
  grown (Postgres cfg) s s' ∧
  match (Setup LookupEnv pg_failure cfg createSlot lsn env w).1 with
  | Ok r => server_ready (Postgres cfg) s' ∧ InstalledFunction r = negb (srv_emit s) ∧
      CreatedPublication r = bool_decide (srv_publications s !! Publication (Postgres cfg) = None) ∧
      CreatedSlot r = bool_decide (srv_slots s !! Slot (Postgres cfg) = None)
  | Fail _ => s' = s ∨ faulty env
  | Crash => False
  end.
Proof. intros Ht. exact (Setup_wp cfg createSlot lsn env w Ht). Qed.

(** ** [Doctor] *)

(** No check failed: what the command looks for before it reports success. *)
Definition all_pass (cs : list Check) : bool := forallb (λ c, negb (ck_Status c =? "fail")%string) cs.

Lemma checkValue_pass name ok detail : negb (ck_Status (checkValue name ok detail) =? "fail")%string = ok.
Proof. by destruct ok. Qed.

(** The server can run capture for [cfg]. *)
Definition server_capable (s : PgServer) : Prop :=
  srv_wal_level s = "logical" ∧ 0 < Atoi (srv_max_slots s) ∧ 0 < Atoi (srv_max_senders s) ∧
  srv_replication s || srv_superuser s = true.

(** The report passes exactly when each answer is the expected one. *)
Lemma report_pass cfg configured s role fe pub slot retained :
  all_pass (report cfg configured s role fe pub slot retained) = true ↔
  140000 <= version_of s < 190000 ∧ srv_wal_level s = "logical" ∧ 0 < Atoi (srv_max_slots s) ∧
  0 < Atoi (srv_max_senders s) ∧ role.1 || role.2 = true ∧ fe = true ∧ pub = (true, 0) ∧
  sl_Exists slot = true ∧ sl_Plugin slot = "pgoutput" ∧ sl_Database slot = configured ∧
  sl_Active slot = false.
Proof.
  unfold all_pass, report, checkPositive, version_of. destruct pub as [b n]. cbn [app forallb].
  destruct (sl_Exists slot), retained; cbn [app forallb]; rewrite ?checkValue_pass; cbn [ck_Status fst snd];
    rewrite ?andb_true_iff, ?negb_true_iff, ?orb_false_iff, ?String.eqb_eq, ?Z.ltb_lt, ?Z.ltb_ge,
      ?Z.leb_gt, ?Z.eqb_eq; naive_solver lia.
Qed.

(** The clean report says what [server_ready] and [server_capable] say. *)
Lemma report_ready cfg s slot retained :
  match srv_slots s !! Slot (Postgres cfg) with
  | None => sl_Exists slot = false
  | Some r => sl_Exists slot = true ∧
      (sl_Plugin slot, sl_Database slot, sl_Active slot) = (row_plugin r, row_database r, row_active r)
  end →
  all_pass (report cfg (srv_database s) s (srv_replication s, srv_superuser s) (srv_emit s)
    (match srv_publications s !! Publication (Postgres cfg) with Some n => (true, n) | None => (false, 0) end)
    slot retained) = true ↔
  server_capable s ∧ server_ready (Postgres cfg) s.
Proof.
  intros Hs. rewrite report_pass. simpl. split.
  - intros (Hv & Hw & Hm & Hn & Hr & He & Hp & Hx & Hpl & Hd & Ha). split; [done|].
    destruct (srv_slots s !! _) as [r|] eqn:Er; [|congruence]. destruct Hs as [_ [= E1 E2 E3]].
    split; [done | done | |].
    + destruct (srv_publications s !! _); [by injection Hp as -> | done].
    + exists r. split; [done|]. unfold usable_slot. by rewrite <- E1, <- E2, <- E3.
  - intros [(Hw & Hm & Hn & Hr) [Hv He Hp (r & Er & Hpl & Hd & Ha)]].
    rewrite Er in Hs. destruct Hs as [Hx [= E1 E2 E3]]. rewrite Hp, E1, E2, E3. done.
Qed.

Definition doctor_post (cfg : Config) (env : Env) (s : PgServer) (o : outcome (list Check))
    (w' : World PgServer) : Prop :=
  disk w' = s ∧
  match o with
  | Ok cs => (faulty env ∧ all_pass cs = false) ∨
             (all_pass cs = true ↔ server_capable s ∧ server_ready (Postgres cfg) s)
  | Fail _ => True
  | Crash => False
  end.

Lemma Doctor_wp cfg retained env (w : World PgServer) :
  txn w = None →
  wp (Doctor LookupEnv pg_failure cfg (srv_database (disk w)) retained) env w
    (doctor_post cfg env (disk w)).
Proof.
  intros Ht. unfold Doctor. wp_step. unfold lift_result.
  destruct (PostgreSQLDSN _ _); wp_step; [done|]. wp_step.
  apply wp_exec_auto; [done|..].
  { intros n m k [Hx|?]; [|done]. wp_step. split; [done | by left]. }
  { intros n m db' a k Hx [= <- <-]. wp_step. split; [done | by left]. }
  intros n db' a k [= <- <-].
  do 4 (wp_step; apply wp_query_auto; [done | done|]; intros ?).
  wp_step. apply read_slot_wp; [done | done|]. intros slot k' Hs. simpl in Hs. wp_step.
  assert (∀ size, doctor_post cfg env (disk w) (Ok (report cfg (srv_database (disk w)) (disk w)
    (srv_replication (disk w), srv_superuser (disk w)) (srv_emit (disk w))
    (match srv_publications (disk w) !! Publication (Postgres cfg) with
     | Some n => (true, n) | None => (false, 0) end) slot size))
    (MkWorld (disk w) None k')) as Hok.
  { intros size. split; [done|]. right. by apply report_ready. }
  destruct (sl_Exists slot).
  - apply wp_exec_auto; [done|..].
    + intros. wp_step. apply Hok.
    + intros n' m db' a k'' Hx [= <- <-]. wp_step. apply Hok.
    + intros n' db' a k'' [= <- <-]. wp_step. apply Hok.
  - wp_step. wp_step. apply Hok.
Qed.

(** Doctor changes nothing, and unless the connection failed its checks all
    pass exactly when the server can stream and has everything capture needs,
    which is what setup establishes. *)
Theorem doctor_exact cfg retained env (w : World PgServer) :
  txn w = None →
  let s := disk w in
  let run := Doctor LookupEnv pg_failure cfg (srv_database s) retained env w in
  disk run.2 = s ∧
  match run.1 with
  | Ok cs => (faulty env ∧ all_pass cs = false) ∨
             (all_pass cs = true ↔ server_capable s ∧ server_ready (Postgres cfg) s)
  | Fail _ => True
  | Crash => False
  end.
Proof. intros Ht. exact (Doctor_wp cfg retained env w Ht). Qed.

End SetupProps.
