(* ===== verification/Replicator.v ===== *)
(** * Replicator: capture, internal/postgres/replicator.go

    [runOnce] receives the replication stream, assembles transactions,
    persists each in the spool and only then acknowledges it; [Run]
    reconnects.  The spool is used through [SpoolStore], the wire format of
    pglogrepl through [WireCodec].  What the outside does is given: the
    answers of PostgreSQL and the messages it sends are in a [Session], disk
    probes, cancellation and failing acknowledgements in [Net].  Log output
    is left out. *)

From Stdlib Require Import Ascii.
From S2P Require Import Prelude Rows Text Timestamp Sha256 Runtime Spool Store.
From S2P Require Import SpoolInterface Event StateMachine DiskGuard Config Io Slot.

(** pglogrepl's decoding of the copy-both protocol. *)
Class WireCodec := {
  PrimaryKeepaliveMessageByteID : ascii;
  XLogDataByteID : ascii;
  (** [ReplyRequested] *)
  ParsePrimaryKeepaliveMessage : string → option bool;
  (** [WALData] *)
  ParseXLogData : string → option string;
  Parse : string → option Message;
  (** LSNs are [uint64]. *)
  Parse_typed : ∀ d cl el t, Parse d = Some (CommitMessage cl el t) → in_uint64 cl ∧ in_uint64 el;
}.

(** [pglogrepl.StandbyStatusUpdate] without the client time. *)
Record StandbyStatusUpdate := MkStandby {
  WALWritePosition : LSN;
  WALFlushPosition : LSN;
  WALApplyPosition : LSN;
}.

Definition standbyStatus (durableLSN : LSN) : StandbyStatusUpdate :=
  MkStandby durableLSN durableLSN durableLSN.

(** The mutable fields of [Replicator], and the status updates it has sent. *)
Record RepState := MkRep {
  rp_disk : Guard;
  rp_connected : bool;
  rp_transactions : Z;
  rp_lastCapture : Z;
  rp_acks : list StandbyStatusUpdate;
}.

Definition set_disk (g : Guard) (r : RepState) : RepState :=
  MkRep g (rp_connected r) (rp_transactions r) (rp_lastCapture r) (rp_acks r).
Definition set_connected (b : bool) (r : RepState) : RepState :=
  MkRep (rp_disk r) b (rp_transactions r) (rp_lastCapture r) (rp_acks r).
Definition captured (unix : Z) (r : RepState) : RepState :=
  MkRep (rp_disk r) (rp_connected r) (uint64 (rp_transactions r + 1)) unix (rp_acks r).
Definition add_ack (a : StandbyStatusUpdate) (r : RepState) : RepState :=
  MkRep (rp_disk r) (rp_connected r) (rp_transactions r) (rp_lastCapture r) (rp_acks r ++ [a]).

(** [options.PluginArgs] of [pglogrepl.StartReplication]. *)
Definition plugin_args (cfg : Config) : list string :=
  ["proto_version '1'"; "publication_names '" +:+ Publication (Postgres cfg) +:+ "'"; "messages 'true'"].

(** [NewReplicator]. *)
Definition NewReplicator (cfg : Config) : RepState :=
  MkRep (NewGuard (DiskSpace (SpoolSection cfg))) false 0 0 [].

(** What the operating system and the network answer, by the moment of the
    question. *)
Record Net := MkNet {
  net_probe : nat → result Z;
  net_cancelled : nat → bool;
  net_ack_fails : nat → bool;
}.

(** The outcome of [connection.ReceiveMessage]: a message ([None] for one that
    is not CopyData), a timeout, an error while the context is done, any
    other error. *)
Inductive Received :=
  | RecvMessage (copyData : option string)
  | RecvTimeout
  | RecvCancelled
  | RecvError.

(** PostgreSQL's answers during one [startLSN], by the name of the slot where
    the question has one. *)
Record PgAnswers := MkAnswers {
  pg_connect : option PgFailure;
  pg_slot : string → result (option SlotRow);
  pg_close : option error;
  pg_create : string → option error;
  pg_reconnect : option PgFailure;
  pg_slot_again : string → result (option SlotRow);
  pg_version : result (string * Z);
}.

Inductive Wake := TimerFired | ContextDone.

(** One call of [runOnce] and what follows it in [Run].  Whether the stream
    starts depends on the slot, the plugin's arguments and the position asked
    for, the messages on the position. *)
Record Session := MkSession {
  ss_dsn : result unit;
  ss_pg : PgAnswers;
  ss_connect : option error;
  ss_start : string → list string → LSN → bool;
  ss_inbox : LSN → list Received;
  ss_done : bool;
  ss_disk_waits : list Wake;
  ss_random : Z;
  ss_wait : Wake;
}.

Section Replicator.
Context {D : Type} {spool_store : SpoolStore D} {codec : LsnCodec} {wire : WireCodec}.
Context {validator : EventValidator} (cfg : Config) (net : Net) (hooks : Hooks).

(** [checkDisk]. *)
Definition checkDisk (force : bool) : P D RepState unit :=
  t ← lift now;
  n ← moment;
  r ← get_state;
  let '(g, err) := Check t (net_probe net n) force (rp_disk r) in
  modify (set_disk g);;
  check_error err.

(** [waitForDisk]: false when the context ended.  The list says what each
    [select] saw; a list that ends is a context that ends. *)
Fixpoint waitForDisk (waits : list Wake) : P D RepState bool :=
  match waits with
  | [] | ContextDone :: _ => mret false
  | TimerFired :: waits' =>
      r ← try (checkDisk true);
      match r with
      | inr _ => mret true
      | inl _ => waitForDisk waits'
      end
  end.

(** [sendStandbyStatus]: an update that failed may have arrived. *)
Definition sendStandbyStatus (durableLSN : LSN) : P D RepState unit :=
  r ← get_state;
  modify (add_ack (standbyStatus durableLSN));;
  if net_ack_fails net (length (rp_acks r))
  then pfail (errorf "send standby status at durable LSN %s: %w")
  else mret tt.

(** [persistThenAcknowledgeWithHooks]. *)
Definition persistThenAcknowledgeWithHooks (batch : CommittedBatch)
    (acknowledge : LSN → P D RepState unit) : P D RepState PersistResult :=
  result ← lift (sp_Persist batch);
  (if pr_DurableLSN result <? cb_CommitEndLSN batch
   then pfail (wrapf ErrDurability "spool returned checkpoint %s before transaction end %s")
   else mret tt);;
  acknowledge (pr_DurableLSN result);;
  lift (CallAfterAcknowledgment hooks);;
  mret result.

(** [persistBatch]. *)
Definition persistBatch (batch : CommittedBatch) (acknowledge : LSN → P D RepState unit)
    : P D RepState PersistResult :=
  n ← moment;
  (if net_cancelled net n then pfail (errorf "context canceled") else mret tt);;
  checkDisk true;;
  persistThenAcknowledgeWithHooks batch acknowledge.

(** [DecodeWALData]. *)
Definition DecodeWALData (data : string) : result Message :=
  match Parse data with
  | Some m => inr m
  | None => inl (wrapf ErrProtocolState "decode pgoutput protocol-v1 message: %v")
  end.

(** The case [XLogDataByteID] of the receive loop up to the next iteration:
    the state machine and the durable position it continues with. *)
Definition receive_xlog (data : string) (state : StateMachine) (durableLSN : LSN)
    : P D RepState (StateMachine * LSN) :=
  match ParseXLogData data with
  | None => pfail (errorf "parse XLogData: %w")
  | Some walData =>
      decoded ← check_result (DecodeWALData walData);
      match Consume decoded state with
      | (_, inl e) => pfail e
      | (state', inr None) => mret (state', durableLSN)
      | (state', inr (Some batch)) =>
          result ← persistBatch batch sendStandbyStatus;
          t ← lift now;
          modify (captured (t / Second));;
          mret (state', pr_DurableLSN result)
      end
  end.

(** The case [PrimaryKeepaliveMessageByteID]. *)
Definition receive_keepalive (data : string) (durableLSN : LSN) : P D RepState unit :=
  match ParsePrimaryKeepaliveMessage data with
  | None => pfail (errorf "parse primary keepalive: %w")
  | Some true => sendStandbyStatus durableLSN
  | Some false => mret tt
  end.

(** The receive loop of [runOnce].  An inbox that ends is a context that ends. *)
Fixpoint receive_loop (inbox : list Received) (state : StateMachine) (durableLSN : LSN)
    : P D RepState unit :=
  checkDisk false;;
  match inbox with
  | [] | RecvCancelled :: _ => mret tt
  | RecvTimeout :: rest => sendStandbyStatus durableLSN;; receive_loop rest state durableLSN
  | RecvError :: _ => pfail (errorf "receive replication message: %w")
  | RecvMessage None :: rest | RecvMessage (Some "") :: rest => receive_loop rest state durableLSN
  | RecvMessage (Some (String b data)) :: rest =>
      if (b =? PrimaryKeepaliveMessageByteID)%char then
        receive_keepalive data durableLSN;;
        receive_loop rest state durableLSN
      else if (b =? XLogDataByteID)%char then
        '(state', durableLSN') ← receive_xlog data state durableLSN;
        receive_loop rest state' durableLSN'
      else receive_loop rest state durableLSN
  end.

(** [startLSN]. *)
Definition startLSN (pg : PgAnswers) : P D RepState LSN :=
  check_error (redactConnectionError (pg_connect pg));;
  slot ← check_result (readSlot (pg_slot pg (Slot (Postgres cfg))));
  slot ← (if sl_Exists slot then mret slot
          else if negb (CreateSlotIfMissing (Postgres cfg)) then
            pfail (errorf "replication slot %q does not exist; run setup --create-slot")
          else
            check_error (pg_close pg);;
            check_error (pg_create pg (Slot (Postgres cfg)));;
            check_error (redactConnectionError (pg_reconnect pg));;
            check_result (readSlot (pg_slot_again pg (Slot (Postgres cfg)))));
  '(database, version) ← check_result
    (match pg_version pg with
     | inl _ => inl (errorf "read current database/version: %w")
     | inr v => inr v
     end);
  check_error (validateServerVersion version);;
  check_error (validateSlot slot database);;
  local ← lift sp_LastDurableLSN;
  if negb (local =? 0) then mret local
  else if negb (sl_ConfirmedFlushLSN slot =? 0) then mret (sl_ConfirmedFlushLSN slot)
  else if negb (sl_RestartLSN slot =? 0) then mret (sl_RestartLSN slot)
  else pfail (errorf "replication slot has no usable start LSN").

(** [runOnce]. *)
Definition runOnce (s : Session) : P D RepState unit :=
  checkDisk true;;
  check_result (ss_dsn s);;
  start ← startLSN (ss_pg s);
  check_error (ss_connect s);;
  (if ss_start s (Slot (Postgres cfg)) (plugin_args cfg) start then mret tt else pfail (errorf "start logical replication: %w"));;
  durable ← lift sp_LastDurableLSN;
  let durableLSN := if durable =? 0 then start else durable in
  let state := NewStateMachine (MessagePrefix (Postgres cfg)) (MaxEventBytes (SpoolSection cfg))
                 (MaxTransactionEvents (Postgres cfg)) (MaxTransactionBytes (Postgres cfg)) in
  modify (set_connected true);;
  deferred (set_connected false) (receive_loop (ss_inbox s start) state durableLSN).

(** [isFatalCaptureError]. *)
Definition isFatalCaptureError (e : error) : bool :=
  errors_is e ErrProtocolState || errors_is e ErrProtectedEvent ||
  errors_is e ErrTransactionLimit || errors_is e ErrSlotMismatch ||
  errors_is e ErrUnsupportedVersion || errors_is e ErrIdentityConflict ||
  errors_is e ErrDurability.

(** The back-off at the end of [Run]'s loop. *)
Definition next_delay (delay : duration) : duration :=
  if delay <? 30 * Second then
    (if 30 * Second <? delay * 2 then 30 * Second else delay * 2)
  else delay.

(** [delay + jitter], where [random] is the answer of [rand.Int64N(delay)]. *)
Definition reconnect_wait (delay random : Z) : duration := delay + (random - Z.quot delay 2).

(** [Run]: the sessions until the context ends or a fatal error. *)
Fixpoint Run (sessions : list Session) (delay : duration) : P D RepState unit :=
  match sessions with
  | [] => mret tt
  | s :: rest =>
      err ← try (runOnce s);
      if ss_done s then mret tt
      else
        match err with
        | inl e =>
            if errors_is e ErrPaused then
              recovered ← waitForDisk (ss_disk_waits s);
              if recovered : bool then Run rest Second else mret tt
            else if isFatalCaptureError e then pfail e
            else match ss_wait s with
                 | ContextDone => mret tt
                 | TimerFired => Run rest (next_delay delay)
                 end
        | inr _ =>
            match ss_wait s with
            | ContextDone => mret tt
            | TimerFired => Run rest (next_delay delay)
            end
        end
  end.

End Replicator.
