(* ===== verification/ReplicatorFacts.v ===== *)
(** * ReplicatorFacts: what a replication session does to the spool *)

From Stdlib Require Import Ascii.
From S2P Require Import Prelude Rows Text Timestamp Sha256 Runtime Spool Store.
From S2P Require Import SpoolInterface Event StateMachine StateMachineProps DiskGuard Config Io Slot Replicator.

(** All batches of a list, one after the other. *)
Fixpoint spec_persist_all (bs : list CommittedBatch) (a : SpoolAbs) : option SpoolAbs :=
  match bs with
  | [] => Some a
  | b :: bs' => match spec_persist b a with Some a' => spec_persist_all bs' a' | None => None end
  end.

Lemma spec_persist_checkpoint b a a' :
  spec_persist b a = Some a' → a_checkpoint a' = Z.max (a_checkpoint a) (cb_CommitEndLSN b).
Proof. unfold spec_persist. destruct (log_insert_all _ _); [|done]. by intros [= <-]. Qed.

Lemma spec_persist_all_checkpoint bs a a' :
  spec_persist_all bs a = Some a' → a_checkpoint a <= a_checkpoint a'.
Proof.
  revert a. induction bs as [|b bs IH]; simpl; intros a H; [by injection H as <-|].
  destruct (spec_persist b a) as [a1|] eqn:E; [|done]. apply IH in H.
  apply spec_persist_checkpoint in E. lia.
Qed.

Section Facts.
Context {D : Type} {spool_store : SpoolStore D} {codec : LsnCodec} {wire : WireCodec}.
Context {validator : EventValidator} (cfg : Config) (net : Net) (hooks : Hooks).

(** The replication message a received message carries, if any. *)
Definition message_of (r : Received) : option Message :=
  match r with
  | RecvMessage (Some (String b data)) =>
      if (b =? PrimaryKeepaliveMessageByteID)%char then None
      else if (b =? XLogDataByteID)%char then
        match ParseXLogData data with Some wal => Parse wal | None => None end
      else None
  | _ => None
  end.

Definition same_store (w w' : World D) : Prop := disk w' = disk w ∧ txn w' = txn w.

Lemma same_store_refl w : same_store w w.
Proof. done. Qed.

Lemma checkDisk_pwp force env w r (Q : outcome unit → World D → RepState → Prop) :
  (∀ w' r', same_store w w' → rp_acks r' = rp_acks r → Q (Ok tt) w' r') →
  (∀ w' r', same_store w w' → rp_acks r' = rp_acks r → Q (Fail pausedError) w' r') →
  pwp (checkDisk net force) env w r Q.
Proof.
  intros Hok Hf. unfold checkDisk. do 2 pwp_step. wp_step. do 4 pwp_step.
  set (w' := advance w). assert (same_store w w') by done.
  destruct (Check _ _ _ _) as [g err] eqn:E. do 2 pwp_step. pwp_step.
  - intros e ->. enough (e = pausedError) as -> by (by apply Hf).
    unfold Check in E. destruct (negb _); [by injection E|]. destruct (_ && _).
    { injection E as _ E. destruct (st_Paused _); congruence. }
    destruct (match net_probe _ _ with inl _ => _ | inr _ => _ end) as [[p re] av].
    injection E as _ E. destruct p; congruence.
  - intros ->. by apply Hok.
Qed.

Lemma sendStandbyStatus_pwp l env w r (Q : outcome unit → World D → RepState → Prop) :
  (∀ o r', o ≠ Crash → rp_acks r' = rp_acks r ++ [standbyStatus l] → Q o w r') →
  pwp (sendStandbyStatus net l) env w r Q.
Proof.
  intros H. unfold sendStandbyStatus. do 4 pwp_step.
  destruct (net_ack_fails _ _); pwp_step; by apply H.
Qed.

(** The store is sound and holds the abstract spool [a]. *)
Definition holds (w : World D) (a : SpoolAbs) : Prop :=
  sp_ok (disk w) ∧ txn w = None ∧ sp_abs (disk w) a.

Lemma holds_same w w' a : same_store w w' → holds w a → holds w' a.
Proof. intros [E1 E2]. unfold holds. by rewrite E1, E2. Qed.

(** After the end of the process only the disk counts. *)
Definition left_with {A} (o : outcome A) (w : World D) (a : SpoolAbs) : Prop :=
  sp_ok (disk w) ∧ sp_abs (disk w) a ∧ (o ≠ Crash → txn w = None).

Lemma holds_left {A} (o : outcome A) w a : holds w a → left_with o w a.
Proof. by intros (? & ? & ?). Qed.

Lemma left_with_cast {A B} (o : outcome A) (o' : outcome B) w a :
  (o' ≠ Crash → o ≠ Crash) → left_with o w a → left_with o' w a.
Proof. intros H (? & ? & Ht). split; [done|]. split; auto. Qed.

(** The updates sent from [r] to [r'] acknowledge [l] or a checkpoint of [a]. *)
Definition acks_ok (d0 : LSN) (a : SpoolAbs) (r r' : RepState) : Prop :=
  ∃ new, rp_acks r' = rp_acks r ++ new ∧
    Forall (λ k, ∃ l, k = standbyStatus l ∧ (l = d0 ∨ l <= a_checkpoint a)) new.

Lemma acks_ok_refl d0 a r r' : rp_acks r' = rp_acks r → acks_ok d0 a r r'.
Proof. intros E. exists []. by rewrite app_nil_r. Qed.

Lemma acks_ok_one d0 a r r' l :
  rp_acks r' = rp_acks r ++ [standbyStatus l] → l = d0 ∨ l <= a_checkpoint a → acks_ok d0 a r r'.
Proof. intros E H. exists [standbyStatus l]. split; [done|]. constructor; [|done]. eauto. Qed.

Lemma acks_ok_trans d0 d1 a1 a2 r1 r2 r3 :
  acks_ok d0 a1 r1 r2 → acks_ok d1 a2 r2 r3 → a_checkpoint a1 <= a_checkpoint a2 →
  d1 = d0 ∨ d1 <= a_checkpoint a2 → acks_ok d0 a2 r1 r3.
Proof.
  intros (n1 & E1 & F1) (n2 & E2 & F2) Hle Hd. exists (n1 ++ n2).
  split; [by rewrite E2, E1, app_assoc|]. apply Forall_app. split.
  - eapply Forall_impl; [exact F1|]. intros k (l & -> & [->|H]); eexists; (split; [done|]); [by left|].
    right. lia.
  - eapply Forall_impl; [exact F2|]. intros k (l & -> & [->|H]); eexists; (split; [done|]); [|by right].
    done.
Qed.

(** What persisting one batch can do. *)
Definition persist_result (b : CommittedBatch) (a : SpoolAbs) (d0 : LSN) (r : RepState)
    (o : outcome PersistResult) (w' : World D) (r' : RepState) : Prop :=
  match o with
  | Ok res => ∃ a', spec_persist b a = Some a' ∧ holds w' a' ∧
      pr_DurableLSN res = a_checkpoint a' ∧ acks_ok d0 a' r r'
  | _ => ∃ a', (a' = a ∨ spec_persist b a = Some a') ∧ left_with o w' a' ∧ acks_ok d0 a' r r'
  end.

Lemma persistBatch_pwp b env w r a d0 :
  holds w a → in_uint64 (cb_CommitEndLSN b) →
  pwp (persistBatch net hooks b (sendStandbyStatus net)) env w r (persist_result b a d0 r).
Proof.
  intros Hh Hb. unfold persistBatch. do 2 pwp_step. pwp_step.
  destruct (net_cancelled _ _).
  { pwp_step. exists a. split; [by left|]. split; [by apply holds_left | by apply acks_ok_refl]. }
  pwp_step. pwp_step. apply checkDisk_pwp.
  2: { intros w1 r1 Hs Ha. exists a. split; [by left|].
       split; [by apply holds_left, (holds_same w) | by apply acks_ok_refl]. }
  intros w1 r1 Hs Ha. apply (holds_same _ _ _ Hs) in Hh as (Hok & Ht & Habs). clear Hs w.
  unfold persistThenAcknowledgeWithHooks. do 2 pwp_step.
  eapply wp_mono; [by apply sp_Persist_spec|]. intros o w2 [Hok2 Hpost]. destruct o as [res|e|].
  - destruct Hpost as (Ht2 & a' & Hsp & Habs2 & Hd).
    pose proof (spec_persist_checkpoint _ _ _ Hsp) as Hck.
    pwp_step. replace (_ <? _) with false by (symmetry; apply Z.ltb_ge; lia). pwp_step.
    pwp_step. apply sendStandbyStatus_pwp. intros o r2 Ho Ha2.
    assert (acks_ok d0 a' r r2) as Hacks.
    { eapply acks_ok_one; [by rewrite <- Ha|]. right. lia. }
    assert (holds w2 a') as Hh2 by done.
    destruct o as [[]|e|]; [| |done].
    + do 2 pwp_step. apply wp_call_hook.
      * intros _. exists a'. split; [by right|]. split; [by apply holds_left | done].
      * pwp_step. by exists a'.
    + exists a'. split; [by right|]. split; [by apply holds_left | done].
  - destruct Hpost as (Ht2 & [Habs2|(a' & Hsp & Habs2)]).
    + exists a. split; [by left|]. split; [done | by apply acks_ok_refl].
    + exists a'. split; [by right|]. split; [done | by apply acks_ok_refl].
  - destruct Hpost as [Habs2|(a' & Hsp & Habs2)].
    + exists a. split; [by left|]. split; [by split; [|split] | by apply acks_ok_refl].
    + exists a'. split; [by right|]. split; [by split; [|split] | by apply acks_ok_refl].
Qed.

(** ** The receive loop *)

Definition batches_of (msgs : list Message) (s : StateMachine) : list CommittedBatch :=
  (consume_all msgs s).1.2.

Lemma batches_of_cons m msgs s s' ob :
  Consume m s = (s', inr ob) →
  batches_of (m :: msgs) s =
    match ob with Some b => b :: batches_of msgs s' | None => batches_of msgs s' end.
Proof.
  intros E. unfold batches_of. simpl. rewrite E.
  destruct (consume_all msgs s') as [[s2 bs] e]. by destruct ob.
Qed.

(** The spool holds the batches of a prefix of the received messages. *)
Definition loop_result (msgs : list Message) (state : StateMachine) (a : SpoolAbs) (d0 : LSN)
    (r : RepState) (o : outcome unit) (w' : World D) (r' : RepState) : Prop :=
  ∃ got a', got `prefix_of` msgs ∧ spec_persist_all (batches_of got state) a = Some a' ∧
    left_with o w' a' ∧ acks_ok d0 a' r r'.

Lemma loop_result_stop msgs state a d0 r o w' r' :
  left_with o w' a → acks_ok d0 a r r' → loop_result msgs state a d0 r o w' r'.
Proof. intros H1 H2. exists [], a. split; [apply prefix_nil|]. done. Qed.

Lemma loop_result_skip msgs state a d0 r r1 o w' r' d1 :
  acks_ok d0 a r r1 → d1 = d0 ∨ d1 <= a_checkpoint a →
  loop_result msgs state a d1 r1 o w' r' → loop_result msgs state a d0 r o w' r'.
Proof.
  intros Ha Hd (got & a' & Hp & Hs & Hl & Ha'). exists got, a'. do 3 (split; [done|]).
  pose proof (spec_persist_all_checkpoint _ _ _ Hs).
  eapply acks_ok_trans; [exact Ha | exact Ha' | done |]. destruct Hd; [by left | right; lia].
Qed.

Lemma Consume_end m s s' b :
  Consume m s = (s', inr (Some b)) →
  ∃ cl el t, m = CommitMessage cl el t ∧ cb_CommitEndLSN b = el.
Proof.
  destruct m as [xid|lm|cl el t| |]; simpl; try done.
  - by destruct (inTransaction s).
  - by destruct (consumeLogicalMessage lm s) as [? [?|]].
  - destruct (negb _); [done|]. intros [= _ <-]. eauto.
Qed.

(** One WAL message. *)
Lemma receive_xlog_pwp data state d0 env w r a msgs wal m :
  holds w a → ParseXLogData data = Some wal → Parse wal = Some m →
  pwp (receive_xlog net hooks data state d0) env w r (λ o w' r', match o with
    | Ok (state', d1) =>
        ∃ ob a', Consume m state = (state', inr ob) ∧
          match ob with Some b => spec_persist b a = Some a' | None => a' = a end ∧
          holds w' a' ∧ acks_ok d0 a' r r' ∧ (d1 = d0 ∨ d1 <= a_checkpoint a')
    | Fail e => loop_result (m :: msgs) state a d0 r (Fail e) w' r'
    | Crash => loop_result (m :: msgs) state a d0 r Crash w' r'
    end).
Proof.
  intros Hh Hx Hm. unfold receive_xlog. rewrite Hx. pwp_step. pwp_step.
  { intros e He. unfold DecodeWALData in He. by rewrite Hm in He. }
  intros m' Hm'. unfold DecodeWALData in Hm'. rewrite Hm in Hm'. injection Hm' as <-.
  destruct (Consume m state) as [state' [e|[b|]]] eqn:Ec.
  - pwp_step. apply loop_result_stop; [by apply holds_left | by apply acks_ok_refl].
  - destruct (Consume_end _ _ _ _ Ec) as (cl & el & t & -> & Hel).
    assert (in_uint64 (cb_CommitEndLSN b)) as Hb
      by (rewrite Hel; by eapply Parse_typed).
    assert (∀ a', a' = a ∨ spec_persist b a = Some a' → ∃ got,
      got `prefix_of` CommitMessage cl el t :: msgs ∧
      spec_persist_all (batches_of got state) a = Some a') as Hgot.
    { intros a' [->|Hsp]; [exists []; split; [apply prefix_nil | done]|].
      exists [CommitMessage cl el t]. split; [apply prefix_cons, prefix_nil|].
      erewrite batches_of_cons by done. simpl. by rewrite Hsp. }
    pwp_step. eapply pwp_mono; [by apply (persistBatch_pwp b env w r a d0)|].
    intros o w1 r1 Hp. destruct o as [res|e|]; simpl in Hp.
    + destruct Hp as (a' & Hsp & Hh1 & Hd & Hacks). do 2 pwp_step. wp_step. do 3 pwp_step.
      exists (Some b), a'. split; [done|]. split; [done|].
      split; [by apply (holds_same w1)|]. split; [exact Hacks|]. right. lia.
    + destruct Hp as (a' & Hsp & Hl & Hacks). destruct (Hgot a' Hsp) as (got & ? & ?).
      exists got, a'. do 2 (split; [done|]). split; [by eapply left_with_cast; [|exact Hl] | done].
    + destruct Hp as (a' & Hsp & Hl & Hacks). destruct (Hgot a' Hsp) as (got & ? & ?).
      exists got, a'. do 2 (split; [done|]). split; [by eapply left_with_cast; [|exact Hl] | done].
  - pwp_step. exists None, a. split; [done|]. split; [done|]. split; [done|].
    split; [by apply acks_ok_refl | by left].
Qed.

Lemma receive_loop_pwp inbox state d0 env w r a :
  holds w a →
  pwp (receive_loop net hooks inbox state d0) env w r
    (loop_result (omap message_of inbox) state a d0 r).
Proof.
  revert state d0 w r a. induction inbox as [|x rest IH]; intros state d0 w r a Hh;
    (cbn [receive_loop]; pwp_step; apply checkDisk_pwp;
     [intros w1 r1 Hs Ha; apply (holds_same _ _ _ Hs) in Hh; clear Hs w
     |intros w1 r1 Hs Ha; apply loop_result_stop;
      [by apply holds_left, (holds_same w) | by apply acks_ok_refl]]).
  { pwp_step. apply loop_result_stop; [by apply holds_left | by apply acks_ok_refl]. }
  assert (∀ w2 r2 x', message_of x' = None → acks_ok d0 a r r2 → holds w2 a →
    pwp (receive_loop net hooks rest state d0) env w2 r2
      (loop_result (omap message_of (x' :: rest)) state a d0 r)) as Hskip.
  { intros w2 r2 x' Hx Hacks Hh2. cbn [omap list_omap]. rewrite Hx.
    eapply pwp_mono; [by apply IH|]. intros o w' r' Hl.
    eapply loop_result_skip; [exact Hacks | by left | exact Hl]. }
  assert (∀ x' e, loop_result (omap message_of (x' :: rest)) state a d0 r (Fail e) w1 r1)
    as Hstop by (intros x' e; apply loop_result_stop; [by apply holds_left | by apply acks_ok_refl]).
  assert (∀ x', message_of x' = None →
    pwp (sendStandbyStatus net d0;; receive_loop net hooks rest state d0) env w1 r1
      (loop_result (omap message_of (x' :: rest)) state a d0 r)) as Hsend.
  { intros x' Hx. pwp_step. apply sendStandbyStatus_pwp. intros o r2 Ho Ha2.
    assert (acks_ok d0 a r r2) by (eapply acks_ok_one; [by rewrite <- Ha | by left]).
    destruct o as [[]|e|]; [by apply Hskip | | done].
    apply loop_result_stop; [by apply holds_left | done]. }
  destruct x as [[[|b data]|]| | |].
  - apply Hskip; [done | by apply acks_ok_refl | done].
  - destruct (b =? PrimaryKeepaliveMessageByteID)%char eqn:Ek.
    + assert (message_of (RecvMessage (Some (String b data))) = None) as Hno
        by (simpl; by rewrite Ek).
      unfold receive_keepalive. destruct (ParsePrimaryKeepaliveMessage data) as [[]|].
      * by apply Hsend.
      * do 2 pwp_step. apply Hskip; [done | by apply acks_ok_refl | done].
      * do 2 pwp_step. apply Hstop.
    + destruct (b =? XLogDataByteID)%char eqn:Ex.
      * destruct (ParseXLogData data) as [wal|] eqn:Exl.
        2: { unfold receive_xlog. rewrite Exl. do 2 pwp_step. apply Hstop. }
        destruct (Parse wal) as [m|] eqn:Em.
        2: { unfold receive_xlog, DecodeWALData. rewrite Exl, Em. do 3 pwp_step; [|done].
             intros e _. apply Hstop. }
        cbn [omap list_omap]. unfold message_of at 1. rewrite Ek, Ex, Exl, Em.
        pwp_step. eapply pwp_mono; [by apply (receive_xlog_pwp _ _ d0 env w1 r1 a (omap message_of rest) wal m)|].
        intros o w2 r2 Hp. destruct o as [[state' d1]|e|].
        -- destruct Hp as (ob & a' & Hc & Hsp & Hh2 & Hacks & Hd1).
           eapply pwp_mono; [by apply IH|]. intros o w3 r3 (got & a2 & Hpre & Hs2 & Hl & Hacks2).
           exists (m :: got), a2. split; [by apply prefix_cons|].
           rewrite (batches_of_cons _ _ _ _ _ Hc). split.
           { destruct ob as [b0|]; [simpl; by rewrite Hsp | by subst]. }
           split; [done|]. pose proof (spec_persist_all_checkpoint _ _ _ Hs2).
           eapply acks_ok_trans; [|exact Hacks2|done|destruct Hd1; [by left | right; lia]].
           destruct Hacks as (n & E & F). exists n. by rewrite E, Ha.
        -- by eapply loop_result_skip; [apply acks_ok_refl; exact Ha | by left |].
        -- by eapply loop_result_skip; [apply acks_ok_refl; exact Ha | by left |].
      * apply Hskip; [simpl; by rewrite Ek, Ex | by apply acks_ok_refl | done].
  - apply Hskip; [done | by apply acks_ok_refl | done].
  - by apply Hsend.
  - pwp_step. apply loop_result_stop; [by apply holds_left | by apply acks_ok_refl].
  - pwp_step. apply Hstop.
Qed.

End Facts.
