(* ===== verification/Stream.v ===== *)
(** * Stream: the server's log and what has been captured of it

    PostgreSQL's committed transactions are a list in commit order.  A
    replication stream started at an LSN is a prefix of the messages of the
    transactions that end after it, with messages of other applications
    anywhere in between. *)

From S2P Require Import Prelude Rows Text Timestamp Sha256 Runtime Spool Store StoreFacts StoreProps.
From S2P Require Import SpoolInterface Event StateMachine StateMachineProps DiskGuard Config Io Slot.
From S2P Require Import Replicator ReplicatorFacts.

Lemma prefix_of_app {A} (l a b : list A) :
  l `prefix_of` a ++ b → l `prefix_of` a ∨ ∃ l', l = a ++ l' ∧ l' `prefix_of` b.
Proof.
  revert l. induction a as [|x a IH]; intros l H; [right; by exists l|].
  destruct l as [|y l]; [left; apply prefix_nil|].
  pose proof (prefix_cons_inv_1 _ _ _ _ H) as ->.
  apply prefix_cons_inv_2 in H. destruct (IH l H) as [Hl|(l' & -> & Hl')].
  - left. by apply prefix_cons.
  - right. by exists l'.
Qed.

Section Stream.
Context {validator : EventValidator}.

Definition is_commit (m : Message) : bool :=
  match m with CommitMessage _ _ _ => true | _ => false end.

(** Only a Commit produces a batch. *)
Lemma batches_no_commit msgs s :
  Forall (λ m, is_commit m = false) msgs → batches_of msgs s = [].
Proof.
  intros H. revert s. induction H as [|m msgs Hm H IH]; intros s; [done|].
  destruct (Consume m s) as [s' [e|[b|]]] eqn:E.
  - unfold batches_of. simpl. by rewrite E.
  - apply Consume_end in E as (cl & el & t & -> & _). done.
  - by rewrite (batches_of_cons _ _ _ _ _ E).
Qed.

(** A prefix of the messages of a transaction is all of them or has no Commit. *)
Lemma tx_messages_prefix got t :
  got `prefix_of` tx_messages t →
  got = tx_messages t ∨ Forall (λ m, is_commit m = false) got.
Proof.
  unfold tx_messages. rewrite app_comm_cons. intros H.
  assert (Forall (λ m, is_commit m = false)
    (BeginMessage (tx_xid t) :: map item_message (tx_items t))) as Hno.
  { constructor; [done|]. apply Forall_forall.
    intros m (i & _ & ->)%elem_of_map_row. by destruct i. }
  apply prefix_of_app in H as [[l Hl]|(l' & -> & Hl')].
  - right. rewrite Hl in Hno. by apply Forall_app in Hno as [? _].
  - destruct l' as [|m l']; [right; by rewrite app_nil_r|]. left.
    pose proof (prefix_cons_inv_1 _ _ _ _ Hl') as ->. apply prefix_cons_inv_2, prefix_nil_inv in Hl'.
    by subst.
Qed.

(** The batches of a prefix of a stream are those of its first transactions. *)
Lemma batches_of_stream got ts s :
  sm_wf s → reset s = s → got `prefix_of` flat_map tx_messages ts →
  ∃ k, batches_of got s = map (batch_of s) (take k ts) ∧ Forall (tx_ok s) (take k ts).
Proof.
  intros Hwf Hs. assert (inTransaction s = false) as Hidle by (by rewrite <- Hs).
  revert got. induction ts as [|t ts IH]; intros got H.
  { apply prefix_nil_inv in H as ->. by exists 0%nat. }
  cbn [flat_map] in H. apply prefix_of_app in H as [H|(got' & -> & H)].
  - apply tx_messages_prefix in H as [->|H].
    + destruct (consume_transaction s t [] Hwf Hidle) as [[Hok E]|(_ & s' & e & E & _)];
        rewrite app_nil_r in E; unfold batches_of; rewrite E.
      * exists 1%nat. simpl. rewrite take_0. by split; [|constructor].
      * by exists 0%nat.
    + exists 0%nat. by rewrite batches_no_commit.
  - destruct (consume_transaction s t got' Hwf Hidle) as [[Hok E]|(_ & s' & e & E & _)];
      unfold batches_of; rewrite E.
    + destruct (IH got' H) as (k & Hk & Hoks). exists (S k). rewrite Hs.
      unfold batches_of in Hk. destruct (consume_all got' s) as [[s' bs] e]. simpl in *. subst bs.
      split; [done | by constructor].
    + by exists 0%nat.
Qed.

(** ** Messages of other applications *)

(** A message that capture passes over: a logical message with another
    prefix, transactional or not, a table change, any other kind. *)
Definition foreign (p : string) (m : Message) : bool :=
  match m with
  | LogicalDecodingMessage m => negb (lm_Prefix m =? p)%string
  | TableChangeMessage | OtherMessage => true
  | BeginMessage _ | CommitMessage _ _ _ => false
  end.

(** [got] is [msgs] with foreign messages anywhere. *)
Inductive weaves (p : string) : list Message → list Message → Prop :=
  | weaves_nil : weaves p [] []
  | weaves_both m msgs got : weaves p msgs got → weaves p (m :: msgs) (m :: got)
  | weaves_foreign m msgs got : foreign p m = true → weaves p msgs got → weaves p msgs (m :: got).

Lemma weaves_refl p msgs : weaves p msgs msgs.
Proof. induction msgs; by constructor. Qed.

Lemma weaves_prefix p msgs all got :
  weaves p msgs all → got `prefix_of` all → ∃ msgs', msgs' `prefix_of` msgs ∧ weaves p msgs' got.
Proof.
  intros H. revert got. induction H as [|m msgs all H IH|m msgs all Hm H IH]; intros got Hp.
  - apply prefix_nil_inv in Hp as ->. exists []. split; [done | constructor].
  - destruct got as [|x got]; [exists []; split; [apply prefix_nil | constructor]|].
    pose proof (prefix_cons_inv_1 _ _ _ _ Hp) as ->. apply prefix_cons_inv_2 in Hp.
    destruct (IH got Hp) as (msgs' & H1 & H2). exists (m :: msgs').
    split; [by apply prefix_cons | by constructor].
  - destruct got as [|x got]; [exists []; split; [apply prefix_nil | constructor]|].
    pose proof (prefix_cons_inv_1 _ _ _ _ Hp) as ->. apply prefix_cons_inv_2 in Hp.
    destruct (IH got Hp) as (msgs' & H1 & H2). exists msgs'. split; [done | by constructor].
Qed.

Lemma Consume_foreign m s : foreign (prefix s) m = true → Consume m s = (s, inr None).
Proof. destruct m as [|m| | |]; simpl; try done. unfold consumeLogicalMessage. by intros ->. Qed.

Lemma Consume_prefix m s : prefix (Consume m s).1 = prefix s.
Proof.
  destruct m as [xid|m|cl el t| |]; simpl; try done.
  - by destruct (inTransaction s).
  - unfold consumeLogicalMessage. repeat case_match; by simplify_eq.
  - by destruct (negb _).
Qed.

(** Foreign messages do not change the batches. *)
Lemma batches_of_weaves msgs got s : weaves (prefix s) msgs got → batches_of got s = batches_of msgs s.
Proof.
  intros H. remember (prefix s) as p eqn:Ep. revert s Ep.
  induction H as [|m msgs got H IH|m msgs got Hm H IH]; intros s ->; [done| |].
  - destruct (Consume m s) as [s' [e|ob]] eqn:E.
    + unfold batches_of. simpl. by rewrite E.
    + rewrite !(batches_of_cons _ _ _ _ _ E). pose proof (Consume_prefix m s) as Hp. rewrite E in Hp.
      rewrite (IH s'); [done | by symmetry].
  - rewrite (batches_of_cons _ _ _ _ _ (Consume_foreign _ _ Hm)). by apply IH.
Qed.

(** ** What is captured *)

(** All of the transaction's protected events are in the log. *)
Definition in_log (s : StateMachine) (a : SpoolAbs) (t : Transaction) : Prop :=
  tx_ok s t ∧ ∀ c, c ∈ cb_Events (batch_of s t) →
    log_digest (ce_key c) (a_log a) = Some (ce_PayloadSHA256 c).

Lemma in_log_persist s a b a' t :
  spec_persist b a = Some a' → in_log s a t → in_log s a' t.
Proof.
  unfold spec_persist. destruct (log_insert_all _ _) as [l|] eqn:E; [|done].
  intros [= <-] [Hok Ht]. split; [done|]. intros c Hc. simpl.
  eapply log_insert_all_keeps; [done|]. by apply Ht.
Qed.

Lemma in_log_new s a a' t :
  tx_ok s t → spec_persist (batch_of s t) a = Some a' → in_log s a' t.
Proof.
  unfold spec_persist. destruct (log_insert_all _ _) as [l|] eqn:E; [|done].
  intros Hok [= <-]. split; [done|]. intros c Hc. by eapply log_insert_all_digest.
Qed.

Lemma persist_all_log s ts a a' :
  Forall (tx_ok s) ts → spec_persist_all (map (batch_of s) ts) a = Some a' →
  (∀ t, in_log s a t → in_log s a' t) ∧ (∀ t, t ∈ ts → in_log s a' t) ∧
  (a_checkpoint a' = a_checkpoint a ∨ ∃ t, t ∈ ts ∧ a_checkpoint a' = tx_EndLSN t).
Proof.
  intros Hok. revert a. induction Hok as [|t ts Ht Hok IH]; intros a H; simpl in H.
  { injection H as <-. split; [done|]. split; [by intros t ?%not_elem_of_nil | by left]. }
  destruct (spec_persist (batch_of s t) a) as [a1|] eqn:E; [|done].
  destruct (IH a1 H) as (Hkeep & Hnew & Hck). split; [|split].
  - intros t' Ht'. by apply Hkeep, (in_log_persist _ a (batch_of s t)).
  - intros t' [->|Ht']%elem_of_cons; [|by apply Hnew]. by eapply Hkeep, in_log_new.
  - apply spec_persist_checkpoint in E. simpl in E.
    destruct Hck as [Hck|(t' & Ht' & Hck)]; [|right; exists t'; split; [by right | done]].
    rewrite Hck, E. destruct (Z.max_spec (a_checkpoint a) (tx_EndLSN t)) as [[_ ->]|[_ ->]]; [|by left].
    right. exists t. split; [left | done].
Qed.

(** Every transaction of the log between [base] and the checkpoint is captured. *)
Definition captured_upto (s : StateMachine) (wal : list Transaction) (base : LSN) (a : SpoolAbs)
    : Prop :=
  ∀ t, t ∈ wal → base < tx_EndLSN t <= a_checkpoint a → in_log s a t.

(** The part of the log that is sent from position [l]. *)
Definition after (l : LSN) (wal : list Transaction) : list Transaction :=
  select (λ t, l <? tx_EndLSN t) wal.

Definition commit_order (wal : list Transaction) : Prop :=
  StronglySorted Z.lt (map tx_EndLSN wal).

Lemma take_before k (ts : list Transaction) t :
  StronglySorted (λ x y, tx_EndLSN x < tx_EndLSN y) ts → t ∈ ts →
  t ∈ take k ts ∨ ∀ t', t' ∈ take k ts → tx_EndLSN t' < tx_EndLSN t.
Proof.
  intros Hs Ht. rewrite <- (take_drop k ts) in Ht, Hs. apply elem_of_app in Ht as [Ht|Ht]; [by left|].
  right. intros t' Ht'. revert Hs Ht'. generalize (take k ts). intros l.
  induction l as [|x l IH]; intros Hs Ht'; [by apply not_elem_of_nil in Ht'|].
  simpl in Hs. inversion Hs as [|? ? Hs' Hall]; subst.
  apply elem_of_cons in Ht' as [->|Ht']; [|by apply IH].
  apply (proj1 (Forall_forall _ _) Hall). apply elem_of_app. by right.
Qed.

(** Capturing the first [k] transactions after the checkpoint extends what is
    captured. *)
Lemma captured_extend s wal base a a' l k :
  commit_order wal → 0 <= base → captured_upto s wal base a →
  (a_checkpoint a ≠ 0 → l = a_checkpoint a) → (a_checkpoint a = 0 → l <= base) →
  Forall (tx_ok s) (take k (after l wal)) →
  spec_persist_all (map (batch_of s) (take k (after l wal))) a = Some a' →
  captured_upto s wal base a'.
Proof.
  intros Hord Hb Hcap Hl1 Hl0 Hok Hp t Ht [Hlo Hhi].
  destruct (persist_all_log _ _ _ _ Hok Hp) as (Hkeep & Hnew & Hck).
  destruct (decide (tx_EndLSN t <= a_checkpoint a)) as [Hle|Hgt].
  { apply Hkeep, Hcap; [done|lia]. }
  assert (t ∈ after l wal) as Hin.
  { apply elem_of_select. split; [done|]. apply Z.ltb_lt.
    destruct (decide (a_checkpoint a = 0)) as [E|E]; [specialize (Hl0 E) | specialize (Hl1 E)]; lia. }
  destruct (take_before k (after l wal) t) as [Htk|Hlate]; [|done|by apply Hnew|].
  { apply StronglySorted_select, StronglySorted_map_lt, Hord. }
  destruct Hck as [Hck|(t' & Ht' & Hck)]; [lia|]. specialize (Hlate t' Ht'). lia.
Qed.

End Stream.
