(* ===== verification/ReplicatorProps.v ===== *)
(** * ReplicatorProps: nothing is acknowledged before it is durable, nothing is lost *)

From Stdlib Require Import Ascii.
From S2P Require Import Prelude Rows Text Timestamp Sha256 Runtime Spool Store.
From S2P Require Import SpoolInterface Event StateMachine StateMachineProps DiskGuard Config Io Slot.
From S2P Require Import Replicator ReplicatorFacts Stream.

Section Props.
Context {D : Type} {spool_store : SpoolStore D} {codec : LsnCodec} {wire : WireCodec}.
Context {validator : EventValidator} (cfg : Config).

(** The position of the slot that [startLSN] falls back to. *)
Definition slot_position (pg : PgAnswers) : option LSN :=
  match readSlot (pg_slot pg (Slot (Postgres cfg))) with
  | inl _ => None
  | inr slot =>
      match (if sl_Exists slot then inr slot else readSlot (pg_slot_again pg (Slot (Postgres cfg)))) with
      | inl _ => None
      | inr slot =>
          if negb (sl_ConfirmedFlushLSN slot =? 0) then Some (sl_ConfirmedFlushLSN slot)
          else if negb (sl_RestartLSN slot =? 0) then Some (sl_RestartLSN slot)
          else None
      end
  end.

(** Where replication starts. *)
Definition starts_at (pg : PgAnswers) (a : SpoolAbs) (l : LSN) : Prop :=
  (a_checkpoint a ≠ 0 → l = a_checkpoint a) ∧ (a_checkpoint a = 0 → slot_position pg = Some l).

(** The machine of a new session. *)
Definition session_machine : StateMachine :=
  NewStateMachine (MessagePrefix (Postgres cfg)) (MaxEventBytes (SpoolSection cfg))
    (MaxTransactionEvents (Postgres cfg)) (MaxTransactionBytes (Postgres cfg)).

Section Session.
Context (net : Net) (hooks : Hooks).

Lemma last_lsn_pwp env w r a (Q : outcome LSN → World D → RepState → Prop) :
  holds w a →
  (∀ w', holds w' a → Q (Ok (a_checkpoint a)) w' r) →
  (∀ w' e, holds w' a → Q (Fail e) w' r) →
  pwp (lift sp_LastDurableLSN) env w r Q.
Proof.
  intros (Hok & Ht & Habs) H1 H2. pwp_step. eapply wp_mono; [by apply sp_Last_spec|].
  intros o w' (Hd & Ht' & Ho). assert (holds w' a) by (unfold holds; by rewrite Hd, Ht').
  destruct o as [l|e|]; [subst; by apply H1 | by apply H2 | done].
Qed.

Lemma startLSN_pwp pg env w r a (Q : outcome LSN → World D → RepState → Prop) :
  holds w a →
  (∀ w' l, holds w' a → starts_at pg a l → Q (Ok l) w' r) →
  (∀ w' e, holds w' a → Q (Fail e) w' r) →
  pwp (startLSN cfg pg) env w r Q.
Proof.
  intros Hh Hok Hf. unfold startLSN. do 2 pwp_step; [auto|]. intros _.
  do 2 pwp_step; [auto|]. intros slot Hslot. pwp_step.
  assert (∀ slot', (if sl_Exists slot then inr slot else readSlot (pg_slot_again pg (Slot (Postgres cfg)))) = inr slot' →
    pwp ('(database, version) ← check_result
           (match pg_version pg with
            | inl _ => inl (errorf "read current database/version: %w")
            | inr v => inr v
            end);
         check_error (validateServerVersion version);;
         check_error (validateSlot slot' database);;
         local ← lift sp_LastDurableLSN;
         if negb (local =? 0) then mret local
         else if negb (sl_ConfirmedFlushLSN slot' =? 0) then mret (sl_ConfirmedFlushLSN slot')
         else if negb (sl_RestartLSN slot' =? 0) then mret (sl_RestartLSN slot')
         else pfail (errorf "replication slot has no usable start LSN")) env w r Q) as Hrest.
  { intros slot' E. do 2 pwp_step; [auto|]. intros [db v] _. do 2 pwp_step; [auto|]. intros _.
    do 2 pwp_step; [auto|]. intros _. pwp_step. apply (last_lsn_pwp env w r a); [done| |auto].
    intros w' Hh'. destruct (a_checkpoint a =? 0) eqn:Ez; simpl; breflect.
    - assert (∀ l, slot_position pg = Some l → starts_at pg a l) as Hs by (by intros l ?; split).
      unfold slot_position in Hs. rewrite Hslot, E in Hs.
      destruct (negb _); [pwp_step; auto|]. destruct (negb _); pwp_step; auto.
    - pwp_step. apply Hok; [done|]. by split. }
  destruct (sl_Exists slot) eqn:Ex.
  - pwp_step. by apply Hrest.
  - destruct (negb _); [pwp_step; auto|]. do 2 pwp_step; [auto|]. intros _.
    do 2 pwp_step; [auto|]. intros _. do 2 pwp_step; [auto|]. intros _. pwp_step; auto.
Qed.

(** What one session can leave behind. *)
Definition session_result (s : Session) (a : SpoolAbs) (r : RepState) (o : outcome unit)
    (w' : World D) (r' : RepState) : Prop :=
  (left_with o w' a ∧ rp_acks r' = rp_acks r) ∨
  ∃ l, starts_at (ss_pg s) a l ∧
    loop_result (omap message_of (ss_inbox s l)) session_machine a l r o w' r'.

Lemma runOnce_pwp s env w r a :
  holds w a → pwp (runOnce cfg net hooks s) env w r (session_result s a r).
Proof.
  intros Hh. unfold runOnce.
  assert (∀ w' r' e, holds w' a → rp_acks r' = rp_acks r → session_result s a r (Fail e) w' r')
    as Hf by (intros w' r' e Hh' Ha; left; split; [by apply holds_left | done]).
  pwp_step. apply checkDisk_pwp.
  2: { intros w1 r1 Hs Ha. apply Hf; [by apply (holds_same w) | done]. }
  intros w1 r1 Hs Ha. apply (holds_same _ _ _ Hs) in Hh. clear Hs w.
  do 2 pwp_step; [auto|]. intros [] _. pwp_step. apply (startLSN_pwp _ env w1 r1 a); [done| |auto].
  intros w2 l Hh2 Hl. do 2 pwp_step; [auto|]. intros _. pwp_step.
  destruct (ss_start s _ _ _); pwp_step; [|auto]. pwp_step.
  apply (last_lsn_pwp env w2 r1 a); [done| |auto]. intros w3 Hh3.
  cbv zeta. assert ((if a_checkpoint a =? 0 return Z then l else a_checkpoint a) = l) as ->.
  { destruct (_ =? _) eqn:E; [done|]. breflect. symmetry. by apply Hl. }
  fold session_machine. do 3 pwp_step.
  eapply pwp_mono; [by apply receive_loop_pwp|]. intros o w' r' (got & a' & H1 & H2 & H3 & H4).
  right. exists l. split; [done|]. exists got, a'. do 3 (split; [done|]).
  destruct H4 as (new & E & F). exists new. split; [|done]. simpl in E. rewrite Ha in E.
  by destruct o.
Qed.

(** C3. Persist before acknowledge: whatever fails and whenever the process
    dies, at the end of a session every status update it has sent carries one
    position for write, flush and apply, and that position is at most the
    checkpoint that is durable in the spool, or the slot's own position while
    the spool has no checkpoint yet.  The checkpoint never moves back. *)
Theorem acknowledged_is_durable s env w r a o w' r' :
  sp_ok (disk w) → txn w = None → sp_abs (disk w) a →
  runOnce cfg net hooks s env w r = (o, w', r') →
  ∃ a' new, sp_ok (disk w') ∧ sp_abs (disk w') a' ∧ a_checkpoint a <= a_checkpoint a' ∧
    rp_acks r' = rp_acks r ++ new ∧
    Forall (λ k, ∃ l, k = MkStandby l l l ∧ (l <= a_checkpoint a' ∨
      (a_checkpoint a = 0 ∧ slot_position (ss_pg s) = Some l))) new.
Proof.
  intros Hok Ht Habs E.
  pose proof (pwp_elim _ _ _ _ _ _ _ _ (runOnce_pwp s env w r a ltac:(done)) E) as H.
  destruct H as [[(H1 & H2 & _) Ha]|(l & [Hl1 Hl0] & got & a' & _ & Hs & (H1 & H2 & _) & new & Ha & Hf)].
  - exists a, []. rewrite app_nil_r. done.
  - pose proof (spec_persist_all_checkpoint _ _ _ Hs) as Hle.
    exists a', new. do 4 (split; [done|]). eapply Forall_impl; [exact Hf|].
    intros k (l' & -> & Hl'). exists l'. split; [done|].
    destruct (decide (a_checkpoint a = 0)) as [Ez|Ez].
    + destruct Hl' as [->|?]; [right; auto | by left].
    + left. specialize (Hl1 Ez). destruct Hl'; lia.
Qed.

(** The server streams its log: whatever the position asked for, the messages
    are a prefix of the transactions that end after it, with foreign messages
    anywhere between and within them. *)
Definition serves (wal : list Transaction) (s : Session) : Prop :=
  ∀ l, ∃ msgs, msgs `prefix_of` flat_map tx_messages (after l wal) ∧
    weaves (MessagePrefix (Postgres cfg)) msgs (omap message_of (ss_inbox s l)).

Definition acks_below (bound : LSN) (r : RepState) : Prop :=
  Forall (λ k, WALFlushPosition k <= bound) (rp_acks r).

Lemma session_sound wal base s env w r a o w' r' :
  0 <= MaxTransactionBytes (Postgres cfg) < 2 ^ 63 → commit_order wal → 0 <= base → serves wal s →
  (a_checkpoint a = 0 → ∀ l, slot_position (ss_pg s) = Some l → l <= base) →
  holds w a → captured_upto session_machine wal base a → acks_below (Z.max base (a_checkpoint a)) r →
  runOnce cfg net hooks s env w r = (o, w', r') →
  ∃ a', left_with o w' a' ∧ captured_upto session_machine wal base a' ∧
    acks_below (Z.max base (a_checkpoint a')) r' ∧ a_checkpoint a <= a_checkpoint a'.
Proof.
  intros Hcfg Hord Hb Hserve Hslot Hh Hcap Hacks E.
  pose proof (pwp_elim _ _ _ _ _ _ _ _ (runOnce_pwp s env w r a Hh) E) as H.
  destruct H as [[Hl Ha]|(l & [Hl1 Hl0] & got & a' & Hpre & Hs & Hleft & new & Ha & Hf)].
  { exists a. do 2 (split; [done|]). split; [unfold acks_below; by rewrite Ha | done]. }
  pose proof (spec_persist_all_checkpoint _ _ _ Hs) as Hle.
  assert (a_checkpoint a = 0 → l <= base) as Hl0'
    by (intros Ez; by apply (Hslot Ez), Hl0).
  exists a'. split; [done|]. split; [|split; [|done]].
  - destruct (Hserve l) as (msgs & Hp & Hw). destruct (weaves_prefix _ _ _ _ Hw Hpre) as (msgs' & Hp' & Hw').
    rewrite (batches_of_weaves _ _ session_machine Hw') in Hs.
    destruct (batches_of_stream msgs' (after l wal) session_machine) as (k & Hk & Hoks);
      [by apply sm_wf_new | done | by etrans |].
    rewrite Hk in Hs. by eapply captured_extend.
  - unfold acks_below. rewrite Ha. apply Forall_app. split.
    + eapply Forall_impl; [exact Hacks|]. simpl. intros k. lia.
    + eapply Forall_impl; [exact Hf|]. intros k (l' & -> & Hl'). simpl.
      destruct (decide (a_checkpoint a = 0)) as [Ez|Ez]; [|specialize (Hl1 Ez); lia].
      specialize (Hl0' Ez). destruct Hl'; lia.
Qed.

(** ** Reconnecting *)

(** The errors that another session cannot cure. *)
Definition fatal_sentinels : list Sentinel :=
  [ErrProtocolState; ErrProtectedEvent; ErrTransactionLimit; ErrSlotMismatch; ErrUnsupportedVersion;
   ErrIdentityConflict; ErrDurability].

Definition paused (o : outcome unit) : Prop := ∃ e, o = Fail e ∧ errors_is e ErrPaused = true.

Definition fatal (o : outcome unit) (e : error) : Prop :=
  o = Fail e ∧ errors_is e ErrPaused = false ∧ ∃ k, k ∈ fatal_sentinels ∧ errors_is e k = true.

(** The session ended, and neither the disk nor one of those errors is why. *)
Definition interrupted (o : outcome unit) : Prop :=
  o = Ok tt ∨ ∃ e, o = Fail e ∧ errors_is e ErrPaused = false ∧
    ∀ k, k ∈ fatal_sentinels → errors_is e k = false.

Section Reconnect.
Context (env : Env).

(** Disk checks at the ticks of the timer: the first one that succeeds ends
    the wait, the end of the context gives it up. *)
Inductive recovers : list Wake → World D → RepState → World D → RepState → Prop :=
  | recovers_now waits w r w' r' :
      checkDisk net true env w r = (Ok tt, w', r') → recovers (TimerFired :: waits) w r w' r'
  | recovers_later waits w r e w1 r1 w' r' :
      checkDisk net true env w r = (Fail e, w1, r1) → recovers waits w1 r1 w' r' →
      recovers (TimerFired :: waits) w r w' r'.

Inductive gives_up : list Wake → World D → RepState → World D → RepState → Prop :=
  | gives_up_end w r : gives_up [] w r w r
  | gives_up_done waits w r : gives_up (ContextDone :: waits) w r w r
  | gives_up_later waits w r e w1 r1 w' r' :
      checkDisk net true env w r = (Fail e, w1, r1) → gives_up waits w1 r1 w' r' →
      gives_up (TimerFired :: waits) w r w' r'.

(** Session [s] is followed by another, with the back-off delay [delay']. *)
Inductive continues (s : Session) (delay : duration) (w : World D) (r : RepState)
    : duration → World D → RepState → Prop :=
  | after_pause o w1 r1 w' r' :
      runOnce cfg net hooks s env w r = (o, w1, r1) → ss_done s = false →
      paused o → recovers (ss_disk_waits s) w1 r1 w' r' → continues s delay w r Second w' r'
  | after_interruption o w' r' :
      runOnce cfg net hooks s env w r = (o, w', r') → ss_done s = false →
      interrupted o → ss_wait s = TimerFired →
      continues s delay w r (Z.min (30 * Second) (2 * delay)) w' r'.

(** The context ended during session [s] or in the wait that follows it. *)
Inductive cancelled_in (s : Session) (w : World D) (r : RepState) : World D → RepState → Prop :=
  | cancelled_session o w' r' :
      runOnce cfg net hooks s env w r = (o, w', r') → o ≠ Crash → ss_done s = true →
      cancelled_in s w r w' r'
  | cancelled_paused o w1 r1 w' r' :
      runOnce cfg net hooks s env w r = (o, w1, r1) → ss_done s = false →
      paused o → gives_up (ss_disk_waits s) w1 r1 w' r' → cancelled_in s w r w' r'
  | cancelled_waiting o w' r' :
      runOnce cfg net hooks s env w r = (o, w', r') → ss_done s = false →
      interrupted o → ss_wait s = ContextDone → cancelled_in s w r w' r'.

(** The sessions still to come, after some that were each followed by another. *)
Inductive reaches : list Session → duration → World D → RepState →
    list Session → duration → World D → RepState → Prop :=
  | reaches_here sessions delay w r : reaches sessions delay w r sessions delay w r
  | reaches_next s rest delay w r delay1 w1 r1 sessions' delay' w' r' :
      continues s delay w r delay1 w1 r1 → reaches rest delay1 w1 r1 sessions' delay' w' r' →
      reaches (s :: rest) delay w r sessions' delay' w' r'.

Lemma not_fatal e : isFatalCaptureError e = false → ∀ k, k ∈ fatal_sentinels → errors_is e k = false.
Proof.
  unfold isFatalCaptureError, fatal_sentinels. intros H k Hk. breflect.
  repeat (apply elem_of_cons in Hk as [->|Hk]; [done|]). by apply not_elem_of_nil in Hk.
Qed.

Lemma is_fatal e : isFatalCaptureError e = true → ∃ k, k ∈ fatal_sentinels ∧ errors_is e k = true.
Proof.
  unfold isFatalCaptureError. rewrite !orb_true_iff. intros H.
  repeat (destruct H as [H|H]; [|eexists; split; [|exact H]; unfold fatal_sentinels; set_solver]).
  eexists. split; [|exact H]. left.
Qed.

(** A disk check returns. *)
Lemma checkDisk_returns (w : World D) r :
  ∃ w' r', checkDisk net true env w r = (Ok tt, w', r') ∨ ∃ e, checkDisk net true env w r = (Fail e, w', r').
Proof.
  assert (pwp (checkDisk net true) env w r (λ o _ _, o ≠ Crash)) as H by by apply checkDisk_pwp.
  destruct (checkDisk net true env w r) as [[[[]|e|] w'] r'] eqn:E; [eauto..|].
  by destruct (pwp_elim _ _ _ _ _ _ _ _ H E).
Qed.

Lemma wait_ends waits w r :
  (∃ w' r', recovers waits w r w' r') ∨ (∃ w' r', gives_up waits w r w' r').
Proof.
  revert w r. induction waits as [|[] waits IH]; intros w r; [right; do 2 eexists; constructor| |
    right; do 2 eexists; constructor].
  destruct (checkDisk_returns w r) as (w1 & r1 & [E|[e E]]); [left; do 2 eexists; by apply recovers_now|].
  destruct (IH w1 r1) as [(w' & r' & H)|(w' & r' & H)]; [left|right]; do 2 eexists; by econstructor.
Qed.

Lemma waitForDisk_recovers waits w r w' r' :
  recovers waits w r w' r' → waitForDisk net waits env w r = (Ok true, w', r').
Proof.
  induction 1 as [waits w r w' r' E|waits w r e w1 r1 w' r' E _ IH]; cbn [waitForDisk];
    unfold mbind, P_bind, try; by rewrite E.
Qed.

Lemma waitForDisk_gives_up waits w r w' r' :
  gives_up waits w r w' r' → waitForDisk net waits env w r = (Ok false, w', r').
Proof.
  induction 1 as [| |waits w r e w1 r1 w' r' E _ IH]; [done..|]. cbn [waitForDisk].
  unfold mbind, P_bind, try. by rewrite E.
Qed.

(** The four ways a session ends. *)
Lemma session_ends s delay w r :
  (∃ w' r', runOnce cfg net hooks s env w r = (Crash, w', r')) ∨
  (∃ w' r', cancelled_in s w r w' r') ∨
  (∃ o e w' r', runOnce cfg net hooks s env w r = (o, w', r') ∧ ss_done s = false ∧ fatal o e) ∨
  (∃ delay' w' r', continues s delay w r delay' w' r').
Proof.
  destruct (runOnce cfg net hooks s env w r) as [[o w1] r1] eqn:E.
  assert (o = Crash ∨ o ≠ Crash) as [->|Hc] by (by destruct o; auto); [left; eauto|]. right.
  destruct (ss_done s) eqn:Edone; [left; do 2 eexists; by eapply cancelled_session|].
  assert (interrupted o → (∃ w' r', cancelled_in s w r w' r') ∨
    (∃ delay' w' r', continues s delay w r delay' w' r')) as Hint.
  { intros Hi. destruct (ss_wait s) eqn:Ew.
    - right. do 3 eexists. by eapply after_interruption.
    - left. do 2 eexists. by eapply cancelled_waiting. }
  destruct o as [[]|e|]; [|destruct (errors_is e ErrPaused) eqn:Ep|done].
  - destruct Hint as [?|?]; [by left | by left | by do 2 right].
  - assert (paused (Fail e)) by by exists e.
    destruct (wait_ends (ss_disk_waits s) w1 r1) as [(w' & r' & H')|(w' & r' & H')].
    + do 2 right. do 3 eexists. by eapply after_pause.
    + left. do 2 eexists. by eapply cancelled_paused.
  - destruct (isFatalCaptureError e) eqn:Ef.
    + right; left. exists (Fail e), e, w1, r1. do 2 (split; [done|]). split; [done|].
      split; [done | by apply is_fatal].
    + destruct Hint as [?|?]; [|by left | by do 2 right]. right. exists e. do 2 (split; [done|]).
      by apply not_fatal.
Qed.

Lemma fatal_code e k : k ∈ fatal_sentinels → errors_is e k = true → isFatalCaptureError e = true.
Proof.
  intros Hk H. destruct (isFatalCaptureError e) eqn:E; [done|]. rewrite (not_fatal e E k Hk) in H. done.
Qed.

Lemma interrupted_code e :
  (∀ k, k ∈ fatal_sentinels → errors_is e k = false) → isFatalCaptureError e = false.
Proof.
  intros H. destruct (isFatalCaptureError e) eqn:E; [|done].
  apply is_fatal in E as (k & Hk & Ek). by rewrite (H k Hk) in Ek.
Qed.

(** [Run] with the result of its first session. *)
Ltac run_session :=
  match goal with
  | E : runOnce _ _ _ _ _ _ _ = _, Hd : ss_done _ = _ |- _ =>
      cbn [Run]; unfold mbind, P_bind, try; rewrite E, ?Hd
  end.

Lemma Run_cancelled s rest delay w r w' r' :
  cancelled_in s w r w' r' → Run cfg net hooks (s :: rest) delay env w r = (Ok tt, w', r').
Proof.
  intros [o w1 r1 E Hc Hd|o w1 r1 w2 r2 E Hd (e & -> & Ep) Hg|o w1 r1 E Hd Hi Hw]; run_session.
  - by destruct o as [[]|e|].
  - rewrite Ep. by rewrite (waitForDisk_gives_up _ _ _ _ _ Hg).
  - destruct Hi as [->|(e & -> & Ep & Hk)]; [by rewrite Hw|].
    by rewrite Ep, (interrupted_code _ Hk), Hw.
Qed.

Lemma Run_fatal s rest delay w r o e w' r' :
  runOnce cfg net hooks s env w r = (o, w', r') → ss_done s = false → fatal o e →
  Run cfg net hooks (s :: rest) delay env w r = (Fail e, w', r').
Proof.
  intros E Hd (-> & Ep & k & Hk & Ek). run_session. by rewrite Ep, (fatal_code _ _ Hk Ek).
Qed.

Lemma Run_crash s rest delay w r w' r' :
  runOnce cfg net hooks s env w r = (Crash, w', r') →
  Run cfg net hooks (s :: rest) delay env w r = (Crash, w', r').
Proof. intros E. cbn [Run]. unfold mbind, P_bind, try. by rewrite E. Qed.

Lemma Run_continues s rest delay w r delay' w' r' :
  Second <= delay <= 30 * Second → continues s delay w r delay' w' r' →
  Run cfg net hooks (s :: rest) delay env w r = Run cfg net hooks rest delay' env w' r' ∧
  Second <= delay' <= 30 * Second.
Proof.
  intros Hdl [o w1 r1 w2 r2 E Hd (e & -> & Ep) Hg|o w1 r1 E Hd Hi Hw]; run_session.
  - rewrite Ep, (waitForDisk_recovers _ _ _ _ _ Hg). split; [done | unfold Second; lia].
  - assert (next_delay delay = Z.min (30 * Second) (2 * delay)) as Hn.
    { unfold next_delay, Second in *. repeat case_match; breflect; lia. }
    split; [|unfold Second in *; lia]. rewrite <- Hn.
    destruct Hi as [->|(e & -> & Ep & Hk)]; [by rewrite Hw|].
    by rewrite Ep, (interrupted_code _ Hk), Hw.
Qed.

Lemma reaches_run sessions delay w r sessions' delay' w' r' :
  reaches sessions delay w r sessions' delay' w' r' → Second <= delay <= 30 * Second →
  Run cfg net hooks sessions delay env w r = Run cfg net hooks sessions' delay' env w' r'.
Proof.
  induction 1 as [|s rest delay w r d1 w1 r1 sessions' delay' w' r' Hc _ IH]; intros Hd; [done|].
  destruct (Run_continues s rest _ _ _ _ _ _ Hd Hc) as [-> Hd1]. by apply IH.
Qed.

(** The session at which [Run] ends. *)
Lemma Run_ends sessions delay w r :
  Second <= delay <= 30 * Second →
  ∃ sessions' delay' w1 r1, reaches sessions delay w r sessions' delay' w1 r1 ∧
    match sessions' with
    | [] => True
    | s :: _ =>
        (∃ w' r', runOnce cfg net hooks s env w1 r1 = (Crash, w', r')) ∨
        (∃ w' r', cancelled_in s w1 r1 w' r') ∨
        (∃ o e w' r', runOnce cfg net hooks s env w1 r1 = (o, w', r') ∧ ss_done s = false ∧ fatal o e)
    end.
Proof.
  revert delay w r. induction sessions as [|s rest IH]; intros delay w r Hd.
  { exists [], delay, w, r. split; [constructor | done]. }
  destruct (session_ends s delay w r) as [H|[H|[H|(d1 & w1 & r1 & Hc)]]];
    [exists (s :: rest), delay, w, r; split; [constructor | auto]..|].
  destruct (Run_continues s rest _ _ _ _ _ _ Hd Hc) as [_ Hd1].
  destruct (IH d1 w1 r1 Hd1) as (ss & d' & w' & r' & Hr & Ho). exists ss, d', w', r'.
  split; [by econstructor | done].
Qed.

End Reconnect.


End Session.
End Props.

(** Back-off: after [n] failures in a row the base delay is [2^n] seconds
    capped at thirty, and the wait lies between half and one and a half of
    it, so no arithmetic overflows and the retry rate stays bounded. *)
Theorem backoff_bounds n random :
  let delay := Nat.iter n next_delay Second in
  0 <= random < delay →
  delay = Z.min (30 * Second) (2 ^ Z.of_nat n * Second) ∧
  delay <= 2 * reconnect_wait delay random + 1 ∧ 2 * reconnect_wait delay random <= 3 * delay ∧
  in_int64 (reconnect_wait delay random).
Proof.
  intros delay Hr. assert (delay = Z.min (30 * Second) (2 ^ Z.of_nat n * Second)) as E.
  { unfold delay. clear. induction n as [|n IH]; [done|].
    change (Nat.iter (S n) next_delay Second) with (next_delay (Nat.iter n next_delay Second)). rewrite IH, Nat2Z.inj_succ, Z.pow_succ_r by lia.
    assert (0 < 2 ^ Z.of_nat n) by (apply Z.pow_pos_nonneg; lia).
    unfold next_delay, Second. repeat case_match; breflect; lia. }
  assert (0 < 2 ^ Z.of_nat n) by (apply Z.pow_pos_nonneg; lia).
  assert (0 < delay <= 30 * Second) as Hd by (rewrite E; unfold Second; lia).
  split; [done|]. unfold reconnect_wait, in_int64. unfold Second in Hd.
  rewrite Z.quot_div_nonneg by lia. dlia.
Qed.
