(* ===== verification/DeliveryInterface.v ===== *)
(** * DeliveryInterface: what [delivery.Store] promises to the worker

    The queue seen from outside: for each pair of event and sink a state and
    an attempt count.  [NextDueDelivery] hands out an unfinished pair with
    its count; marking it replaces exactly that pair.  The SQLite store
    discharges the contract. *)

From S2P Require Import Prelude Rows Text Timestamp Sha256 Runtime.
From S2P Require Import Schema SchemaFacts Store Deliveries DeliveryFacts.

(** State and attempts of a delivery. *)
Definition progress : Type := DeliveryState * Z.

(** The delivery the item was read from is unfinished, with the same count. *)
Definition pair_open {D} (lookup : D → Z → Z → option progress) (item : Delivery) (d : D) : Prop :=
  ∃ st, lookup d (EventSequence item) (SinkID item) = Some (st, Attempts item) ∧
    non_terminal st = true.

(** Only the pair of the item differs, which was open and is now [v]. *)
Definition pair_marked {D} (lookup : D → Z → Z → option progress) (item : Delivery) (v : progress)
    (d d' : D) : Prop :=
  pair_open lookup item d ∧
  lookup d' (EventSequence item) (SinkID item) = Some v ∧
  ∀ q s, (q, s) ≠ (EventSequence item, SinkID item) → lookup d' q s = lookup d q s.

(** The outcome of a call that marks a pair. *)
Definition mark_post {D} (ok : D → Prop) (lookup : D → Z → Z → option progress) (item : Delivery)
    (v : progress) (env : Env) (w : World D) (o : outcome unit) (w' : World D) : Prop :=
  ok (disk w') ∧ txn w' = None ∧
  match o with
  | Ok _ => pair_marked lookup item v (disk w) (disk w')
  | Fail e => errors_is e ErrDurability = true ∧
      ((disk w' = disk w ∧ (faulty env ∨ ¬ pair_open lookup item (disk w))) ∨
       (faulty env ∧ pair_marked lookup item v (disk w) (disk w')))
  | Crash => False
  end.

Class DeliveryStore (D : Type) := {
  ds_NextDue : time → M D (option Delivery);
  ds_MarkDelivered : Delivery → Z → Z → time → M D unit;
  ds_MarkFailed : Delivery → Z → bool → time → string → Z → time → M D unit;
  ds_ok : D → Prop;
  ds_lookup : D → Z → Z → option progress;
  ds_NextDue_spec : ∀ t env w, ds_ok (disk w) → txn w = None →
    wp (ds_NextDue t) env w (λ o w', disk w' = disk w ∧ txn w' = None ∧
      match o with
      | Ok (Some item) => 0 <= Attempts item ∧ pair_open ds_lookup item (disk w)
      | Ok None => True
      | Fail _ => faulty env
      | Crash => False
      end);
  ds_MarkDelivered_spec : ∀ item attempt status at_ env w,
    ds_ok (disk w) → txn w = None → 0 <= attempt →
    wp (ds_MarkDelivered item attempt status at_) env w
      (mark_post ds_ok ds_lookup item (delivered, attempt) env w);
  ds_MarkFailed_spec : ∀ item attempt permanent retryAt failure status at_ env w,
    ds_ok (disk w) → txn w = None → 0 <= attempt →
    wp (ds_MarkFailed item attempt permanent retryAt failure status at_) env w
      (mark_post ds_ok ds_lookup item
         ((if permanent then dead_letter else retry_wait), attempt) env w);
}.

(** ** The SQLite store *)

Definition sqlite_lookup (db : DB) (q s : Z) : option progress :=
  (λ d, (d_state d, d_attempts d)) <$> delivery_at db q s.

Definition sqlite_ok (db : DB) : Prop := db_wf db ∧ db_covered db.

Lemma sqlite_mark_spec item (f : delivery_rec → delivery_rec) (v : progress) env (w : World DB) o w' :
  (∀ d, delivery_key (f d) = delivery_key d) → (∀ d, delivery_ok (f d)) →
  (∀ d, (d_state (f d), d_attempts (f d)) = v) → sqlite_ok (disk w) →
  record_post item f env (disk w) o w' → mark_post sqlite_ok sqlite_lookup item v env w o w'.
Proof.
  intros Hk Hok Hv [Hwf Hcov].
  assert (∀ d, still_open item (disk w) d →
    sqlite_ok (updated (EventSequence item) (SinkID item) f (disk w)) ∧
    pair_marked sqlite_lookup item v (disk w)
      (updated (EventSequence item) (SinkID item) f (disk w))) as Hup.
  { intros d Ho. assert (db_wf (updated (EventSequence item) (SinkID item) f (disk w))) as Hwf'
      by (by eapply updated_wf).
    split; [split; [done | by apply covered_update]|]. destruct Ho as (Hat & Hn & Ha).
    unfold pair_marked, pair_open, sqlite_lookup. rewrite Hat. simpl. split; [|split].
    - exists (d_state d). by rewrite Ha.
    - rewrite (delivery_at_updated _ _ _ _ d) by done. rewrite decide_True by done. simpl. by rewrite Hv.
    - intros q s Hne. rewrite (delivery_at_updated _ _ _ _ d) by done. by rewrite decide_False. }
  intros [Ht H]. unfold mark_post. destruct o as [u|e|]; [| |done].
  - destruct H as (d & Ho & ->). destruct (Hup d Ho). auto.
  - destruct H as (He & [[-> Hf]|[(d & Ho & ->) Hf]]).
    + split; [by split|]. do 2 (split; [done|]). left. split; [done|].
      destruct Hf as [Hf|Hno]; [by left|]. right. intros (st & Hl & Hn).
      unfold sqlite_lookup in Hl. destruct (delivery_at _ _ _) as [d|] eqn:E; [|done].
      injection Hl as <- Ha. by apply (Hno d).
    + destruct (Hup d Ho). auto 10.
Qed.

Lemma sqlite_next_spec t env (w : World DB) :
  sqlite_ok (disk w) → txn w = None →
  wp (NextDueDelivery t) env w (λ o w', disk w' = disk w ∧ txn w' = None ∧
    match o with
    | Ok (Some item) => 0 <= Attempts item ∧ pair_open sqlite_lookup item (disk w)
    | Ok None => True
    | Fail _ => faulty env
    | Crash => False
    end).
Proof.
  intros [Hwf _] Ht. apply NextDueDelivery_wp; [done | done |]. intros k. do 2 (split; [done|]).
  destruct (next_due _ _) as [item|] eqn:E; [|done].
  destruct (next_due_Some _ _ _ Hwf E) as (e & s & d & [[(Hd & Hn & _) [_ Ee] (_ & Es & _) _] _] & Hc).
  destruct Hc as (C1 & _ & _ & _ & _ & _ & C2 & _ & _ & C3). unfold pair_open. rewrite C1, C2, C3.
  split; [by apply (wf_deliveries _ Hwf)|].
  exists (d_state d). split; [|done]. unfold sqlite_lookup.
  rewrite (proj2 (delivery_at_Some (disk w) (e_sequence e) (s_id s) d Hwf)); [done|].
  split; [done|]. split; congruence.
Qed.

Lemma sqlite_delivered_spec item attempt status at_ env (w : World DB) :
  sqlite_ok (disk w) → txn w = None → 0 <= attempt →
  wp (MarkDelivered item attempt status at_) env w
    (mark_post sqlite_ok sqlite_lookup item (delivered, attempt) env w).
Proof.
  intros Hok Ht Ha. eapply wp_mono; [by apply MarkDelivered_wp; [apply Hok|..]|].
  intros o w'. apply sqlite_mark_spec; auto with relay.
Qed.

Lemma sqlite_failed_spec item attempt permanent retryAt failure status at_ env (w : World DB) :
  sqlite_ok (disk w) → txn w = None → 0 <= attempt →
  wp (MarkFailed item attempt permanent retryAt failure status at_) env w
    (mark_post sqlite_ok sqlite_lookup item
       ((if permanent then dead_letter else retry_wait), attempt) env w).
Proof.
  intros Hok Ht Ha. eapply wp_mono; [by apply MarkFailed_wp; [apply Hok|..]|].
  intros o w'. apply sqlite_mark_spec; auto with relay.
Qed.

#[global] Instance sqlite_deliveries : DeliveryStore DB := {
  ds_NextDue := NextDueDelivery;
  ds_MarkDelivered := MarkDelivered;
  ds_MarkFailed := MarkFailed;
  ds_ok := sqlite_ok;
  ds_lookup := sqlite_lookup;
  ds_NextDue_spec := sqlite_next_spec;
  ds_MarkDelivered_spec := sqlite_delivered_spec;
  ds_MarkFailed_spec := sqlite_failed_spec;
}.
