(* ===== verification/Worker.v ===== *)
(** * Worker: delivery attempts, internal/delivery/delivery.go

    [ProcessOne] sends the next due delivery to its sink and records the
    result; [retryDelay] is the exponential back-off.  The store is used
    through [DeliveryStore].  A sink is a function of the number of requests
    made so far, so it can answer differently each time; [None] is a process
    that ends during the request.  [cancelled] answers [ctx.Err() != nil]. *)

From S2P Require Import Prelude Rows Text Timestamp Sha256 Runtime.
From S2P Require Import Schema Deliveries DeliveryInterface Io.

Definition maxStoredErrorBytes : Z := 2048.

(** [delivery.AttemptResult]. *)
Record AttemptResult := MkAttempt {
  Success : bool;
  Retryable : bool;
  RetryAfter : duration;
  StatusCode : Z;
  Failure : string;
}.

(** [delivery.Sink]. *)
Definition Sink : Type := nat → Delivery → option AttemptResult.

(** The fields of [delivery.Worker] that steer it. *)
Record WorkerConfig := MkWorker {
  wk_sinks : gmap string Sink;
  wk_pollInterval : duration;
  wk_initialDelay : duration;
  wk_maxDelay : duration;
  wk_maxAttempts : Z;
}.

(** The requests made so far, with their results. *)
Definition SendLog : Type := list (Delivery * AttemptResult).

(** [truncate]. *)
Definition truncate (value : string) (limit : Z) : string :=
  if Z.of_nat (String.length value) <=? limit then value
  else String.substring 0 (Z.to_nat limit) value.

(** The loop of [retryDelay]; [n] counts down from [previousAttempts]. *)
Fixpoint retry_loop (n : nat) (delay maxDelay : duration) : duration :=
  match n with
  | O => if maxDelay <? delay then maxDelay else delay
  | S n' =>
      if delay <? maxDelay then
        if Z.quot maxDelay 2 <? delay then maxDelay
        else retry_loop n' (int64 (delay * 2)) maxDelay
      else if maxDelay <? delay then maxDelay else delay
  end.

(** [(w *Worker) retryDelay]. *)
Definition retryDelay (w : WorkerConfig) (previousAttempts : Z) : duration :=
  retry_loop (Z.to_nat previousAttempts) (wk_initialDelay w) (wk_maxDelay w).

(** When to try again after a retryable failure. *)
Definition retry_wait_for (w : WorkerConfig) (item : Delivery) (result : AttemptResult) : duration :=
  let delay := retryDelay w (Attempts item) in
  if delay <? RetryAfter result then
    (if wk_maxDelay w <? RetryAfter result then wk_maxDelay w else RetryAfter result)
  else delay.

(** [permanent := !result.Retryable || attempt >= w.maxAttempts]. *)
Definition is_permanent (w : WorkerConfig) (attempt : Z) (result : AttemptResult) : bool :=
  negb (Retryable result) || (wk_maxAttempts w <=? attempt).

(** [fmt.Errorf("...: %w", err)]. *)
Definition rewrap (m : string) (e : error) : error := Err (sentinel e) m.

Section Worker.
Context {D : Type} {store : DeliveryStore D}.
Context (wk : WorkerConfig) (hooks : Hooks) (cancelled : nat → bool).

Definition wrapping {A} (m : string) (p : P D SendLog A) : P D SendLog A :=
  r ← try p;
  match r with inl e => pfail (rewrap m e) | inr a => mret a end.

(** [sink.Send(ctx, item)]. *)
Definition send (sink : Sink) (item : Delivery) : P D SendLog AttemptResult := λ env w log,
  match sink (length log) item with
  | None => (Crash, w, log)
  | Some result => (Ok result, w, log ++ [(item, result)])
  end.

(** [ProcessOne] after the request, when it was not cancelled. *)
Definition record_result (item : Delivery) (result : AttemptResult) : P D SendLog bool :=
  let attempt := int64 (Attempts item + 1) in
  now ← lift now;
  if Success result then
    lift (CallAfterSinkSuccess hooks);;
    wrapping "record successful delivery: %w"
      (lift (ds_MarkDelivered item attempt (StatusCode result) now));;
    mret true
  else
    let permanent := is_permanent wk attempt result in
    let retryAt := if permanent then now else now + retry_wait_for wk item result in
    let failure := truncate (Failure result) maxStoredErrorBytes in
    wrapping "record failed delivery: %w"
      (lift (ds_MarkFailed item attempt permanent retryAt failure (StatusCode result) now));;
    mret true.

(** [(w *Worker) ProcessOne]. *)
Definition ProcessOne : P D SendLog bool :=
  t ← lift now;
  found ← wrapping "load next delivery: %w" (lift (ds_NextDue t));
  match found with
  | None => mret false
  | Some item =>
      match wk_sinks wk !! SinkName item with
      | None => pfail (errorf "no delivery sink configured for active sink %q")
      | Some sink =>
          result ← send sink item;
          n ← moment;
          if cancelled n && negb (Success result) then mret false
          else record_result item result
      end
  end.

(** [(w *Worker) Run]: what each [select] saw.  A list that ends is a context
    that ends. *)
Inductive Tick := TimerTick | Cancelled.

Fixpoint Run (ticks : list Tick) : P D SendLog unit :=
  match ticks with
  | [] | Cancelled :: _ => mret tt
  | TimerTick :: ticks' =>
      r ← try ProcessOne;
      match r with
      | inr _ => Run ticks'
      | inl e =>
          n ← moment;
          if cancelled n then mret tt else pfail e
      end
  end.

(** The delay until the next iteration. *)
Definition poll_delay (processed : bool) : duration :=
  if processed then 0 else wk_pollInterval wk.

End Worker.
