(* ===== verification/WorkerProps.v ===== *)
(** * WorkerProps: attempts are recorded as they happened, and are bounded *)

From S2P Require Import Prelude Rows Text Timestamp Sha256 Runtime.
From S2P Require Import Schema Deliveries DeliveryInterface Io Worker.

(** ** Back-off *)

Lemma retry_loop_spec n delay maxDelay :
  0 < delay → 0 < maxDelay < 2 ^ 63 →
  retry_loop n delay maxDelay = Z.min maxDelay (delay * 2 ^ Z.of_nat n).
Proof.
  revert delay. induction n as [|n IH]; intros delay Hd Hm; cbn [retry_loop].
  - change (2 ^ Z.of_nat 0) with 1. destruct (maxDelay <? delay) eqn:E; breflect; lia.
  - rewrite Nat2Z.inj_succ, Z.pow_succ_r by lia.
    assert (0 < 2 ^ Z.of_nat n) by (apply Z.pow_pos_nonneg; lia).
    rewrite Z.quot_div_nonneg by lia.
    destruct (delay <? maxDelay) eqn:E1; breflect.
    + destruct (maxDelay / 2 <? delay) eqn:E2; breflect.
      * assert (maxDelay < 2 * delay) by dlia. rewrite Z.min_l; [done|]. nia.
      * assert (2 * delay <= maxDelay) by dlia.
        rewrite int64_id by (unfold in_int64; lia). rewrite IH by lia. f_equal. lia.
    + rewrite Z.min_l by nia. destruct (maxDelay <? delay) eqn:E2; breflect; lia.
Qed.

(** [retryDelay] is the exponential back-off [initial * 2^attempts] capped
    at the maximum, exactly and without overflow, for every attempt count. *)
Theorem retry_delay_exact w attempts :
  0 < wk_initialDelay w → 0 < wk_maxDelay w < 2 ^ 63 → 0 <= attempts →
  retryDelay w attempts = Z.min (wk_maxDelay w) (wk_initialDelay w * 2 ^ attempts).
Proof.
  intros Hi Hm Ha. unfold retryDelay. rewrite retry_loop_spec by done. by rewrite Z2Nat.id.
Qed.

(** A retry is planned no earlier than the back-off and no later than the
    maximum delay, and a [Retry-After] of the sink is honoured up to that
    maximum. *)
Theorem retry_window w item result :
  0 < wk_initialDelay w → 0 < wk_maxDelay w < 2 ^ 63 → 0 <= Attempts item →
  let d := retry_wait_for w item result in
  retryDelay w (Attempts item) <= d <= wk_maxDelay w ∧ 0 < d ∧
  Z.min (RetryAfter result) (wk_maxDelay w) <= d.
Proof.
  intros Hi Hm Ha d. pose proof (Z.pow_pos_nonneg 2 (Attempts item) ltac:(lia) Ha) as Hp.
  assert (retryDelay w (Attempts item) = Z.min (wk_maxDelay w) (wk_initialDelay w * 2 ^ Attempts item))
    as E by (unfold retryDelay; rewrite retry_loop_spec by done; by rewrite Z2Nat.id).
  unfold d, retry_wait_for. rewrite E.
  repeat case_match; breflect; nia.
Qed.

(** ** One step *)

Section Props.
Context {D : Type} {store : DeliveryStore D}.
Context (wk : WorkerConfig) (hooks : Hooks) (cancelled : nat → bool).

(** What the result of a request means for the delivery: accepted, refused
    for good, or to be tried again while the attempts last. *)
Definition verdict (item : Delivery) (result : AttemptResult) : progress :=
  (match Success result, Retryable result with
   | true, _ => delivered
   | false, false => dead_letter
   | false, true =>
       if decide (Attempts item + 1 < wk_maxAttempts wk) then retry_wait else dead_letter
   end, Attempts item + 1).

(** The code's own computation of it. *)
Lemma verdict_code item result :
  0 <= Attempts item < maxInt64 →
  let attempt := int64 (Attempts item + 1) in
  verdict item result =
    ((if Success result then delivered
      else if is_permanent wk attempt result then dead_letter else retry_wait), attempt).
Proof.
  intros Ha. cbv zeta. rewrite int64_id by (unfold in_int64, maxInt64 in *; lia).
  unfold verdict, is_permanent. f_equal. destruct (Success result), (Retryable result); try done. simpl.
  destruct (wk_maxAttempts wk <=? _) eqn:E, (decide _); breflect; done || lia.
Qed.

(** What kept the result from being recorded: a failing call, a cancelled
    context, which only a request that was not accepted gives way to, or the
    end of the process. *)
Definition interrupted (env : Env) {A} (result : AttemptResult) (o : outcome A) : Prop :=
  faulty env ∨ ((∃ n, cancelled n = true) ∧ Success result = false) ∨ o = Crash.

(** The result is the answer of the item's own sink to the next request. *)
Definition answered (log : SendLog) (item : Delivery) (result : AttemptResult) : Prop :=
  ∃ sink : Sink, wk_sinks wk !! SinkName item = Some sink ∧ sink (length log) item = Some result.

(** Nothing was sent and the queue is as before, or one request was made for
    an open delivery and the queue has its verdict, unless it was
    interrupted. *)
Definition step_result (log : SendLog) (env : Env) (w : World D) (o : outcome bool)
    (w' : World D) (log' : SendLog) : Prop :=
  ds_ok (disk w') ∧ (o ≠ Crash → txn w' = None) ∧
  ((log' = log ∧ disk w' = disk w) ∨
   ∃ item result, log' = log ++ [(item, result)] ∧ 0 <= Attempts item ∧
     (answered log item result ∧ pair_open ds_lookup item (disk w)) ∧
     ((disk w' = disk w ∧ interrupted env result o) ∨
      pair_marked ds_lookup item (verdict item result) (disk w) (disk w'))).

Lemma wrapping_pwp {A} m (p : P D SendLog A) env w log Q :
  pwp p env w log (λ o w' log', match o with
    | Fail e => Q (Fail (rewrap m e)) w' log'
    | o => Q o w' log'
    end) →
  pwp (wrapping m p) env w log Q.
Proof.
  intros H. unfold wrapping. do 2 pwp_step. eapply pwp_mono; [exact H|].
  intros [a|e|] w' log' HQ; simpl; try pwp_step; done.
Qed.

(** Recording a result, whichever of the two calls it takes. *)
Lemma record_result_pwp item result env w log :
  ds_ok (disk w) → txn w = None → answered log item result → pair_open ds_lookup item (disk w) →
  0 <= Attempts item < maxInt64 →
  pwp (record_result wk hooks item result) env w (log ++ [(item, result)]) (step_result log env w).
Proof.
  intros Hok Ht Hans Hopen Ha.
  assert (int64 (Attempts item + 1) = Attempts item + 1) as Hatt
    by (apply int64_id; unfold in_int64, maxInt64 in *; lia).
  assert (∀ (o : outcome unit) w', mark_post ds_ok ds_lookup item (verdict item result) env w o w' →
    match o with
    | Ok _ => step_result log env w (Ok true) w' (log ++ [(item, result)])
    | Fail _ => ∀ e, step_result log env w (Fail e) w' (log ++ [(item, result)])
    | Crash => False
    end) as Hdone.
  { intros o w' (Hok' & Ht' & Ho). destruct o as [[]|e|]; [|intros e'|done];
      (split; [done|]; split; [done|]; right; exists item, result;
       split; [done|]; split; [lia|]; split; [done|]); [by right|].
    destruct Ho as (_ & [[? [?|?]]|[_ ?]]); [|done|by right].
    left. split; [done | by left]. }
  unfold record_result. do 2 pwp_step. wp_step. rewrite (verdict_code item result Ha) in Hdone.
  destruct (Success result).
  - do 2 pwp_step. apply wp_call_hook.
    { intros _. split; [done|]. split; [done|]. right. exists item, result.
      split; [done|]. split; [lia|]. split; [done|]. left. split; [done|]. right. by right. }
    pwp_step. apply wrapping_pwp. pwp_step.
    eapply wp_mono; [by apply ds_MarkDelivered_spec; [..|rewrite Hatt; lia]|].
    intros o w' Hm. specialize (Hdone o w' Hm).
    destruct o as [[]|e|]; [by pwp_step | by apply Hdone | done].
  - pwp_step. apply wrapping_pwp. pwp_step.
    eapply wp_mono; [by apply ds_MarkFailed_spec; [..|rewrite Hatt; lia]|].
    intros o w' Hm. specialize (Hdone o w' Hm).
    destruct o as [[]|e|]; [by pwp_step | by apply Hdone | done].
Qed.

(** Attempt counts fit the machine's [int]. *)
Definition attempts_fit (d : D) : Prop :=
  ∀ q s st n, ds_lookup d q s = Some (st, n) → n < maxInt64.

Lemma ProcessOne_pwp env w log :
  ds_ok (disk w) → txn w = None → attempts_fit (disk w) →
  pwp (ProcessOne wk hooks cancelled) env w log (step_result log env w).
Proof.
  intros Hok Ht Hfit. unfold ProcessOne. do 2 pwp_step. wp_step. pwp_step. apply wrapping_pwp. pwp_step.
  eapply wp_mono; [by apply ds_NextDue_spec|]. simpl.
  intros o w1 (Hd & Ht1 & Ho).
  assert (∀ o', step_result log env w o' w1 log) as Hsame.
  { intros o'. split; [by rewrite Hd|]. split; [done|]. by left. }
  destruct o as [[item|]|e|]; [| by pwp_step | done | done].
  destruct Ho as (Ha & Hopen). destruct (wk_sinks wk !! SinkName item) as [sink|] eqn:Esink; [|by pwp_step].
  pwp_step. unfold send.
  destruct (sink (length log) item) as [result|] eqn:Es.
  - apply (pwp_intro _ _ _ _ (Ok result) w1 (log ++ [(item, result)])); [by rewrite Es|].
    do 2 pwp_step. destruct (cancelled (tick w1) && negb (Success result)) eqn:Ec.
    + pwp_step. split; [by rewrite Hd|]. split; [done|]. right. exists item, result.
      do 2 (split; [done|]). split; [by split; [exists sink|]|]. left. split; [done|]. right. left. breflect. eauto.
    + eapply pwp_mono; [apply record_result_pwp; rewrite ?Hd; try done; [by exists sink|]|].
      * split; [done|]. destruct Hopen as (st & Hl & _). by eapply Hfit.
      * intros o w' log' (H1 & H2 & H3). split; [done|]. split; [done|].
        unfold step_result in *. by rewrite Hd in H3.
  - apply (pwp_intro _ _ _ _ Crash w1 log); [by rewrite Es|]. apply Hsame.
Qed.

(** C27. One step of the worker, in every environment: it makes at most one
    request, to the item's own sink and only for an unfinished delivery, and
    changes at most that delivery: to delivered when the sink accepted it, to
    dead letter when the failure cannot be retried or was the last of the
    configured attempts, and to waiting for a retry otherwise, with one more
    attempt counted.  A result is left unrecorded only by a failing database
    call, by the end of the process, or, if it is a failure, by a cancelled
    context. *)
Theorem process_one_effect env w log o w' log' :
  ds_ok (disk w) → txn w = None → attempts_fit (disk w) →
  ProcessOne wk hooks cancelled env w log = (o, w', log') →
  ds_ok (disk w') ∧
  ((log' = log ∧ disk w' = disk w) ∨
   ∃ item result, log' = log ++ [(item, result)] ∧ answered log item result ∧
     pair_open ds_lookup item (disk w) ∧
     ((disk w' = disk w ∧ interrupted env result o) ∨
      pair_marked ds_lookup item (verdict item result) (disk w) (disk w'))).
Proof.
  intros Hok Ht Hfit E.
  destruct (pwp_elim _ _ _ _ _ _ _ _ (ProcessOne_pwp env w log Hok Ht Hfit) E)
    as (H1 & _ & [?|(item & result & ? & _ & [? ?] & ?)]); [auto|].
  split; [done|]. right. eauto 6.
Qed.

(** ** Runs *)

(** Every unfinished delivery has attempts left. *)
Definition within_budget (d : D) : Prop :=
  ∀ q s st n, ds_lookup d q s = Some (st, n) →
    n <= wk_maxAttempts wk ∧ (non_terminal st = true → n < wk_maxAttempts wk).

(** A request for the pair that the sink accepted. *)
Definition sink_accepted (log : SendLog) (q s : Z) : Prop :=
  ∃ item result, (item, result) ∈ log ∧ EventSequence item = q ∧ SinkID item = s ∧
    Success result = true.

(** Requests for the pair. *)
Definition requests (q s : Z) (log : SendLog) : Z :=
  count_where (λ x, (EventSequence x.1 =? q) && (SinkID x.1 =? s)) log.

Definition attempts_of (d : D) (q s : Z) : Z :=
  match ds_lookup d q s with Some (_, n) => n | None => 0 end.

(** What a run preserves, from [d] and [log] to [d'] and [log']. *)
Record run_sound (d : D) (log : SendLog) (quiet : Prop) (d' : D) (log' : SendLog) : Prop := {
  rs_budget : within_budget d';
  rs_log : ∃ new, log' = log ++ new;
  rs_delivered : ∀ q s n, ds_lookup d' q s = Some (delivered, n) →
    ds_lookup d q s = Some (delivered, n) ∨ sink_accepted log' q s;
  rs_terminal : ∀ q s st n, ds_lookup d q s = Some (st, n) → non_terminal st = false →
    ds_lookup d' q s = Some (st, n);
  rs_requests : quiet → ∀ q s,
    requests q s log' - requests q s log = attempts_of d' q s - attempts_of d q s;
}.

Lemma run_sound_refl d log quiet : within_budget d → run_sound d log quiet d log.
Proof.
  intros Hb. split; auto; [by exists []; rewrite app_nil_r|]. intros _ q s. lia.
Qed.

Lemma run_sound_trans d1 l1 d2 l2 d3 l3 quiet :
  run_sound d1 l1 quiet d2 l2 → run_sound d2 l2 quiet d3 l3 → run_sound d1 l1 quiet d3 l3.
Proof.
  intros [B1 (n1 & L1) D1 T1 R1] [B2 (n2 & L2) D2 T2 R2]. split; auto.
  - exists (n1 ++ n2). by rewrite L2, L1, app_assoc.
  - intros q s n H. destruct (D2 q s n H) as [H'|?]; [|by right].
    destruct (D1 q s n H') as [?|(i & r & Hin & ?)]; [by left|]. right. exists i, r.
    split; [|done]. rewrite L2. apply elem_of_app. by left.
  - intros Hq q s. specialize (R1 Hq q s). specialize (R2 Hq q s). lia.
Qed.

Lemma requests_app q s l l' : requests q s (l ++ l') = requests q s l + requests q s l'.
Proof. unfold requests, count_where, select. rewrite List.filter_app, length_app. lia. Qed.

(** One recorded request. *)
Lemma step_sound d log item result d' quiet :
  1 <= wk_maxAttempts wk < maxInt64 → within_budget d → 0 <= Attempts item →
  pair_marked ds_lookup item (verdict item result) d d' →
  run_sound d log quiet d' (log ++ [(item, result)]).
Proof.
  intros Hm Hb Ha ((st & Hl & Hn) & Hnew & Hother).
  destruct (Hb _ _ _ _ Hl) as [_ Hlt]. specialize (Hlt Hn).
  unfold verdict in Hnew. split.
  - intros q s st' n H. destruct (decide ((q, s) = (EventSequence item, SinkID item))) as [[= -> ->]|Hne].
    + rewrite Hnew in H. injection H as <- <-. split; [lia|].
      destruct (Success result), (Retryable result); try done. by destruct (decide _).
    + rewrite Hother in H by done. by apply (Hb q s).
  - by eexists.
  - intros q s n H. destruct (decide ((q, s) = (EventSequence item, SinkID item))) as [[= -> ->]|Hne].
    + right. exists item, result. split; [apply elem_of_app; right; left|]. do 2 (split; [done|]).
      rewrite Hnew in H. destruct (Success result), (Retryable result); try done. by destruct (decide _).
    + left. by rewrite Hother in H.
  - intros q s st' n H Ht. destruct (decide ((q, s) = (EventSequence item, SinkID item))) as [[= -> ->]|Hne].
    + rewrite Hl in H. injection H as -> _. congruence.
    + by rewrite Hother.
  - intros _ q s. rewrite requests_app. unfold requests at 2, count_where, attempts_of. simpl.
    destruct (decide ((q, s) = (EventSequence item, SinkID item))) as [[= -> ->]|Hne].
    + rewrite !Z.eqb_refl. simpl. rewrite Hnew, Hl. lia.
    + rewrite Hother by done. destruct (_ =? q) eqn:E1; [destruct (_ =? s) eqn:E2|]; simpl; try lia.
      breflect. by subst.
Qed.

Lemma Run_pwp ticks env w log :
  1 <= wk_maxAttempts wk < maxInt64 → ds_ok (disk w) → txn w = None → within_budget (disk w) →
  pwp (Run wk hooks cancelled ticks) env w log (λ o w' log', ds_ok (disk w') ∧
    run_sound (disk w) log (¬ faulty env ∧ (∀ n, cancelled n = false) ∧ o ≠ Crash)
      (disk w') log').
Proof.
  intros Hm. revert w log. induction ticks as [|[] ticks IH]; intros w log Hok Ht Hb; cbn [Run];
    try (pwp_step; split; [done | by apply run_sound_refl]).
  do 2 pwp_step.
  eapply pwp_mono; [apply ProcessOne_pwp; [done|done|]|].
  { intros q s st n H. destruct (Hb _ _ _ _ H). lia. }
  intros o w1 log1 (Hok1 & Ht1 & Hstep).
  assert (run_sound (disk w) log (¬ faulty env ∧ (∀ n, cancelled n = false) ∧ o ≠ Crash)
    (disk w1) log1) as Hs1.
  { destruct Hstep as [[-> ->]|(item & result & -> & Ha & _ & [[-> Hint]|Hmk])];
      [by apply run_sound_refl | | by apply step_sound].
    pose proof (run_sound_refl (disk w) log False Hb) as [B L Dl T _]. split; auto; [by eexists|].
    intros (Hnf & Hnc & Hncr). destruct Hint as [?|[[(n & Hn) _]|?]]; [done| |done].
    by rewrite Hnc in Hn. }
  destruct o as [b|e|].
  - eapply pwp_mono; [apply IH; [done | by apply Ht1 | apply Hs1]|].
    intros o w2 log2 [Hok2 Hs2]. split; [done|]. eapply run_sound_trans; [|exact Hs2].
    destruct Hs1. split; auto. intros (? & ? & ?). auto.
  - do 2 pwp_step. destruct (cancelled (tick w1)); pwp_step; (split; [done|]);
      destruct Hs1; split; auto; intros (? & ? & ?); auto.
  - split; [done|]. destruct Hs1. split; auto. by intros (_ & _ & ?).
Qed.

(** C5. A delivery is marked delivered only after its sink accepted it, and a
    finished delivery, delivered or dead letter, is never touched again by
    the worker: over any run, with any failures, cancellation or a crash,
    from a queue in which every unfinished delivery has attempts left. *)
Theorem delivered_means_accepted ticks env w log o w' log' :
  1 <= wk_maxAttempts wk < maxInt64 → ds_ok (disk w) → txn w = None → within_budget (disk w) →
  Run wk hooks cancelled ticks env w log = (o, w', log') →
  (∀ q s n, ds_lookup (disk w') q s = Some (delivered, n) →
     ds_lookup (disk w) q s = Some (delivered, n) ∨ sink_accepted log' q s) ∧
  (∀ q s st n, ds_lookup (disk w) q s = Some (st, n) → non_terminal st = false →
     ds_lookup (disk w') q s = Some (st, n)).
Proof.
  intros Hm Hok Ht Hb E.
  destruct (pwp_elim _ _ _ _ _ _ _ _ (Run_pwp ticks env w log Hm Hok Ht Hb) E) as [_ []]. done.
Qed.

(** C28. Retry budget: over any run attempt counts stay within the configured
    maximum and every unfinished delivery has attempts left; and when no
    call fails and nothing is cancelled, each delivery gets one request per
    counted attempt, so at most the maximum. *)
Theorem attempts_bounded ticks env w log o w' log' :
  1 <= wk_maxAttempts wk < maxInt64 → ds_ok (disk w) → txn w = None → within_budget (disk w) →
  Run wk hooks cancelled ticks env w log = (o, w', log') →
  within_budget (disk w') ∧
  (¬ faulty env → (∀ n, cancelled n = false) → o ≠ Crash → ∀ q s,
     requests q s log' - requests q s log = attempts_of (disk w') q s - attempts_of (disk w) q s).
Proof.
  intros Hm Hok Ht Hb E.
  destruct (pwp_elim _ _ _ _ _ _ _ _ (Run_pwp ticks env w log Hm Hok Ht Hb) E) as [_ [Hb' _ _ _ Hr]].
  split; [done|]. intros H1 H2 H3 q s. by apply Hr.
Qed.

End Props.
