(* ===== verification/CatchUp.v ===== *)
(** * CatchUp: the worker gets through its queue

    In a healthy environment every step of the worker either finds nothing
    due or uses up one of the attempts that are left, so a run reaches a
    moment at which nothing is due. *)

From S2P Require Import Prelude Rows Text Timestamp Sha256 Runtime.
From S2P Require Import Schema SchemaFacts Store Deliveries DeliveryFacts DeliveryInterface.
From S2P Require Import Io Worker WorkerProps.

Section CatchUp.
Context (wk : WorkerConfig) (hooks : Hooks) (cancelled : nat → bool).

(** The attempts that are left. *)
Definition left_for (d : delivery_rec) : Z :=
  if non_terminal (d_state d) then wk_maxAttempts wk - d_attempts d else 0.
Definition remaining (db : DB) : Z := total left_for (deliveries db).

(** The worker has a sink for every active sink, and sinks answer. *)
Definition sinks_answer (db : DB) : Prop :=
  ∀ s, s ∈ delivery_sinks db → s_active s = true →
    ∃ sink : Sink, wk_sinks wk !! s_name s = Some sink ∧ ∀ n item, is_Some (sink n item).

(** Nothing fails, nothing is cancelled, and no test hook ends the process. *)
Record healthy (env : Env) : Prop := {
  he_calls : ¬ faulty env;
  he_context : ∀ n, cancelled n = false;
  he_hook : AfterSinkSuccess hooks = None;
}.

(** What the worker needs of the spool. *)
Record workable (db : DB) : Prop := {
  wo_ok : sqlite_ok db;
  wo_budget : within_budget wk db;
  wo_sinks : sinks_answer db;
}.

(** One attempt on [d], which is over or has attempts left afterwards. *)
Record attempted (item : Delivery) (db db' : DB) : Prop := {
  at_change : ∃ f d, still_open item db d ∧
    db' = updated (EventSequence item) (SinkID item) f db ∧
    (∀ x, delivery_key (f x) = delivery_key x) ∧ (∀ x, delivery_ok (f x)) ∧
    d_attempts (f d) = d_attempts d + 1 ∧
    (non_terminal (d_state (f d)) = true → d_attempts d + 1 < wk_maxAttempts wk);
}.

Lemma budget_row db d :
  db_wf db → within_budget wk db → d ∈ deliveries db →
  0 <= d_attempts d <= wk_maxAttempts wk ∧
  (non_terminal (d_state d) = true → d_attempts d < wk_maxAttempts wk).
Proof.
  intros Hwf Hb Hd. destruct (Hb (d_event d) (d_sink d) (d_state d) (d_attempts d)) as [H1 H2].
  { simpl. unfold sqlite_lookup. by rewrite (proj2 (delivery_at_Some db _ _ d Hwf)). }
  destruct (wf_deliveries _ Hwf d Hd). auto.
Qed.

Lemma remaining_nonneg db : db_wf db → within_budget wk db → 0 <= remaining db.
Proof.
  intros Hwf Hb. assert (∀ d, d ∈ deliveries db → 0 <= left_for d) as H.
  { intros d Hd. destruct (budget_row db d Hwf Hb Hd) as [? H]. unfold left_for.
    destruct (non_terminal (d_state d)); [specialize (H eq_refl)|]; lia. }
  unfold remaining. induction (deliveries db) as [|d l IH]; simpl; [done|].
  pose proof (H d ltac:(left)). assert (∀ x, x ∈ l → 0 <= left_for x) as H' by (intros; apply H; by right).
  specialize (IH H'). lia.
Qed.

(** An attempt keeps the spool workable and uses up at least one attempt. *)
Lemma attempted_workable item db db' :
  workable db → attempted item db db' → workable db' ∧ remaining db' <= remaining db - 1.
Proof.
  intros [[Hwf Hcov] Hb Hs] [(f & d & Ho & -> & Hk & Hok & Ha & Hlim)].
  assert (db_wf (updated (EventSequence item) (SinkID item) f db)) as Hwf' by (by eapply updated_wf).
  pose proof (proj1 (delivery_at_Some _ _ _ _ Hwf) (proj1 Ho)) as (Hd & Eq & Es).
  destruct (budget_row db d Hwf Hb Hd) as [Hr Hlt]. specialize (Hlt (proj1 (proj2 Ho))). split.
  - split; [split; [done | by apply covered_update] | | done].
    intros q s st n. simpl. unfold sqlite_lookup.
    rewrite (delivery_at_updated _ _ _ _ d) by (done || apply Ho). destruct (decide _) as [_|Hne].
    + simpl. intros [= <- <-]. rewrite Ha. split; [lia | done].
    + intros H. exact (Hb q s st n H).
  - unfold remaining, updated. simpl. rewrite (total_update delivery_key _ _ _ _ d); [| apply Hwf | done | |].
    + destruct Ho as (_ & Hn & _). unfold left_for at 2 3. rewrite Hn.
      destruct (non_terminal (d_state (f d))) eqn:En; [specialize (Hlim eq_refl); rewrite Ha; lia | lia].
    + unfold has_delivery_key. by rewrite Eq, Es, !Z.eqb_refl.
    + intros y _ Hy. apply has_delivery_key_true in Hy. unfold delivery_key in *. congruence.
Qed.

(** ** One step *)

Lemma next_due_item db now item :
  workable db → next_due now db = Some item →
  ∃ d, still_open item db d ∧ 0 <= Attempts item < wk_maxAttempts wk ∧
    ∃ sink : Sink, wk_sinks wk !! SinkName item = Some sink ∧ ∀ n x, is_Some (sink n x).
Proof.
  intros [[Hwf _] Hb Hs] E.
  destruct (next_due_Some _ _ _ Hwf E) as (e & s & d & [[(Hd & Hn & _) [_ Ee] (Hin & Es & Hact) _] _] & Hc).
  destruct Hc as (C1 & _ & _ & _ & _ & _ & C2 & C3 & _ & C4).
  destruct (budget_row db d Hwf Hb Hd) as [Hr Hlt]. specialize (Hlt Hn).
  exists d. split; [|split; [lia | rewrite C3; by apply Hs]].
  split; [|done]. rewrite C1, C2, Ee, Es. by apply delivery_at_Some.
Qed.

(** Nothing was due, or one request was made and recorded. *)
Definition progressed (log : SendLog) (env : Env) (w : World DB) (o : outcome bool) (w' : World DB)
    (log' : SendLog) : Prop :=
  txn w' = None ∧
  ((o = Ok false ∧ log' = log ∧ disk w' = disk w ∧
      next_due (formatTimestamp (env_clock env (tick w))) (disk w) = None) ∨
   (o = Ok true ∧ ∃ item result, log' = log ++ [(item, result)] ∧
      attempted item (disk w) (disk w'))).

Lemma record_result_healthy item result d env w log :
  healthy env → workable (disk w) → txn w = None → wk_maxAttempts wk < maxInt64 →
  still_open item (disk w) d → 0 <= Attempts item < wk_maxAttempts wk →
  pwp (record_result wk hooks item result) env w (log ++ [(item, result)]) (λ o w' log',
    txn w' = None ∧ o = Ok true ∧ log' = log ++ [(item, result)] ∧ attempted item (disk w) (disk w')).
Proof.
  intros [Hq _ Hh] [[Hwf _] _ _] Ht Hm Ho Ha.
  assert (int64 (Attempts item + 1) = Attempts item + 1) as Hatt
    by (apply int64_id; unfold in_int64, maxInt64 in *; lia).
  assert (∀ f (o : outcome unit) w', record_post item f env (disk w) o w' →
    (∀ x, delivery_key (f x) = delivery_key x) → (∀ x, delivery_ok (f x)) →
    (∀ x, d_attempts (f x) = Attempts item + 1) →
    (∀ x, non_terminal (d_state (f x)) = true → Attempts item + 1 < wk_maxAttempts wk) →
    ∃ u, o = Ok u ∧ txn w' = None ∧ attempted item (disk w) (disk w')) as Hdone.
  { intros f o w' [Ht' H] Hk Hok Hat Hlim. destruct o as [u|e|]; [| |done].
    - exists u. split; [done|]. split; [done|]. destruct H as (d' & Ho' & ->). split. exists f, d'.
      split; [done|]. do 3 (split; [done|]). rewrite (proj2 (proj2 Ho')), Hat. eauto.
    - exfalso. destruct H as (_ & [[_ [?|Hno]]|[_ ?]]); [done | by apply (Hno d) | done]. }
  unfold record_result. do 2 pwp_step. wp_step. destruct (Success result).
  - do 2 pwp_step. apply wp_call_hook; [by rewrite Hh|]. pwp_step. apply wrapping_pwp. pwp_step.
    eapply wp_mono; [by apply MarkDelivered_wp; [..|rewrite Hatt; lia]|].
    intros o w' Hp. rewrite Hatt in Hp.
    destruct (Hdone _ o w' Hp) as (u & -> & Ht' & Hat);
      [done | intros; apply delivered_row_ok; lia | done | done |].
    by pwp_step.
  - pwp_step. apply wrapping_pwp. pwp_step.
    eapply wp_mono; [by apply MarkFailed_wp; [..|rewrite Hatt; lia]|].
    intros o w' Hp. rewrite Hatt in Hp.
    destruct (Hdone _ o w' Hp) as (u & -> & Ht' & Hat);
      [done | intros; apply failed_row_ok; lia | done | |].
    + intros x. simpl. unfold is_permanent. destruct (_ || _) eqn:Ep; [done|]. intros _. breflect. lia.
    + by pwp_step.
Qed.

Lemma ProcessOne_healthy env w log :
  healthy env → workable (disk w) → txn w = None → wk_maxAttempts wk < maxInt64 →
  pwp (ProcessOne wk hooks cancelled) env w log (progressed log env w).
Proof.
  intros He Hw Ht Hm. unfold ProcessOne. do 2 pwp_step. wp_step. pwp_step. apply wrapping_pwp. pwp_step.
  apply NextDueDelivery_wp; [done | by intros k Hf; destruct (he_calls _ He) |]. intros k.
  destruct (next_due _ _) as [item|] eqn:E.
  2: { pwp_step. split; [done|]. left. done. }
  destruct (next_due_item _ _ _ Hw E) as (d & Ho & Ha & sink & Es & Hsink). cbv beta iota. rewrite Es.
  pwp_step. destruct (Hsink (length log) item) as [result Er]. unfold send.
  apply (pwp_intro _ _ _ _ (Ok result) (MkWorld (disk w) None k) (log ++ [(item, result)]));
    [by rewrite Er|].
  do 2 pwp_step. rewrite (he_context _ He). simpl.
  eapply pwp_mono; [apply (record_result_healthy item result d); done|].
  intros o w' log' (Ht' & -> & -> & Hat). split; [done|]. right. eauto.
Qed.

(** ** Runs *)

(** C7. Progress: in a healthy environment, with a sink for every active sink
    registration, a run of the worker reaches, within as many requests as
    there are attempts left, a moment at which no delivery is due: every
    delivery is finished, waits for its retry time, waits behind such a one
    in its sink's line, or belongs to a sink that is not configured. *)
Theorem worker_catches_up env w log :
  healthy env → workable (disk w) → txn w = None → wk_maxAttempts wk < maxInt64 →
  ∃ i w' log', Z.of_nat i <= remaining (disk w) ∧
    Run wk hooks cancelled (replicate i TimerTick) env w log = (Ok tt, w', log') ∧
    length log' = (length log + i)%nat ∧ workable (disk w') ∧
    ∀ e s d, ¬ due (disk w') (formatTimestamp (env_clock env (tick w'))) e s d.
Proof.
  intros He Hw Ht Hm. pose proof (remaining_nonneg _ (proj1 (wo_ok _ Hw)) (wo_budget _ Hw)) as Hr.
  remember (Z.to_nat (remaining (disk w))) as n eqn:En. revert w log Hw Ht Hr En.
  induction n as [n IH] using lt_wf_ind. intros w log Hw Ht Hr ->.
  pose proof (ProcessOne_healthy env w log He Hw Ht Hm) as Hp.
  destruct (ProcessOne wk hooks cancelled env w log) as [[o w1] log1] eqn:E.
  destruct (pwp_elim _ _ _ _ _ _ _ _ Hp E) as (Ht1 & [(-> & -> & Hd & Hn)|(-> & item & result & -> & Hat)]).
  - exists 0%nat, w, log. split; [done|]. split; [done|]. split; [lia|]. split; [done|].
    by apply next_due_None; [apply Hw|].
  - destruct (attempted_workable _ _ _ Hw Hat) as [Hw1 Hlt].
    pose proof (remaining_nonneg _ (proj1 (wo_ok _ Hw1)) (wo_budget _ Hw1)) as Hr1.
    destruct (IH (Z.to_nat (remaining (disk w1))) ltac:(lia) w1 (log ++ [(item, result)]))
      as (i & w' & log' & Hi & ER & Hl & Hw' & Hdue); [done..|].
    exists (S i), w', log'. split; [lia|]. split; [|split; [rewrite Hl, length_app; simpl; lia | done]].
    simpl. unfold mbind, P_bind at 1, try. by rewrite E.
Qed.

End CatchUp.
