(* ===== verification/Webhook.v ===== *)
(** * Webhook: the two sinks (internal/delivery/webhook.go, stdout.go)

    A request is a value; the HTTP client is a function from requests to
    answers.  Header names are those of the code, each set once. *)

From Stdlib Require Import Ascii.
From S2P Require Import Prelude Rows Text Timestamp TimeParse Duration HttpTime Sha256 Runtime.
From S2P Require Import Sinks Deliveries Config Worker.

Definition NUL : string := String "000" "".

(** [WebhookSender]; the timeout is part of what the client answers. *)
Record WebhookSender := MkSender {
  endpoint : string;
  authorization : string;
  signingSecret : string;
  timeout : duration;
  ws_hooks : Hooks;
}.

Definition secret_not_set : error := errorf "environment variable %s is not set".

(** [optionalSecret]. *)
Definition optionalSecret (LookupEnv : string → option string) (name : string) : result string :=
  if (name =? "")%string then inr ""
  else
    match LookupEnv name with
    | None => inl secret_not_set
    | Some value => if (value =? "")%string then inl secret_not_set else inr value
    end.

(** [NewWebhookSenderWithHooks]. *)
Definition NewWebhookSenderWithHooks (LookupEnv : string → option string) (sink : SinkConfig)
    (timeout : duration) (hooks : Hooks) : result (WebhookSender * SinkRegistration) :=
  try? authorization := optionalSecret LookupEnv (AuthorizationEnv sink) in
  reject? contains_byte "013" authorization || contains_byte "010" authorization
    with "environment variable %s contains an invalid authorization header value" in
  try? signingSecret := optionalSecret LookupEnv (SigningSecretEnv sink) in
  inr (MkSender (sk_URL sink) authorization signingSecret timeout hooks,
       MkReg (sk_Name sink) (sk_Type sink) (Sum256 (sk_Type sink +:+ NUL +:+ sk_URL sink))).

(** [NewWebhookSender]. *)
Definition NewWebhookSender (LookupEnv : string → option string) (sink : SinkConfig)
    (timeout : duration) : result (WebhookSender * SinkRegistration) :=
  NewWebhookSenderWithHooks LookupEnv sink timeout no_hooks.

(** [deliveryKey]. *)
Definition deliveryKey (item : Delivery) : string :=
  hex_encode (Sum256 (SinkName item +:+ NUL +:+ Source item +:+ NUL +:+ ID item)).

(** [parseRetryAfter], when the clock shows [now]. *)
Definition parseRetryAfter (local_zone : string → time → option Z) (now : time) (value : string)
    : duration :=
  if (value =? "")%string then 0
  else
    match ParseInt value with
    | Some seconds =>
        if 0 <? seconds then
          (if maxInt64 / Second <? seconds then maxInt64 else int64 (seconds * Second))
        else 0
    | None =>
        match ParseTime local_zone value with
        | None => 0
        | Some t => let delay := Sub t now in if delay <? 0 then 0 else delay
        end
    end.

(** ** The request *)

Record Request := MkRequest {
  rq_URL : string;
  rq_Header : list (string * string);
  rq_Body : string;
}.

Definition header_of (name : string) (r : Request) : option string :=
  snd <$> head (select (λ h, (h.1 =? name)%string) (rq_Header r)).

(** [hmac.New(sha256.New, secret)] over timestamp, period and payload. *)
Definition signature (secret timestamp payload : string) : string :=
  "v1=" +:+ hex_encode (hmac_sha256 secret (timestamp +:+ "." +:+ payload)).

(** The part of [Send] that builds the request, at clock reading [now]. *)
Definition build_request (s : WebhookSender) (now : time) (item : Delivery) : Request :=
  let attempt := int64 (Attempts item + 1) in
  let timestamp := itoa (now / Second) in
  MkRequest (endpoint s)
    ([("Content-Type", "application/cloudevents+json"); ("User-Agent", "WriteRelay/1");
      ("Idempotency-Key", deliveryKey item); ("X-WriteRelay-Attempt", itoa attempt)] ++
     (if negb (authorization s =? "")%string then [("Authorization", authorization s)] else []) ++
     (if negb (String.length (signingSecret s) =? 0)%nat
      then [("X-WriteRelay-Timestamp", timestamp);
            ("X-WriteRelay-Signature", signature (signingSecret s) timestamp (Payload item))]
      else []))
    (Payload item).

(** What [client.Do] answers. *)
Inductive Answer :=
  | Failed (timed_out : bool)
  | Answered (StatusCode : Z) (RetryAfter : string).

(** ** [Send] *)

Definition retryable_status (status : Z) : bool :=
  (status =? 408) || (status =? 425) || (status =? 429) || (500 <=? status).

(** The part of [Send] after the request: [received] is the clock then. *)
Definition classify (local_zone : string → time → option Z) (received : time) (a : Answer)
    : AttemptResult :=
  match a with
  | Failed true => MkAttempt false true 0 0 "webhook request timed out"
  | Failed false => MkAttempt false true 0 0 "webhook network request failed"
  | Answered status retryAfter =>
      if (200 <=? status) && (status <? 300) then MkAttempt true false 0 status ""
      else MkAttempt false (retryable_status status) (parseRetryAfter local_zone received retryAfter)
             status ("webhook returned HTTP " +:+ itoa status)
  end.

(** [(s *WebhookSender) Send]: [constructed] says whether the URL made a
    request.  [None] is the end of the process in a hook. *)
Definition Send (local_zone : string → time → option Z) (constructed : bool) (now received : time)
    (client : Request → Answer) (s : WebhookSender) (item : Delivery) : option AttemptResult :=
  if negb constructed then Some (MkAttempt false false 0 0 "construct webhook request")
  else
    let request := build_request s now item in
    match BeforeSinkRequest (ws_hooks s) with
    | Some true => None
    | _ => Some (classify local_zone received (client request))
    end.

(** [NewStdoutSink] and [(s *StdoutSink) Send]; the writer answers whether it
    took the bytes. *)
Definition NewStdoutSink (name : string) : SinkRegistration :=
  MkReg name "stdout" (Sum256 "stdout").

Definition StdoutSend (write : string → bool) (item : Delivery) : AttemptResult :=
  if write (Payload item +:+ String "010" "") then MkAttempt true false 0 0 ""
  else MkAttempt false true 0 0 "write stdout delivery failed".
