(* ===== verification/WebhookProps.v ===== *)
(** * WebhookProps: what a webhook request says and what its answer means *)

From Stdlib Require Import Ascii.
From S2P Require Import Prelude Rows Text Timestamp TimeParse Duration HttpTime Sha256 Runtime.
From S2P Require Import Sinks Deliveries Config Worker Webhook.

(** ** The idempotency key *)

Lemma hex_digit_inj a b : (a < 16)%N → (b < 16)%N → hex_digit a = hex_digit b → a = b.
Proof.
  intros Ha Hb E. assert (∀ n, (n < 16)%N →
    N_of_ascii (hex_digit n) = (if (n <? 10)%N then 48 + n else 87 + n)%N) as Hv.
  { intros n Hn. unfold hex_digit. apply N_ascii_embedding. destruct (N.ltb_spec n 10); lia. }
  apply (f_equal N_of_ascii) in E. rewrite !Hv in E by done.
  destruct (N.ltb_spec a 10), (N.ltb_spec b 10); lia.
Qed.

Lemma hex_encode_inj s t : hex_encode s = hex_encode t → s = t.
Proof.
  revert t. induction s as [|c s IH]; intros [|d t] E; try done.
  cbn [hex_encode] in E. injection E as E1 E2 E3. apply IH in E3 as ->. f_equal.
  pose proof (N_ascii_bounded c). pose proof (N_ascii_bounded d).
  apply hex_digit_inj in E1; [|apply N.Div0.div_lt_upper_bound; lia..].
  apply hex_digit_inj in E2; [|apply N.mod_lt; lia..].
  rewrite <- (ascii_N_embedding c), <- (ascii_N_embedding d). f_equal.
  rewrite (N.div_mod (N_of_ascii c) 16), (N.div_mod (N_of_ascii d) 16) by lia. congruence.
Qed.

(** The text before the first separator is determined. *)
Lemma separator_inj a b a' b' :
  contains_byte "000" a = false → contains_byte "000" a' = false →
  a +:+ NUL +:+ b = a' +:+ NUL +:+ b' → a = a' ∧ b = b'.
Proof.
  revert a'. induction a as [|c a IH]; intros [|c' a'] Ha Ha' E.
  - change (String "000" b = String "000" b') in E. by injection E as ->.
  - rewrite append_cons in E. change (String "000" b = String c' (a' +:+ NUL +:+ b')) in E.
    injection E as <- _. by simpl in Ha'.
  - rewrite append_cons in E. change (String c (a +:+ NUL +:+ b) = String "000" b') in E.
    injection E as -> _. by simpl in Ha.
  - rewrite !append_cons in E. injection E as <- E. simpl in Ha, Ha'. breflect.
    destruct (IH a') as [-> ->]; done.
Qed.

(** The text whose digest is the key. *)
Definition key_text (item : Delivery) : string :=
  SinkName item +:+ NUL +:+ Source item +:+ NUL +:+ ID item.

Lemma key_text_inj a b :
  contains_byte "000" (SinkName a) = false → contains_byte "000" (SinkName b) = false →
  contains_byte "000" (Source a) = false → contains_byte "000" (Source b) = false →
  key_text a = key_text b → (SinkName a, Source a, ID a) = (SinkName b, Source b, ID b).
Proof.
  intros Ha Hb Sa Sb E. destruct (separator_inj _ _ _ _ Ha Hb E) as [-> E'].
  by destruct (separator_inj _ _ _ _ Sa Sb E') as [-> ->].
Qed.

(** C38. The idempotency key identifies the delivery among any set of
    deliveries whose sink names and sources are free of NUL and whose key
    texts have distinct SHA-256 digests: two of them get one key exactly when
    they are the same event at the same sink, whatever their attempts, row
    numbers or payloads.  The digests are compared on the texts
    [sink NUL source NUL id] of those deliveries only. *)
Theorem delivery_key_identifies (S : Delivery → Prop) :
  (∀ a, S a → contains_byte "000" (SinkName a) = false ∧ contains_byte "000" (Source a) = false) →
  (∀ a b, S a → S b → Sum256 (key_text a) = Sum256 (key_text b) → key_text a = key_text b) →
  ∀ a b, S a → S b →
    (deliveryKey a = deliveryKey b ↔ (SinkName a, Source a, ID a) = (SinkName b, Source b, ID b)).
Proof.
  intros Hnul Hcf a b Ha Hb. destruct (Hnul a Ha), (Hnul b Hb). split.
  - intros E%hex_encode_inj. by apply key_text_inj, Hcf.
  - intros [= E1 E2 E3]. unfold deliveryKey. by rewrite E1, E2, E3.
Qed.

(** The separator is needed: a NUL in the source shifts the boundary, and two
    events share a key. *)
Example delivery_key_collision :
  let item source id := MkItem 1 1 "hook" "webhook" source id "t" "" "{}" 0 in
  deliveryKey (item ("a" +:+ NUL +:+ "b") "c") = deliveryKey (item "a" ("b" +:+ NUL +:+ "c")).
Proof. unfold deliveryKey. do 2 f_equal. Qed.

(** ** Retry-After *)

Lemma itoa_nonempty n : 0 <= n → (itoa n =? "")%string = false.
Proof.
  intros Hn. destruct (itoa_pad n Hn) as (w & -> & _). apply String.eqb_neq. intros E.
  assert (String.length (pad (S w) n) = 0%nat) as Hl by (by rewrite E). by rewrite length_pad in Hl.
Qed.

Lemma parseRetryAfter_range lz now value : 0 <= parseRetryAfter lz now value <= maxInt64.
Proof.
  unfold parseRetryAfter, maxInt64. destruct (value =? "")%string; [lia|].
  destruct (ParseInt value) as [n|].
  - destruct (0 <? n) eqn:E0; breflect; [|lia]. destruct (_ <? n) eqn:E; [lia|].
    breflect. unfold Second in *. change ((2 ^ 63 - 1) / 1000000000) with 9223372036 in E.
    rewrite int64_id by (unfold in_int64; lia). lia.
  - destruct (ParseTime lz value) as [t|]; [|lia]. cbv zeta. unfold Sub, maxInt64.
    destruct (_ <? 0) eqn:E; breflect; lia.
Qed.

(** A [Retry-After] in seconds is read exactly, saturating at the largest
    duration, for every value the header can carry. *)
Theorem retry_after_seconds lz now n :
  0 <= n < 2 ^ 63 → parseRetryAfter lz now (itoa n) = Z.min maxInt64 (n * Second).
Proof.
  intros Hn. unfold parseRetryAfter. rewrite itoa_nonempty, ParseInt_itoa by lia.
  unfold maxInt64, Second. destruct (0 <? n) eqn:E0; breflect; [|lia].
  change ((2 ^ 63 - 1) / 1000000000) with 9223372036.
  destruct (_ <? n) eqn:E; breflect; [lia|]. rewrite int64_id by (unfold in_int64; lia). lia.
Qed.

(** ** The answer *)

(** A status that ends the delivery. *)
Definition refused_status (status : Z) : Prop :=
  ¬ (200 <= status < 300) ∧ status ≠ 408 ∧ status ≠ 425 ∧ status ≠ 429 ∧ status < 500.

Lemma classify_spec lz received a :
  let r := classify lz received a in
  (Success r = true ↔ ∃ status ra, a = Answered status ra ∧ 200 <= status < 300) ∧
  (Success r = false ∧ Retryable r = false ↔
     ∃ status ra, a = Answered status ra ∧ refused_status status) ∧
  0 <= RetryAfter r <= maxInt64.
Proof.
  destruct a as [b|status ra]; cbv zeta.
  { assert (∀ status ra, Failed b ≠ Answered status ra) as Hf by done. unfold maxInt64.
    destruct b; simpl; (split; [|split; [|lia]]); split;
      try (by intros (status & ra & E & _); apply Hf in E); try done; by intros []. }
  unfold classify, refused_status, retryable_status.
  destruct ((200 <=? status) && (status <? 300)) eqn:E2; simpl.
  - breflect. unfold maxInt64. split; [split; [eauto 10|done]|].
    split; [split; [by intros [? _]|]|lia]. intros (? & ? & [= <- <-] & Hr). lia.
  - assert (¬ (200 <= status < 300)) as Hn.
    { intros [? ?]. apply andb_false_iff in E2 as [?|?]; breflect; lia. }
    split; [split; [done|]; intros (? & ? & [= <- <-] & ?); lia|].
    split; [|apply parseRetryAfter_range]. split.
    + intros [_ Hr]. breflect. eauto 10.
    + intros (? & ? & [= <- <-] & _ & Hr). split; [done|].
      repeat (apply orb_false_iff; split); first [apply Z.eqb_neq | apply Z.leb_gt]; lia.
Qed.

(** C37. What [Send] reports: success exactly for an answer with a 2xx status,
    a permanent failure only for a refusal by the receiver or a URL that
    makes no request, never for a timeout or a network failure, and a
    retry hint in range; the request is the one that was built, so the body
    is the stored payload. *)
Theorem send_outcome lz constructed now received client s item r :
  Send lz constructed now received client s item = Some r →
  (Success r = true ↔ constructed = true ∧
     ∃ status ra, client (build_request s now item) = Answered status ra ∧ 200 <= status < 300) ∧
  (Success r = false ∧ Retryable r = false ↔ constructed = false ∨
     ∃ status ra, client (build_request s now item) = Answered status ra ∧ refused_status status) ∧
  0 <= RetryAfter r <= maxInt64 ∧
  rq_Body (build_request s now item) = Payload item ∧
  header_of "Idempotency-Key" (build_request s now item) = Some (deliveryKey item).
Proof.
  unfold Send. destruct constructed; simpl negb; cbv iota.
  2: { intros [= <-]. simpl. unfold maxInt64. split; [split; [done | by intros [? _]]|].
       split; [split; [by left | done]|]. split; [lia|done]. }
  destruct (classify_spec lz received (client (build_request s now item))) as (H1 & H2 & H3).
  intros E. assert (r = classify lz received (client (build_request s now item))) as ->
    by (destruct (BeforeSinkRequest (ws_hooks s)) as [[]|]; congruence).
  split; [|split; [|split; [exact H3 | split; reflexivity]]].
  - rewrite H1. split; [by split | by intros [_ ?]].
  - rewrite H2. split; [by right | by intros [?|?]].
Qed.

(** ** The request *)

(** A receiver that knows the secret can check the signature. *)
Lemma request_signed s now item :
  signingSecret s ≠ "" → ∃ ts,
    header_of "X-WriteRelay-Timestamp" (build_request s now item) = Some ts ∧
    header_of "X-WriteRelay-Signature" (build_request s now item) =
      Some (signature (signingSecret s) ts (rq_Body (build_request s now item))).
Proof.
  intros Hs. exists (itoa (now / Second)). unfold build_request.
  destruct (String.length (signingSecret s) =? 0)%nat eqn:E.
  - apply Nat.eqb_eq in E. by destruct (signingSecret s).
  - by destruct (authorization s =? "")%string.
Qed.
