(* ===== verification/Monitoring.v ===== *)
(** * Monitoring: health, readiness and metrics (internal/monitoring)

    The sampler keeps the latest good statistics; requests only read that
    cache and the replicator's status.  The HTTP server is outside: a
    request is one of the three routes, a response a status code with a
    body. *)

From Stdlib Require Import Ascii SpecFloat.
From S2P Require Import Prelude Rows Text Timestamp TimeParse Duration Sha256 Runtime.
From S2P Require Import Stats DiskGuard Io Replicator.

Definition sampleTimeout : duration := 5 * Second.

(** ** The replicator's status *)

Record CaptureStatus := MkCaptureStatus {
  cs_Disk : Status;
  cs_Connected : bool;
  cs_Transactions : Z;
  cs_LastCaptureUnix : Z;
}.

(** [(r *Replicator) Status]. *)
Definition capture_status (now : time) (r : RepState) : CaptureStatus :=
  MkCaptureStatus (Snapshot now (rp_disk r)) (rp_connected r) (rp_transactions r) (rp_lastCapture r).

(** ** [%g] of a non-negative float64 *)

Definition float_add : spec_float → spec_float → spec_float := SFadd 53 1024.

(** [(d Duration) Seconds]. *)
Definition Seconds (d : duration) : spec_float :=
  float_add (float64 (Z.quot d Second)) (float_div (float64 (Z.rem d Second)) (float64 (10 ^ 9))).

(** Twice the nearest integer is within one of [2 * num / den]; ties to even. *)
Definition round_half_even (num den : Z) : Z :=
  let q := num / den in
  let r := num mod den in
  if (den <? 2 * r) || ((2 * r =? den) && Z.odd q) then q + 1 else q.

(** The least [k] with [num / den < 10 ^ k], from [k] on. *)
Fixpoint decimal_point (fuel : nat) (num den k : Z) : Z :=
  match fuel with
  | O => k
  | S fuel' =>
      if num * 10 ^ Z.max 0 (- k) <? den * 10 ^ Z.max 0 k then k
      else decimal_point fuel' num den (k + 1)
  end.

(** The shortest decimal that reads back as [m * 2 ^ e]: its digits as a
    number, how many there are, and the place of the point. *)
Fixpoint shortest (fuel : nat) (n : Z) (m e k : Z) : Z * Z * Z :=
  let up := 2 ^ Z.max 0 e in
  let down := 2 ^ Z.max 0 (- e) in
  let s := n - k in
  let num := m * up * 10 ^ Z.max 0 s in
  let den := down * 10 ^ Z.max 0 (- s) in
  let d := round_half_even num den in
  let lo := (4 * m - (if m =? 2 ^ 52 then 1 else 2)) * up * 10 ^ Z.max 0 s in
  let hi := (4 * m + 2) * up * 10 ^ Z.max 0 s in
  let x := 4 * d * den in
  match fuel with
  | O => (d, n, k)
  | S fuel' =>
      if (if Z.even m then (lo <=? x) && (x <=? hi) else (lo <? x) && (x <? hi))
      then (if d =? 10 ^ n then (1, 1, k + 1) else (d, n, k))
      else shortest fuel' (n + 1) m e k
  end.

Fixpoint zeros (n : nat) : string := match n with O => "" | S n' => String "0" (zeros n') end.

(** [fmtF] and [fmtE] of the digits, without sign. *)
Definition fmtF (digits : string) (nd dp : Z) : string :=
  if dp <=? 0 then "0." +:+ zeros (Z.to_nat (- dp)) +:+ digits
  else if nd <=? dp then digits +:+ zeros (Z.to_nat (dp - nd))
  else String.substring 0 (Z.to_nat dp) digits +:+ "." +:+
       String.substring (Z.to_nat dp) (Z.to_nat (nd - dp)) digits.

Definition fmtE (digits : string) (nd exp : Z) : string :=
  String.substring 0 1 digits +:+
  (if nd =? 1 then "" else "." +:+ String.substring 1 (Z.to_nat (nd - 1)) digits) +:+
  "e" +:+ (if exp <? 0 then "-" else "+") +:+
  (if Z.abs exp <? 10 then "0" else "") +:+ itoa (Z.abs exp).

Definition format_g (x : spec_float) : string :=
  match x with
  | S754_finite false m e =>
      let k := decimal_point 700 (Zpos m * 2 ^ Z.max 0 e) (2 ^ Z.max 0 (- e)) (-330) in
      let '(d, nd, dp) := shortest 17 1 (Zpos m) e k in
      let digits := itoa d in
      let exp := dp - 1 in
      if (exp <? -4) || (6 <=? exp) then fmtE digits nd exp else fmtF digits nd dp
  | _ => "0"
  end.

Example format_g_ages :
  map (λ d, format_g (Seconds d))
    [30 * Second; 1500 * Millisecond; 100 * Millisecond; 1234567 * Second; 20; 3 * Second + 1] =
  ["30"; "1.5"; "0.1"; "1.234567e+06"; "2e-08"; "3.000000001"].
Proof. vm_compute. reflexivity. Qed.

(** ** Metrics text *)

Definition LF : string := String "010" "".

(** [labelEscaper]. *)
Fixpoint escape (s : string) : string :=
  match s with
  | "" => ""
  | String c s' =>
      (if (c =? "092")%char then String "092" (String "092" "")
       else if (c =? "010")%char then String "092" "n"
       else if (c =? "034")%char then String "092" (String "034" "")
       else String c "") +:+ escape s'
  end.

(** [label]. *)
Definition label (value : string) : string := String "034" (escape value +:+ String "034" "").

Definition boolNumber (value : bool) : Z := if value then 1 else 0.

(** [header] and [gauge]. *)
Definition header (name help kind : string) : string :=
  "# HELP writerelay_" +:+ name +:+ " " +:+ help +:+ LF +:+
  "# TYPE writerelay_" +:+ name +:+ " " +:+ kind +:+ LF.

Definition sample_line (name labels : string) (value : string) : string :=
  "writerelay_" +:+ name +:+ labels +:+ " " +:+ value +:+ LF.

Definition gauge (name help : string) (value : Z) : string :=
  header name help "gauge" +:+ sample_line name "" (itoa value).

Definition lines {A} (f : A → string) (l : list A) : string := foldr (λ x s, f x +:+ s) "" l.

(** [if !t.IsZero() { unix = t.Unix() }]. *)
Definition unix_or_zero (t : time) : Z := if negb (IsZero t) then t / Second else 0.

Definition one_label (name value : string) : string := "{" +:+ name +:+ "=" +:+ label value +:+ "}".
Definition two_labels (n1 v1 n2 v2 : string) : string :=
  "{" +:+ n1 +:+ "=" +:+ label v1 +:+ "," +:+ n2 +:+ "=" +:+ label v2 +:+ "}".

(** The part of [writeMetrics] about capture and the disk. *)
Definition capture_metrics (capture : CaptureStatus) (sampledAt : time) (fresh : bool) : string :=
  let disk := cs_Disk capture in
  gauge "capture_paused" "Capture is paused by disk-space protection." (boolNumber (st_Paused disk)) +:+
  header "capture_pause" "Capture pause reason; fixed categories." "gauge" +:+
  lines (λ reason, sample_line "capture_pause" (one_label "reason" reason)
      (itoa (boolNumber (st_Paused disk && (st_Reason disk =? reason)%string))))
    ["low_disk"; "disk_check_failed"] +:+
  gauge "disk_protection_enabled" "Whether capture disk-space protection is enabled."
    (boolNumber (st_Enabled disk)) +:+
  (if st_Enabled disk then
     gauge "disk_sample_fresh" "Latest disk-space probe succeeded and is fresh."
       (boolNumber (st_SampleFresh disk)) +:+
     gauge "disk_sample_timestamp_seconds" "Unix time of the latest disk-space probe attempt, or zero."
       (unix_or_zero (st_SampledAt disk)) +:+
     gauge "disk_pause_below_bytes" "Capture pauses below this available-byte threshold."
       (st_PauseBelowBytes disk) +:+
     gauge "disk_resume_at_bytes" "Paused capture resumes at this available-byte threshold."
       (st_ResumeAtBytes disk) +:+
     (if st_SampleFresh disk then
        header "disk_available_bytes"
          "Bytes available to this user on the spool filesystem; not reserved space." "gauge" +:+
        sample_line "disk_available_bytes" "" (itoa (st_AvailableBytes disk))
      else "")
   else "") +:+
  gauge "capture_connected" "Replication stream started and has not observed a disconnect."
    (boolNumber (cs_Connected capture)) +:+
  header "capture_transactions_total"
    "Transactions persisted and status updates sent by this process, including empty batches and replays."
    "counter" +:+
  sample_line "capture_transactions_total" "" (itoa (cs_Transactions capture)) +:+
  gauge "capture_last_success_timestamp_seconds"
    "Unix time of last persisted batch and sent status update in this process, or zero."
    (cs_LastCaptureUnix capture) +:+
  gauge "spool_sample_fresh"
    "One when the latest spool sample succeeded and is within the freshness limit." (boolNumber fresh) +:+
  gauge "spool_sample_timestamp_seconds" "Unix time of the last successful spool snapshot, or zero."
    (unix_or_zero sampledAt).

(** The age of the oldest waiting event of a sink. *)
Definition waiting_age (now : time) (w : option WaitingStats) : string :=
  match w with
  | None => "0"
  | Some w => let d := Sub now (ws_CapturedAt w) in if d <=? 0 then "0" else format_g (Seconds d)
  end.

(** The part of [writeMetrics] about the spool, which needs a fresh sample. *)
Definition spool_metrics (stats : Stats) (now : time) : string :=
  gauge "spool_events" "Retained event identities, including pruned payloads." (ts_EventCount stats) +:+
  header "spool_payloads" "Event payload counts by retention state." "gauge" +:+
  sample_line "spool_payloads" (one_label "state" "retained")
    (itoa (int64 (ts_EventCount stats - ts_PrunedPayloads stats))) +:+
  sample_line "spool_payloads" (one_label "state" "pruned") (itoa (ts_PrunedPayloads stats)) +:+
  header "spool_file_bytes"
    "Approximate SQLite file lengths; not allocated blocks or PostgreSQL WAL." "gauge" +:+
  sample_line "spool_file_bytes" (one_label "file" "database") (itoa (DatabaseBytes (ts_Storage stats))) +:+
  sample_line "spool_file_bytes" (one_label "file" "wal") (itoa (WALBytes (ts_Storage stats))) +:+
  sample_line "spool_file_bytes" (one_label "file" "shm") (itoa (SHMBytes (ts_Storage stats))) +:+
  header "sink_active" "Whether the registered sink is currently configured." "gauge" +:+
  lines (λ sink, sample_line "sink_active" (one_label "sink" (ss_Name sink))
      (itoa (boolNumber (ss_Active sink)))) (ts_Sinks stats) +:+
  header "deliveries" "Durable delivery records by sink and state, including inactive sinks." "gauge" +:+
  lines (λ sink, lines (λ state : string * Z, sample_line "deliveries"
      (two_labels "sink" (ss_Name sink) "state" state.1) (itoa state.2))
    [("pending", dc_Pending (ss_Deliveries sink)); ("retry_wait", dc_RetryWait (ss_Deliveries sink));
     ("delivered", dc_Delivered (ss_Deliveries sink)); ("dead_letter", dc_DeadLetter (ss_Deliveries sink))])
    (ts_Sinks stats) +:+
  header "oldest_waiting_age_seconds"
    "Age since original capture of the oldest pending or retry_wait event in the snapshot, or zero."
    "gauge" +:+
  lines (λ sink, sample_line "oldest_waiting_age_seconds" (one_label "sink" (ss_Name sink))
      (waiting_age now (ss_OldestWaiting sink))) (ts_Sinks stats).

(** [writeMetrics]. *)
Definition writeMetrics (capture : CaptureStatus) (stats : Stats) (fresh : bool) (now : time) : string :=
  capture_metrics capture (ts_SampledAt stats) fresh +:+
  (if negb fresh then "" else spool_metrics stats now).

(** ** The server *)

Record Server := MkServer {
  sv_path : string;
  sv_interval : duration;
  sv_stats : Stats;
  sv_sampleOK : bool;
}.

(** [sqlitespool.Stats{}]. *)
Definition zero_stats : Stats := MkStats zeroTime 0 0 "" no_counts None no_sizes [].

(** [New]. *)
Definition New (path : string) (interval : duration) : Server := MkServer path interval zero_stats false.

(** [(s *Server) sample]: what the reader returned, and whether the deadline
    of its context had passed. *)
Definition sample (read : result Stats) (expired : bool) (s : Server) : Server * bool :=
  match read with
  | inr stats =>
      if negb expired then (MkServer (sv_path s) (sv_interval s) stats true, true)
      else (MkServer (sv_path s) (sv_interval s) (sv_stats s) false, false)
  | inl _ => (MkServer (sv_path s) (sv_interval s) (sv_stats s) false, false)
  end.

(** [(s *Server) snapshot]. *)
Definition snapshot (now : time) (s : Server) : Stats * bool :=
  (sv_stats s,
   sv_sampleOK s && negb (IsZero (ts_SampledAt (sv_stats s))) &&
   (Sub now (ts_SampledAt (sv_stats s)) <=? int64 (sv_interval s + 2 * sampleTimeout))).

(** What the [select] of [sampleLoop] saw: the timer, with the outcome of the
    sample and [ctx.Err() != nil] after it, or the end of the context. *)
Inductive SampleTick :=
  | SampleTimer (read : result Stats) (expired : bool) (cancelled : bool)
  | SampleDone.

(** [(s *Server) sampleLoop]: the server and the number of warnings. *)
Fixpoint sampleLoop (ticks : list SampleTick) (wasOK : bool) (s : Server) (warnings : nat)
    : Server * nat :=
  match ticks with
  | [] | SampleDone :: _ => (s, warnings)
  | SampleTimer read expired cancelled :: ticks' =>
      let '(s', ok) := sample read expired s in
      sampleLoop ticks' ok s'
        (if negb ok && wasOK && negb cancelled then S warnings else warnings)
  end.

(** ** Requests *)

Inductive Route := Healthz | Readyz | Metrics.

Inductive Body :=
  | Health (fields : list (string * bool)) (reason : option string)
  | Text (body : string).

Record Response := MkResponse { rs_Code : Z; rs_Body : Body }.

(** [writeHealth]. *)
Definition writeHealth (ok : bool) (body : Body) : Response :=
  MkResponse (if negb ok then 503 else 200) body.

Definition disk_ready (capture : CaptureStatus) : bool :=
  negb (st_Enabled (cs_Disk capture)) ||
  (st_SampleFresh (cs_Disk capture) && negb (st_Paused (cs_Disk capture))).

(** [(s *Server) handler]; [alive] is [ctx.Err() == nil]. *)
Definition handler (s : Server) (alive : bool) (capture : CaptureStatus) (now : time) (r : Route)
    : Response :=
  match r with
  | Healthz => writeHealth alive (Health [("alive", alive)] None)
  | Readyz =>
      let fresh := (snapshot now s).2 in
      let ready := alive && cs_Connected capture && fresh && disk_ready capture in
      writeHealth ready (Health
        [("ready", ready); ("capture_connected", cs_Connected capture); ("spool_sample_fresh", fresh);
         ("capture_paused", st_Paused (cs_Disk capture));
         ("disk_protection_enabled", st_Enabled (cs_Disk capture));
         ("disk_sample_fresh", st_SampleFresh (cs_Disk capture))]
        (Some (st_Reason (cs_Disk capture))))
  | Metrics =>
      let '(stats, fresh) := snapshot now s in
      MkResponse 200 (Text (writeMetrics capture stats fresh now))
  end.

(** ** [Run] *)

(** What [http.Server.Serve] returns. *)
Inductive Served := ErrServerClosed | ServeError (e : error).

(** What happens to the server: the listener fails, serving ends by itself,
    or the context ends and serving ends after the shutdown. *)
Inductive ServerLife := ListenFails | ServingEnds (served : Served) | ContextEnds (served : Served).

(** [(s *Server) Run]: [None] is [nil]. *)
Definition Run (life : ServerLife) : option error :=
  match life with
  | ListenFails => Some (errorf "listen for monitoring: %w")
  | ServingEnds served | ContextEnds served =>
      match served with ErrServerClosed => None | ServeError e => Some e end
  end.
