(* ===== verification/MonitoringProps.v ===== *)
(** * MonitoringProps: readiness and metrics never rest on a stale sample *)

From Stdlib Require Import Ascii.
From S2P Require Import Prelude Rows Text Timestamp TimeParse Duration Sha256 Runtime.
From S2P Require Import Stats DiskGuard Io Replicator Monitoring.

(** ** Labels *)

Lemma escape_inj s t : escape s = escape t → s = t.
Proof.
  revert t. induction s as [|c s IH]; intros [|d t]; cbn [escape]; try done.
  - repeat case_match; done.
  - repeat case_match; done.
  - destruct (c =? "092")%char eqn:C1; [|destruct (c =? "010")%char eqn:C2; [|destruct (c =? "034")%char eqn:C3]];
    (destruct (d =? "092")%char eqn:D1; [|destruct (d =? "010")%char eqn:D2; [|destruct (d =? "034")%char eqn:D3]]);
    simpl; intros E; simplify_eq; try (apply Ascii.eqb_eq in C1); try (apply Ascii.eqb_eq in D1);
    try (apply Ascii.eqb_eq in C2); try (apply Ascii.eqb_eq in D2);
    try (apply Ascii.eqb_eq in C3); try (apply Ascii.eqb_eq in D3); subst; try done;
    f_equal; auto.
Qed.

Lemma append_inj_r s t u : s +:+ u = t +:+ u → s = t.
Proof.
  revert t. induction s as [|c s IH]; intros [|d t] E; try done.
  - exfalso. apply (f_equal String.length) in E. rewrite ?append_nil_l, append_cons in E. simpl in E.
    rewrite length_app_string in E. lia.
  - exfalso. apply (f_equal String.length) in E. rewrite ?append_nil_l, append_cons in E. simpl in E.
    rewrite length_app_string in E. lia.
  - rewrite !append_cons in E. injection E as -> E. f_equal. by apply IH.
Qed.

(** Distinct sinks have distinct labels. *)
Lemma label_inj s t : label s = label t → s = t.
Proof. unfold label. intros [= E]. by apply escape_inj, (append_inj_r _ _ _ E). Qed.

(** ** Samples *)

(** The ticks before the context ended. *)
Fixpoint effective (ticks : list SampleTick) : list SampleTick :=
  match ticks with
  | [] | SampleDone :: _ => []
  | t :: ticks' => t :: effective ticks'
  end.

(** The latest tick brought the cached statistics in time. *)
Definition just_sampled (ticks : list SampleTick) (stats : Stats) : Prop :=
  ∃ before cancelled, effective ticks = before ++ [SampleTimer (inr stats) false cancelled].

Lemma sampleLoop_last ticks wasOK s n :
  let s' := (sampleLoop ticks wasOK s n).1 in
  sv_interval s' = sv_interval s ∧
  (sv_sampleOK s' = true → (effective ticks = [] ∧ s' = s) ∨ just_sampled ticks (sv_stats s')).
Proof.
  revert wasOK s n. induction ticks as [|[read expired cancelled|] ticks IH]; intros wasOK s n; simpl;
    [by auto | | by auto].
  destruct (sample read expired s) as [s1 ok] eqn:E.
  match goal with |- context [sampleLoop ticks ok s1 ?k] => destruct (IH ok s1 k) as [Hi Hl] end.
  assert (sv_interval s1 = sv_interval s ∧
    (sv_sampleOK s1 = true → read = inr (sv_stats s1) ∧ expired = false)) as [Hi1 Hs1].
  { unfold sample in E. destruct read as [e|r]; [by injection E as <- _|].
    destruct expired; by injection E as <- _. }
  split; [congruence|]. intros Hok. right. destruct (Hl Hok) as [[He Es]|(before & c & He)].
  - rewrite Es in Hok |- *. destruct (Hs1 Hok) as [-> ->]. exists [], cancelled. simpl. by rewrite He.
  - exists (SampleTimer read expired cancelled :: before), c. simpl. by rewrite He.
Qed.

(** The sample is fresh at [now]. *)
Definition fresh_at (ticks : list SampleTick) (interval : duration) (stats : Stats) (now : time) : Prop :=
  just_sampled ticks stats ∧ ts_SampledAt stats ≠ zeroTime ∧
  now - ts_SampledAt stats <= interval + 10 * Second.

Lemma snapshot_fresh ticks path interval now :
  0 <= interval <= Hour →
  let s := (sampleLoop ticks true (New path interval) 0).1 in
  (snapshot now s).2 = true → fresh_at ticks interval (sv_stats s) now.
Proof.
  intros Hi s H. unfold snapshot in H. simpl in H. apply andb_true_iff in H as [H H3].
  apply andb_true_iff in H as [H1 H2].
  destruct (sampleLoop_last ticks true (New path interval) 0) as [Ei Hl]. fold s in Ei, Hl.
  destruct (Hl H1) as [[_ Es]|Hj]; [by rewrite Es in H1|]. split; [done|].
  unfold IsZero, sampleTimeout in *. rewrite Ei in H3. simpl in H3.
  rewrite int64_id in H3 by (unfold in_int64, Hour, Minute, Second in *; lia).
  unfold Sub in H3. breflect. unfold maxInt64, Hour, Minute, Second in *. lia.
Qed.

(** C39. The monitoring endpoints are honest, after any history of samples:
    the readiness probe answers 200 only while the process is alive, the
    replication stream is connected, the disk guard admits capture on a
    fresh probe, and the latest spool sample succeeded within its deadline
    and is at most the sample interval and ten seconds old; and the metrics
    show spool counts only from such a sample, exactly its counts. *)
Theorem endpoints_honest ticks path interval alive capture now :
  0 <= interval <= Hour →
  let s := (sampleLoop ticks true (New path interval) 0).1 in
  (rs_Code (handler s alive capture now Readyz) = 200 →
     alive = true ∧ cs_Connected capture = true ∧ disk_ready capture = true ∧
     fresh_at ticks interval (sv_stats s) now) ∧
  (handler s alive capture now Metrics =
     MkResponse 200 (Text (capture_metrics capture (ts_SampledAt (sv_stats s)) false)) ∨
   (fresh_at ticks interval (sv_stats s) now ∧
    handler s alive capture now Metrics =
      MkResponse 200 (Text (capture_metrics capture (ts_SampledAt (sv_stats s)) true +:+
        spool_metrics (sv_stats s) now)))).
Proof.
  intros Hi s. pose proof (snapshot_fresh ticks path interval now Hi) as Hf. cbv zeta in Hf. fold s in Hf.
  clearbody s. split.
  - unfold handler, writeHealth. cbn [rs_Code]. destruct (_ && _) eqn:E; [|done]. intros _.
    rewrite !andb_true_iff in E. destruct E as (((-> & ->) & E3) & E4). auto.
  - unfold handler. rewrite (surjective_pairing (snapshot now s)). unfold writeMetrics.
    change ((snapshot now s).1) with (sv_stats s).
    destruct ((snapshot now s).2) eqn:E; [right; split; [by apply Hf | done] | left].
    simpl negb. cbv iota. f_equal. f_equal. apply append_nil_r.
Qed.
