(* ===== verification/Inbox.v ===== *)
(** * Inbox: the receiver's inbox transaction (sdk/go/inbox.go)

    [WithInbox] records the idempotency key of a delivery and runs the
    application's callback in one PostgreSQL transaction.  The receiver's
    database has the inbox tables and an application state of any type; the
    callback is a function on that state which may fail, panic, or swallow
    an SQL error and so leave the transaction aborted. *)

From Stdlib Require Import Ascii.
From S2P Require Import Prelude Rows Text Timestamp TimeParse Sha256 Runtime Config.

(** ** Data *)

Record InboxTable := MkInboxTable { it_Schema : string; it_Table : string }.

Record InboxDelivery := MkInboxDelivery {
  id_Table : InboxTable;
  id_Key : string;
  id_Body : string;
}.

Inductive InboxResult := InboxProcessed | InboxDuplicate.

(** ** Names and keys *)

Definition is_alpha_ (c : ascii) : bool := is_lower c || is_upper c || (c =? "_")%char.

(** [^[A-Za-z_][A-Za-z0-9_]{0,62}$]. *)
Definition inboxIdentifier (s : string) : bool :=
  match s with
  | "" => false
  | String c s' =>
      is_alpha_ c && all_bytes (λ d, is_alpha_ d || is_digit d) s' && (String.length s' <=? 62)%nat
  end.

(** [^[a-f0-9]{64}$]. *)
Definition inboxKey (s : string) : bool :=
  all_bytes (λ c, byte_between "a" "f" c || is_digit c) s && (String.length s =? 64)%nat.

Definition DQUOTE : string := String (ascii_of_N 34) "".
Definition NEWLINE : string := String (ascii_of_N 10) "".

(** [(table InboxTable) name]. *)
Definition table_name (table : InboxTable) : result string :=
  let schema := if (it_Schema table =? "")%string then "public" else it_Schema table in
  let name := if (it_Table table =? "")%string then "writerelay_inbox" else it_Table table in
  if negb (inboxIdentifier schema) || negb (inboxIdentifier name)
  then inl (wrapf ErrInvalidDelivery
    "table identifiers must be ASCII SQL identifiers of at most 63 characters")
  else inr (DQUOTE +:+ schema +:+ DQUOTE +:+ "." +:+ DQUOTE +:+ name +:+ DQUOTE).

(** [InboxTableSQL]. *)
Definition InboxTableSQL (table : InboxTable) : result string :=
  match table_name table with
  | inl e => inl e
  | inr name =>
      inr ("CREATE TABLE " +:+ name +:+ " (" +:+ NEWLINE +:+
        " idempotency_key text PRIMARY KEY CHECK (idempotency_key ~ '^[a-f0-9]{64}$')," +:+ NEWLINE +:+
        " payload_sha256 text NOT NULL CHECK (payload_sha256 ~ '^[a-f0-9]{64}$')," +:+ NEWLINE +:+
        " received_at timestamptz NOT NULL DEFAULT now()" +:+ NEWLINE +:+ ")")
  end.

(** [prepareInbox]: the table and the digest of the body. *)
Definition prepareInbox (delivery : InboxDelivery) (hasHandler : bool) : result (string * string) :=
  if negb (inboxKey (id_Key delivery)) || (String.length (id_Body delivery) =? 0)%nat || negb hasHandler
  then inl (wrapf ErrInvalidDelivery
    "require a 64-character lowercase hex key, original body bytes, and handler")
  else
    match table_name (id_Table delivery) with
    | inl e => inl e
    | inr table => inr (table, hex_encode (Sum256 (id_Body delivery)))
    end.

(** ** The receiver's database *)

Section Inbox.
Context {B : Type}.

(** Inbox tables by name, the application's state, and whether the open
    transaction is aborted. *)
Record PgDB := MkPg {
  pg_inbox : gmap string (gmap string string);
  pg_business : B;
  pg_aborted : bool;
}.

Definition aborted_text : string :=
  "current transaction is aborted, commands ignored until end of transaction block".

(** [INSERT INTO ... ON CONFLICT (idempotency_key) DO NOTHING]: rows
    affected.  The table's CHECKs are on both columns. *)
Definition insert_receipt (table key digest : string) : stmt PgDB Z := λ _ db,
  if pg_aborted db then inl aborted_text
  else
    match pg_inbox db !! table with
    | None => inl "relation does not exist"
    | Some rows =>
        if negb (inboxKey key) || negb (inboxKey digest) then inl "violates check constraint"
        else
          match rows !! key with
          | Some _ => inr (db, 0)
          | None => inr (MkPg (<[table := <[key := digest]> rows]> (pg_inbox db))
                           (pg_business db) false, 1)
          end
    end.

(** [SELECT payload_sha256 ... FOR SHARE]: [None] is [ErrNoRows]. *)
Definition select_receipt (table key : string) : stmt PgDB (option string) := λ _ db,
  if pg_aborted db then inl aborted_text
  else
    match pg_inbox db !! table with
    | None => inl "relation does not exist"
    | Some rows => inr (db, rows !! key)
    end.

(** [SELECT 1]. *)
Definition select_one : stmt PgDB unit := λ _ db,
  if pg_aborted db then inl aborted_text else inr (db, tt).

(** What the callback does: it returns, with a new application state, an
    error or not, and possibly an aborted transaction; or it panics. *)
Inductive HandlerResult :=
  | Returned (err : option error) (aborted : bool) (business : B)
  | Panicked.

Definition Handler : Type := B → HandlerResult.

(** [handle()]: a panic unwinds through the deferred rollback like an error. *)
Definition call_handler (handle : Handler) : M PgDB unit := λ env w,
  match handle (pg_business (current w)) with
  | Returned err aborted b =>
      (match err with None => Ok tt | Some e => Fail e end,
       store_current (MkPg (pg_inbox (current w)) b aborted) w)
  | Panicked => (Fail (errorf "panic"), w)
  end.

(** ** Operations *)

(** The part of [inboxSession] in which the two drivers differ: what [exec]
    does after the statement.  pgx has the row count at hand,
    [database/sql] asks the driver, which can fail. *)
Definition pgx_session : M PgDB unit := mret tt.
Definition sql_session : M PgDB unit := driver_call (errorf "result.RowsAffected").

Definition session_exec {A} (session : M PgDB unit) (s : stmt PgDB A) : M PgDB A :=
  a ← run (errorf "tx.exec") s;
  session;;
  mret a.

(** [runInbox]; [ctx_err] is [ctx.Err()] after the callback. *)
Definition runInbox (session : M PgDB unit) (ctx_err : option error) (table key digest : string)
    (handle : Handler) : M PgDB InboxResult :=
  rollback_on_error (
    n ← session_exec session (insert_receipt table key digest);
    result ← (if n =? 1 then call_handler handle;; mret InboxProcessed
              else if n =? 0 then
                previous ← run (errorf "tx.read") (select_receipt table key);
                match previous with
                | None => fail (wrapf ErrInboxTransaction "")
                | Some previous =>
                    if negb (previous =? digest)%string then fail (wrapf ErrInboxConflict "")
                    else mret InboxDuplicate
                end
              else fail (wrapf ErrInboxTransaction ""));
    match ctx_err with Some e => fail e | None => mret tt end;;
    session_exec session select_one;;
    commit_tx (errorf "tx.commit");;
    mret result).

(** [WithInbox]; [None] is a nil callback, [pool] says whether a pool was
    given. *)
Definition WithInbox (ctx_err : option error) (pool : bool) (delivery : InboxDelivery)
    (handle : option Handler) : M PgDB InboxResult :=
  match prepareInbox delivery (match handle with Some _ => true | None => false end) with
  | inl e => fail e
  | inr (table, digest) =>
      match handle with
      | None => fail (wrapf ErrInvalidDelivery "")
      | Some handle =>
          reject (negb pool) (wrapf ErrInvalidDelivery "pool is required");;
          begin_tx (errorf "pool.BeginTx");;
          runInbox pgx_session ctx_err table (id_Key delivery) digest handle
      end
  end.

(** [WithInboxSQL]. *)
Definition WithInboxSQL (ctx_err : option error) (db : bool) (delivery : InboxDelivery)
    (handle : option Handler) : M PgDB InboxResult :=
  match prepareInbox delivery (match handle with Some _ => true | None => false end) with
  | inl e => fail e
  | inr (table, digest) =>
      match handle with
      | None => fail (wrapf ErrInvalidDelivery "")
      | Some handle =>
          reject (negb db) (wrapf ErrInvalidDelivery "database is required");;
          begin_tx (errorf "db.BeginTx");;
          runInbox sql_session ctx_err table (id_Key delivery) digest handle
      end
  end.

(** ** Specification *)

(** The digest under which the key was received. *)
Definition received (table key : string) (db : PgDB) : option string :=
  pg_inbox db !! table ≫= (.!! key).

(** The receipt and the callback's writes, together. *)
Definition processed (table key digest : string) (handle : Handler) (db db' : PgDB) : Prop :=
  received table key db = None ∧ received table key db' = Some digest ∧
  (∀ t k, (t, k) ≠ (table, key) → received t k db' = received t k db) ∧
  pg_aborted db' = false ∧ handle (pg_business db) = Returned None false (pg_business db').

End Inbox.
Arguments PgDB : clear implicits.
Arguments HandlerResult : clear implicits.
Arguments Handler : clear implicits.
