(* ===== verification/InboxProps.v ===== *)
(** * InboxProps: at-least-once delivery becomes one effect

    A call of the inbox either commits the receipt and the callback's writes
    together, or changes nothing; so over any number of calls with one key
    the writes happen at most once, and exactly once when a call succeeded. *)

From Stdlib Require Import Ascii.
From S2P Require Import Prelude Rows Text Timestamp TimeParse Sha256 Runtime Config.
From S2P Require Import Deliveries Worker Webhook WebhookProps Inbox.

Section InboxProps.
Context {B : Type}.
Implicit Types (handle : Handler B) (db : PgDB B).

(** ** Keys *)

Lemma hex_digit_ok n :
  (n < 16)%N → byte_between "a" "f" (hex_digit n) || is_digit (hex_digit n) = true.
Proof.
  intros Hn. unfold hex_digit. destruct n as [|p]; [done|].
  do 4 (destruct p as [p|p|]; try done); lia.
Qed.

Lemma hex_encode_bytes s : all_bytes (λ c, byte_between "a" "f" c || is_digit c) (hex_encode s) = true.
Proof.
  induction s as [|c s IH]; [done|]. cbn [hex_encode all_bytes]. rewrite IH.
  pose proof (N_ascii_bounded c).
  rewrite !hex_digit_ok; [done | apply N.mod_lt; lia | apply N.Div0.div_lt_upper_bound; lia].
Qed.

(** A SHA-256 in hexadecimal is a key. *)
Lemma digest_is_key x : inboxKey (hex_encode (Sum256 x)) = true.
Proof. unfold inboxKey. by rewrite hex_encode_bytes, length_hex_encode, length_Sum256. Qed.

(** ** One call *)

(** A driver step inside the transaction. *)
Definition session_ok (session : M (PgDB B) unit) : Prop :=
  ∀ env w db (Q : outcome unit → World (PgDB B) → Prop), txn w = Some db →
    (∀ e k, faulty env → Q (Fail e) (MkWorld (disk w) (Some db) k)) →
    (∀ k, Q (Ok tt) (MkWorld (disk w) (Some db) k)) → wp session env w Q.

Lemma pgx_session_ok : session_ok pgx_session.
Proof.
  intros env [d t k] db Q Ht _ Hok. simpl in Ht. subst t. apply wp_ret. apply Hok.
Qed.

Lemma sql_session_ok : session_ok sql_session.
Proof. intros env w db Q Ht Hf Hok. by eapply wp_driver_call; [|auto|]. Qed.

Lemma session_exec_wp {A} session (s : stmt (PgDB B) A) env w db Q :
  session_ok session → txn w = Some db →
  (∀ e k db', faulty env ∨ (∃ n m, s n db = inl m) → Q (Fail e) (MkWorld (disk w) (Some db') k)) →
  (∀ n db' a k, s n db = inr (db', a) → Q (Ok a) (MkWorld (disk w) (Some db') k)) →
  wp (session_exec session s) env w Q.
Proof.
  intros Hs Ht Hf Hok. unfold session_exec. wp_step. eapply wp_run_txn; [done| |].
  - intros n k [?|(m & ?)]; apply Hf; eauto.
  - intros n db' a k E. wp_step. eapply Hs; [done| |].
    + intros e k2 ?. simpl. auto.
    + intros k2. wp_step. simpl. by eapply Hok.
Qed.

Lemma wp_call_handler handle env (w : World (PgDB B)) db err ab b Q :
  txn w = Some db → handle (pg_business db) = Returned err ab b →
  Q (match err with None => Ok tt | Some e => Fail e end)
    (MkWorld (disk w) (Some (MkPg (pg_inbox db) b ab)) (S (tick w))) →
  wp (call_handler handle) env w Q.
Proof.
  intros Ht Eh HQ. apply wp_intro. unfold call_handler, current, store_current. by rewrite Ht, Eh.
Qed.

Lemma wp_call_panic handle env (w : World (PgDB B)) db Q :
  txn w = Some db → handle (pg_business db) = Panicked →
  Q (Fail (errorf "panic")) w → wp (call_handler handle) env w Q.
Proof. intros Ht Eh HQ. apply wp_intro. unfold call_handler, current. by rewrite Ht, Eh. Qed.

(** How a call can end. *)
Definition inbox_post (table key digest : string) handle (env : Env) db (o : outcome InboxResult)
    (w' : World (PgDB B)) : Prop :=
  txn w' = None ∧
  match o with
  | Ok InboxProcessed => processed table key digest handle db (disk w')
  | Ok InboxDuplicate => received table key db = Some digest ∧ disk w' = db
  | Fail e => disk w' = db ∨ (faulty env ∧ processed table key digest handle db (disk w'))
  | Crash => False
  end.

Lemma insert_receipt_inv table key digest n db db' c :
  pg_aborted db = false → insert_receipt table key digest n db = inr (db', c) →
  (c = 0 ∧ db' = db ∧ is_Some (received table key db)) ∨
  (c = 1 ∧ received table key db = None ∧ received table key db' = Some digest ∧
   (∀ t k, (t, k) ≠ (table, key) → received t k db' = received t k db) ∧
   pg_business db' = pg_business db ∧ pg_aborted db' = false).
Proof.
  intros Ha. unfold insert_receipt, received. rewrite Ha.
  destruct (pg_inbox db !! table) as [rows|] eqn:Et; [|done].
  destruct (_ || _); [done|]. destruct (rows !! key) eqn:Ek; intros [= <- <-]; simpl.
  - left. rewrite Ek. eauto.
  - right. rewrite Ek, lookup_insert_eq. simpl. rewrite lookup_insert_eq.
    split; [done|]. split; [done|]. split; [done|]. split; [|done].
    intros t k Hne. destruct (decide (t = table)) as [->|Ht].
    + rewrite lookup_insert_eq, Et. simpl. rewrite lookup_insert_ne by congruence. done.
    + by rewrite lookup_insert_ne.
Qed.

(** The end of a call: cancellation, the liveness statement, the commit. *)
Lemma inbox_end_wp session ctx_err r env (db0 db : PgDB B) k (Q : outcome InboxResult → World (PgDB B) → Prop) :
  session_ok session →
  (∀ e w', disk w' = db0 → Q (Fail e) w') →
  (pg_aborted db = false → ∀ k', Q (Ok r) (MkWorld db None k')) →
  (pg_aborted db = false → faulty env → ∀ e k', Q (Fail e) (MkWorld db None k')) →
  wp (match ctx_err with Some e => fail e | None => mret tt end;;
      session_exec session select_one;; commit_tx (errorf "tx.commit");; mret r) env
    (MkWorld db0 (Some db) k) Q.
Proof.
  intros Hs Hroll Hok Hlate. wp_step. destruct ctx_err as [e|]; wp_step; [by apply Hroll|].
  wp_step. eapply session_exec_wp; [done|done| |].
  - intros e k2 db' _. by apply Hroll.
  - intros n db' [] k2 E. unfold select_one in E. destruct (pg_aborted db) eqn:Eab; [done|].
    injection E as <-. wp_step. eapply wp_commit; [done| | |]; simpl.
    + intros k3 _. by apply Hroll.
    + intros k3 Hf. by apply Hlate.
    + intros k3. wp_step. by apply Hok.
Qed.

Lemma runInbox_wp session ctx_err table key digest handle env w :
  session_ok session → txn w = Some (disk w) → pg_aborted (disk w) = false →
  wp (runInbox session ctx_err table key digest handle) env w
    (inbox_post table key digest handle env (disk w)).
Proof.
  intros Hs Ht Ha. unfold runInbox. wp_step.
  assert (∀ e (w' : World (PgDB B)), disk w' = disk w →
    inbox_post table key digest handle env (disk w) (Fail e) (MkWorld (disk w') None (tick w'))) as Hroll.
  { intros e w' E. split; [done|]. by left. }
  wp_step. eapply session_exec_wp; [done|done| |].
  { intros e k db' _. by apply Hroll. }
  intros n db1 c k E. wp_step.
  destruct (insert_receipt_inv _ _ _ _ _ _ _ Ha E) as [(-> & -> & d & Hd)|(-> & Hn & Hd & Ho & Hb & Hab)]; simpl.
  - wp_step. eapply wp_run_txn; [done| |].
    { intros n2 k2 _. by apply Hroll. }
    intros n2 db2 prev k2 E2. unfold select_receipt in E2. rewrite Ha in E2.
    unfold received in Hd. destruct (pg_inbox (disk w) !! table) as [rows|] eqn:Et; [|done].
    injection E2 as <- <-. simpl in Hd |- *. rewrite Hd.
    destruct (d =? digest)%string eqn:Ed; simpl negb; cbv iota; wp_step; [|by apply Hroll].
    breflect. apply inbox_end_wp; [done | done | |].
    + intros _ k'. split; [done|]. split; [|done]. unfold received. rewrite Et. simpl. congruence.
    + intros _ _ e k'. by apply Hroll.
  - wp_step. destruct (handle (pg_business db1)) as [err ab b|] eqn:Eh.
    + eapply wp_call_handler; [done | exact Eh|]. destruct err as [e|]; [by apply Hroll|].
      wp_step. simpl. assert (∀ w', pg_aborted (MkPg (pg_inbox db1) b ab) = false →
        disk w' = MkPg (pg_inbox db1) b ab →
        processed table key digest handle (disk w) (disk w')) as Hp.
      { intros w' Hab' ->. simpl in Hab'. subst ab. rewrite Hb in Eh. done. }
      apply inbox_end_wp; [done | done | |].
      * intros Hab' k'. split; [done|]. by apply Hp.
      * intros Hab' Hf e k'. split; [done|]. right. split; [done|]. by apply Hp.
    + eapply wp_call_panic; [done | exact Eh|]. by apply Hroll.
Qed.

(** Either entry point. *)
Definition inbox_call (sql : bool) (ctx_err : option error) (pool : bool) (delivery : InboxDelivery)
    (handle : option (Handler B)) : M (PgDB B) InboxResult :=
  if sql then WithInboxSQL ctx_err pool delivery handle else WithInbox ctx_err pool delivery handle.

Lemma inbox_call_wp sql ctx_err pool delivery handle table digest env w :
  prepareInbox delivery true = inr (table, digest) → txn w = None → pg_aborted (disk w) = false →
  wp (inbox_call sql ctx_err pool delivery (Some handle)) env w
    (inbox_post table (id_Key delivery) digest handle env (disk w)).
Proof.
  intros Hp Ht Ha. unfold inbox_call, WithInbox, WithInboxSQL. rewrite Hp.
  assert (∀ session, session_ok session → ∀ e1 e2, wp (reject (negb pool) e1;; begin_tx e2;;
    runInbox session ctx_err table (id_Key delivery) digest handle) env w
    (inbox_post table (id_Key delivery) digest handle env (disk w))) as H.
  { intros session Hs e1 e2. wp_step. wp_step; [by split; [|left]|]. wp_step. wp_step.
    - split; [done | by left].
    - by apply (runInbox_wp session ctx_err table (id_Key delivery) digest handle env
        (MkWorld (disk w) (Some (disk w)) _)). }
  destruct sql; [apply H, sql_session_ok | apply H, pgx_session_ok].
Qed.

(** One call of the inbox, through either driver and in every
    environment: it reports [InboxProcessed] only when the key was new and
    the receipt and the callback's writes are committed together, and
    [InboxDuplicate] only when the key had been received with the same body
    and nothing changed; an error, a panic, cancellation or a swallowed SQL
    error leave the database as it was, unless it was the commit itself that
    failed after taking effect. *)
Theorem inbox_atomic sql ctx_err pool delivery handle table digest env (w : World (PgDB B)) :
  prepareInbox delivery true = inr (table, digest) → txn w = None → pg_aborted (disk w) = false →
  let w' := (inbox_call sql ctx_err pool delivery (Some handle) env w).2 in
  txn w' = None ∧
  match (inbox_call sql ctx_err pool delivery (Some handle) env w).1 with
  | Ok InboxProcessed => processed table (id_Key delivery) digest handle (disk w) (disk w')
  | Ok InboxDuplicate => received table (id_Key delivery) (disk w) = Some digest ∧ disk w' = disk w
  | Fail e => disk w' = disk w ∨
      (faulty env ∧ processed table (id_Key delivery) digest handle (disk w) (disk w'))
  | Crash => False
  end.
Proof. intros Hp Ht Ha. exact (inbox_call_wp sql ctx_err pool delivery handle table digest env w Hp Ht Ha). Qed.

(** ** Many calls *)

(** The life of the receiver's database: calls with this delivery, under any
    driver, callback and environment, and whatever else leaves this receipt
    alone.  The index counts the calls whose callback was committed. *)
Inductive history (delivery : InboxDelivery) (table digest : string) : nat → PgDB B → PgDB B → Prop :=
  | history_start db : history delivery table digest 0 db db
  | history_call n m db0 db sql ctx_err pool handle env k :
      history delivery table digest n db0 db →
      let db' := disk (inbox_call sql ctx_err pool delivery (Some handle) env (MkWorld db None k)).2 in
      (m = 0%nat ∧ db' = db) ∨ (m = 1%nat ∧ processed table (id_Key delivery) digest handle db db') →
      history delivery table digest (n + m) db0 db'
  | history_other n db0 db db' :
      history delivery table digest n db0 db → pg_aborted db' = false →
      received table (id_Key delivery) db' = received table (id_Key delivery) db →
      history delivery table digest n db0 db'.

(** Not received and never run, or received and run once. *)
Lemma history_inv delivery table digest n db0 db :
  history delivery table digest n db0 db → pg_aborted db0 = false →
  received table (id_Key delivery) db0 = None →
  pg_aborted db = false ∧
  ((n = 0%nat ∧ received table (id_Key delivery) db = None) ∨
   (n = 1%nat ∧ received table (id_Key delivery) db = Some digest)).
Proof.
  intros H Ha Hr. induction H as [db|n m db0 db sql ctx_err pool handle env k H IH db' Hm|n db0 db db' H IH Ha' Er].
  - auto.
  - destruct (IH Ha Hr) as [Hab Hs]. destruct Hm as [[-> E]|[-> (H1 & H2 & _ & H4 & _)]].
    + fold db'. rewrite E, Nat.add_0_r. auto.
    + fold db' in H2, H4 |- *. split; [done|]. right. split; [|done].
      destruct Hs as [[-> _]|[_ Hs]]; [done | congruence].
  - destruct (IH Ha Hr) as [_ Hs]. split; [done|]. by rewrite Er.
Qed.

(** C6. Exactly-once effect: whatever the receiver's database goes through,
    over any number of calls with one delivery the callback's writes have
    been committed at most once, they have been exactly when the receipt is
    there, and after a call that reported success they have been exactly
    once. *)
Theorem inbox_exactly_once delivery table digest n db0 db :
  prepareInbox delivery true = inr (table, digest) → pg_aborted db0 = false →
  received table (id_Key delivery) db0 = None → history delivery table digest n db0 db →
  ((n = 0%nat ∧ received table (id_Key delivery) db = None) ∨
   (n = 1%nat ∧ received table (id_Key delivery) db = Some digest)) ∧
  ∀ sql ctx_err pool handle env k,
    let r := inbox_call sql ctx_err pool delivery (Some handle) env (MkWorld db None k) in
    ∃ m, history delivery table digest m db0 (disk r.2) ∧ (n <= m)%nat ∧
      ∀ x, r.1 = Ok x → m = 1%nat.
Proof.
  intros Hp Ha Hr H. destruct (history_inv _ _ _ _ _ _ H Ha Hr) as [Hab Hs]. split; [done|].
  intros sql ctx_err pool handle env k r.
  pose proof (inbox_call_wp sql ctx_err pool delivery handle table digest env (MkWorld db None k) Hp eq_refl Hab)
    as Hw. apply wp_elim in Hw. fold r in Hw. simpl in Hw.
  assert ((disk r.2 = db ∧ (∀ x, r.1 = Ok x → n = 1%nat)) ∨
          processed table (id_Key delivery) digest handle db (disk r.2)) as [[E Hx]|Hproc].
  { destruct Hw as [_ Hw]. destruct r.1 as [[]|e|]; [by right | | | done].
    - left. destruct Hw as [Hw E]. split; [done|]. intros _ _. destruct Hs as [[_ Hs]|[Hs _]]; [congruence|done].
    - destruct Hw as [E|[_ ?]]; [by left | by right]. }
  - exists (n + 0)%nat. split; [apply history_call; [done|]; by left|]. split; [lia|].
    intros x E'. rewrite Nat.add_0_r. eauto.
  - exists (n + 1)%nat. split; [apply history_call; [done|]; by right|]. split; [lia|]. intros _ _.
    destruct Hs as [[-> _]|[_ Hs]]; [done|]. destruct Hproc as [Hnone _]. congruence.
Qed.

(** ** With the webhook sink *)

Lemma request_key s now item : header_of "Idempotency-Key" (build_request s now item) = Some (deliveryKey item).
Proof. unfold build_request, header_of. by destruct (negb (authorization s =? "")%string). Qed.

Lemma prepare_inv delivery table digest :
  prepareInbox delivery true = inr (table, digest) →
  inboxKey (id_Key delivery) = true ∧ digest = hex_encode (Sum256 (id_Body delivery)).
Proof.
  unfold prepareInbox. destruct (inboxKey (id_Key delivery)); [|done]. destruct (_ || _); [done|].
  destruct (table_name _); [done|]. by intros [= _ <-].
Qed.

(** A delivery that has its receipt is answered without running the callback. *)
Lemma received_again sql delivery handle table digest t db k :
  prepareInbox delivery true = inr (table, digest) → pg_aborted db = false →
  received table (id_Key delivery) db = Some digest →
  ∃ k', inbox_call sql None true delivery (Some handle) (quiet_env t) (MkWorld db None k) =
    (Ok InboxDuplicate, MkWorld db None k').
Proof.
  intros Hp Ha Hr. destruct (prepare_inv _ _ _ Hp) as [Hk Hd]. unfold received in Hr.
  destruct (pg_inbox db !! table) as [rows|] eqn:Et; [|done]. simpl in Hr.
  assert (∀ n, insert_receipt table (id_Key delivery) digest n db = inr (db, 0)) as Hi.
  { intros n. unfold insert_receipt. rewrite Ha, Et, Hk, Hr. by rewrite Hd, digest_is_key. }
  assert (∀ n, select_receipt table (id_Key delivery) n db = inr (db, Some digest)) as Hsel.
  { intros n. unfold select_receipt. by rewrite Ha, Et, Hr. }
  assert (∀ n, select_one n db = inr (db, tt)) as Hone by (intros n; unfold select_one; by rewrite Ha).
  unfold inbox_call, WithInbox, WithInboxSQL. rewrite Hp.
  destruct sql; eexists; unfold runInbox, session_exec, sql_session, pgx_session, driver_call, run, exec,
    begin_tx, commit_tx, rollback_on_error, reject, mbind, M_bind, mret, M_ret, current, store_current, query;
    cbn; rewrite ?Hi; cbn; rewrite ?Hsel; cbn; rewrite String.eqb_refl; cbn; rewrite ?Hone; cbn; reflexivity.
Qed.

(** What a receiver reads from a request. *)
Definition request_delivery (table : InboxTable) (r : Request) : option InboxDelivery :=
  (λ key, MkInboxDelivery table key (rq_Body r)) <$> header_of "Idempotency-Key" r.

(** C20. Redelivery is absorbed: every attempt at an event for a sink, whatever
    its number and time, carries the same key and body, which the inbox
    accepts; once the receipt is there the inbox answers a further attempt
    with success, without running the callback and without changing
    anything. *)
Theorem redelivery_absorbed s1 s2 now1 now2 a b table name :
  (SinkName a, Source a, ID a, Payload a) = (SinkName b, Source b, ID b, Payload b) →
  Payload a ≠ "" → table_name table = inr name →
  ∃ delivery digest,
    request_delivery table (build_request s1 now1 a) = Some delivery ∧
    request_delivery table (build_request s2 now2 b) = Some delivery ∧
    prepareInbox delivery true = inr (name, digest) ∧
    ∀ sql handle t db k, pg_aborted db = false →
      received name (id_Key delivery) db = Some digest →
      ∃ k', inbox_call sql None true delivery (Some handle) (quiet_env t) (MkWorld db None k) =
        (Ok InboxDuplicate, MkWorld db None k').
Proof.
  intros [= E1 E2 E3 E4] Hp Hn.
  set (delivery := MkInboxDelivery table (deliveryKey a) (Payload a)).
  assert (prepareInbox delivery true = inr (name, hex_encode (Sum256 (Payload a)))) as Hprep.
  { unfold prepareInbox, delivery, deliveryKey. simpl. rewrite digest_is_key, Hn. simpl.
    destruct (Payload a); [done|]. done. }
  exists delivery, (hex_encode (Sum256 (Payload a))). unfold request_delivery. rewrite !request_key.
  split; [done|]. split; [|split; [done|]].
  - simpl. unfold delivery, deliveryKey. by rewrite E1, E2, E3, E4.
  - intros sql handle t db k Ha Hr. by eapply received_again.
Qed.

End InboxProps.
