(* ===== verification/Flags.v ===== *)
(** * Flags: the package [flag], as the commands use it

    A flag set has named flags of three types with a default value.  [Parse]
    reads arguments until one is not a flag; its diagnostics go to standard
    error and are left out. *)

From Stdlib Require Import Ascii.
From S2P Require Import Prelude Text TimeParse.

(** ** [strconv.ParseInt(s, 0, 64)] *)

Definition lower (c : ascii) : ascii := ascii_of_N (N.lor (N_of_ascii c) 32).

(** The value of a digit in bases up to 36. *)
Definition digit_of (c : ascii) : option Z :=
  if is_digit c then Some (digit_val c)
  else
    let n := Z.of_N (N_of_ascii (lower c)) in
    if (97 <=? n) && (n <=? 122) then Some (n - 87) else None.

(** The digits of a number, underscores skipped. *)
Fixpoint digits_value (base acc : Z) (s : string) : option Z :=
  match s with
  | "" => Some acc
  | String c s' =>
      if (c =? "_")%char then digits_value base acc s'
      else
        match digit_of c with
        | Some d => if base <=? d then None else digits_value base (acc * base + d) s'
        | None => None
        end
  end.

(** The base that a prefix selects, and the digits after it. *)
Definition base_prefix (s : string) : Z * string :=
  match s with
  | String "0" (String b (String c rest)) =>
      if (lower b =? "b")%char then (2, String c rest)
      else if (lower b =? "o")%char then (8, String c rest)
      else if (lower b =? "x")%char then (16, String c rest)
      else (8, String b (String c rest))
  | String "0" rest => (8, rest)
  | _ => (10, s)
  end.

(** The last thing [underscoreOK] has seen. *)
Inductive seen := SeenStart | SeenDigit | SeenUnderscore | SeenOther.

Fixpoint underscores (hex : bool) (saw : seen) (s : string) : bool :=
  match s with
  | "" => match saw with SeenUnderscore => false | _ => true end
  | String c s' =>
      let n := Z.of_N (N_of_ascii (lower c)) in
      if is_digit c || (hex && (97 <=? n) && (n <=? 102)) then underscores hex SeenDigit s'
      else if (c =? "_")%char then
        match saw with SeenDigit => underscores hex SeenUnderscore s' | _ => false end
      else match saw with SeenUnderscore => false | _ => underscores hex SeenOther s' end
  end.

Definition underscoreOK (s : string) : bool :=
  match s with
  | String "0" (String b rest) =>
      if (lower b =? "b")%char || (lower b =? "o")%char || (lower b =? "x")%char
      then underscores (lower b =? "x")%char SeenDigit rest
      else underscores false SeenStart s
  | _ => underscores false SeenStart s
  end.

Definition ParseUint0 (s : string) : option Z :=
  match s with
  | "" => None
  | _ =>
      let '(base, digits) := base_prefix s in
      match digits_value base 0 digits with
      | None => None
      | Some n => if contains_byte "_" digits && negb (underscoreOK s) then None else Some n
      end
  end.

Definition ParseInt0 (s : string) : option Z :=
  match s with
  | String c rest =>
      let neg := (c =? "-")%char in
      match ParseUint0 (if neg || (c =? "+")%char then rest else s) with
      | None => None
      | Some n =>
          if neg then (if 2 ^ 63 <? n then None else Some (- n))
          else (if 2 ^ 63 <=? n then None else Some n)
      end
  | "" => None
  end.

Example ParseInt0_examples :
  map ParseInt0 ["20"; "-7"; "0x1F"; "0b101"; "017"; "1_000"; "0_7"; "0"; "+3"; "9223372036854775808"; "08";
                 "1__0"; "_1"; "1_"; "0x_f"; ""; "-"; "abc"] =
  [Some 20; Some (-7); Some 31; Some 5; Some 15; Some 1000; Some 7; Some 0; Some 3; None; None;
   None; None; None; Some 15; None; None; None].
Proof. vm_compute. reflexivity. Qed.

(** [strconv.ParseBool]. *)
Definition ParseBool (s : string) : option bool :=
  if bool_decide (s ∈ ["1"; "t"; "T"; "true"; "TRUE"; "True"]) then Some true
  else if bool_decide (s ∈ ["0"; "f"; "F"; "false"; "FALSE"; "False"]) then Some false
  else None.

(** ** Flag sets *)

Inductive FlagValue :=
  | StringFlag (value : string)
  | IntFlag (value : Z)
  | BoolFlag (value : bool).

Notation FlagSet := (gmap string FlagValue).

(** [flag.Value.Set]. *)
Definition set_flag (old : FlagValue) (text : string) : option FlagValue :=
  match old with
  | StringFlag _ => Some (StringFlag text)
  | IntFlag _ => IntFlag <$> ParseInt0 text
  | BoolFlag _ => BoolFlag <$> ParseBool text
  end.

(** The name and the value of [name=value]; the first byte is never [=]. *)
Fixpoint split_equals (s : string) : string * option string :=
  match s with
  | "" => ("", None)
  | String c s' =>
      if (c =? "=")%char then ("", Some s')
      else let '(name, value) := split_equals s' in (String c name, value)
  end.

(** What an argument is for [parseOne]. *)
Inductive Argument :=
  | Positional
  | Terminator
  | BadSyntax
  | Flag (name : string) (value : option string).

Definition flag_name (s : string) : Argument :=
  match s with
  | "" => BadSyntax
  | String c _ =>
      if (c =? "-")%char || (c =? "=")%char then BadSyntax
      else let '(name, value) := split_equals s in Flag name value
  end.

Definition classify_arg (s : string) : Argument :=
  match s with
  | String "-" (String c rest) =>
      if (c =? "-")%char then (if (rest =? "")%string then Terminator else flag_name rest)
      else flag_name (String c rest)
  | _ => Positional
  end.

Definition ErrHelp : error := errorf "flag: help requested".

Definition is_bool_flag (v : FlagValue) : bool := match v with BoolFlag _ => true | _ => false end.

(** [(f *FlagSet) Parse] with [ContinueOnError]: the flags' values and the
    arguments left. *)
Fixpoint Parse (flags : FlagSet) (args : list string) : result (FlagSet * list string) :=
  match args with
  | [] => inr (flags, [])
  | s :: rest =>
      match classify_arg s with
      | Positional => inr (flags, args)
      | Terminator => inr (flags, rest)
      | BadSyntax => inl (errorf "bad flag syntax: %s")
      | Flag name value =>
          match flags !! name with
          | None =>
              if (name =? "help")%string || (name =? "h")%string then inl ErrHelp
              else inl (errorf "flag provided but not defined: -%s")
          | Some old =>
              let set (text : string) (rest : list string) (more : FlagSet → result (FlagSet * list string)) :=
                match set_flag old text with
                | Some v => more (<[name := v]> flags)
                | None => inl (if is_bool_flag old then errorf "invalid boolean value %q for -%s: %v"
                               else errorf "invalid value %q for flag -%s: %v")
                end in
              if is_bool_flag old then
                set (match value with Some text => text | None => "true" end) rest (λ f, Parse f rest)
              else
                match value with
                | Some text => set text rest (λ f, Parse f rest)
                | None =>
                    match rest with
                    | text :: rest' => set text rest' (λ f, Parse f rest')
                    | [] => inl (errorf "flag needs an argument: -%s")
                    end
                end
          end
      end
  end.

Definition string_flag (name : string) (f : FlagSet) : string :=
  match f !! name with Some (StringFlag s) => s | _ => "" end.
Definition int_flag (name : string) (f : FlagSet) : Z :=
  match f !! name with Some (IntFlag n) => n | _ => 0 end.
Definition bool_flag (name : string) (f : FlagSet) : bool :=
  match f !! name with Some (BoolFlag b) => b | _ => false end.

Definition flag_kind (v : FlagValue) : nat :=
  match v with StringFlag _ => 0 | IntFlag _ => 1 | BoolFlag _ => 2 end.

(** ** Facts *)

Lemma set_flag_kind old text v : set_flag old text = Some v → flag_kind v = flag_kind old.
Proof.
  destruct old; simpl; [by intros [= <-]|..]; [destruct (ParseInt0 text) | destruct (ParseBool text)];
    simpl; try done; by intros [= <-].
Qed.

(** Parsing keeps the flags of the set and their types. *)
Lemma Parse_kinds args flags flags' rest :
  Parse flags args = inr (flags', rest) → flag_kind <$> flags' = flag_kind <$> flags.
Proof.
  assert (∃ n, length args <= n)%nat as [n Hn] by eauto. revert args flags Hn.
  induction n as [|n IH]; intros [|s args] flags Hn; simpl in Hn; try lia; [by intros [= <- <-]..|].
  assert (∀ name old text v args', (length args' <= n)%nat → flags !! name = Some old →
    set_flag old text = Some v → Parse (<[name := v]> flags) args' = inr (flags', rest) →
    flag_kind <$> flags' = flag_kind <$> flags) as Hset.
  { intros name old text v args' Hl Ho Hv Hp. rewrite (IH _ _ Hl Hp), fmap_insert.
    rewrite (set_flag_kind _ _ _ Hv). apply insert_id. by rewrite lookup_fmap, Ho. }
  simpl. destruct (classify_arg s) as [| | |name value]; [by intros [= <- <-] | by intros [= <- <-] | done|].
  destruct (flags !! name) as [old|] eqn:Eo; [|by destruct (_ || _)].
  destruct (is_bool_flag old); [|destruct value as [text|]; [|destruct args as [|text args]; [done|]]];
    (destruct (set_flag _ _) eqn:Ev; [|done]); intros Hp; simpl in Hn; eapply Hset; eauto; lia.
Qed.
