(* ===== verification/Paths.v ===== *)
(** * Paths: [filepath.Clean] and [filepath.Dir] on Unix *)

From Stdlib Require Import Ascii.
From S2P Require Import Prelude Text.

Definition is_slash (c : ascii) : bool := (c =? "/")%char.

(** The elements between slashes. *)
Fixpoint elements (s : string) : list string :=
  match s with
  | "" => [""]
  | String c s' =>
      if is_slash c then "" :: elements s'
      else match elements s' with
           | e :: l => String c e :: l
           | [] => [String c ""]
           end
  end.

Fixpoint join (l : list string) : string :=
  match l with
  | [] => ""
  | [e] => e
  | e :: l' => e +:+ "/" +:+ join l'
  end.

Definition rooted (s : string) : bool := match s with String c _ => is_slash c | "" => false end.

(** One element after the kept ones, the last of which comes first. *)
Definition clean_element (root : bool) (kept : list string) (e : string) : list string :=
  if (e =? "")%string || (e =? ".")%string then kept
  else if (e =? "..")%string then
    match kept with
    | last :: rest => if (last =? "..")%string then e :: kept else rest
    | [] => if root then [] else [e]
    end
  else e :: kept.

Definition clean_elements (s : string) : list string :=
  rev (foldl (clean_element (rooted s)) [] (elements s)).

(** [filepath.Clean]. *)
Definition Clean (s : string) : string :=
  let l := clean_elements s in
  if rooted s then "/" +:+ join l
  else match l with [] => "." | _ => join l end.

(** The path up to its last slash, slash included. *)
Fixpoint up_to_slash (s : string) : string :=
  match s with
  | "" => ""
  | String c s' =>
      match up_to_slash s' with
      | "" => if is_slash c then String c "" else ""
      | t => String c t
      end
  end.

(** [filepath.Dir]. *)
Definition Dir (path : string) : string := Clean (up_to_slash path).

Example Dir_examples :
  map Dir ["/var/lib/spool.db"; "spool.db"; "/"; "/x"; "a/../../b"; "../x"; ".."; "."; ""; "a//b/./c"; "/../x/y"; "x/"] =
  ["/var/lib"; "."; "/"; "/"; ".."; ".."; "."; "."; "."; "a/b"; "/x"; "x"].
Proof. vm_compute. reflexivity. Qed.

(** ** A parent is shorter, until there is none *)

Definition weight (l : list string) : nat := foldr (λ e n, String.length e + 1 + n)%nat 0%nat l.

Lemma weight_app l1 l2 : weight (l1 ++ l2) = (weight l1 + weight l2)%nat.
Proof. induction l1; simpl; lia. Qed.

Lemma weight_rev l : weight (rev l) = weight l.
Proof. induction l as [|e l IH]; simpl; [done|]. rewrite weight_app. simpl. lia. Qed.

Lemma elements_nonempty s : elements s ≠ [].
Proof. destruct s as [|c s]; simpl; [done|]. destruct (is_slash c); [done|]. by destruct (elements s). Qed.

Lemma weight_elements s : weight (elements s) = S (String.length s).
Proof.
  induction s as [|c s IH]; simpl; [done|]. destruct (is_slash c); simpl; [lia|].
  pose proof (elements_nonempty s). destruct (elements s); [done|]. simpl in *. lia.
Qed.

Lemma length_join l : l ≠ [] → S (String.length (join l)) = weight l.
Proof.
  induction l as [|e [|e' l] IH]; intros H; [done | simpl; lia|].
  change (join (e :: e' :: l)) with (e +:+ "/" +:+ join (e' :: l)). rewrite !length_app_string.
  specialize (IH ltac:(done)). change (weight (e :: e' :: l)) with (String.length e + 1 + weight (e' :: l))%nat.
  change (String.length "/") with 1%nat. lia.
Qed.

Lemma clean_weight root kept l : (weight (foldl (clean_element root) kept l) <= weight kept + weight l)%nat.
Proof.
  revert kept. induction l as [|e l IH]; intros kept; simpl; [lia|]. rewrite IH.
  unfold clean_element. repeat case_next; simpl; lia.
Qed.

Lemma length_Clean s : (String.length (Clean s) <= Nat.max 1 (String.length s))%nat.
Proof.
  unfold Clean, clean_elements. destruct (rooted s) eqn:Er.
  - destruct s as [|c s]; [done|]. simpl in Er. cbn [elements]. rewrite Er. cbn [foldl].
    change (clean_element true [] "") with (@nil string).
    set (l := foldl _ [] (elements s)).
    assert (weight l <= S (String.length s))%nat by (rewrite <- weight_elements; apply (clean_weight true [])).
    rewrite length_app_string. simpl String.length. destruct l as [|e l]; [simpl; lia|].
    pose proof (length_join (rev (e :: l))) as Hj. rewrite weight_rev in Hj.
    assert (rev (e :: l) ≠ []) as Hne by (simpl; by destruct (rev l)). specialize (Hj Hne). lia.
  - set (l := foldl _ [] (elements s)).
    assert (weight l <= S (String.length s))%nat by (rewrite <- weight_elements; apply (clean_weight false [])).
    destruct (rev l) as [|e l'] eqn:El; [simpl; lia|].
    pose proof (length_join (rev l)) as Hj. rewrite weight_rev, El in Hj. specialize (Hj ltac:(done)). lia.
Qed.

Definition ends_with_slash (s : string) : bool :=
  match s with "" => false | _ => (up_to_slash s =? s)%string end.

Lemma up_to_slash_length s :
  (String.length (up_to_slash s) <= String.length s)%nat.
Proof.
  induction s as [|c s IH]; simpl; [done|]. destruct (up_to_slash s) eqn:E; [|simpl in *; lia].
  destruct (is_slash c); simpl; lia.
Qed.

Lemma up_to_slash_same s :
  String.length (up_to_slash s) = String.length s → up_to_slash s = s.
Proof.
  induction s as [|c s IH]; simpl; [done|]. destruct (up_to_slash s) eqn:E.
  - destruct (is_slash c); simpl; [|done]. by destruct s.
  - simpl. intros [= H]. f_equal. by apply IH.
Qed.

(** An element has no slash. *)
Fixpoint slash_free (s : string) : bool :=
  match s with "" => true | String c s' => negb (is_slash c) && slash_free s' end.

Lemma elements_slash_free s : Forall (λ e, slash_free e = true) (elements s).
Proof.
  induction s as [|c s IH]; simpl; [by repeat constructor|]. destruct (is_slash c) eqn:E; [by constructor|].
  destruct (elements s) as [|e l]; [constructor; [simpl; by rewrite E | done]|].
  apply Forall_cons in IH as [He Hl]. constructor; [simpl; by rewrite E, He | done].
Qed.

Definition proper (e : string) : Prop := slash_free e = true ∧ e ≠ "".

Lemma clean_proper root kept l :
  Forall proper kept → Forall (λ e, slash_free e = true) l → Forall proper (foldl (clean_element root) kept l).
Proof.
  revert kept. induction l as [|e l IH]; intros kept Hk Hl; simpl; [done|].
  apply Forall_cons in Hl as [He Hl]. apply IH; [|done]. unfold clean_element.
  destruct (_ || _) eqn:E; [done|]. breflect. assert (proper e) by done.
  destruct (_ =? "..")%string; [|by constructor].
  destruct kept as [|k kept]; [destruct root; by repeat constructor|].
  destruct (k =? "..")%string; [by constructor|]. by apply Forall_cons in Hk as [_ ?].
Qed.

Lemma up_to_slash_free e : slash_free e = true → up_to_slash e = "".
Proof.
  induction e as [|c e IH]; simpl; [done|]. intros H. breflect. rewrite IH by done. by destruct (is_slash c).
Qed.

Lemma up_to_slash_app s t : up_to_slash t ≠ "" → up_to_slash (s +:+ t) = s +:+ up_to_slash t.
Proof.
  intros Ht. induction s as [|c s IH]; [done|]. rewrite !append_cons. cbn [up_to_slash]. rewrite IH.
  destruct (s +:+ up_to_slash t) eqn:E; [|done]. exfalso. apply Ht. by destruct s, (up_to_slash t).
Qed.

(** What [Clean] returns does not end in a slash, the root apart. *)
Lemma join_up_to_slash l : Forall proper l → l ≠ [] → up_to_slash (join l) ≠ join l.
Proof.
  induction l as [|e [|e' l] IH]; intros Hl Hne; [done|..].
  - apply Forall_cons in Hl as [[Hs He] _]. simpl. rewrite up_to_slash_free by done. done.
  - apply Forall_cons in Hl as [_ Hl]. specialize (IH Hl ltac:(done)).
    change (join (e :: e' :: l)) with (e +:+ "/" +:+ join (e' :: l)).
    change ("/" +:+ join (e' :: l)) with (String "/" (join (e' :: l))).
    assert (up_to_slash (String "/" (join (e' :: l))) ≠ "") as Hn.
    { cbn [up_to_slash]. by destruct (up_to_slash (join (e' :: l))). }
    rewrite up_to_slash_app by done. intros E%(inj (String.append e)). cbn [up_to_slash] in E.
    apply IH. destruct (up_to_slash (join (e' :: l))); by injection E.
Qed.

Lemma Clean_form s : Clean s = "/" ∨ Clean s = "." ∨ up_to_slash (Clean s) ≠ Clean s.
Proof.
  unfold Clean, clean_elements. set (l := foldl _ _ _).
  assert (Forall proper (rev l)) as Hl.
  { apply Forall_rev. apply clean_proper; [done | apply elements_slash_free]. }
  destruct (rev l) as [|e l'] eqn:El; [destruct (rooted s); auto|]. right; right.
  destruct (rooted s); [|by apply join_up_to_slash].
  pose proof (join_up_to_slash (e :: l') Hl ltac:(done)) as Hj.
  change ("/" +:+ join (e :: l')) with (String "/" (join (e :: l'))). cbn [up_to_slash].
  intros E. apply Hj. destruct (up_to_slash (join (e :: l'))); by injection E.
Qed.

(** How many directories can be above a clean path. *)
Definition above (p : string) : nat :=
  if (p =? "/")%string || (p =? ".")%string then 0 else String.length p.

Lemma Dir_shorter p :
  p = "/" ∨ p = "." ∨ up_to_slash p ≠ p → Dir p = p ∨ (above (Dir p) < above p)%nat.
Proof.
  intros [->|[->|Hs]]; [by left | by left|].
  destruct (p =? "/")%string eqn:E1; breflect; [subst; by left|].
  destruct (p =? ".")%string eqn:E2; breflect; [subst; by left|].
  right. assert (above p = String.length p) as ->.
  { unfold above. by rewrite (proj2 (String.eqb_neq p "/")), (proj2 (String.eqb_neq p ".")). }
  pose proof (up_to_slash_length p). pose proof (length_Clean (up_to_slash p)) as Hc.
  assert (String.length (up_to_slash p) ≠ String.length p) by (intros E; by apply Hs, up_to_slash_same).
  fold (Dir p) in Hc. unfold above. destruct (_ || _) eqn:Ed; [lia|].
  destruct (up_to_slash p) eqn:Eu; [unfold Dir in Ed; by rewrite Eu in Ed | simpl in *; lia].
Qed.

Lemma Dir_above q : Dir (Clean q) = Clean q ∨ (above (Dir (Clean q)) < above (Clean q))%nat.
Proof. apply Dir_shorter, Clean_form. Qed.
