(* ===== verification/Print.v ===== *)
(** * Print: what the inspection commands write (internal/cli/spool.go, prune.go, stats.go)

    Rows and results as JSON lines, with the struct tags of the code, and
    the readable summary of the statistics. *)

From Stdlib Require Import Ascii SpecFloat.
From S2P Require Import Prelude Rows Text Timestamp TimeParse Duration Sha256 Json Marshal Runtime.
From S2P Require Import Schema SchemaFacts Store Deliveries Listing Prune Stats Monitoring.

(** ** JSON values *)

Definition year_in_range (t : time) : bool :=
  (-62167219200 * Second <=? t) && (t <? 253402300800 * Second).

(** [time.Time.MarshalJSON] of a UTC time: an error outside years 0 to 9999. *)
Definition json_time (t : time) : option string :=
  if year_in_range t then Some (quote true (formatRFC3339Nano t)) else None.

Definition json_bool (b : bool) : string := if b then "true" else "false".

(** A member that is written, one that [omitempty] leaves out, and one whose
    value cannot be encoded. *)
Definition member (name value : string) : option (list (string * string)) := Some [(name, value)].
Definition omitted : option (list (string * string)) := Some [].
Definition encoded (name : string) (value : option string) : option (list (string * string)) :=
  match value with Some v => member name v | None => None end.
Definition omit_empty (html : bool) (name value : string) : option (list (string * string)) :=
  if (value =? "")%string then omitted else member name (quote html value).
Definition omit_nil (name : string) (t : option time) : option (list (string * string)) :=
  match t with Some t => encoded name (json_time t) | None => omitted end.

Fixpoint all_members (l : list (option (list (string * string)))) : option (list (string * string)) :=
  match l with
  | [] => Some []
  | None :: _ => None
  | Some ms :: l' => match all_members l' with Some ms' => Some (ms ++ ms') | None => None end
  end.

Definition json_object (html : bool) (l : list (option (list (string * string)))) : option string :=
  match all_members l with Some ms => Some (marshal_object html ms) | None => None end.

(** A slice that is not nil. *)
Fixpoint json_elements (l : list string) : string :=
  match l with
  | [] => ""
  | [v] => v
  | v :: l' => v +:+ "," +:+ json_elements l'
  end.

Definition json_array (l : list (option string)) : option string :=
  match mapM (M := option) id l with Some vs => Some ("[" +:+ json_elements vs +:+ "]") | None => None end.

(** ** Rows *)

(** [json.RawMessage]: nil is [null]. *)
Definition json_raw (html : bool) (data : option string) : option string :=
  match data with None => Some "null" | Some d => marshal_raw html d end.

(** A line of [spool list]. *)
Definition event_members (row : EventRow) : list (option (list (string * string))) :=
  [member "sequence" (itoa (er_Sequence row)); member "source" (quote false (er_Source row));
   member "id" (quote false (er_ID row)); member "type" (quote false (er_Type row));
   omit_empty false "subject" (er_Subject row); encoded "payload" (json_raw false (er_Payload row));
   omit_nil "payload_pruned_at" (er_PayloadPrunedAt row);
   member "transaction_id" (itoa (er_TransactionID row));
   member "message_index" (itoa (er_MessageIndex row));
   member "commit_end_lsn" (quote false (er_CommitEndLSN row))].

Definition event_line (row : EventRow) : option string := json_object false (event_members row).

(** A line of [spool deliveries]. *)
Definition delivery_members (row : DeliveryRow) : list (option (list (string * string))) :=
  [member "event_sequence" (itoa (dr_EventSequence row)); member "sink" (quote false (dr_SinkName row));
   member "state" (quote false (state_text (dr_State row))); member "attempts" (itoa (dr_Attempts row));
   encoded "next_attempt_at" (json_time (dr_NextAttemptAt row));
   omit_nil "last_attempt_at" (dr_LastAttemptAt row); omit_nil "delivered_at" (dr_DeliveredAt row);
   omit_nil "dead_lettered_at" (dr_DeadLetteredAt row);
   omit_empty false "last_error" (dr_LastError row);
   if dr_ResponseStatus row =? 0 then omitted else member "response_status" (itoa (dr_ResponseStatus row));
   member "source" (quote false (dr_Source row)); member "id" (quote false (dr_ID row));
   member "type" (quote false (dr_Type row))].

Definition delivery_line (row : DeliveryRow) : option string := json_object false (delivery_members row).

(** ** Results *)

Definition prune_entry_json (e : PruneEntry) : option string :=
  json_object true [member "sequence" (itoa (pe_Sequence e)); member "source" (quote true (pe_Source e));
    member "id" (quote true (pe_ID e)); member "payload_bytes" (itoa (pe_PayloadBytes e))].

Definition prune_json (r : PruneResult) : option string :=
  json_object true [member "dry_run" (json_bool (prr_DryRun r)); encoded "before" (json_time (prr_Before r));
    member "limit" (itoa (prr_Limit r)); member "events" (itoa (prr_Events r));
    member "payload_bytes" (itoa (prr_PayloadBytes r));
    encoded "entries" (json_array (map prune_entry_json (prr_Entries r)))].

Definition counts_json (c : DeliveryCounts) : option string :=
  json_object true [member "total" (itoa (dc_Total c)); member "pending" (itoa (dc_Pending c));
    member "retry_wait" (itoa (dc_RetryWait c)); member "delivered" (itoa (dc_Delivered c));
    member "dead_letter" (itoa (dc_DeadLetter c))].

(** A nil pointer is [null]. *)
Definition waiting_json (w : option WaitingStats) : option string :=
  match w with
  | None => Some "null"
  | Some w => json_object true [encoded "captured_at" (json_time (ws_CapturedAt w));
      member "age_seconds" (itoa (ws_AgeSeconds w))]
  end.

Definition sink_json (s : SinkStats) : option string :=
  json_object true [member "sink" (quote true (ss_Name s)); member "type" (quote true (ss_Type s));
    member "active" (json_bool (ss_Active s)); encoded "deliveries" (counts_json (ss_Deliveries s));
    encoded "oldest_waiting" (waiting_json (ss_OldestWaiting s))].

Definition sizes_json (f : FileSizes) : option string :=
  json_object true [member "database_bytes" (itoa (DatabaseBytes f)); member "wal_bytes" (itoa (WALBytes f));
    member "shm_bytes" (itoa (SHMBytes f)); member "total_bytes" (itoa (TotalBytes f))].

Definition stats_json (s : Stats) : option string :=
  json_object true [encoded "sampled_at" (json_time (ts_SampledAt s));
    member "event_count" (itoa (ts_EventCount s)); member "pruned_payloads" (itoa (ts_PrunedPayloads s));
    member "last_durable_lsn" (quote true (ts_LastDurableLSN s));
    encoded "deliveries" (counts_json (ts_Deliveries s));
    encoded "oldest_waiting" (waiting_json (ts_OldestWaiting s));
    encoded "storage" (sizes_json (ts_Storage s));
    encoded "sinks" (json_array (map sink_json (ts_Sinks s)))].

(** ** The readable summary *)

(** [time.Duration.String] of whole seconds. *)
Definition seconds_string (d : Z) : string :=
  let u := Z.abs d in
  (if d <? 0 then "-" else "") +:+
  (if 3600 <=? u then itoa (u / 3600) +:+ "h" else "") +:+
  (if 60 <=? u then itoa (u / 60 mod 60) +:+ "m" else "") +:+ itoa (u mod 60) +:+ "s".

(** [waitingAge]: an age comes from [time.Time.Sub], so its product with
    [time.Second] fits. *)
Definition waitingAge (waiting : option WaitingStats) : string :=
  match waiting with
  | None => "none"
  | Some w => seconds_string (ws_AgeSeconds w)
  end.

(** [%.1f] of [m * 2 ^ e / 1024 ^ k]: rounded half to even. *)
Definition tenths (m e : Z) (k : Z) : string :=
  let t := round_half_even (10 * m * 2 ^ Z.max 0 e) (2 ^ Z.max 0 (- e) * 1024 ^ k) in
  itoa (t / 10) +:+ "." +:+ itoa (t mod 10).

(** The loop of [fileSize]: [k] divisions so far. *)
Fixpoint size_units (units : list string) (m e k : Z) : string :=
  match units with
  | [] => ""
  | unit :: rest =>
      let k := k + 1 in
      if (m * 2 ^ Z.max 0 e <? 1024 * (2 ^ Z.max 0 (- e) * 1024 ^ k)) || (unit =? "EiB")%string
      then tenths m e k +:+ " " +:+ unit
      else size_units rest m e k
  end.

(** [fileSize]: dividing a float64 by 1024 is exact. *)
Definition fileSize (size : Z) : string :=
  if size <? 1024 then itoa size +:+ " B"
  else match float64 size with
       | S754_finite false m e => size_units ["KiB"; "MiB"; "GiB"; "TiB"; "PiB"; "EiB"] (Zpos m) e 0
       | _ => ""
       end.

Example fileSize_examples :
  map fileSize [0; 1023; 1024; 1536; 40960; 1048575; 1048576; 5 * 1024 ^ 3 + 53687091; 2 ^ 63 - 1] =
  ["0 B"; "1023 B"; "1.0 KiB"; "1.5 KiB"; "40.0 KiB"; "1024.0 KiB"; "1.0 MiB"; "5.0 GiB"; "8.0 EiB"].
Proof. vm_compute. reflexivity. Qed.

Example age_examples :
  map (λ n, waitingAge (Some (MkWaiting 0 n))) [0; 59; 60; 3600; 93784] = ["0s"; "59s"; "1m0s"; "1h0m0s"; "26h3m4s"].
Proof. vm_compute. reflexivity. Qed.

(** [text/tabwriter] with padding 2: all lines have the same cells, of which
    the last is not padded.  Cells are ASCII without tabs. *)
Fixpoint spaces (n : nat) : string := match n with O => "" | S n' => String " " (spaces n') end.

Definition widen (widths : list nat) (line : list string) : list nat :=
  zip_with (λ w cell, Nat.max w (String.length cell + 2)) widths line.

Fixpoint pad_cells (widths : list nat) (line : list string) : string :=
  match line, widths with
  | [], _ => ""
  | [cell], _ => cell
  | cell :: line', w :: widths' => cell +:+ spaces (w - String.length cell) +:+ pad_cells widths' line'
  | cell :: line', [] => cell +:+ pad_cells [] line'
  end.

Definition table (lines : list (list string)) : string :=
  let widths := foldl widen (replicate 8 0%nat) lines in
  foldr (λ line text, pad_cells widths line +:+ LF +:+ text) "" lines.

Definition sink_cells (s : SinkStats) : list string :=
  [ss_Name s; ss_Type s; json_bool (ss_Active s); itoa (dc_Pending (ss_Deliveries s));
   itoa (dc_RetryWait (ss_Deliveries s)); itoa (dc_Delivered (ss_Deliveries s));
   itoa (dc_DeadLetter (ss_Deliveries s)); waitingAge (ss_OldestWaiting s)].

(** [writeStatsSummary]: the text. *)
Definition stats_summary (s : Stats) : string :=
  let d := ts_Deliveries s in
  let f := ts_Storage s in
  "Spool snapshot: " +:+ format_seconds (ts_SampledAt s) +:+ "Z" +:+ LF +:+
  "Captured events: " +:+ itoa (ts_EventCount s) +:+ LF +:+
  "Payloads: " +:+ itoa (int64 (ts_EventCount s - ts_PrunedPayloads s)) +:+ " retained | " +:+
    itoa (ts_PrunedPayloads s) +:+ " pruned" +:+ LF +:+
  "Durable checkpoint: " +:+ ts_LastDurableLSN s +:+ LF +:+
  "Deliveries: " +:+ itoa (dc_Total d) +:+ " total | " +:+ itoa (dc_Pending d) +:+ " pending | " +:+
    itoa (dc_RetryWait d) +:+ " retry_wait | " +:+ itoa (dc_Delivered d) +:+ " delivered | " +:+
    itoa (dc_DeadLetter d) +:+ " dead_letter" +:+ LF +:+
  "Oldest waiting: " +:+ waitingAge (ts_OldestWaiting s) +:+ LF +:+
  "Spool files: " +:+ fileSize (TotalBytes f) +:+ " total (database " +:+ fileSize (DatabaseBytes f) +:+
    ", SQLite WAL " +:+ fileSize (WALBytes f) +:+ ", SHM " +:+ fileSize (SHMBytes f) +:+ ")" +:+ LF +:+ LF +:+
  (match ts_Sinks s with
   | [] => "No registered sinks." +:+ LF
   | sinks => table (["SINK"; "TYPE"; "ACTIVE"; "PENDING"; "RETRY_WAIT"; "DELIVERED"; "DEAD_LETTER"; "OLDEST WAITING"]
                       :: map sink_cells sinks)
   end) +:+
  LF +:+ "Waiting = pending + retry_wait; age is since original local capture." +:+ LF +:+
  "File sizes are approximate. This snapshot does not establish daemon or destination health." +:+ LF.
