(* ===== verification/PrintProps.v ===== *)
(** * PrintProps: a line of [spool list] reads back as its event *)

From Stdlib Require Import Ascii.
From S2P Require Import Prelude Rows Text Timestamp TimeParse Duration Sha256 Json Marshal MarshalFacts CompactFacts Event Emit EmitProps.
From S2P Require Import Runtime Schema SchemaFacts Store Deliveries Listing Config Print.

(** ** Numbers are JSON values *)

Lemma digit_byte d : 0 <= d < 10 → ∃ c, digit d = String c "" ∧ byte_n c = (48 + Z.to_N d)%N.
Proof.
  intros Hd. exists (ascii_of_N (48 + Z.to_N d)). split; [done|]. unfold byte_n. apply N_ascii_embedding. lia.
Qed.

(** A state in which a number may begin. *)
Definition number_start (s : scan_state) : bool := match s with BeginValue | Neg => true | _ => false end.

Lemma step_first_digit c s stack d :
  number_start s = true → 0 < d < 10 → byte_n c = (48 + Z.to_N d)%N → step c (goto s stack) = goto Digits stack.
Proof.
  intros Hs Hd Hc. assert (c = ascii_of_N (48 + Z.to_N d)) as -> by (unfold byte_n in Hc; by rewrite <- Hc, ascii_N_embedding).
  assert (d ∈ [1; 2; 3; 4; 5; 6; 7; 8; 9]) as Hin by (rewrite !elem_of_cons; lia).
  repeat (apply elem_of_cons in Hin as [->|Hin]; [by destruct s|]). by apply elem_of_nil in Hin.
Qed.

Lemma step_digit c stack d :
  0 <= d < 10 → byte_n c = (48 + Z.to_N d)%N → step c (goto Digits stack) = goto Digits stack.
Proof.
  intros Hd Hc. unfold step. cbn [sc_state goto]. unfold is_dec, between. rewrite Hc.
  rewrite (proj2 (N.leb_le _ _)), (proj2 (N.leb_le _ _)) by lia. done.
Qed.

Lemma digits_scan fuel n s :
  number_start s = true → 0 < n < 10 ^ Z.of_nat (S fuel) →
  scan (pad (ndigits fuel n) n) (goto s [ObjectValue]) = goto Digits [ObjectValue] ∧
  inside ObjectValue (pad (ndigits fuel n) n) (goto s [ObjectValue]).
Proof.
  intros Hs. revert n. induction fuel as [|fuel IH]; intros n Hn.
  all: assert (n < 10 → scan (pad 1 n) (goto s [ObjectValue]) = goto Digits [ObjectValue] ∧
    inside ObjectValue (pad 1 n) (goto s [ObjectValue])) as Hone.
  1, 3: intros Hl; cbn [pad]; rewrite Z.mod_small by lia;
    destruct (digit_byte n ltac:(lia)) as (c & -> & Hc); rewrite append_nil_l; cbn [scan inside];
    rewrite (step_first_digit c s _ n) by (done || lia); repeat split; [done | by exists []].
  - cbn [ndigits]. apply Hone. simpl in Hn. lia.
  - cbn [ndigits]. destruct (n <? 10) eqn:E; breflect; [by apply Hone|].
    rewrite Nat2Z.inj_succ, Z.pow_succ_r in Hn by lia.
    destruct (IH (n / 10)) as [Hsc Hi].
    { split; [apply Z.div_str_pos; lia | apply Z.div_lt_upper_bound; lia]. }
    cbn [pad]. rewrite scan_app, Hsc.
    destruct (digit_byte (n mod 10)) as (c & -> & Hc); [by apply Z.mod_pos_bound|].
    cbn [scan]. pose proof (step_digit c [ObjectValue] (n mod 10) ltac:(by apply Z.mod_pos_bound) Hc) as Hst.
    split; [by rewrite Hst|]. apply inside_app; [done|]. rewrite Hsc. cbn [inside]. rewrite Hst.
    repeat split; [done | by exists []].
Qed.

Lemma log2_digits n : 0 < n → n < 10 ^ Z.of_nat (S (Z.to_nat (Z.log2 n))).
Proof.
  intros Hn. rewrite Nat2Z.inj_succ, Z2Nat.id by apply Z.log2_nonneg.
  destruct (Z.log2_spec n Hn) as [_ Hl]. eapply Z.lt_le_trans; [exact Hl|].
  apply Z.pow_le_mono_l. lia.
Qed.

Lemma itoa_value n : member_value (itoa n).
Proof.
  assert (∀ v, scan v (goto BeginValue [ObjectValue]) = goto Digits [ObjectValue] ∧
    inside ObjectValue v (goto BeginValue [ObjectValue]) → member_value v) as H.
  { intros v [Hs Hi]. split; rewrite ?Hs; done. }
  unfold itoa. destruct (n <? 0) eqn:E; breflect.
  - apply H. destruct (digits_scan (Z.to_nat (Z.log2 (- n))) (- n) Neg eq_refl) as [Hs Hi].
    { split; [lia|]. apply log2_digits. lia. }
    split; [by rewrite scan_app|]. apply inside_app; [|done]. simpl. repeat split; [done | by exists []].
  - destruct (decide (n = 0)) as [->|Hne].
    + split; [|done..]. simpl. repeat split; [done | by exists []].
    + apply H, digits_scan; [done|]. split; [lia|]. apply log2_digits. lia.
Qed.

(** ** Text without white space *)

Definition solid (s : string) : bool := all_bytes (λ c, negb (is_space c)) s.

Lemma solid_app s t : solid (s +:+ t) = solid s && solid t.
Proof.
  unfold solid. induction s as [|c s IH]; [done|]. rewrite append_cons. cbn [all_bytes]. by rewrite IH, andb_assoc.
Qed.

Lemma solid_rev s t : solid (rev_string s t) = solid s && solid t.
Proof.
  revert t. induction s as [|c s IH]; intros t; [done|]. cbn [rev_string]. rewrite IH.
  unfold solid. cbn [all_bytes]. by rewrite andb_assoc, (andb_comm (negb _)).
Qed.

Lemma trim_solid s : solid s = true → trim_left s = s.
Proof. destruct s as [|c s]; [done|]. unfold solid. cbn [all_bytes trim_left]. by destruct (is_space c). Qed.

Lemma trimmed_solid v : solid v = true → trimmed v = v.
Proof.
  intros H. unfold trimmed, span.
  assert (solid (rev_string v "") = true) as Hr by (by rewrite solid_rev, H).
  rewrite (trim_solid (rev_string v "")), rev_string_involutive by done. by apply trim_solid.
Qed.

Lemma solid_pad w n : solid (pad w n) = true.
Proof.
  revert n. induction w as [|w IH]; intros n; [done|]. cbn [pad]. rewrite solid_app, IH. simpl.
  destruct (digit_byte (n mod 10)) as (c & Ed & Hc); [by apply Z.mod_pos_bound|].
  rewrite Ed. unfold solid, is_space. cbn [all_bytes]. rewrite Hc, andb_true_r, negb_true_iff, !orb_false_iff.
  repeat split; apply N.eqb_neq; lia.
Qed.

Lemma trimmed_itoa n : trimmed (itoa n) = itoa n.
Proof.
  apply trimmed_solid. unfold itoa. destruct (n <? 0); [rewrite solid_app|]; by rewrite ?solid_pad.
Qed.

(** ** The line of an event *)

(** A member as a string. *)
Definition member_string (object : gmap string string) (name : string) : option string :=
  object !! name ≫= unmarshal_string.

(** The texts are UTF-8; a payload that is kept is JSON within the decoder's
    nesting limit. *)
Record readable (e : event_rec) : Prop := {
  rd_texts : ∀ s, s ∈ [e_source e; e_id e; e_type e; coalesce (e_subject e)] → utf8_valid 0 s = true;
  rd_payload : e_pruned_at e = None → Valid (e_payload e) = true ∧ nesting (e_payload e) < maxNestingDepth;
}.

(** What a reader of the line finds. *)
Record line_shows (e : event_rec) (object : gmap string string) : Prop := {
  ls_sequence : object !! "sequence" = Some (itoa (e_sequence e));
  ls_source : member_string object "source" = Some (e_source e);
  ls_id : member_string object "id" = Some (e_id e);
  ls_type : member_string object "type" = Some (e_type e);
  ls_subject : default "" (member_string object "subject") = coalesce (e_subject e);
  ls_transaction : object !! "transaction_id" = Some (itoa (e_transaction_id e mod 2 ^ 32));
  ls_index : object !! "message_index" = Some (itoa (e_message_index e));
  ls_payload : object !! "payload" = match e_pruned_at e with
    | None => Some (trimmed (compact false (e_payload e) start))
    | Some _ => Some "null"
    end;
  ls_pruned : formatTimestamp <$> (member_string object "payload_pruned_at" ≫= parse_time) = e_pruned_at e;
  ls_end : utf8_valid 0 (e_commit_end_lsn e) = true →
    member_string object "commit_end_lsn" = Some (e_commit_end_lsn e);
}.

Definition line_reads_back (e : event_rec) (line : string) : Prop :=
  ∃ ms, decode_object line = Some (ms, "") ∧ line_shows e (object_map ms).

Lemma null_value : member_value "null".
Proof. split; [|done..]. simpl. repeat split; try done; by exists []. Qed.

Lemma ascii_app s t : ascii_text (s +:+ t) = ascii_text s && ascii_text t.
Proof. induction s as [|c s IH]; [done|]. rewrite append_cons. cbn [ascii_text]. by rewrite IH, andb_assoc. Qed.

Lemma ascii_digit n : ascii_text (digit (n mod 10)) = true.
Proof.
  destruct (digit_byte (n mod 10)) as (c & -> & Hc); [by apply Z.mod_pos_bound|].
  cbn [ascii_text]. unfold ascii_byte. rewrite Hc, andb_true_r. apply N.ltb_lt.
  pose proof (Z.mod_pos_bound n 10 ltac:(lia)). lia.
Qed.

Lemma ascii_pad w n : ascii_text (pad w n) = true.
Proof. revert n. induction w as [|w IH]; intros n; [done|]. cbn [pad]. by rewrite ascii_app, IH, ascii_digit. Qed.

Lemma ascii_strip w n : ascii_text (strip_zeros w n) = true.
Proof.
  revert n. induction w as [|w IH]; intros n; [done|]. cbn [strip_zeros].
  destruct (_ =? 0); [done|]. by rewrite ?ascii_app, ?ascii_pad, ?IH, ?ascii_digit.
Qed.

Lemma ascii_nano t : ascii_text (formatRFC3339Nano t) = true.
Proof.
  unfold formatRFC3339Nano, format_seconds, format_fraction, appendInt.
  destruct (_ <? 0), (_ =? 0); rewrite ?ascii_app, ?ascii_pad, ?ascii_strip; done.
Qed.

Lemma json_time_reads t :
  four_digit_year t → ∃ text, json_time t = Some text ∧ member_value text ∧
    unmarshal_string (trimmed text) ≫= parse_time = Some t.
Proof.
  intros Ht. unfold json_time, year_in_range. destruct Ht as [H1 H2].
  rewrite (proj2 (Z.leb_le _ _) H1), (proj2 (Z.ltb_lt _ _) H2). simpl. eexists. split; [done|].
  split; [apply quote_value|]. rewrite trimmed_quote, unmarshal_quote by apply ascii_text_utf8, ascii_nano.
  by apply parse_formatRFC3339Nano.
Qed.

(** An object of known members reads back as them. *)
Lemma object_reads ms :
  ms ≠ [] → Forall (λ kv, utf8_valid 0 kv.1 = true ∧ member_value kv.2) ms →
  ∃ raw, decode_object (marshal_object false ms) = Some (raw, "") ∧
    ∀ name, object_map raw !! name = last_member name ms None.
Proof.
  intros Hne H. exists (raw_members false ms). split.
  - apply decode_marshal; [done|]. eapply Forall_impl; [exact H|]. by intros kv [].
  - intros name. apply object_map_lookup. eapply Forall_impl; [exact H|]. by intros kv [].
Qed.

Definition row_members (subject : option string) (payload : string) (pruned : option string) (r : EventRow)
    : list (string * string) :=
  [("sequence", itoa (er_Sequence r)); ("source", quote false (er_Source r)); ("id", quote false (er_ID r));
   ("type", quote false (er_Type r))] ++
  match subject with Some s => [("subject", quote false s)] | None => [] end ++ [("payload", payload)] ++
  match pruned with Some t => [("payload_pruned_at", t)] | None => [] end ++
  [("transaction_id", itoa (er_TransactionID r)); ("message_index", itoa (er_MessageIndex r));
   ("commit_end_lsn", quote false (er_CommitEndLSN r))].

Lemma row_members_values subject payload pruned r :
  member_value payload → (∀ t, pruned = Some t → member_value t) →
  Forall (λ kv, utf8_valid 0 kv.1 = true ∧ member_value kv.2) (row_members subject payload pruned r).
Proof.
  intros Hp Ht. unfold row_members. rewrite !Forall_app, !Forall_cons. cbn [fst snd].
  split_and!; try apply quote_value; try apply itoa_value; try done; try apply Forall_nil; try done.
  - destruct subject; [|by apply Forall_nil]. apply Forall_singleton. split; [done | apply quote_value].
  - destruct pruned; [|by apply Forall_nil]. apply Forall_singleton. split; [done | by apply Ht].
Qed.

Lemma event_line_object r payload pruned :
  json_raw false (er_Payload r) = Some payload →
  match er_PayloadPrunedAt r with
  | Some t => ∃ text, json_time t = Some text ∧ pruned = Some text
  | None => pruned = None
  end →
  event_line r = Some (marshal_object false (row_members
    (if (er_Subject r =? "")%string then None else Some (er_Subject r)) payload pruned r)).
Proof.
  intros Hp Ht. unfold event_line, json_object, event_members, omit_empty, omit_nil, encoded. rewrite Hp.
  destruct (er_PayloadPrunedAt r) as [t|]; [destruct Ht as (text & -> & ->) | subst pruned];
    by destruct (er_Subject r =? "")%string.
Qed.

Lemma row_members_lookup subject payload pruned r :
  let get name := last_member name (row_members subject payload pruned r) None in
  get "sequence" = Some (trimmed (itoa (er_Sequence r))) ∧
  get "source" = Some (trimmed (quote false (er_Source r))) ∧
  get "id" = Some (trimmed (quote false (er_ID r))) ∧
  get "type" = Some (trimmed (quote false (er_Type r))) ∧
  get "subject" = (λ s, trimmed (quote false s)) <$> subject ∧
  get "transaction_id" = Some (trimmed (itoa (er_TransactionID r))) ∧
  get "message_index" = Some (trimmed (itoa (er_MessageIndex r))) ∧
  get "payload" = Some (trimmed payload) ∧ get "payload_pruned_at" = trimmed <$> pruned ∧
  get "commit_end_lsn" = Some (trimmed (quote false (er_CommitEndLSN r))).
Proof. cbv zeta. unfold row_members. by destruct subject, pruned. Qed.

Lemma event_line_reads e r :
  shows_event e r → readable e → ∃ line, event_line r = Some line ∧ line_reads_back e line.
Proof.
  intros [[= Es1 Es2 Es3 Es4] Esub [= Ep1 Ep2 Ep3] _ Epr Eyear Epay] [Htext Hpay].
  assert (∃ payload, json_raw false (er_Payload r) = Some payload ∧ member_value payload ∧
    Some (trimmed payload) = match e_pruned_at e with
      | None => Some (trimmed (compact false (e_payload e) start)) | Some _ => Some "null" end) as (payload & Hj & Hv & Ht).
  { rewrite Epay. destruct (e_pruned_at e); simpl; [exists "null"; split; [done|]; split; [apply null_value | done]|].
    destruct Hpay as [Hvalid Hnest]; [done|].
    assert (marshal_raw false (e_payload e) = Some (compact false (e_payload e) start)) as Er
      by (unfold marshal_raw; by rewrite Hvalid).
    exists (compact false (e_payload e) start). split; [done|]. split; [by eapply raw_value | done]. }
  assert (∃ pruned, match er_PayloadPrunedAt r with
      | Some t => ∃ text, json_time t = Some text ∧ pruned = Some text | None => pruned = None end ∧
    (∀ t, pruned = Some t → member_value t) ∧
    (pruned ≫= λ t, unmarshal_string (trimmed t)) ≫= parse_time = er_PayloadPrunedAt r) as (pruned & Hpr & Hpv & Hpt).
  { destruct (er_PayloadPrunedAt r) as [t|]; [|by exists None].
    destruct (json_time_reads t Eyear) as (text & Hjt & Hmv & Hun). exists (Some text).
    split; [by exists text|]. split; [by intros ? [= <-] | done]. }
  eexists. split; [by apply event_line_object|].
  destruct (object_reads (row_members (if (er_Subject r =? "")%string then None else Some (er_Subject r))
    payload pruned r)) as (raw & Hraw & Hl); [done | by apply row_members_values|].
  exists raw. split; [done|].
  assert (∀ s, s ∈ [er_Source r; er_ID r; er_Type r; er_Subject r] →
    unmarshal_string (trimmed (quote false s)) = Some s) as Hq.
  { intros s Hs. rewrite trimmed_quote. apply unmarshal_quote, Htext. by rewrite <- Es2, <- Es3, <- Es4, <- Esub. }
  destruct (row_members_lookup (if (er_Subject r =? "")%string then None else Some (er_Subject r))
    payload pruned r) as (L1 & L2 & L3 & L4 & L5 & L6 & L7 & L8 & L9 & L10).
  split; unfold member_string; rewrite Hl.
  - by rewrite <- Es1, L1, trimmed_itoa.
  - rewrite <- Es2, L2. apply Hq. left.
  - rewrite <- Es3, L3. apply Hq. right. left.
  - rewrite <- Es4, L4. apply Hq. right. right. left.
  - rewrite <- Esub, L5. destruct (er_Subject r =? "")%string eqn:E; breflect; [done|]. simpl. rewrite Hq by (do 3 right; left). done.
  - by rewrite <- Ep1, L6, trimmed_itoa.
  - by rewrite <- Ep2, L7, trimmed_itoa.
  - by rewrite L8, Ht.
  - rewrite L9, <- Epr, <- Hpt. by destruct pruned.
  - intros Hu. rewrite L10, <- Ep3. simpl. rewrite trimmed_quote. apply unmarshal_quote. by rewrite Ep3.
Qed.
