(* ===== verification/App.v ===== *)
(** * App: the composition root, internal/app/app.go

    [Run] opens the spool, builds the configured sinks, registers them, and
    runs replicator, worker and monitor together.  The environment of the
    process (its variables, its HTTP client, its standard output) is a
    record of functions. *)

From S2P Require Import Prelude Rows Text Timestamp Sha256 Runtime Schema SchemaFacts Store.
From S2P Require Import Sinks SinkFacts Deliveries DeliveryFacts DeliveryInterface Prune Migrate.
From S2P Require Import DiskGuard Config Io Replicator Worker WorkerProps Webhook CatchUp.

(** What the process is connected to; the [n]th request sees the [n]th answer. *)
Record Outside := MkOutside {
  out_LookupEnv : string → option string;
  out_zone : string → time → option Z;
  out_constructed : string → bool;
  out_sent : nat → time;
  out_received : nat → time;
  out_client : nat → Request → Answer;
  out_stdout : nat → string → bool;
}.

(** ** Sinks *)

Definition webhook_sink (out : Outside) (s : WebhookSender) : Sink := λ n item,
  Send (out_zone out) (out_constructed out (endpoint s)) (out_sent out n) (out_received out n)
    (out_client out n) s item.

Definition stdout_sink (out : Outside) : Sink := λ n item, Some (StdoutSend (out_stdout out n) item).

(** The loop of [Run] over the configured sinks. *)
Fixpoint build_sinks (out : Outside) (timeout : duration) (configs : list SinkConfig)
    (sinks : gmap string Sink) (registrations : list SinkRegistration)
    : result (gmap string Sink * list SinkRegistration) :=
  match configs with
  | [] => inr (sinks, registrations)
  | c :: rest =>
      if (sk_Type c =? "webhook")%string then
        match NewWebhookSender (out_LookupEnv out) c timeout with
        | inl _ => inl (errorf "configure delivery sink %q: %w")
        | inr (sender, registration) =>
            build_sinks out timeout rest (<[sk_Name c := webhook_sink out sender]> sinks)
              (registrations ++ [registration])
        end
      else if (sk_Type c =? "stdout")%string then
        build_sinks out timeout rest (<[sk_Name c := stdout_sink out]> sinks)
          (registrations ++ [NewStdoutSink (sk_Name c)])
      else inl (errorf "unsupported delivery sink type %q")
  end.

(** ** [Run] up to [runTogether] *)

(** [delivery.NewWorker]. *)
Definition NewWorker (sinks : gmap string Sink) (pollInterval initialDelay maxDelay : duration)
    (maxAttempts : Z) : WorkerConfig :=
  MkWorker sinks pollInterval initialDelay maxDelay maxAttempts.

Definition worker_of (cfg : Config) (sinks : gmap string Sink) : WorkerConfig :=
  let d := DeliverySection cfg in
  NewWorker sinks (PollInterval d) (InitialDelay (Retry d)) (MaxDelay (Retry d))
    (MaxAttempts (Retry d)).

(** The tasks that are started. *)
Inductive Task :=
  | ReplicatorRun (cfg : Config)
  | WorkerRun (w : WorkerConfig)
  | MonitorRun (path : string) (interval : duration) (address : string).

Definition tasks_of (cfg : Config) (sinks : gmap string Sink) : list Task :=
  [ReplicatorRun cfg] ++
  (if (0 <? size sinks)%nat then [WorkerRun (worker_of cfg sinks)] else []) ++
  (if negb (Listen (Monitoring cfg) =? "")%string
   then [MonitorRun (Path (SpoolSection cfg)) (SampleInterval (Monitoring cfg)) (Listen (Monitoring cfg))]
   else []).

(** [Run]: everything before the tasks start, and the tasks. *)
Definition startup (out : Outside) (file : OpenFile) (cfg : Config) : M DB (list Task) :=
  Open file (Path (SpoolSection cfg));;
  match build_sinks out (RequestTimeout (DeliverySection cfg)) (Sinks (DeliverySection cfg)) ∅ [] with
  | inl e => fail e
  | inr (sinks, registrations) =>
      ConfigureSinks registrations;;
      mret (tasks_of cfg sinks)
  end.

(** ** What the sinks built are *)

Section Sinks_built.
Context (out : Outside) (timeout : duration).

(** The registration of a configured sink. *)
Definition reg_of (c : SinkConfig) : SinkRegistration :=
  MkReg (sk_Name c) (sk_Type c)
    (Sum256 (if (sk_Type c =? "webhook")%string then sk_Type c +:+ NUL +:+ sk_URL c else "stdout")).

Lemma build_sinks_spec configs sinks regs sinks' regs' :
  Forall (λ c, sk_Type c = "webhook" ∨ sk_Type c = "stdout") configs →
  build_sinks out timeout configs sinks regs = inr (sinks', regs') →
  regs' = regs ++ map reg_of configs ∧
  (∀ name, is_Some (sinks' !! name) ↔ is_Some (sinks !! name) ∨ name ∈ map sk_Name configs) ∧
  ((∀ name s, sinks !! name = Some s → ∀ n item, is_Some (s n item)) →
   ∀ name s, sinks' !! name = Some s → ∀ n item, is_Some (s n item)).
Proof.
  revert sinks regs. induction configs as [|c configs IH]; intros sinks regs Hty; simpl.
  - intros [= <- <-]. rewrite app_nil_r. split; [done|]. split; [|done]. intros name. split; [auto|].
    intros [?|H]; [done | by apply not_elem_of_nil in H].
  - apply Forall_cons in Hty as [Hc Hty].
    assert (∀ sink, (∀ n item, is_Some (sink n item)) →
      build_sinks out timeout configs (<[sk_Name c := sink]> sinks) (regs ++ [reg_of c]) =
        inr (sinks', regs') →
      regs' = regs ++ reg_of c :: map reg_of configs ∧
      (∀ name, is_Some (sinks' !! name) ↔ is_Some (sinks !! name) ∨ name ∈ sk_Name c :: map sk_Name configs) ∧
      ((∀ name s, sinks !! name = Some s → ∀ n item, is_Some (s n item)) →
       ∀ name s, sinks' !! name = Some s → ∀ n item, is_Some (s n item))) as Hstep.
    { intros sink Hs E. destruct (IH _ _ Hty E) as (-> & H1 & H2). split; [by rewrite <- app_assoc|].
      split.
      - intros name. rewrite H1, elem_of_cons, lookup_insert_is_Some'.
        split; intros [H|H]; [destruct H as [H|H] | | | destruct H as [H|H]]; auto.
      - intros H. apply H2. intros name s. rewrite lookup_insert_Some.
        intros [[_ <-]|[_ ?]]; [done|]. by eapply H. }
    destruct Hc as [Ec|Ec].
    + unfold NewWebhookSender, NewWebhookSenderWithHooks. rewrite Ec. simpl.
      destruct (optionalSecret _ _); [done|]. destruct (_ || _); [done|].
      destruct (optionalSecret _ _); [done|]. intros E. eapply Hstep; [|unfold reg_of; rewrite Ec; exact E].
      intros n item. unfold webhook_sink, Send. simpl. destruct (negb _); by eexists.
    + rewrite Ec. simpl. intros E. eapply Hstep; [|unfold reg_of; rewrite Ec; exact E].
      intros n item. by eexists.
Qed.

End Sinks_built.

(** ** [runTogether]

    The tasks run concurrently, as long as they like, and each sends its
    result to a channel with room for all; the loop waits for as many results
    as there are tasks.  What a task does is a parameter: in state [s], seeing
    a context that is cancelled or not, it may [work] on to another state or
    [returns] a result; a task may also do neither and wait. *)

Section Together.
Context {S : Type} (work : bool → S → S → Prop) (returns : bool → S → option error → Prop).

Record Together := MkTogether {
  tg_running : list S;
  tg_results : list (option error);
  tg_parent : bool;
  tg_cancelled : bool;
  tg_received : list (option error);
  tg_firstError : option error;
}.

(** [runCtx] is done when the parent is, or after [cancel]. *)
Definition runCtx_done (t : Together) : bool := tg_parent t || tg_cancelled t.

(** [if firstError == nil && err != nil { firstError = err }]. *)
Definition keep_first (firstError err : option error) : option error :=
  match firstError, err with
  | None, Some e => Some e
  | _, _ => firstError
  end.

(** All tasks started, nothing received. *)
Definition together_start (tasks : list S) : Together := MkTogether tasks [] false false [] None.

Inductive together_step : Together → Together → Prop :=
  | parent_cancelled running results cancelled received first :
      together_step (MkTogether running results false cancelled received first)
        (MkTogether running results true cancelled received first)
  | task_works l1 s s' l2 results parent cancelled received first :
      work (parent || cancelled) s s' →
      together_step (MkTogether (l1 ++ s :: l2) results parent cancelled received first)
        (MkTogether (l1 ++ s' :: l2) results parent cancelled received first)
  | task_returns l1 s l2 results parent cancelled received first err :
      returns (parent || cancelled) s err →
      together_step (MkTogether (l1 ++ s :: l2) results parent cancelled received first)
        (MkTogether (l1 ++ l2) (results ++ [err]) parent cancelled received first)
  | receive_result running err results parent cancelled received first :
      together_step (MkTogether running (err :: results) parent cancelled received first)
        (MkTogether running results parent true (received ++ [err]) (keep_first first err)).

(** The loop over [n] tasks is over; [runTogether] returns [firstError]. *)
Definition together_returns (n : nat) (t : Together) (e : option error) : Prop :=
  length (tg_received t) = n ∧ tg_firstError t = e.

End Together.

Arguments MkTogether {S} _ _ _ _ _ _.
Arguments tg_running {S} _.
Arguments tg_results {S} _.
Arguments tg_parent {S} _.
Arguments tg_cancelled {S} _.
Arguments tg_received {S} _.
Arguments tg_firstError {S} _.
