(* ===== verification/AppProps.v ===== *)
(** * AppProps: starting and stopping

    After start-up every active sink has a sender and the worker runs with
    limits it can live with; the spool is closed only after every task has
    returned. *)

From S2P Require Import Prelude Rows Text Timestamp Sha256 Runtime Schema SchemaFacts Store.
From S2P Require Import Sinks SinkFacts Deliveries DeliveryFacts DeliveryInterface Prune Migrate.
From S2P Require Import DiskGuard Config Io Replicator Worker WorkerProps Webhook CatchUp App.

(** ** Start-up *)

Lemma reg_of_typed c : reg_typed (reg_of c).
Proof. apply length_Sum256. Qed.

Lemma map_reg_names configs : reg_names (map reg_of configs) = map sk_Name configs.
Proof. unfold reg_names. rewrite map_map. by apply map_ext. Qed.

(** The text whose digest identifies the target of a sink. *)
Definition target_text (c : SinkConfig) : string :=
  if decide (sk_Type c = "webhook") then "webhook" +:+ NUL +:+ sk_URL c else "stdout".

(** The spool is open, current and sound; every configured sink has an active
    row with its type and target, and every active row is a configured sink. *)
Record started (cfg : Config) (db : DB) : Prop := {
  su_version : at_version currentSchemaVersion db;
  su_ok : sqlite_ok db;
  su_registered : ∀ c, c ∈ Sinks (DeliverySection cfg) → ∃ s, s ∈ delivery_sinks db ∧
    s_name s = sk_Name c ∧ s_type s = sk_Type c ∧ s_sha256 s = Sum256 (target_text c) ∧ s_active s = true;
  su_active : ∀ s, s ∈ delivery_sinks db →
    (s_active s = true ↔ s_name s ∈ map sk_Name (Sinks (DeliverySection cfg)));
}.

(** The file system refuses the spool. *)
Definition open_refused (file : OpenFile) (path : string) : Prop :=
  path = "" ∨ of_mkdir file = false ∨ of_chmod file = false ∨ of_lstat file = Symlink ∨
  of_lstat file = LstatError.

(** Why start-up stops. *)
Definition start_refused (out : Outside) (file : OpenFile) (cfg : Config) (env : Env) (db : DB) (e : error) : Prop :=
  faulty env ∨ open_refused file (Path (SpoolSection cfg)) ∨
  (∃ e', build_sinks out (RequestTimeout (DeliverySection cfg)) (Sinks (DeliverySection cfg)) ∅ [] = inl e') ∨
  ∃ db', same_data db db' ∧ configure_refused (map reg_of (Sinks (DeliverySection cfg))) db' e.

Lemma reg_of_target c : sr_ConfigSHA256 (reg_of c) = Sum256 (target_text c).
Proof.
  unfold reg_of, target_text. simpl. destruct (sk_Type c =? "webhook")%string eqn:E.
  - apply String.eqb_eq in E. by rewrite decide_True, E.
  - apply String.eqb_neq in E. by rewrite decide_False.
Qed.

(** A configured sink is registered and active. *)
Lemma configured_active configs db0 db c :
  sinks_configured (map reg_of configs) db0 db → c ∈ configs →
  ∃ s, s ∈ delivery_sinks db ∧ s_name s = sk_Name c ∧ s_type s = sk_Type c ∧
    s_sha256 s = Sum256 (target_text c) ∧ s_active s = true.
Proof.
  intros Hc Hin. destruct (sc_registered _ _ _ Hc (reg_of c)) as (s & Hs & H1 & H2 & H3).
  { apply list_elem_of_fmap. by exists c. }
  exists s. split; [done|]. split; [done|]. split; [done|]. split; [by rewrite H3, reg_of_target|].
  apply (sc_active _ _ _ Hc s Hs). rewrite H1, map_reg_names. apply list_elem_of_fmap. by exists c.
Qed.

Lemma startup_wp out file cfg env (w : World DB) v url_Parse ParseAddrPort :
  config_valid url_Parse ParseAddrPort cfg → txn w = None →
  at_version v (disk w) → db_wf (disk w) → db_covered (disk w) →
  wp (startup out file cfg) env w (λ o w',
    sqlite_ok (disk w') ∧ events (disk w') = events (disk w) ∧ match o with
    | Ok tasks => started cfg (disk w') ∧ ∃ sinks regs,
        build_sinks out (RequestTimeout (DeliverySection cfg)) (Sinks (DeliverySection cfg)) ∅ [] =
          inr (sinks, regs) ∧ tasks = tasks_of cfg sinks
    | Fail e => start_refused out file cfg env (disk w) e
    | Crash => False
    end).
Proof.
  intros Hcfg Ht Hv Hwf Hcov. unfold startup, Open. wp_step.
  eapply wp_mono; [by apply (OpenWithHooks_wp _ _ _ _ _ v)|].
  intros o w1 (Ht1 & ((v' & _ & Hv' & Hs) & Hwf1 & Hcov1) & Ho).
  assert (events (disk w1) = events (disk w)) as He by apply Hs.
  destruct o as [h|e|]; [| |done].
  2: { split; [done|]. split; [done|]. destruct Ho as [?|?]; [by left | by right; left]. }
  destruct Ho as [_ Hcur].
  destruct (build_sinks _ _ _ _ _) as [e|[sinks regs]] eqn:Eb.
  { wp_step. split; [done|]. split; [done|]. right; right; left. by exists e. }
  assert (Forall (λ c, sk_Type c = "webhook" ∨ sk_Type c = "stdout") (Sinks (DeliverySection cfg))) as Hty.
  { eapply Forall_impl; [apply (cv_sinks _ _ _ Hcfg)|]. intros c Hc. apply Hc. }
  destruct (build_sinks_spec _ _ _ _ _ _ _ Hty Eb) as (Er & _). simpl in Er. subst regs.
  wp_step. eapply wp_mono; [apply ConfigureSinks_wp; [done|done|]|].
  { apply Forall_forall. intros r (c & -> & _)%list_elem_of_fmap. apply reg_of_typed. }
  intros o w2 Hp. destruct o as [u|e|]; [| |done].
  - destruct Hp as (Ht2 & Hc & _). wp_step. split; [by destruct Hc|].
    split; [by rewrite (proj1 (sc_rest _ _ _ Hc))|]. split.
    + split; [|by destruct Hc|by intros c Hin; eapply configured_active|].
      * destruct Hcur as [Hr Hh _ _ _], (sc_rest _ _ _ Hc) as (_ & _ & _ & Em).
        split; [done | by rewrite Em | unfold currentSchemaVersion; lia..].
      * intros s Hin. rewrite <- map_reg_names. by apply (sc_active _ _ _ Hc).
    + eauto.
  - destruct Hp as (Ht2 & [[Hd Hr]|[Hc Hf]]).
    + rewrite Hd. split; [done|]. split; [done|].
      destruct Hr as [?|Hr]; [by left|]. right; right; right. by exists (disk w1).
    + split; [by destruct Hc|]. split; [by rewrite (proj1 (sc_rest _ _ _ Hc)) | by left].
Qed.

(** A worker is among the tasks exactly when a sink is configured. *)
Lemma worker_started cfg (sinks : gmap string Sink) (configs : list SinkConfig) :
  (∀ name, is_Some (sinks !! name) ↔ is_Some ((∅ : gmap string Sink) !! name) ∨ name ∈ map sk_Name configs) →
  configs ≠ [] ↔ ∃ wk, WorkerRun wk ∈ tasks_of cfg sinks.
Proof.
  intros Hdom. unfold tasks_of. split.
  - intros Hne. exists (worker_of cfg sinks). apply elem_of_app. right. apply elem_of_app. left.
    destruct configs as [|c configs]; [done|].
    destruct (proj2 (Hdom (sk_Name c)) ltac:(right; left)) as [x Hx].
    destruct (0 <? size sinks)%nat eqn:Es; [left|]. exfalso. apply Nat.ltb_ge in Es.
    assert (sinks = ∅) as -> by (apply map_size_empty_inv; lia). by rewrite lookup_empty in Hx.
  - intros (wk & Hin) ->. assert (sinks = ∅) as ->.
    { apply map_empty. intros name. apply eq_None_not_Some. rewrite Hdom, lookup_empty.
      intros [[? ?]|H]; [done | by apply not_elem_of_nil in H]. }
    simpl in Hin. rewrite elem_of_cons in Hin. destruct Hin as [Hin|Hin]; [done|].
    destruct (negb _); [by apply list_elem_of_singleton in Hin | by apply not_elem_of_nil in Hin].
Qed.

(** C15. Start-up with a validated configuration, from a spool at any schema
    version: when it succeeds the spool is current and sound, every
    configured sink has an active row with its type and the digest of its
    target, no other row is active, capture is started with the whole
    configuration, a worker exactly when a sink is configured, and each worker
    started has a sender that answers for every active sink and limits within
    the ranges that the retry and budget theorems ask for; whether it succeeds
    or not, every event is kept. *)
Theorem startup_ready url_Parse ParseAddrPort c cfg out file env (w : World DB) v :
  setDefaultsAndValidate url_Parse ParseAddrPort c = inr cfg → txn w = None →
  at_version v (disk w) → db_wf (disk w) → db_covered (disk w) →
  let w' := (startup out file cfg env w).2 in
  sqlite_ok (disk w') ∧ events (disk w') = events (disk w) ∧
  ∀ tasks, (startup out file cfg env w).1 = Ok tasks →
    started cfg (disk w') ∧ ReplicatorRun cfg ∈ tasks ∧
    (Sinks (DeliverySection cfg) ≠ [] ↔ ∃ wk, WorkerRun wk ∈ tasks) ∧
    ∀ wk, WorkerRun wk ∈ tasks →
      sinks_answer wk (disk w') ∧ 1 <= wk_maxAttempts wk < maxInt64 ∧
      0 < wk_initialDelay wk ∧ 0 < wk_maxDelay wk < 2 ^ 63.
Proof.
  intros Hc Ht Hv Hwf Hcov. apply validated_config in Hc.
  pose proof (startup_wp out file cfg env w v url_Parse ParseAddrPort Hc Ht Hv Hwf Hcov) as H. apply wp_elim in H.
  cbv zeta. destruct H as (H1 & H2 & H3). split; [done|]. split; [done|]. intros tasks E. rewrite E in H3.
  destruct H3 as (Hst & sinks & regs & Eb & ->). split; [done|].
  assert (Forall (λ c, sk_Type c = "webhook" ∨ sk_Type c = "stdout") (Sinks (DeliverySection cfg))) as Hty.
  { eapply Forall_impl; [apply (cv_sinks _ _ _ Hc)|]. intros x Hx. apply Hx. }
  destruct (build_sinks_spec _ _ _ _ _ _ _ Hty Eb) as (_ & Hdom & Hans). split; [by left|].
  split; [by apply worker_started|].
  intros wk Hin. assert (wk = worker_of cfg sinks) as ->.
    { unfold tasks_of in Hin. rewrite !elem_of_app in Hin. destruct Hin as [Hin|[Hin|Hin]].
      - by apply list_elem_of_singleton in Hin.
      - destruct (0 <? size sinks)%nat; [|by apply not_elem_of_nil in Hin].
        apply list_elem_of_singleton in Hin. by injection Hin.
      - destruct (negb _); [by apply list_elem_of_singleton in Hin | by apply not_elem_of_nil in Hin]. }
    pose proof (cv_delays _ _ _ Hc). pose proof (cv_attempts _ _ _ Hc).
    pose proof (proj2 (cv_initial _ _ _ Hc)). pose proof (proj2 (cv_max _ _ _ Hc)).
    unfold Millisecond, Hour, Minute, Second in *. split.
    + intros s Hs Ha. apply (su_active _ _ Hst s Hs) in Ha.
      destruct (proj2 (Hdom (s_name s)) ltac:(by right)) as [x Hx]. exists x. split; [done|].
      apply (Hans ltac:(intros name y; by rewrite lookup_empty) _ _ Hx).
    + unfold maxInt64. simpl. lia.
Qed.

(** ** Stopping *)

Fixpoint first_error (l : list (option error)) : option error :=
  match l with
  | [] => None
  | Some e :: _ => Some e
  | None :: l' => first_error l'
  end.

Lemma first_error_snoc l x : first_error (l ++ [x]) = keep_first (first_error l) x.
Proof. induction l as [|[e|] l IH]; simpl; [by destruct x | by destruct x | done]. Qed.

Lemma first_error_none l : first_error l = None ↔ ∀ x, x ∈ l → x = None.
Proof.
  induction l as [|[x|] l IH]; simpl.
  - split; [|done]. intros _ x Hx. by apply not_elem_of_nil in Hx.
  - split; [done|]. intros Hx. by specialize (Hx (Some x) ltac:(left)).
  - rewrite IH. split; intros Hx y; [intros [->|Hy]%elem_of_cons; auto|]. intros Hy. apply Hx. by right.
Qed.

Section Together.
Context {S : Type} (work : bool → S → S → Prop) (returns : bool → S → option error → Prop).

(** The invariant of a group of [n] tasks. *)
Record together_inv (n : nat) (t : Together (S := S)) : Prop := {
  ti_count : (length (tg_running t) + length (tg_results t) + length (tg_received t) = n)%nat;
  ti_first : tg_firstError t = first_error (tg_received t);
  ti_cancel : tg_cancelled t = true ↔ tg_received t ≠ [];
}.

Lemma together_step_inv n t t' : together_step work returns t t' → together_inv n t → together_inv n t'.
Proof.
  intros Hs [H1 H2 H3]. destruct Hs; simpl in *; split; simpl;
    rewrite ?length_app in *; simpl in *; try lia; try done.
  - by rewrite H2, first_error_snoc.
  - split; [|done]. intros _ Hn. by apply app_eq_nil in Hn as [_ ?].
Qed.

Lemma together_steps_inv tasks t :
  rtc (together_step work returns) (together_start tasks) t → together_inv (length tasks) t.
Proof.
  intros H. assert (together_inv (length tasks) (together_start tasks)) as Hi.
  { split; simpl; [lia | done | by split]. }
  revert Hi. generalize (length tasks) as n. intros n.
  induction H as [|x y z Hxy _ IH]; [done|]. intros Hx. by eapply IH, together_step_inv.
Qed.

(** Steps left in a group whose context is done, when a task in state [s] has
    at most [left s] steps of work left. *)
Definition steps_left (left : S → nat) (t : Together (S := S)) : nat :=
  sum_list_with (λ s, 2 + left s)%nat (tg_running t) + length (tg_results t) +
  (if tg_parent t then 0 else 1).

Section Stopping.
Context (left : S → nat) (Hleft : ∀ s s', work true s s' → (left s' < left s)%nat).

Lemma stopping_step t t' :
  together_step work returns t t' → runCtx_done t = true →
  runCtx_done t' = true ∧ (steps_left left t' < steps_left left t)%nat.
Proof.
  intros Hs. unfold runCtx_done, steps_left.
  destruct Hs as [| l1 s s' l2 ? ? ? ? ? Hw | l1 s l2 ? ? ? ? ? ? Hr |]; simpl; intros Hd;
    rewrite ?sum_list_with_app; simpl; rewrite ?length_app; simpl.
  - split; [done | lia].
  - rewrite Hd in Hw. pose proof (Hleft _ _ Hw). split; [done | lia].
  - split; [done | lia].
  - split; [by rewrite orb_true_r | lia].
Qed.

Lemma stopping_nsteps k t t' :
  nsteps (together_step work returns) k t t' → runCtx_done t = true → (k + steps_left left t' <= steps_left left t)%nat.
Proof.
  induction 1 as [|k x y z Hxy _ IH]; intros Hd; [lia|].
  destruct (stopping_step _ _ Hxy Hd) as [Hd' Hlt]. specialize (IH Hd'). lia.
Qed.

End Stopping.

(** Once the context is done the group waits only for tasks that can still do
    something. *)
Lemma stopping_progress n t :
  (∀ s, (∃ s', work true s s') ∨ (∃ err, returns true s err)) →
  together_inv n t → runCtx_done t = true →
  (∃ t', together_step work returns t t') ∨ ∃ e, together_returns n t e.
Proof.
  intros Hlive [H1 _ _] Hd. destruct t as [running [|x results] parent cancelled received first]; simpl in *.
  2: { left. eexists. apply receive_result. }
  destruct running as [|s l]; [right; eexists; split; [simpl in *; lia | done]|]. left.
  destruct (Hlive s) as [[s' Hw]|[err Hr]]; unfold runCtx_done in Hd; simpl in Hd.
  - eexists. apply (task_works _ _ [] s s' l). by rewrite Hd.
  - eexists. apply (task_returns _ _ [] s l _ _ _ _ _ err). by rewrite Hd.
Qed.


End Together.
