(* ===== verification/Cli.v ===== *)
(** * Cli: the commands of writerelayd (cmd/writerelayd, internal/cli, internal/logging)

    A command is a program over the spool's database with a terminal: what
    it has written to standard output, and the PostgreSQL server that setup
    and doctor talk to.  Standard error is left out.  The files, the
    process's environment and the YAML decoder answer through [System]. *)

From S2P Require Import Prelude Rows Text Timestamp TimeParse Duration Sha256 Runtime Spool.
From S2P Require Import Schema SchemaFacts Store Sinks Deliveries Listing Prune Migrate Stats.
From S2P Require Import DiskGuard Config Io Slot Setup Webhook Monitoring Flags Paths Print App.

(** [internal/logging.New]: the handler and its level. *)
Inductive Handler := JSONHandler (level : Z) | TextHandler (level : Z).

Definition logging_New (cfg : LoggingConfig) : result Handler :=
  let handler (level : Z) : result Handler :=
    inr (if (Format cfg =? "json")%string then JSONHandler level else TextHandler level) in
  if (Level cfg =? "debug")%string then handler (-4)
  else if (Level cfg =? "info")%string then handler 0
  else if (Level cfg =? "warn")%string then handler 4
  else if (Level cfg =? "error")%string then handler 8
  else inl (errorf "unsupported log level %q").

(** What [os.Stat] answers. *)
Inductive PathStat := PathMissing | PathError (e : error) | PathInfo (is_dir : bool) (perm : Z).

(** Everything outside the program. *)
Record System := MkSystem {
  sy_config : string → option (result Config);
  sy_url_Parse : string → option URL;
  sy_ParseAddrPort : string → option Z;
  sy_outside : Outside;
  sy_open : string → OpenFile;
  sy_spool : string → SpoolFile;
  sy_stats : string → StatsFiles;
  sy_stat : string → PathStat;
  sy_accepts : nat → bool;
  sy_server_env : Env;
  sy_pg_failure : string → PgFailure;
  sy_database : string;
  sy_retained : string;
  sy_slot_lsn : string;
}.

(** The lines written, how many writes there were, and the server. *)
Record Terminal := MkTerminal {
  tm_out : list string;
  tm_writes : nat;
  tm_server : World PgServer;
}.

Record BuildInfo := MkBuild { bi_Version : string; bi_Commit : string; bi_Date : string }.

Section Cli.
Context {codec : LsnCodec} (sys : System).

Notation Cmd := (P DB Terminal).

(** A write to standard output: whether it was accepted. *)
Definition write_out (text : string) : Cmd bool := λ env w t,
  let ok := sy_accepts sys (tm_writes t) in
  (Ok ok, w, MkTerminal (if ok then tm_out t ++ [text] else tm_out t) (S (tm_writes t)) (tm_server t)).

(** [fmt.Fprintf(stdout, ...)]: the result is ignored. *)
Definition print (text : string) : Cmd unit := write_out text;; mret tt.

(** [encoder.Encode]. *)
Definition encode_line (e : error) (value : option string) : Cmd unit :=
  match value with
  | None => pfail e
  | Some text => ok ← write_out (text +:+ LF); if ok : bool then mret tt else pfail e
  end.

Fixpoint encode_lines {A} (e : error) (line : A → option string) (rows : list A) : Cmd unit :=
  match rows with
  | [] => mret tt
  | row :: rows' => encode_line e (line row);; encode_lines e line rows'
  end.

(** A call to PostgreSQL. *)
Definition on_server {A} (m : M PgServer A) : Cmd A := λ env w t,
  let '(o, s) := m (sy_server_env sys) (tm_server t) in
  (o, w, MkTerminal (tm_out t) (tm_writes t) s).

(** [if cond { return err }]. *)
Definition refuse (b : bool) (m : string) : Cmd unit := if b then pfail (errorf m) else mret tt.

(** [configFlagSet], with the flags of the command. *)
Definition configFlagSet (flags : FlagSet) : FlagSet := <["config" := StringFlag "./writerelay.yaml"]> flags.

(** [fs.Parse(args)] and [fs.NArg() != 0]. *)
Definition parse_flags (flags : FlagSet) (args : list string) (positional : string) : Cmd FlagSet :=
  parsed ← check_result (Parse (configFlagSet flags) args);
  refuse (negb (length parsed.2 =? 0)%nat) positional;;
  mret parsed.1.

(** [config.Load] of the file the flag names. *)
Definition load_config (f : FlagSet) : Cmd Config :=
  check_result (Load (sy_url_Parse sys) (sy_ParseAddrPort sys) (sy_config sys (string_flag "config" f))).

(** ** Commands *)

(** What [flag] reports of the first argument of a set without flags, whose
    output is standard output. *)
Definition version_failure (args : list string) : list string :=
  match args with
  | [] => []
  | s :: _ =>
      match classify_arg s with
      | BadSyntax => ["bad flag syntax: " +:+ s +:+ LF]
      | Flag name _ =>
          if (name =? "help")%string || (name =? "h")%string then []
          else ["flag provided but not defined: -" +:+ name +:+ LF]
      | Positional | Terminator => []
      end
  end.

Fixpoint print_all (texts : list string) : Cmd unit :=
  match texts with
  | [] => mret tt
  | text :: rest => print text;; print_all rest
  end.

Definition versionCommand (args : list string) (build : BuildInfo) : Cmd unit :=
  match Parse ∅ args with
  | inl e => print_all (version_failure args ++ ["Usage of version:" +:+ LF]);; pfail e
  | inr _ =>
      print ("writerelayd " +:+ bi_Version build +:+ " commit=" +:+ bi_Commit build +:+ " built=" +:+
             bi_Date build +:+ LF)
  end.

(** [runCommand], up to the tasks that [app.Run] starts. *)
Definition runCommand (args : list string) : Cmd (list Task) :=
  f ← parse_flags ∅ args "run does not accept positional arguments";
  cfg ← load_config f;
  check_result (logging_New (Logging cfg));;
  lift (startup (sy_outside sys) (sy_open sys (Path (SpoolSection cfg))) cfg).

Definition setupCommand (args : list string) : Cmd unit :=
  f ← parse_flags {["create-slot" := BoolFlag false]} args "setup does not accept positional arguments";
  cfg ← load_config f;
  result ← on_server (Setup (out_LookupEnv (sy_outside sys)) (sy_pg_failure sys) cfg
                        (bool_flag "create-slot" f) (sy_slot_lsn sys));
  print ("setup complete: installed_function=" +:+ show_bool (InstalledFunction result) +:+
         " created_publication=" +:+ show_bool (CreatedPublication result) +:+
         " created_slot=" +:+ show_bool (CreatedSlot result) +:+ LF).

(** ** [doctor] *)

(** [deliveryChecks]. *)
Definition delivery_check (timeout : duration) (sink : SinkConfig) : Check :=
  let pass := MkCheck ("delivery " +:+ sk_Name sink) "pass" "configuration and secret references are valid" in
  if (sk_Type sink =? "webhook")%string then
    match NewWebhookSender (out_LookupEnv (sy_outside sys)) sink timeout with
    | inl e => MkCheck ("delivery " +:+ sk_Name sink) "fail" (msg e)
    | inr _ => pass
    end
  else pass.

Definition deliveryChecks (cfg : Config) : list Check :=
  match Sinks (DeliverySection cfg) with
  | [] => [MkCheck "delivery sinks" "pass" "capture-only mode"]
  | sinks => map (delivery_check (RequestTimeout (DeliverySection cfg))) sinks
  end.

(** The loop of [spoolChecks] over the parent directories. *)
Fixpoint search_parent (fuel : nat) (parent : string) : option Check :=
  match fuel with
  | O => None
  | S fuel' =>
      match sy_stat sys parent with
      | PathInfo is_dir perm =>
          Some (if negb is_dir then MkCheck "spool path" "fail" "parent is not a directory"
                else if Z.land perm 128 =? 0 then MkCheck "spool path" "fail" "parent is not writable"
                else MkCheck "spool path" "pass" "new spool can be created")
      | PathMissing | PathError _ =>
          let next := Dir parent in
          if (next =? parent)%string then Some (MkCheck "spool path" "fail" "no existing parent directory")
          else search_parent fuel' next
      end
  end.

(** Enough for every directory above the path. *)
Definition parent_check (path : string) : list Check :=
  let parent := Dir path in
  match search_parent (S (above parent)) parent with Some c => [c] | None => [] end.

(** [spoolChecks]. *)
Definition spoolChecks (cfg : Config) : Cmd (list Check) :=
  let path := Path (SpoolSection cfg) in
  match sy_stat sys path with
  | PathInfo _ _ =>
      opened ← try (lift (Open (sy_open sys path) path));
      match opened with
      | inl e => mret [MkCheck "spool database" "fail" (msg e)]
      | inr _ =>
          version ← try (lift SchemaVersion);
          match version with
          | inl e => mret [MkCheck "spool schema" "fail" (msg e)]
          | inr v => mret [MkCheck "spool schema" "pass" ("version " +:+ itoa v)]
          end
      end
  | PathError e => mret [MkCheck "spool path" "fail" (msg e)]
  | PathMissing => mret (parent_check path)
  end.

(** ["%-5s %-30s %s\n"]. *)
Definition check_line (c : Check) : string :=
  ck_Status c +:+ spaces (5 - String.length (ck_Status c)) +:+ " " +:+
  ck_Name c +:+ spaces (30 - String.length (ck_Name c)) +:+ " " +:+ ck_Detail c +:+ LF.

Fixpoint print_checks (checks : list Check) : Cmd bool :=
  match checks with
  | [] => mret false
  | c :: rest =>
      print (check_line c);;
      failed ← print_checks rest;
      mret ((ck_Status c =? "fail")%string || failed)
  end.

Definition doctorCommand (args : list string) : Cmd unit :=
  f ← parse_flags ∅ args "doctor does not accept positional arguments";
  cfg ← load_config f;
  checks ← on_server (Doctor (out_LookupEnv (sy_outside sys)) (sy_pg_failure sys) cfg
                        (sy_database sys) (sy_retained sys));
  spool ← spoolChecks cfg;
  failed ← print_checks (checks ++ spool ++ deliveryChecks cfg);
  refuse failed "one or more doctor checks failed".

(** ** [spool] *)

(** [openConfiguredSpool]. *)
Definition openConfiguredSpool (f : FlagSet) : Cmd unit :=
  cfg ← load_config f;
  lift (Open (sy_open sys (Path (SpoolSection cfg))) (Path (SpoolSection cfg)));;
  mret tt.

Definition list_flags : FlagSet := {["limit" := IntFlag 20]}.

Definition spoolListCommand (args : list string) : Cmd unit :=
  f ← parse_flags list_flags args "spool list does not accept positional arguments";
  openConfiguredSpool f;;
  rows ← lift (ListEvents (int_flag "limit" f));
  encode_lines (errorf "write spool row: %w") event_line rows.

Definition spoolDeliveriesCommand (args : list string) : Cmd unit :=
  f ← parse_flags (<["limit" := IntFlag 20]> {["state" := StringFlag ""]}) args
        "spool deliveries does not accept positional arguments";
  openConfiguredSpool f;;
  rows ← lift (ListDeliveries (string_flag "state" f) (int_flag "limit" f));
  encode_lines (errorf "write delivery row: %w") delivery_line rows.

Definition redrive_flags : FlagSet :=
  <["sink" := StringFlag ""]> (<["source" := StringFlag ""]> {["id" := StringFlag ""]}).

(** ["%q"] of a name, for the confirmation. *)
Definition spoolRedriveCommand (quote : string → string) (args : list string) : Cmd unit :=
  f ← parse_flags redrive_flags args "spool redrive does not accept positional arguments";
  let sink := string_flag "sink" f in
  let source := string_flag "source" f in
  let id := string_flag "id" f in
  refuse ((sink =? "")%string || (source =? "")%string || (id =? "")%string)
    "spool redrive requires --sink, --source, and --id";;
  openConfiguredSpool f;;
  at_ ← lift now;
  lift (RedriveDelivery sink source id at_);;
  print ("redrive scheduled for sink=" +:+ quote sink +:+ " source=" +:+ quote source +:+
         " id=" +:+ quote id +:+ LF).

Definition prune_flags : FlagSet :=
  <["before" := StringFlag ""]> (<["limit" := IntFlag 1000]> {["dry-run" := BoolFlag false]}).

Definition spoolPruneCommand (args : list string) : Cmd unit :=
  f ← parse_flags prune_flags args "spool prune does not accept positional arguments";
  match parse_time (string_flag "before" f) with
  | None => pfail (errorf "spool prune requires --before with an RFC 3339 timestamp")
  | Some cutoff =>
      cfg ← load_config f;
      let dryRun := bool_flag "dry-run" f in
      let path := Path (SpoolSection cfg) in
      result ← lift (Prune (sy_spool sys path) path (MkPruneOptions cutoff (int_flag "limit" f) dryRun));
      encode_line (errorf (if dryRun then "write prune preview: %w"
        else "write prune result (cleanup already committed; rerun dry-run to inspect): %w"))
        (prune_json result)
  end.

(** [writeStatsSummary]: one write. *)
Definition writeStatsSummary (stats : Stats) : Cmd unit :=
  ok ← write_out (stats_summary stats);
  if ok : bool then mret tt else pfail (errorf "write spool stats: %w").

Definition spoolStatsCommand (args : list string) : Cmd unit :=
  f ← parse_flags {["json" := BoolFlag false]} args "spool stats does not accept positional arguments";
  cfg ← load_config f;
  let path := Path (SpoolSection cfg) in
  stats ← lift (ReadStats (sy_stats sys path) path);
  if bool_flag "json" f then encode_line (errorf "write spool stats: %w") (stats_json stats)
  else writeStatsSummary stats.

Definition spoolCommand (quote : string → string) (args : list string) : Cmd unit :=
  match args with
  | [] => pfail (errorf "usage: writerelayd spool <stats|list|deliveries|redrive|prune> [options]")
  | name :: rest =>
      if (name =? "prune")%string then spoolPruneCommand rest
      else if (name =? "stats")%string then spoolStatsCommand rest
      else if (name =? "list")%string then spoolListCommand rest
      else if (name =? "deliveries")%string then spoolDeliveriesCommand rest
      else if (name =? "redrive")%string then spoolRedriveCommand quote rest
      else pfail (errorf "unknown spool command %q")
  end.

Definition usage : string :=
  "usage: writerelayd <command> [options]" +:+ LF +:+ LF +:+ "commands:" +:+ LF +:+
  "  run       capture committed events and run configured delivery sinks" +:+ LF +:+
  "  doctor    inspect configuration and dependencies" +:+ LF +:+
  "  setup     install database objects and optionally create a slot" +:+ LF +:+
  "  spool     summarize (stats), inspect, redrive, or prune delivered payloads" +:+ LF +:+
  "  version   print build version" +:+ LF.

(** [Execute]: the tasks left running, none for the other commands. *)
Definition Execute (quote : string → string) (build : BuildInfo) (args : list string) : Cmd (list Task) :=
  match args with
  | [] => pfail (errorf "command is required")
  | name :: rest =>
      if (name =? "version")%string then versionCommand rest build;; mret []
      else if (name =? "run")%string then runCommand rest
      else if (name =? "doctor")%string then doctorCommand rest;; mret []
      else if (name =? "setup")%string then setupCommand rest;; mret []
      else if (name =? "spool")%string then spoolCommand quote rest;; mret []
      else if (name =? "help")%string || (name =? "-h")%string || (name =? "--help")%string
      then print usage;; mret []
      else pfail (errorf "unknown command %q")
  end.

(** [main]: the exit status; 2 is the Go runtime's after a panic. *)
Definition exit_status {A} (o : outcome A) : Z := match o with Ok _ => 0 | Fail _ => 1 | Crash => 2 end.

End Cli.
