(* ===== verification/CliProps.v ===== *)
(** * CliProps: what the commands promise

    Inspecting changes nothing; the search for a parent directory ends; and
    a clean doctor means that the daemon can start. *)

From S2P Require Import Prelude Rows Text Timestamp TimeParse Duration Sha256 Runtime Keeps Spool.
From S2P Require Import Schema SchemaFacts Store Sinks SinkFacts Deliveries Listing ListingProps Prune PruneProps Migrate Stats.
From S2P Require Import SpoolInterface DeliveryFacts DeliveryInterface.
From S2P Require Import DiskGuard Config Io Slot Setup SetupProps Webhook Monitoring Flags Paths Print PrintProps App AppProps Cli.

(** ** Reading operations *)

(** The operation leaves the file as it is, however it ends. *)
Definition reads {D A} (m : M D A) : Prop := ∀ db, Keeps (λ d, d = db) (λ _, True) m.

Lemma reads_disk {D A} (m : M D A) env w : reads m → txn w = None → disk (m env w).2 = disk w.
Proof. intros Hm Ht. apply (Hm (disk w)); [done|]. split; [done|]. by rewrite Ht. Qed.

Lemma respects_read_version db : Respects (λ d, d = db) read_version.
Proof. intros n d d' a. unfold read_version. destruct (schema_migrations d); [done|]. by intros [= <- _]. Qed.

Lemma ListEvents_reads limit : reads (ListEvents limit).
Proof. intros db. unfold ListEvents, scan_event, checked. keeps_tac. Qed.

Lemma ListDeliveries_reads state limit : reads (ListDeliveries state limit).
Proof. intros db. unfold ListDeliveries, scan_delivery, checked. keeps_tac. Qed.

Lemma SchemaVersion_reads : reads SchemaVersion.
Proof. intros db. unfold SchemaVersion. keeps_tac. apply respects_read_version. Qed.

Lemma SchemaVersion_wp env (w : World DB) v (Q : outcome Z → World DB → Prop) :
  txn w = None → at_version v (disk w) →
  (∀ w' e, txn w' = None → disk w' = disk w → faulty env ∨ v = 0 → Q (Fail e) w') →
  (∀ w', txn w' = None → disk w' = disk w → Q (Ok v) w') → wp SchemaVersion env w Q.
Proof.
  intros Ht Hv Hf Hok. unfold SchemaVersion.
  assert (∀ n db' a, read_version n (disk w) = inr (db', a) → db' = disk w ∧ a = v) as Hr.
  { intros n db' a. unfold read_version. destruct (schema_migrations (disk w)); [done|].
    intros [= <- <-]. split; [done|]. by apply at_version_max. }
  assert (∀ n m, read_version n (disk w) = inl m → v = 0) as Hm.
  { intros n m. unfold read_version. destruct (schema_migrations (disk w)) eqn:E; [|done]. intros _.
    pose proof (av_range _ _ Hv). rewrite (av_history _ _ Hv) in E. apply (f_equal length) in E.
    rewrite length_map, length_seq in E. simpl in E. lia. }
  eapply wp_run_auto; [done|..].
  - intros n k [?|[m Hx]]; apply Hf; simpl; auto. right. by eapply Hm.
  - intros n db' a k Hx E. apply Hf; simpl; [done | by apply (Hr n db' a) | auto].
  - intros n db' a k E. destruct (Hr n db' a E) as [-> ->]. by apply Hok.
Qed.

Lemma ReadStats_reads {codec : LsnCodec} files path : reads (ReadStats files path).
Proof.
  intros db. unfold ReadStats, readStatsSnapshot, scan_sink, lastDurableLSNTx, checked. 
  keeps_tac; try apply respects_read_version.
Qed.

Lemma Doctor_reads {codec : LsnCodec} lookup failure cfg configured retained :
  reads (Doctor lookup failure cfg configured retained).
Proof. intros db. unfold Doctor, lift_result, read_slot. keeps_tac; unfold lift_result; keeps_tac. Qed.

Section Commands.
Context {codec : LsnCodec} (sys : System).

Notation Cmd := (P DB Terminal).

(** ** Steps of a command *)

(** Writing changes the terminal's output only. *)
Lemma pwp_write text env w t (Q : outcome bool → World DB → Terminal → Prop) :
  (∀ ok t', tm_server t' = tm_server t →
     (ok = true → sy_accepts sys (tm_writes t) = true ∧ tm_out t' = tm_out t ++ [text] ∧ tm_writes t' = S (tm_writes t)) →
     (ok = false → sy_accepts sys (tm_writes t) = false) → Q (Ok ok) w t') →
  pwp (write_out sys text) env w t Q.
Proof.
  intros H. eapply pwp_intro; [reflexivity|]. apply H; [done|..];
    destruct (sy_accepts sys (tm_writes t)); done.
Qed.

Lemma pwp_print text env w t (Q : outcome unit → World DB → Terminal → Prop) :
  (∀ t', tm_server t' = tm_server t → Q (Ok tt) w t') → pwp (print sys text) env w t Q.
Proof. intros H. unfold print. pwp_step. apply pwp_write. intros ok t' E _ _. pwp_step. by apply H. Qed.

Lemma pwp_print_all texts env w t (Q : outcome unit → World DB → Terminal → Prop) :
  (∀ t', tm_server t' = tm_server t → Q (Ok tt) w t') → pwp (print_all sys texts) env w t Q.
Proof.
  revert t. induction texts as [|text texts IH]; intros t H; cbn [print_all]; [pwp_step; by apply H|].
  pwp_step. apply pwp_print. intros t1 E1. apply IH. intros t2 E2. apply H. congruence.
Qed.

Lemma pwp_encode_line e value env w t (Q : outcome unit → World DB → Terminal → Prop) :
  (∀ o t', tm_server t' = tm_server t → Q o w t') → pwp (encode_line sys e value) env w t Q.
Proof.
  intros H. unfold encode_line. destruct value as [text|]; [|pwp_step; by apply H].
  pwp_step. apply pwp_write. intros ok t' E _ _. destruct ok; pwp_step; by apply H.
Qed.

Lemma pwp_encode_lines {A} e (line : A → option string) rows env w t (Q : outcome unit → World DB → Terminal → Prop) :
  (∀ o t', tm_server t' = tm_server t → Q o w t') → pwp (encode_lines sys e line rows) env w t Q.
Proof.
  revert t. induction rows as [|row rows IH]; intros t H; cbn [encode_lines]; [pwp_step; by apply H|].
  pwp_step. apply pwp_encode_line. intros o t' E. destruct o; [|by apply H..].
  apply IH. intros o t2 E2. apply H. congruence.
Qed.

Lemma pwp_on_server {A} (m : M PgServer A) env w t (Q : outcome A → World DB → Terminal → Prop) :
  wp m (sy_server_env sys) (tm_server t) (λ o s, Q o w (MkTerminal (tm_out t) (tm_writes t) s)) →
  pwp (on_server sys m) env w t Q.
Proof.
  intros H. apply wp_elim in H. destruct (m (sy_server_env sys) (tm_server t)) as [o s] eqn:E.
  eapply pwp_intro; [unfold on_server; by rewrite E | done].
Qed.

Lemma pwp_refuse b m env w t (Q : outcome unit → World DB → Terminal → Prop) :
  (b = true → Q (Fail (errorf m)) w t) → (b = false → Q (Ok tt) w t) → pwp (refuse b m) env w t Q.
Proof. intros H1 H2. unfold refuse. destruct b; pwp_step; auto. Qed.

Lemma pwp_parse flags args m env w t (Q : outcome FlagSet → World DB → Terminal → Prop) :
  (∀ e, Q (Fail e) w t) → (∀ f, Parse (configFlagSet flags) args = inr (f, []) → Q (Ok f) w t) →
  pwp (parse_flags flags args m) env w t Q.
Proof.
  intros Hf Hok. unfold parse_flags. pwp_step. pwp_step; [auto|]. intros [f rest] E. pwp_step.
  apply pwp_refuse; [auto|]. simpl. intros Hr. pwp_step. apply Hok. rewrite E.
  by destruct rest.
Qed.

(** The configuration that a command line names. *)
Definition loaded (f : FlagSet) (cfg : Config) : Prop :=
  Load (sy_url_Parse sys) (sy_ParseAddrPort sys) (sy_config sys (string_flag "config" f)) = inr cfg.

Lemma pwp_load f env w t (Q : outcome Config → World DB → Terminal → Prop) :
  (∀ e, Q (Fail e) w t) → (∀ cfg, loaded f cfg → Q (Ok cfg) w t) → pwp (load_config sys f) env w t Q.
Proof. intros Hf Hok. unfold load_config. pwp_step; auto. Qed.

Lemma pwp_read {A} (m : M DB A) env w t (Q : outcome A → World DB → Terminal → Prop) :
  reads m → txn w = None → (∀ o w', disk w' = disk w → Q o w' t) → pwp (lift m) env w t Q.
Proof. intros Hm Ht H. pwp_step. apply wp_intro, H. by apply reads_disk. Qed.

(** ** Inspecting changes nothing *)

Section Frame.
Context (v : Z) (db0 : DB) (s0 : PgServer).

(** The rows are those of [db0], perhaps under a newer schema; the server
    is as before. *)
Definition framed {A} (_ : outcome A) (w : World DB) (t : Terminal) : Prop :=
  upgraded v db0 (disk w) ∧ disk (tm_server t) = s0.

Context (env : Env) (w : World DB) (t : Terminal).
Context (Ht : txn w = None) (Hv : at_version v (disk w)) (Hwf : db_wf (disk w)) (Hcov : db_covered (disk w)).
Context (E0 : disk w = db0) (Es : disk (tm_server t) = s0).

Lemma framed_start {A} (o : outcome A) t' : tm_server t' = tm_server t → framed o w t'.
Proof.
  intros E. split; [|by rewrite E]. rewrite <- E0. exists v. split; [lia|]. split; [done | apply same_data_refl].
Qed.

Lemma pwp_open f (Q : outcome unit → World DB → Terminal → Prop) :
  (∀ e w', upgraded v db0 (disk w') → Q (Fail e) w' t) →
  (∀ w', txn w' = None → upgraded v db0 (disk w') → Q (Ok tt) w' t) →
  pwp (openConfiguredSpool sys f) env w t Q.
Proof.
  intros Hf Hok. assert (upgraded v db0 (disk w)) as Hu by apply (framed_start (Ok tt) t eq_refl).
  unfold openConfiguredSpool. pwp_step. apply pwp_load; [intros; by apply Hf|]. intros cfg _.
  pwp_step. pwp_step. eapply wp_mono; [by apply (OpenWithHooks_wp _ _ _ _ _ v)|].
  intros o w' (Ht' & (Hu' & _) & Ho). rewrite E0 in Hu'. destruct o; [pwp_step; auto | auto | done].
Qed.

Lemma list_framed args : pwp (spoolListCommand sys args) env w t framed.
Proof.
  unfold spoolListCommand. pwp_step. apply pwp_parse; [intros; by apply framed_start|]. intros f _.
  pwp_step. apply pwp_open; [by intros|]. intros w' Ht' Hu. pwp_step.
  apply pwp_read; [apply ListEvents_reads | done|]. intros o w2 E.
  destruct o; [|by split; [rewrite E|]..]. apply pwp_encode_lines. intros o t' Et.
  split; [by rewrite E | by rewrite Et].
Qed.

Lemma deliveries_framed args : pwp (spoolDeliveriesCommand sys args) env w t framed.
Proof.
  unfold spoolDeliveriesCommand. pwp_step. apply pwp_parse; [intros; by apply framed_start|]. intros f _.
  pwp_step. apply pwp_open; [by intros|]. intros w' Ht' Hu. pwp_step.
  apply pwp_read; [apply ListDeliveries_reads | done|]. intros o w2 E.
  destruct o; [|by split; [rewrite E|]..]. apply pwp_encode_lines. intros o t' Et.
  split; [by rewrite E | by rewrite Et].
Qed.

Lemma stats_framed args : pwp (spoolStatsCommand sys args) env w t framed.
Proof.
  unfold spoolStatsCommand. pwp_step. apply pwp_parse; [intros; by apply framed_start|]. intros f _.
  pwp_step. apply pwp_load; [intros; by apply framed_start|]. intros cfg _. pwp_step.
  apply pwp_read; [apply ReadStats_reads | done|]. intros o w2 E.
  assert (∀ (A : Type) (o : outcome A) t', tm_server t' = tm_server t → framed o w2 t') as H.
  { intros A o' t' Et. destruct (framed_start o' t' Et) as [H1 H2]. split; [by rewrite E | done]. }
  destruct o; [|by apply H..]. destruct (bool_flag _ _).
  - apply pwp_encode_line. intros o t' Et. by apply H.
  - unfold writeStatsSummary. pwp_step. apply pwp_write. intros ok t' Et _ _.
    destruct ok; pwp_step; by apply H.
Qed.

(** The options ask for a dry run, or are no options of [prune]. *)
Definition dry_run (args : list string) : bool :=
  match Parse (configFlagSet prune_flags) args with
  | inr (f, _) => bool_flag "dry-run" f
  | inl _ => true
  end.

Lemma prune_framed args : dry_run args = true → pwp (spoolPruneCommand sys args) env w t framed.
Proof.
  intros Hd. unfold spoolPruneCommand. pwp_step. apply pwp_parse; [intros; by apply framed_start|].
  intros f Hf. unfold dry_run in Hd. rewrite Hf in Hd.
  destruct (parse_time _) as [cutoff|]; [|pwp_step; by apply framed_start].
  pwp_step. apply pwp_load; [intros; by apply framed_start|]. intros cfg _. cbv zeta. pwp_step. pwp_step.
  apply wp_intro. rewrite Hd.
  match goal with |- context [Prune ?a ?b ?c env w] => set (r := Prune a b c env w) end.
  assert (disk r.2 = disk w) as E.
  { destruct (prune_disk (sy_spool sys (Path (SpoolSection cfg))) (Path (SpoolSection cfg))
      (MkPruneOptions cutoff (int_flag "limit" f) true) no_hooks env w Hwf Ht) as [E|[E _]]; exact E. }
  assert (∀ (A : Type) (o : outcome A) t', tm_server t' = tm_server t → framed o r.2 t') as H.
  { intros A o' t' Et. destruct (framed_start o' t' Et) as [H1 H2]. split; [by rewrite E | done]. }
  destruct r.1; [|by apply H..]. apply pwp_encode_line. intros o t' Et. by apply H.
Qed.

(** How [spoolChecks] leaves the spool, and when it finds nothing wrong. *)
Lemma pwp_spoolChecks cfg t1 (Q : outcome (list Check) → World DB → Terminal → Prop) :
  (∀ checks w', txn w' = None → upgraded v db0 (disk w') → db_wf (disk w') → db_covered (disk w') →
     Q (Ok checks) w' t1) →
  pwp (spoolChecks sys cfg) env w t1 Q.
Proof.
  intros H. assert (upgraded v db0 (disk w)) as Hu by apply (framed_start (Ok tt) t eq_refl).
  unfold spoolChecks. destruct (sy_stat sys _); [pwp_step; auto..|].
  pwp_step. pwp_step. pwp_step. eapply wp_mono; [by apply (OpenWithHooks_wp _ _ _ _ _ v)|].
  intros o w' (Ht' & (Hu' & Hwf' & Hcov') & Ho). rewrite E0 in Hu'. destruct o; [| pwp_step; auto | done].
  destruct Ho as [_ Ho]. pwp_step. pwp_step. pwp_step.
  eapply (SchemaVersion_wp _ _ _ _ Ht' Ho); intros w2; [intros e|]; intros Ht2 E; [intros _|];
    pwp_step; apply H; by rewrite ?E.
Qed.

Lemma pwp_print_checks checks w1 t1 (Q : outcome bool → World DB → Terminal → Prop) :
  (∀ t', tm_server t' = tm_server t1 → Q (Ok (negb (all_pass checks))) w1 t') →
  pwp (print_checks sys checks) env w1 t1 Q.
Proof.
  revert t1 Q. induction checks as [|c checks IH]; intros t1 Q H; cbn [print_checks]; [pwp_step; by apply H|].
  pwp_step. apply pwp_print. intros t2 E2. pwp_step. apply IH. intros t3 E3. pwp_step.
  cbn [all_pass forallb] in H. fold (all_pass checks) in H. rewrite negb_andb, negb_involutive in H.
  apply H. congruence.
Qed.

Lemma doctor_framed args : txn (tm_server t) = None → pwp (doctorCommand sys args) env w t framed.
Proof.
  intros Hts. unfold doctorCommand. pwp_step. apply pwp_parse; [intros; by apply framed_start|]. intros f _.
  pwp_step. apply pwp_load; [intros; by apply framed_start|]. intros cfg _. pwp_step. apply pwp_on_server.
  apply wp_intro.
  match goal with |- context [Doctor ?a ?b ?c ?d ?e ?g ?h] => set (r := Doctor a b c d e g h) end.
  assert (disk r.2 = s0) as Er by (rewrite <- Es; by apply reads_disk; [apply Doctor_reads|]).
  assert (∀ (A : Type) (o : outcome A), framed o w (MkTerminal (tm_out t) (tm_writes t) r.2)) as H.
  { intros A o. destruct (framed_start o t eq_refl). by split. }
  destruct r.1; [|by apply H..]. pwp_step. apply pwp_spoolChecks. intros spool w' _ Hu _ _.
  pwp_step. apply pwp_print_checks. intros t' Et. simpl in Et.
  assert (disk (tm_server t') = s0) as E' by congruence.
  apply pwp_refuse; intros _; by split.
Qed.

End Frame.

(** The command only inspects the spool. *)
Definition inspects (args : list string) : bool :=
  match args with
  | [] => true
  | name :: rest =>
      if (name =? "run")%string then false
      else if (name =? "spool")%string then
        match rest with
        | [] => true
        | sub :: options =>
            if (sub =? "redrive")%string then false
            else if (sub =? "prune")%string then dry_run options else true
        end
      else true
  end.

Definition is_setup (args : list string) : bool :=
  match args with name :: _ => (name =? "setup")%string | [] => false end.

Lemma spool_framed quote args v env w t :
  inspects ("spool" :: args) = true → txn w = None → at_version v (disk w) → db_wf (disk w) → db_covered (disk w) →
  pwp (spoolCommand sys quote args) env w t (framed v (disk w) (disk (tm_server t))).
Proof.
  intros Hi Ht Hv Hwf Hcov. unfold spoolCommand. simpl in Hi.
  destruct args as [|sub options]; [pwp_step; by apply (framed_start v (disk w) _ w t)|].
  destruct (sub =? "redrive")%string eqn:Er; [done|].
  destruct (sub =? "prune")%string; [by apply prune_framed|].
  destruct (sub =? "stats")%string; [by apply stats_framed|].
  destruct (sub =? "list")%string; [by apply list_framed|].
  destruct (sub =? "deliveries")%string; [by apply deliveries_framed|].
  pwp_step. by apply (framed_start v (disk w) _ w t).
Qed.

Lemma setup_framed args v env w t :
  at_version v (disk w) →
  pwp (setupCommand sys args) env w t (λ _ w' _, upgraded v (disk w) (disk w')).
Proof.
  intros Hv. assert (upgraded v (disk w) (disk w)) as Hu
    by (exists v; split; [lia|]; split; [done | apply same_data_refl]).
  unfold setupCommand. pwp_step. apply pwp_parse; [done|]. intros f _. pwp_step. apply pwp_load; [done|].
  intros cfg _. pwp_step. apply pwp_on_server. apply wp_intro.
  match goal with |- context [Setup ?a ?b ?c ?d ?e ?g ?h] => destruct (Setup a b c d e g h) as [[r|e'|] s] end;
    [|done|done]. by apply pwp_print.
Qed.

(** C12. Inspecting changes nothing: whatever the arguments, the files and
    the failures, a command that is not [run], [spool redrive] or a [spool
    prune] without dry run leaves every row of the spool as it was (opening
    an older spool may raise its schema version), and only [setup] changes
    the PostgreSQL server. *)
Theorem inspection_changes_nothing quote build args v env w t :
  inspects args = true → txn w = None → txn (tm_server t) = None →
  at_version v (disk w) → db_wf (disk w) → db_covered (disk w) →
  let '(_, w', t') := Execute sys quote build args env w t in
  upgraded v (disk w) (disk w') ∧ (is_setup args = false → disk (tm_server t') = disk (tm_server t)).
Proof.
  intros Hi Ht Hts Hv Hwf Hcov.
  assert (pwp (Execute sys quote build args) env w t (λ _ w' t', upgraded v (disk w) (disk w') ∧
    (is_setup args = false → disk (tm_server t') = disk (tm_server t)))) as H.
  2: { destruct (Execute sys quote build args env w t) as [[o w'] t'] eqn:E. by apply (pwp_elim _ _ _ _ _ _ _ _ H E). }
  assert (∀ t', tm_server t' = tm_server t → upgraded v (disk w) (disk w) ∧
    (is_setup args = false → disk (tm_server t') = disk (tm_server t))) as Hsame.
  { intros t' E. split; [|by rewrite E]. exists v. split; [lia|]. split; [done | apply same_data_refl]. }
  assert (∀ m : Cmd unit, pwp m env w t (framed v (disk w) (disk (tm_server t))) →
    pwp (m;; mret []) env w t (λ (_ : outcome (list Task)) w' t', upgraded v (disk w) (disk w') ∧
      (is_setup args = false → disk (tm_server t') = disk (tm_server t)))) as Hm.
  { intros m Hm. pwp_step. eapply pwp_mono; [exact Hm|]. intros o w' t' [H1 H2]. by destruct o; [pwp_step|..]. }
  unfold Execute. destruct args as [|name rest]; [pwp_step; by apply Hsame|].
  destruct (name =? "version")%string.
  { apply Hm. unfold versionCommand. destruct (Parse ∅ rest).
    { pwp_step. apply pwp_print_all. intros t' Et. pwp_step. by apply (framed_start v (disk w) _ w t). }
    apply pwp_print. intros. by apply (framed_start v (disk w) _ w t). }
  simpl in Hi. destruct (name =? "run")%string; [done|].
  destruct (name =? "doctor")%string; [by apply Hm, doctor_framed|].
  destruct (name =? "setup")%string eqn:Ens.
  { pwp_step. eapply pwp_mono; [by apply (setup_framed rest v)|].
    intros o w' t' Hu. simpl. rewrite Ens. by destruct o; [pwp_step|..]. }
  destruct (name =? "spool")%string eqn:Esp.
  { by apply Hm, spool_framed. }
  destruct (_ || _); [|pwp_step; by apply Hsame].
  apply Hm. apply pwp_print. intros. by apply (framed_start v (disk w) _ w t).
Qed.

(** ** The search for an existing parent *)

(** The directories above a path. *)
Definition ancestor (path : string) (n : nat) : string := Nat.iter n Dir (Dir path).

Definition exists_path (p : string) : bool :=
  match sy_stat sys p with PathInfo _ _ => true | _ => false end.

Lemma search_parent_ends fuel q :
  (above (Clean q) < fuel)%nat →
  ∃ n c, search_parent sys fuel (Clean q) = Some c ∧
    (∀ m, (m < n)%nat → exists_path (Nat.iter m Dir (Clean q)) = false) ∧
    match sy_stat sys (Nat.iter n Dir (Clean q)) with
    | PathInfo is_dir perm =>
        ck_Status c = if is_dir && negb (Z.land perm 128 =? 0) then "pass" else "fail"
    | _ => ck_Status c = "fail" ∧ Dir (Nat.iter n Dir (Clean q)) = Nat.iter n Dir (Clean q)
    end.
Proof.
  revert q. induction fuel as [|fuel IH]; intros q Hf; [lia|]. cbn [search_parent].
  assert (exists_path (Clean q) = false →
    ∃ n c, (if (Dir (Clean q) =? Clean q)%string
       then Some (MkCheck "spool path" "fail" "no existing parent directory")
       else search_parent sys fuel (Dir (Clean q))) = Some c ∧
      (∀ m, (m < n)%nat → exists_path (Nat.iter m Dir (Clean q)) = false) ∧
      match sy_stat sys (Nat.iter n Dir (Clean q)) with
      | PathInfo is_dir perm =>
          ck_Status c = if is_dir && negb (Z.land perm 128 =? 0) then "pass" else "fail"
      | _ => ck_Status c = "fail" ∧ Dir (Nat.iter n Dir (Clean q)) = Nat.iter n Dir (Clean q)
      end) as Hup.
  { intros Hx. destruct (Dir (Clean q) =? Clean q)%string eqn:E; breflect.
    - exists 0%nat. eexists. split; [done|]. split; [lia|]. simpl.
      unfold exists_path in Hx. by destruct (sy_stat sys (Clean q)).
    - destruct (Dir_above q) as [?|Ha]; [done|]. unfold Dir in Ha |- *.
      destruct (IH (up_to_slash (Clean q)) ltac:(lia)) as (n & c & Hs & Hm & Hc).
      exists (S n), c. split; [done|]. rewrite Nat.iter_succ_r. split; [|done].
      intros [|m] Hl; [done|]. rewrite Nat.iter_succ_r. apply Hm. lia. }
  destruct (sy_stat sys (Clean q)) as [|e|is_dir perm] eqn:Es;
    [apply Hup; unfold exists_path; by rewrite Es.. |].
  exists 0%nat. eexists. split; [done|]. split; [lia|]. simpl. rewrite Es.
  destruct is_dir; simpl; [|done]. by destruct (Z.land perm 128 =? 0).
Qed.

(** The search for a parent directory of a spool that does not exist
    yet ends for every path and every file system, with one check: it looks
    at the directories above the path one after the other, up to the first
    that exists, and passes exactly when that is a directory with the
    owner's write permission. *)
Theorem parent_search_ends path :
  ∃ n c, parent_check sys path = [c] ∧
    (∀ m, (m < n)%nat → exists_path (ancestor path m) = false) ∧
    match sy_stat sys (ancestor path n) with
    | PathInfo is_dir perm =>
        ck_Status c = if is_dir && negb (Z.land perm 128 =? 0) then "pass" else "fail"
    | _ => ck_Status c = "fail" ∧ Dir (ancestor path n) = ancestor path n
    end.
Proof.
  destruct (search_parent_ends (S (above (Dir path))) (up_to_slash path)) as (n & c & Hs & H).
  { unfold Dir. lia. }
  exists n, c. unfold parent_check. unfold Dir at 2. rewrite Hs. done.
Qed.

(** ** The lines of [spool list] *)

Lemma pwp_encode_all {A} e (line : A → option string) rows texts env w t (Q : outcome unit → World DB → Terminal → Prop) :
  Forall2 (λ row text, line row = Some text) rows texts →
  (∀ n e' t', sy_accepts sys n = false → Q (Fail e') w t') →
  (∀ t', tm_out t' = tm_out t ++ map (λ text, text +:+ LF) texts → Q (Ok tt) w t') →
  pwp (encode_lines sys e line rows) env w t Q.
Proof.
  intros H Hf. revert t. induction H as [|row text rows texts Hr _ IH]; intros t Hok; cbn [encode_lines].
  { pwp_step. apply Hok. simpl. by rewrite app_nil_r. }
  pwp_step. rewrite Hr. cbn [encode_line]. pwp_step. apply pwp_write. intros ok t1 _ H1 H2. destruct ok; pwp_step.
  - destruct H1 as (_ & E & _); [done|]. apply IH. intros t' Et. apply Hok. rewrite Et, E, <- app_assoc. done.
  - eapply Hf. by apply H2.
Qed.

(** Same rows, same timestamps. *)
Lemma same_data_stamped db db' : same_data db db' → db_stamped db → db_stamped db'.
Proof. intros (_ & E1 & _ & _ & _ & E2) [H1 H2]. split; by rewrite ?E1, ?E2. Qed.

(** How [spool list] ends, for the arguments parsed as [f]. *)
Definition list_post (f : FlagSet) (db : DB) (env : Env) (t : Terminal) (o : outcome unit) (w' : World DB)
    (t' : Terminal) : Prop :=
  match o with
  | Ok _ => ∃ lines, tm_out t' = tm_out t ++ map (λ line, line +:+ LF) lines ∧
      Forall2 line_reads_back (take (Z.to_nat (int_flag "limit" f)) (events db)) lines
  | Fail _ => ∀ cfg, loaded f cfg → 1 <= int_flag "limit" f <= 1000 →
      faulty env ∨ open_refused (sy_open sys (Path (SpoolSection cfg))) (Path (SpoolSection cfg)) ∨
      ∃ n, sy_accepts sys n = false
  | Crash => False
  end.

(** Rows that show readable events have lines that read back. *)
Lemma list_lines l rows :
  Forall2 shows_event l rows → Forall readable l →
  ∃ lines, Forall2 (λ row line, event_line row = Some line) rows lines ∧ Forall2 line_reads_back l lines.
Proof.
  induction 1 as [|e r l rows Hs _ IH]; intros Hr; [by exists []|]. apply Forall_cons in Hr as [He Hr].
  destruct (IH Hr) as (lines & H1 & H2). destruct (event_line_reads e r Hs He) as (line & El & Hl).
  exists (line :: lines). by split; constructor.
Qed.

(** The rows and their lines, once the spool is open. *)
Lemma list_rows_wp f db env w t :
  txn w = None → db_wf (disk w) → db_stamped (disk w) → events (disk w) = events db →
  Forall readable (events db) →
  pwp (rows ← lift (ListEvents (int_flag "limit" f));
       encode_lines sys (errorf "write spool row: %w") event_line rows) env w t (list_post f db env t).
Proof.
  intros Ht Hwf Hst Ee Hr. pwp_step. pwp_step.
  destruct (decide (1 <= int_flag "limit" f <= 1000)) as [Hl|Hl].
  2: { unfold ListEvents. wp_step. apply wp_reject; intros E; [by intros ? ? ?|].
       apply orb_false_iff in E as [?%Z.ltb_ge ?%Z.ltb_ge]. lia. }
  eapply wp_mono; [by apply ListEvents_wp|]. intros o w' (Ed & Ho).
  destruct o as [rows|e|]; [|by left|done]. rewrite Ee in Ho.
  destruct (list_lines _ _ Ho) as (lines & H1 & H2); [by apply Forall_take|].
  apply (pwp_encode_all _ _ _ lines); [done | |].
  - intros n e' t' Hn cfg _ _. right; right. by exists n.
  - intros t' Et. by exists lines.
Qed.

Lemma spoolListCommand_wp args f v env w t :
  txn w = None → at_version v (disk w) → db_wf (disk w) → db_covered (disk w) → db_stamped (disk w) →
  Forall readable (events (disk w)) → Parse (configFlagSet list_flags) args = inr (f, []) →
  pwp (spoolListCommand sys args) env w t (list_post f (disk w) env t).
Proof.
  intros Ht Hv Hwf Hcov Hst Hr Ef. unfold spoolListCommand, parse_flags. rewrite Ef.
  pwp_step. pwp_step. pwp_step; [done|]. intros ? [= <-]. pwp_step. apply pwp_refuse; [done|]. intros _.
  pwp_step. cbn [fst]. pwp_step. unfold openConfiguredSpool. pwp_step. unfold load_config. pwp_step.
  { intros e E cfg Hl. unfold loaded in Hl. congruence. }
  intros cfg Hcfg. pwp_step. pwp_step. eapply wp_mono; [by apply (OpenWithHooks_wp _ _ _ _ _ v)|].
  intros o w1 (Ht1 & ((v' & _ & Hv' & Hsame) & Hwf1 & Hcov1) & Ho). destruct o as [h|e|]; [| |done].
  - pwp_step. apply list_rows_wp; [done | done | by eapply same_data_stamped | apply Hsame | done].
  - intros cfg' Hl _. unfold loaded in Hl. rewrite Hcfg in Hl. injection Hl as <-.
    destruct Ho as [?|Ho]; [by left | right; left; exact Ho].
Qed.

(** C13. Round trip of [spool list]: the command prints the first events of
    the spool in capture order, as many as asked for, one JSON object per
    line, and each line decodes to its event: sequence, source, id, type,
    subject, transaction, index, end position of the commit, the compacted
    payload or null, and the time of pruning; for events whose texts are UTF-8
    and whose retained payloads are valid JSON, nested less deeply than the
    decoder allows.  It prints nothing else, and once the arguments are parsed
    fails only when the configuration or the limit is refused, the file
    cannot be opened, a call fails, or a write is refused. *)
Theorem list_reads_back args f v env w t :
  txn w = None → at_version v (disk w) → db_wf (disk w) → db_covered (disk w) → db_stamped (disk w) →
  Forall readable (events (disk w)) → Parse (configFlagSet list_flags) args = inr (f, []) →
  let '(o, _, t') := spoolListCommand sys args env w t in
  match o with
  | Ok _ => ∃ lines, tm_out t' = tm_out t ++ map (λ line, line +:+ LF) lines ∧
      Forall2 line_reads_back (take (Z.to_nat (int_flag "limit" f)) (events (disk w))) lines
  | Fail _ => ∀ cfg, loaded f cfg → 1 <= int_flag "limit" f <= 1000 →
      faulty env ∨ open_refused (sy_open sys (Path (SpoolSection cfg))) (Path (SpoolSection cfg)) ∨
      ∃ n, sy_accepts sys n = false
  | Crash => False
  end.
Proof.
  intros Ht Hv Hwf Hcov Hst Hr Ef. destruct (spoolListCommand sys args env w t) as [[o w'] t'] eqn:E.
  exact (pwp_elim _ _ _ _ _ _ _ _ (spoolListCommand_wp args f v env w t Ht Hv Hwf Hcov Hst Hr Ef) E).
Qed.

(** ** A clean doctor *)

Lemma all_pass_app xs ys : all_pass (xs ++ ys) = all_pass xs && all_pass ys.
Proof. apply forallb_app. Qed.

Lemma loaded_valid f cfg : loaded f cfg → config_valid (sy_url_Parse sys) (sy_ParseAddrPort sys) cfg.
Proof.
  unfold loaded, Load, Decode. destruct (sy_config sys _) as [[e|c]|]; [done| |done].
  destruct (setDefaultsAndValidate _ _ c) as [e|c'] eqn:E; [done|]. intros [= <-].
  by eapply validated_config.
Qed.

Lemma validated_logging c l : validate_logging c = inr l → ∃ h, logging_New l = inr h.
Proof.
  unfold validate_logging, logging_New. intros H. unwind H. injection H as <-. cbn [Level Format].
  repeat match goal with H : negb _ = false |- _ => apply negb_false_iff in H end.
  rewrite !orb_true_iff in *.
  repeat (case_next; [eauto|]). exfalso. naive_solver.
Qed.

Lemma loaded_logging f cfg : loaded f cfg → ∃ h, logging_New (Logging cfg) = inr h.
Proof.
  unfold loaded, Load, Decode. destruct (sy_config sys _) as [[e|c]|]; [done| |done].
  destruct (setDefaultsAndValidate _ _ c) as [e|c'] eqn:E; [done|]. intros [= <-].
  unfold setDefaultsAndValidate in E. unwind E. injection E as <-. by eapply validated_logging.
Qed.

(** The sinks whose checks pass can be built. *)
Lemma build_sinks_ok timeout configs sinks regs :
  Forall (λ c, sk_Type c = "webhook" ∨ sk_Type c = "stdout") configs →
  all_pass (map (delivery_check sys timeout) configs) = true →
  ∃ r, build_sinks (sy_outside sys) timeout configs sinks regs = inr r.
Proof.
  revert sinks regs. induction configs as [|c configs IH]; intros sinks regs Hty Hp; [by eexists|].
  apply Forall_cons in Hty as [Hc Hty]. cbn [map all_pass forallb] in Hp.
  apply andb_true_iff in Hp as [Hck Hp]. fold (all_pass (map (delivery_check sys timeout) configs)) in Hp.
  cbn [build_sinks]. unfold delivery_check in Hck. destruct Hc as [E|E]; rewrite E in *; simpl in *.
  - destruct (NewWebhookSender _ _ _) as [e|[sender reg]]; [done|]. by apply IH.
  - by apply IH.
Qed.

Lemma deliveryChecks_pass cfg :
  all_pass (deliveryChecks sys cfg) = true →
  all_pass (map (delivery_check sys (RequestTimeout (DeliverySection cfg))) (Sinks (DeliverySection cfg))) = true.
Proof. unfold deliveryChecks. by destruct (Sinks (DeliverySection cfg)). Qed.

(** What a clean doctor has seen. *)
Definition doctor_clean (args : list string) (db : DB) (s : PgServer) (o : outcome unit) (w' : World DB)
    (t' : Terminal) : Prop :=
  o = Ok tt →
  txn w' = None ∧ sqlite_ok (disk w') ∧ (∃ v', at_version v' (disk w')) ∧ same_data db (disk w') ∧
  ∃ f cfg, Parse (configFlagSet ∅) args = inr (f, []) ∧ loaded f cfg ∧
    server_capable s ∧ server_ready (Postgres cfg) s ∧
    all_pass (deliveryChecks sys cfg) = true.

Lemma doctorCommand_wp args v env w t :
  txn w = None → txn (tm_server t) = None → at_version v (disk w) → db_wf (disk w) → db_covered (disk w) →
  sy_database sys = srv_database (disk (tm_server t)) →
  pwp (doctorCommand sys args) env w t (doctor_clean args (disk w) (disk (tm_server t))).
Proof.
  intros Ht Hts Hv Hwf Hcov Hdb. unfold doctorCommand. pwp_step. apply pwp_parse; [done|]. intros f Hf.
  pwp_step. apply pwp_load; [done|]. intros cfg Hcfg. pwp_step. apply pwp_on_server. rewrite Hdb.
  eapply wp_mono; [by apply Doctor_wp|]. intros o s [Hs Ho]. destruct o as [checks|e|]; [|done|done].
  pwp_step. apply (pwp_spoolChecks v (disk w) (disk (tm_server t)) env w t Ht Hv Hwf Hcov eq_refl eq_refl).
  intros spool w' Ht' (v' & _ & Hv' & Hsame) Hwf' Hcov'.
  pwp_step. apply pwp_print_checks. intros t' _. apply pwp_refuse; [done|].
  intros Hp%negb_false_iff _. rewrite !all_pass_app, !andb_true_iff in Hp. destruct Hp as (Hp1 & _ & Hp3).
  split; [done|]. split; [done|]. split; [by exists v'|]. split; [done|].
  exists f, cfg. destruct Ho as [[_ ?]|Hr]; [congruence|]. apply Hr in Hp1 as [? ?]. done.
Qed.

(** C10. A clean doctor means that the daemon can start: when [doctor]
    reports no failure, the configuration that its arguments name was loaded,
    the server can stream and has that configuration's publication, without
    tables, and its slot, usable and inactive, the spool kept its rows, and
    [run] with the same arguments starts from that very configuration, with
    capture of that slot and publication among its tasks, every configured
    sink registered and active and no other, unless a call fails, the file
    system refuses the spool, or a sink contradicts the registered ones. *)
Theorem doctor_predicts_run args v env w t w' t' :
  txn w = None → txn (tm_server t) = None → at_version v (disk w) → db_wf (disk w) → db_covered (disk w) →
  sy_database sys = srv_database (disk (tm_server t)) →
  doctorCommand sys args env w t = (Ok tt, w', t') →
  same_data (disk w) (disk w') ∧
  ∃ f cfg, Parse (configFlagSet ∅) args = inr (f, []) ∧ loaded f cfg ∧
    server_capable (disk (tm_server t)) ∧ server_ready (Postgres cfg) (disk (tm_server t)) ∧
    ∀ env2, let '(o, w2, _) := runCommand sys args env2 w' t' in
      match o with
      | Ok tasks => started cfg (disk w2) ∧ ReplicatorRun cfg ∈ tasks
      | Fail e => faulty env2 ∨ open_refused (sy_open sys (Path (SpoolSection cfg))) (Path (SpoolSection cfg)) ∨
          ∃ db, same_data (disk w) db ∧ configure_refused (map reg_of (Sinks (DeliverySection cfg))) db e
      | Crash => False
      end.
Proof.
  intros Ht Hts Hv Hwf Hcov Hdb E.
  destruct (pwp_elim _ _ _ _ _ _ _ _ (doctorCommand_wp args v env w t Ht Hts Hv Hwf Hcov Hdb) E eq_refl)
    as (Ht' & [Hwf' Hcov'] & (v' & Hv') & Hsame & f & cfg & Hf & Hcfg & Hcap & Hready & Hpass).
  split; [done|]. exists f, cfg. do 4 (split; [done|]). intros env2.
  assert (pwp (runCommand sys args) env2 w' t' (λ o w2 _, match o with
    | Ok tasks => started cfg (disk w2) ∧ ReplicatorRun cfg ∈ tasks
    | Fail e => faulty env2 ∨ open_refused (sy_open sys (Path (SpoolSection cfg))) (Path (SpoolSection cfg)) ∨
        ∃ db, same_data (disk w) db ∧ configure_refused (map reg_of (Sinks (DeliverySection cfg))) db e
    | Crash => False
    end)) as H.
  2: { destruct (runCommand sys args env2 w' t') as [[o w2] t2] eqn:Er. exact (pwp_elim _ _ _ _ _ _ _ _ H Er). }
  unfold runCommand, parse_flags, load_config. rewrite Hf. pwp_step. pwp_step. pwp_step; [done|].
  intros ? [= <-]. pwp_step. apply pwp_refuse; [done|]. intros _. pwp_step.
  pwp_step. unfold loaded in Hcfg. simpl. pwp_step; rewrite Hcfg; [done|]. intros ? [= <-].
  pwp_step. pwp_step; destruct (loaded_logging f cfg Hcfg) as [h Hh]; rewrite Hh; [done|]. intros ? _.
  pwp_step. eapply wp_mono; [apply (startup_wp _ _ _ _ _ v' (sy_url_Parse sys) (sy_ParseAddrPort sys)); try done; by eapply loaded_valid|].
  intros o w2 (_ & _ & Ho). destruct o as [tasks|e|]; [| |done].
  - destruct Ho as [Hst (sinks & regs & _ & ->)]. split; [done|]. unfold tasks_of. by left.
  - destruct Ho as [?|[?|[(e' & He)|(db & Hdb' & Hr)]]]; [auto..| |].
    + exfalso. destruct (build_sinks_ok (RequestTimeout (DeliverySection cfg)) (Sinks (DeliverySection cfg)) ∅ [])
        as [r Hr]; [|by apply deliveryChecks_pass | congruence].
      eapply Forall_impl; [apply (cv_sinks _ _ _ (loaded_valid f cfg Hcfg))|]. intros c Hc. apply Hc.
    + right; right. exists db. split; [by eapply same_data_trans | done].
Qed.

End Commands.
