(* ===== verification/Producer.v ===== *)
(** * Producer: the example producer (examples/go-producer) and writerelay.emit

    The producer writes an order and emits its event in one transaction of
    the application's database; [writerelay.emit] (sql/postgres/001_install.sql)
    turns the event into a logical message that the commit publishes. *)

From Stdlib Require Import Ascii.
From S2P Require Import Prelude Rows Text Timestamp TimeParse Json Marshal Runtime Event Emit Flags Config Inbox Sha256.

(** ** [writerelay.emit] *)

(** PostgreSQL's [jsonb]: the text of a value after [$1::jsonb] and
    [event::text], or none when the cast refuses it. *)
Class Jsonb := jsonb_text : string → option string.

(** [event->>name] of a member that is a string. *)
Definition text_member (event : gmap string string) (name : string) : option string :=
  match event !! name with
  | Some (String c _ as raw) => if (c =? QUOTE)%char then unmarshal_string raw else None
  | _ => None
  end.

Definition missing (event : gmap string string) (name : string) : bool :=
  match text_member event name with Some value => (value =? "")%string | None => true end.

(** The text of the message, or the exception. *)
Definition emit_text {J : Jsonb} (event : string) : string + string :=
  match jsonb_text event with
  | None => inl "invalid input syntax for type json"
  | Some payload_text =>
      match decode_object payload_text with
      | None => inl "WriteRelay event must be a JSON object"
      | Some (ms, _) =>
          let event := object_map ms in
          if negb (bool_decide (text_member event "specversion" = Some "1.0"))
          then inl "WriteRelay specversion must be 1.0"
          else if missing event "id" then inl "WriteRelay event id is required"
          else if missing event "source" then inl "WriteRelay event source is required"
          else if missing event "type" then inl "WriteRelay event type is required"
          else if 262144 <? Z.of_nat (String.length payload_text)
          then inl "WriteRelay event exceeds 262144-byte limit"
          else inr payload_text
      end
  end.

(** ** The application's database *)

(** The orders by id, and the messages that commits have published. *)
Record AppDB := MkApp { ap_orders : gmap string string; ap_messages : list string }.

(** [SELECT writerelay.emit($1::jsonb)]. *)
Definition emit_stmt {J : Jsonb} (payload : string) : stmt AppDB unit := λ _ db,
  match emit_text payload with
  | inl m => inl m
  | inr text => inr (MkApp (ap_orders db) (ap_messages db ++ [text]), tt)
  end.

(** [INSERT INTO orders ... ON CONFLICT(id) DO UPDATE]; text of the database
    is UTF-8 without NUL. *)
Definition insert_order (id : string) : stmt AppDB unit := λ _ db,
  if negb (validString id) then inl "invalid byte sequence for encoding UTF8"
  else inr (MkApp (<[id := "paid"]> (ap_orders db)) (ap_messages db), tt).

(** [tx.Rollback]. *)
Definition rollback_tx {D} (e : error) : M D unit := λ env w,
  (match env_fault env (tick w) with Some _ => Fail e | None => Ok tt end,
   MkWorld (disk w) None (S (tick w))).

Section Producer.
Context {J : Jsonb}.

(** [writerelay.Emit] with the transaction. *)
Definition Emit_tx (event : Event) : M AppDB unit :=
  match encode event with
  | inl e => fail e
  | inr payload => run (errorf "tx.Exec") (emit_stmt payload)
  end.

(** [json.Marshal] of the amount and the currency. *)
Definition order_data : string :=
  marshal_object true [("amount", itoa 12900); ("currency", quote true "USD")].

Definition order_event (id : string) : Event :=
  MkEvent ("evt-go-" +:+ id) "urn:service:billing" "order.paid" "" (Some id) "" "" (Some order_data).

Definition recordOrder (id : string) (rollback : bool) : M AppDB unit :=
  driver_call (errorf "pgx.Connect");;
  begin_tx (errorf "conn.Begin");;
  rollback_on_error (
    run (errorf "tx.Exec") (insert_order id);;
    Emit_tx (order_event id);;
    if rollback then rollback_tx (errorf "tx.Rollback") else commit_tx (errorf "tx.Commit")).

Definition producer_flags : FlagSet := <["id" := StringFlag ""]> {["rollback" := BoolFlag false]}.

(** [flag.Parse] of the command line: exit status 2 on an error, 0 on help. *)
Definition flag_exit (e : error) : Z := if bool_decide (e = ErrHelp) then 0 else 2.

(** [main]: the exit status and what was written to standard output. *)
Definition producer_main (dsn : string) (args : list string) : M AppDB (Z * string) := λ env w,
  match Parse producer_flags args with
  | inl e => (Ok (flag_exit e, ""), w)
  | inr (f, rest) =>
      let id := string_flag "id" f in
      let rollback := bool_flag "rollback" f in
      if (dsn =? "")%string || (id =? "")%string || negb (length rest =? 0)%nat then (Ok (2, ""), w)
      else
        match recordOrder id rollback env w with
        | (Ok _, w') =>
            (Ok (0, if rollback then "Rolled back the order and event." +:+ NEWLINE
                    else "Committed the order and event; delivery is handled by the relay." +:+ NEWLINE), w')
        | (Fail _, w') => (Ok (1, ""), w')
        | (Crash, w') => (Crash, w')
        end
  end.

End Producer.

Example order_data_text : order_data = quoted "{'amount':12900,'currency':'USD'}".
Proof. vm_compute. reflexivity. Qed.
