(* ===== verification/ProducerProps.v ===== *)
(** * ProducerProps: the order and its event are committed together *)

From Stdlib Require Import Ascii.
From S2P Require Import Prelude Rows Text Timestamp TimeParse Json Marshal MarshalFacts CompactFacts.
From S2P Require Import Runtime Event Emit EmitProps Flags Inbox Producer.

(** What the code relies on of [jsonb]: the text of an object is valid JSON,
    an object again, without repeated keys, with the same members, of which
    the strings have the same values. *)
Record same_object (text : string) (ms : list (string * string)) : Prop := {
  so_valid : Valid text = true;
  so_object : ∃ ms', decode_object text = Some (ms', "") ∧ NoDup (map (λ kv, unmarshal_string kv.1) ms') ∧
    ∀ name, decodeString <$> object_map ms' !! name = decodeString <$> object_map ms !! name;
}.

Class JsonbLaws (J : Jsonb) : Prop :=
  jsonb_same : ∀ p ms text, decode_object p = Some (ms, "") →
    jsonb_text p = Some text → same_object text ms.

(** ** Reading the members *)

Section SameStrings.
Context (o o' : gmap string string).
Context (Hs : ∀ name, decodeString <$> o' !! name = decodeString <$> o !! name).

Lemma same_required name : requiredString o' name = requiredString o name.
Proof.
  unfold requiredString. specialize (Hs name). destruct (o' !! name), (o !! name); simpl in Hs; try done.
  injection Hs as ->. done.
Qed.

Lemma same_optional name b : optionalString o' name b = optionalString o name b.
Proof.
  unfold optionalString. specialize (Hs name). destruct (o' !! name), (o !! name); simpl in Hs; try done.
  injection Hs as ->. done.
Qed.

Lemma same_time : optionalTime o' = optionalTime o.
Proof.
  unfold optionalTime. pose proof (Hs "time") as H. destruct (o' !! "time"), (o !! "time"); simpl in H; try done.
  injection H as ->. done.
Qed.

End SameStrings.

(** The validator reads the same from both texts. *)
Lemma same_validates payload ms ms' text m m' md :
  decode_object payload = Some (ms, "") → decode_object text = Some (ms', "") →
  (∀ name, decodeString <$> object_map ms' !! name = decodeString <$> object_map ms !! name) →
  Validate payload m = inr md → 1 <= m' → Z.of_nat (String.length text) <= m' → Validate text m' = inr md.
Proof.
  intros E E' Hs Hv Hm Hl. unfold Validate in *. rewrite E in Hv. rewrite E'.
  rewrite (proj2 (Z.ltb_ge m' 1)), (proj2 (Z.ltb_ge m' _)) by lia.
  destruct (m <? 1); [done|]. destruct (m <? _); [done|].
  rewrite !(same_required _ _ Hs), !(same_optional _ _ Hs), (same_time _ _ Hs). done.
Qed.

Lemma required_text object name v : requiredString object name = inr v → text_member object name = Some v ∧ v ≠ "".
Proof.
  intros H. destruct (requiredString_inv _ _ _ H) as (Hne & raw & Eo & Eu).
  split; [|done]. unfold text_member. rewrite Eo. unfold unmarshal_string in Eu |- *.
  destruct raw as [|c body]; [done|]. destruct (c =? QUOTE)%char; [done|].
  destruct (String c body =? "null")%string; congruence.
Qed.

(** A validated text passes the checks of the function. *)
Lemma emit_checks {J : Jsonb} event text ms m md :
  jsonb_text event = Some text → decode_object text = Some (ms, "") → Validate text m = inr md →
  emit_text event = if 262144 <? Z.of_nat (String.length text)
    then inl "WriteRelay event exceeds 262144-byte limit" else inr text.
Proof.
  intros Ej Ed Hv. unfold emit_text. rewrite Ej, Ed. unfold Validate in Hv. rewrite Ed in Hv.
  destruct (m <? 1); [done|]. destruct (m <? _); [done|]. cbn -[object_map] in Hv.
  destruct (requiredString (object_map ms) "specversion") as [e|sv] eqn:E1; [done|].
  destruct (sv =? "1.0")%string eqn:Esv; [|done]. breflect. subst sv. cbn -[object_map] in Hv.
  destruct (requiredString (object_map ms) "id") as [e|id] eqn:E2; [done|].
  destruct (requiredString (object_map ms) "source") as [e|src] eqn:E3; [done|].
  destruct (requiredString (object_map ms) "type") as [e|ty] eqn:E4; [done|].
  apply required_text in E1 as [T1 _], E2 as [T2 N2], E3 as [T3 N3], E4 as [T4 N4].
  unfold missing. rewrite T1, T2, T3, T4, bool_decide_eq_true_2 by done.
  apply String.eqb_neq in N2, N3, N4. by rewrite N2, N3, N4.
Qed.

(** ** The event of an order *)

Lemma utf8_prefix s t : ascii_text s = true → utf8_valid 0 (s +:+ t) = utf8_valid 0 t.
Proof.
  induction s as [|c s IH]; [done|]. rewrite append_cons. cbn [ascii_text]. intros [Hc Hs]%andb_true_iff.
  cbn [utf8_valid]. unfold ascii_byte in Hc. rewrite Hc. auto.
Qed.

Lemma contains_prefix c s t : contains_byte c s = false → contains_byte c (s +:+ t) = contains_byte c t.
Proof.
  induction s as [|d s IH]; [done|]. rewrite append_cons. cbn [contains_byte].
  intros [Hd Hs]%orb_false_iff. rewrite Hd. auto.
Qed.

Lemma order_encodes id : validString id = true → ∃ payload, encode (order_event id) = inr payload.
Proof.
  intros Hv. unfold encode, order_event. cbn [ev_ID ev_Source ev_Type ev_Subject ev_Time ev_DataContentType ev_Data].
  assert (required ("evt-go-" +:+ id) = true) as ->.
  { unfold required, validString in *. rewrite utf8_prefix, contains_prefix by done. done. }
  rewrite Hv. change (required "urn:service:billing") with true. change (required "order.paid") with true.
  cbn [andb negb with_defaults ev_SpecVersion String.eqb]. change (validString "") with true.
  change (check_time "") with (@None error). change (validJSON order_data) with true. cbn [negb].
  unfold Marshal. cbn [with_defaults ev_Data]. change (marshal_raw true order_data) with (Some order_data).
  eexists. reflexivity.
Qed.

Section Producer.
Context {J : Jsonb} {laws : JsonbLaws J}.

(** The text is the message of the order's event. *)
Definition emitted (id text : string) : Prop :=
  ∃ payload, encode (order_event id) = inr payload ∧ emit_text payload = inr text.

(** The encoded event, as the validator and [jsonb] see it. *)
Lemma order_payload id payload :
  encode (order_event id) = inr payload →
  ∃ data, decode_object payload = Some (raw_members true (envelope (with_defaults (order_event id)) data), "") ∧
    ∀ m, 1 <= m → Z.of_nat (String.length payload) <= m → Validate payload m = inr (event_metadata (order_event id)).
Proof.
  intros E. assert (data_nesting (order_event id) < maxNestingDepth) as Hn
    by (change (nesting order_data < maxNestingDepth); vm_compute; done).
  destruct (encode_inv _ _ E) as [He Hm].
  destruct (Marshal_object _ _ He Hm Hn) as (data & -> & Hd). exists data. split.
  - apply decode_marshal; [done | by apply envelope_values].
  - intros m H1 H2. by apply encode_accepted.
Qed.

(** What [jsonb] makes of it. *)
Lemma order_jsonb id payload text :
  encode (order_event id) = inr payload → jsonb_text payload = Some text →
  ∃ data, same_object text (raw_members true (envelope (with_defaults (order_event id)) data)) ∧
    ∀ m, 1 <= m → Z.of_nat (String.length text) <= m → Validate text m = inr (event_metadata (order_event id)).
Proof.
  intros E Ej. destruct (order_payload id payload E) as (data & Ed & Hv). exists data.
  pose proof (jsonb_same _ _ _ Ed Ej) as Hso. split; [done|]. intros m H1 H2.
  destruct (so_object _ _ Hso) as (ms' & Ed' & _ & Hs).
  eapply (same_validates payload _ ms' text _ m); [exact Ed | done | done | | done | done].
  apply (Hv (Z.max 1 (Z.of_nat (String.length payload)))); lia.
Qed.

(** When the function accepts the event. *)
Lemma order_emit id payload :
  encode (order_event id) = inr payload →
  match jsonb_text payload with
  | None => ∃ m, emit_text payload = inl m
  | Some text => emit_text payload = if 262144 <? Z.of_nat (String.length text)
      then inl "WriteRelay event exceeds 262144-byte limit" else inr text
  end.
Proof.
  intros E. destruct (jsonb_text payload) as [text|] eqn:Ej.
  - destruct (order_jsonb id payload text E Ej) as (data & Hso & Hv).
    destruct (so_object _ _ Hso) as (ms' & Ed' & _).
    eapply emit_checks; [done | done|]. apply (Hv (Z.max 1 (Z.of_nat (String.length text)))); lia.
  - unfold emit_text. rewrite Ej. eauto.
Qed.

(** A message carries its order, for every limit that admits it. *)
Lemma emitted_inv id text :
  emitted id text →
  Z.of_nat (String.length text) <= 262144 ∧
  (∃ data, same_object text (raw_members true (envelope (with_defaults (order_event id)) data))) ∧
  ∀ m, 1 <= m → Z.of_nat (String.length text) <= m → Validate text m = inr (event_metadata (order_event id)).
Proof.
  intros (payload & E & Et). pose proof (order_emit id payload E) as H.
  destruct (jsonb_text payload) as [t|] eqn:Ej; [|destruct H as [m H]; congruence].
  rewrite H in Et. destruct (262144 <? _) eqn:El; [done|]. injection Et as ->. breflect.
  destruct (order_jsonb id payload text E Ej) as (data & Hso & Hv). split; [lia|]. split; [by exists data | done].
Qed.

(** ** One run *)

(** The order and its message, together. *)
Definition produced (id : string) (db db' : AppDB) : Prop :=
  ∃ text, emitted id text ∧ db' = MkApp (<[id := "paid"]> (ap_orders db)) (ap_messages db ++ [text]).

(** The database refuses the order: its id is no text, or the event is none
    that [jsonb] accepts within the limit. *)
Definition order_refused (id : string) : Prop :=
  validString id = false ∨
  ∃ payload, encode (order_event id) = inr payload ∧
    match jsonb_text payload with
    | None => True
    | Some text => 262144 < Z.of_nat (String.length text)
    end.

Definition record_post (id : string) (rollback : bool) (env : Env) (db : AppDB) (o : outcome unit) (w' : World AppDB)
    : Prop :=
  txn w' = None ∧
  match o with
  | Ok _ => if rollback then disk w' = db else produced id db (disk w')
  | Fail _ => (faulty env ∨ order_refused id) ∧
      (disk w' = db ∨ (faulty env ∧ rollback = false ∧ produced id db (disk w')))
  | Crash => False
  end.

Lemma Emit_tx_wp id env (w : World AppDB) db Q :
  validString id = true → txn w = Some db →
  (∀ e w', disk w' = disk w → faulty env ∨ order_refused id → Q (Fail e) w') →
  (∀ text k, emitted id text →
     Q (Ok tt) (MkWorld (disk w) (Some (MkApp (ap_orders db) (ap_messages db ++ [text]))) k)) →
  wp (Emit_tx (order_event id)) env w Q.
Proof.
  intros Hv Ht Hf Hok. unfold Emit_tx. destruct (order_encodes id Hv) as [payload E]. rewrite E.
  eapply wp_run_txn; [done| |].
  - intros n k [?|(m & Hm)]; apply Hf; simpl; auto. right. right. exists payload. split; [done|].
    pose proof (order_emit id payload E) as H. destruct (jsonb_text payload); [|done].
    unfold emit_stmt in Hm. rewrite H in Hm. destruct (262144 <? _) eqn:El; [by breflect | done].
  - intros n db' [] k Hx. unfold emit_stmt in Hx. destruct (emit_text payload) as [m|text] eqn:Et; [done|].
    injection Hx as <-. apply Hok. by exists payload.
Qed.

Lemma recordOrder_wp id rollback env (w : World AppDB) :
  txn w = None → wp (recordOrder id rollback) env w (record_post id rollback env (disk w)).
Proof.
  intros Ht. unfold recordOrder.
  assert (∀ e w', disk w' = disk w → txn w' = None → faulty env ∨ order_refused id →
    record_post id rollback env (disk w) (Fail e) w') as Hf.
  { intros e w' E Et Hr. split; [done|]. split; [done | by left]. }
  wp_step. apply (wp_query_auto (errorf "pgx.Connect") (λ _, tt)); [done | intros; apply Hf; auto|].
  intros k. wp_step. wp_step; [intros; apply Hf; auto|]. wp_step. wp_step. eapply wp_run_txn; [done| |].
  - intros n k2 Hx. apply Hf; simpl; [done | done|]. destruct Hx as [?|(m & Hm)]; [by left|].
    right. left. unfold insert_order in Hm. by destruct (validString id).
  - intros n db' [] k2 Hx. unfold insert_order in Hx. destruct (validString id) eqn:Hv; [|done].
    injection Hx as <-. wp_step. eapply Emit_tx_wp; [done | done | |]; simpl.
    + intros e w' E Hr. by apply Hf.
    + intros text k3 He. destruct rollback.
      * apply wp_intro. unfold rollback_tx. simpl. destruct (env_fault env k3) eqn:Ef; [|done].
        apply Hf; [done | done|]. left. exists k3. by rewrite Ef.
      * assert (produced id (disk w) (MkApp (<[id := "paid"]> (ap_orders (disk w))) (ap_messages (disk w) ++ [text])))
          as Hp by (by exists text).
        eapply wp_commit; [done | | |]; simpl; [intros; apply Hf; auto | |done].
        intros k4 Hfy. split; [done|]. split; [by left|]. right. done.
Qed.

(** C14. The producer is atomic: whatever its arguments and whatever fails,
    a run leaves the application's database as it was, or it has committed
    the order as paid together with one message that the relay accepts as
    the order's event, whatever limit admits it.  Exit status 0 means
    committed, or untouched for a rollback; status 1 is only given after a
    failed call or for an order the database refuses. *)
Theorem producer_atomic dsn args env w f id :
  txn w = None → Parse producer_flags args = inr (f, []) → dsn ≠ "" → string_flag "id" f = id → id ≠ "" →
  let '(o, w') := producer_main dsn args env w in
  let committed := ∃ text, disk w' = MkApp (<[id := "paid"]> (ap_orders (disk w))) (ap_messages (disk w) ++ [text]) ∧
    ∀ m, 262144 <= m → Validate text m = inr (event_metadata (order_event id)) in
  (disk w' = disk w ∨ (bool_flag "rollback" f = false ∧ committed)) ∧
  match o with
  | Ok (0, _) => if bool_flag "rollback" f then disk w' = disk w else committed
  | Ok (status, _) => status = 1 ∧ (faulty env ∨ order_refused id)
  | _ => False
  end.
Proof.
  intros Ht Hp Hd Eid Hid. apply String.eqb_neq in Hd, Hid. unfold producer_main.
  rewrite Hp, Eid, Hd, Hid. cbn [orb negb length Nat.eqb].
  pose proof (wp_elim _ _ _ _ (recordOrder_wp id (bool_flag "rollback" f) env w Ht)) as H.
  destruct (recordOrder id (bool_flag "rollback" f) env w) as [o w']. simpl in H. destruct H as [_ H].
  assert (produced id (disk w) (disk w') → ∃ text,
    disk w' = MkApp (<[id := "paid"]> (ap_orders (disk w))) (ap_messages (disk w) ++ [text]) ∧
    ∀ m, 262144 <= m → Validate text m = inr (event_metadata (order_event id))) as Hpr.
  { intros (text & He & ->). exists text. split; [done|]. intros m Hm.
    destruct (emitted_inv id text He) as (Hl & _ & Hv). apply Hv; lia. }
  destruct o as [[]|e|]; [| |done].
  - destruct (bool_flag "rollback" f); [by split; [left|]|]. split; [right; auto | auto].
  - destruct H as [Hr Hs]. split; [|done]. destruct Hs as [?|(_ & Hrb & Hs)]; [by left | right; auto].
Qed.

End Producer.
