(* ===== verification/Receiver.v ===== *)
(** * Receiver: the example receiver (examples/go-receiver)

    A webhook endpoint that records each paid order once: it checks the
    request, decodes the event and runs the insert inside the SDK's inbox
    transaction.  Requests are served one after the other; the inbox makes
    concurrent ones with the same key wait for each other. *)

From Stdlib Require Import Ascii.
From S2P Require Import Prelude Rows Text Timestamp TimeParse Sha256 Json Marshal Runtime Io.
From S2P Require Import Config Inbox Emit Flags Producer.

(** ** [json.Unmarshal] into [orderEvent] *)

Record orderEvent := MkOrderEvent {
  oe_SpecVersion : string;
  oe_ID : string;
  oe_Source : string;
  oe_Type : string;
  oe_Subject : string;
}.

Definition no_event : orderEvent := MkOrderEvent "" "" "" "" "".

Definition upper (c : ascii) : ascii := if is_lower c then ascii_of_N (N_of_ascii c - 32) else c.

(** [foldName], where it can meet an ASCII name: upper case, with the long s
    (U+017F) and the Kelvin sign (U+212A), the only runes beyond ASCII that
    fold to ASCII letters. *)
Fixpoint foldName (s : string) : string :=
  match s with
  | "" => ""
  | String c s' =>
      match byte_n c, s' with
      | 197%N, String b s2 =>
          if (byte_n b =? 191)%N then String "S" (foldName s2) else String c (foldName s')
      | 226%N, String b (String d s3) =>
          if (byte_n b =? 132)%N && (byte_n d =? 170)%N then String "K" (foldName s3)
          else String c (foldName s')
      | _, _ => String (upper c) (foldName s')
      end
  end.

(** The field that a key names, as its setter. *)
Definition field_of (key : string) : option (string → orderEvent → orderEvent) :=
  let name := foldName key in
  if (name =? "SPECVERSION")%string
  then Some (λ v e, MkOrderEvent v (oe_ID e) (oe_Source e) (oe_Type e) (oe_Subject e))
  else if (name =? "ID")%string
  then Some (λ v e, MkOrderEvent (oe_SpecVersion e) v (oe_Source e) (oe_Type e) (oe_Subject e))
  else if (name =? "SOURCE")%string
  then Some (λ v e, MkOrderEvent (oe_SpecVersion e) (oe_ID e) v (oe_Type e) (oe_Subject e))
  else if (name =? "TYPE")%string
  then Some (λ v e, MkOrderEvent (oe_SpecVersion e) (oe_ID e) (oe_Source e) v (oe_Subject e))
  else if (name =? "SUBJECT")%string
  then Some (λ v e, MkOrderEvent (oe_SpecVersion e) (oe_ID e) (oe_Source e) (oe_Type e) v)
  else None.

(** One member: a string is stored, [null] leaves the field, another value
    is an error once the whole input has been read. *)
Definition store_member (acc : orderEvent * bool) (kv : string * string) : orderEvent * bool :=
  match unmarshal_string kv.1 with
  | None => acc
  | Some key =>
      match field_of key with
      | None => acc
      | Some set =>
          match kv.2 with
          | String c _ =>
              if (c =? QUOTE)%char then
                match unmarshal_string kv.2 with Some v => (set v acc.1, acc.2) | None => acc end
              else if (kv.2 =? "null")%string then acc
              else (acc.1, false)
          | "" => acc
          end
      end
  end.

Definition Unmarshal (raw : string) : option orderEvent :=
  if negb (Valid raw) then None
  else
    match decode_object raw with
    | Some (ms, _) =>
        let '(event, ok) := foldl store_member (no_event, true) ms in
        if ok : bool then Some event else None
    | None => if (span (rev_string raw "") =? "null")%string then Some no_event else None
    end.

Example unmarshal_folds :
  Unmarshal (quoted "{'specversion':'1.0','Id':'a','id':null,'SOURCE':'s','type':'t','data':[1],'other':2}") =
    Some (MkOrderEvent "1.0" "a" "s" "t" "") ∧
  Unmarshal (quoted "{'id':7}") = None ∧ Unmarshal "null" = Some no_event ∧ Unmarshal "[]" = None.
Proof. vm_compute. auto. Qed.

(** ** The database *)

(** The tables of orders by name: order ids by source and event id. *)
Definition Orders : Type := gmap string (gmap (string * string) string).

(** [INSERT INTO orders (source,event_id,order_id)]. *)
Definition insert_received (table : string) (event : orderEvent) (b : Orders) : string + Orders :=
  match b !! table with
  | None => inl "relation does not exist"
  | Some rows =>
      if negb (validString (oe_Source event) && validString (oe_ID event) && validString (oe_Subject event))
      then inl "invalid byte sequence for encoding UTF8"
      else
        match rows !! (oe_Source event, oe_ID event) with
        | Some _ => inl "duplicate key value violates unique constraint"
        | None => inr (<[table := <[(oe_Source event, oe_ID event) := oe_Subject event]> rows]> b)
        end
  end.

Definition errDemoRollback : error := errorf "example rollback".

(** The callback; [fault] is a failure of the statement from outside. *)
Definition order_handler (table : string) (event : orderEvent) (mode : string) (fault : option string)
    : Handler Orders := λ b,
  match fault with
  | Some m => Returned (Some (errorf m)) true b
  | None =>
      match insert_received table event b with
      | inl m => Returned (Some (errorf m)) true b
      | inr b' =>
          if (mode =? "rollback")%string then Returned (Some errDemoRollback) false b'
          else Returned None false b'
      end
  end.

(** ** [ServeHTTP] *)

Record receiver := MkReceiver { rc_table : InboxTable; rc_orders : string }.

(** A request: headers by canonical name, and a body that may break off. *)
Record HttpRequest := MkHttp {
  hr_Method : string;
  hr_Path : string;
  hr_Header : list (string * string);
  hr_Body : string;
  hr_broken : bool;
}.

Definition Values (r : HttpRequest) (name : string) : list string :=
  map snd (select (λ h, (h.1 =? name)%string) (hr_Header r)).

Definition Get (r : HttpRequest) (name : string) : string := match Values r name with v :: _ => v | [] => "" end.

(** [io.ReadAll(http.MaxBytesReader(w, r.Body, n))]. *)
Definition ReadAll (n : Z) (r : HttpRequest) : option string :=
  if hr_broken r || (n <? Z.of_nat (String.length (hr_Body r))) then None else Some (hr_Body r).

(** What the client gets: an answer, or a closed connection. *)
Inductive Reply := Answer (status : Z) (body : string) | Dropped.

Definition http_Error (text : string) (status : Z) : Reply := Answer status (text +:+ NEWLINE).

Definition result_text (r : InboxResult) : string :=
  match r with InboxProcessed => "processed" | InboxDuplicate => "duplicate" end.

(** [m], with its error as a value. *)
Definition attempt {D A} (m : M D A) : M D (result A) := λ env w,
  match m env w with
  | (Ok a, w') => (Ok (inr a), w')
  | (Fail e, w') => (Ok (inl e), w')
  | (Crash, w') => (Crash, w')
  end.

Definition well_formed (event : orderEvent) : bool :=
  (oe_SpecVersion event =? "1.0")%string && negb (oe_ID event =? "")%string &&
  negb (oe_Source event =? "")%string && (oe_Type event =? "order.paid")%string &&
  negb (oe_Subject event =? "")%string.

(** The part of [ServeHTTP] before the inbox: the refusal, or the event, the
    key, the failure mode and the body. *)
Definition check_request (r : HttpRequest) : Reply + (orderEvent * string * string * string) :=
  if negb (hr_Method r =? "POST")%string || negb (hr_Path r =? "/webhook")%string
  then inl (http_Error "404 page not found" 404)
  else if negb (Get r "Authorization" =? "Bearer local-example-token")%string
  then inl (http_Error "unauthorized" 401)
  else
    match ReadAll 262144 r with
    | None => inl (http_Error "invalid or oversized body" 400)
    | Some raw =>
        match Unmarshal raw with
        | None => inl (http_Error "invalid order.paid event" 400)
        | Some event =>
            if negb (well_formed event) then inl (http_Error "invalid order.paid event" 400)
            else
              match Values r "Idempotency-Key" with
              | [key] =>
                  let mode := Get r "X-Example-Failure" in
                  if negb (mode =? "")%string && negb (mode =? "rollback")%string &&
                     negb (mode =? "drop-response")%string
                  then inl (http_Error "unknown example failure" 400)
                  else inr (event, key, mode, raw)
              | _ => inl (http_Error "one Idempotency-Key required" 400)
              end
        end
    end.

(** The answer to what the inbox reports. *)
Definition answer (mode : string) (r : result InboxResult) : Reply :=
  match r with
  | inl e =>
      if errors_is e ErrInvalidDelivery then http_Error "invalid delivery key" 400
      else if errors_is e ErrInboxConflict then http_Error "same key with different content" 409
      else http_Error "processing failed; retry the same key and body" 503
  | inr result =>
      if (mode =? "drop-response")%string then Dropped
      else Answer 200 (marshal_object true [("status", quote true (result_text result))] +:+ NEWLINE)
  end.

(** [ServeHTTP]; [ctx_err] is the state of the request's context after the
    callback. *)
Definition ServeHTTP (rc : receiver) (ctx_err : option error) (fault : option string) (r : HttpRequest)
    : M (PgDB Orders) Reply :=
  match check_request r with
  | inl reply => mret reply
  | inr (event, key, mode, raw) =>
      result ← attempt (WithInbox ctx_err true (MkInboxDelivery (rc_table rc) key raw)
                          (Some (order_handler (rc_orders rc) event mode fault)));
      mret (answer mode result)
  end.

(** ** [initialize] *)

Definition create_inbox (name : string) : stmt (PgDB Orders) unit := λ _ db,
  match pg_inbox db !! name with
  | Some _ => inl "relation already exists"
  | None => inr (MkPg (<[name := ∅]> (pg_inbox db)) (pg_business db) (pg_aborted db), tt)
  end.

Definition create_orders (name : string) : stmt (PgDB Orders) unit := λ _ db,
  match pg_business db !! name with
  | Some _ => inl "relation already exists"
  | None => inr (MkPg (pg_inbox db) (<[name := ∅]> (pg_business db)) (pg_aborted db), tt)
  end.

Definition initialize_receiver : M (PgDB Orders) unit :=
  match InboxTableSQL (MkInboxTable "" ""), table_name (MkInboxTable "" "") with
  | inr _, inr name =>
      begin_tx (errorf "pool.Begin");;
      rollback_on_error (
        run (errorf "tx.Exec") (create_inbox name);;
        run (errorf "tx.Exec") (create_orders "received_orders");;
        commit_tx (errorf "tx.Commit"))
  | inl e, _ | _, inl e => fail e
  end.

(** ** [run] and [main] *)

(** Standard output and the replies sent. *)
Record Session := MkSession { ss_out : string; ss_replies : list Reply }.

(** How serving ends: the server stops by itself, or a signal arrives. *)
Inductive ServeEnd := Finished (closed : bool) | Interrupted (shutdown : bool).

Record Host := MkHost {
  ho_ParseConfig : string → bool;
  ho_NewPool : bool;
  ho_Listen : Z → option string;
  ho_requests : list (option error * option string * HttpRequest);
  ho_end : ServeEnd;
}.

Section Run.
Context (host : Host).

Notation Prog := (P (PgDB Orders) Session).

Definition println (text : string) : Prog unit :=
  modify (λ s, MkSession (ss_out s +:+ text +:+ NEWLINE) (ss_replies s)).

Definition reply_to (rc : receiver) (q : option error * option string * HttpRequest) : Prog unit :=
  let '(ctx_err, fault, r) := q in
  reply ← lift (ServeHTTP rc ctx_err fault r);
  modify (λ s, MkSession (ss_out s) (ss_replies s ++ [reply])).

Fixpoint serve (rc : receiver) (l : list (option error * option string * HttpRequest)) : Prog unit :=
  match l with
  | [] => mret tt
  | q :: l' => reply_to rc q;; serve rc l'
  end.

(** The receiver of the example. *)
Definition example_receiver : receiver := MkReceiver (MkInboxTable "" "") "received_orders".

Definition run_receiver (dsn : string) (initDB : bool) (port : Z) : Prog unit :=
  (if ho_ParseConfig host dsn then mret tt else pfail (errorf "pgxpool.ParseConfig"));;
  (if ho_NewPool host then mret tt else pfail (errorf "pgxpool.NewWithConfig"));;
  lift (driver_call (errorf "pool.Ping"));;
  if initDB then lift initialize_receiver;; println "Created receiver inbox and orders tables."
  else
    match ho_Listen host port with
    | None => pfail (errorf "net.Listen")
    | Some addr =>
        println ("Receiver listening at http://" +:+ addr +:+ "/webhook");;
        serve example_receiver (ho_requests host);;
        match ho_end host with
        | Finished true | Interrupted true => mret tt
        | Finished false => pfail (errorf "server.Serve")
        | Interrupted false => pfail (errorf "server.Shutdown")
        end
    end.

Definition receiver_flags : FlagSet := <["init" := BoolFlag false]> {["port" := IntFlag 8081]}.

(** [main]: the exit status. *)
Definition receiver_main (dsn : string) (args : list string) : Prog Z :=
  match Parse receiver_flags args with
  | inl e => mret (flag_exit e)
  | inr (f, rest) =>
      let port := int_flag "port" f in
      if (dsn =? "")%string || negb (length rest =? 0)%nat || (port <? 0) || (65535 <? port) then mret 2
      else
        r ← try (run_receiver dsn (bool_flag "init" f) port);
        mret (match r with inl _ => 1 | inr _ => 0 end)
  end.

End Run.
