(* ===== verification/ReceiverProps.v ===== *)
(** * ReceiverProps: every accepted delivery is one order *)

From Stdlib Require Import Ascii.
From S2P Require Import Prelude Rows Text Timestamp TimeParse Sha256 Json Marshal MarshalFacts CompactFacts.
From S2P Require Import Runtime Io Config Event Emit EmitProps Deliveries Worker Webhook WebhookProps Inbox InboxProps.
From S2P Require Import Flags Producer ProducerProps Receiver.

(** ** One request *)

Section Request.
Context (rc : receiver).

Definition delivery_of (key raw : string) : InboxDelivery := MkInboxDelivery (rc_table rc) key raw.

(** The receipt and the order were committed together: both are new. *)
Record recorded (name key digest : string) (event : orderEvent) (db db' : PgDB Orders) : Prop := {
  re_new : received name key db = None;
  re_receipt : received name key db' = Some digest;
  re_others : ∀ t k, (t, k) ≠ (name, key) → received t k db' = received t k db;
  re_aborted : pg_aborted db' = false;
  re_order : ∃ rows, pg_business db !! rc_orders rc = Some rows ∧ rows !! (oe_Source event, oe_ID event) = None ∧
    pg_business db' = <[rc_orders rc := <[(oe_Source event, oe_ID event) := oe_Subject event]> rows]> (pg_business db);
}.

Lemma processed_recorded name key digest event mode fault db db' :
  processed name key digest (order_handler (rc_orders rc) event mode fault) db db' →
  recorded name key digest event db db' ∧ mode ≠ "rollback".
Proof.
  intros (H1 & H2 & H3 & H4 & H5). unfold order_handler in H5. destruct fault; [done|].
  destruct (insert_received _ _ _) as [m|b'] eqn:Ei; [done|].
  destruct (mode =? "rollback")%string eqn:Em; [done|]. injection H5 as Eb. breflect. split; [|done].
  split; [done..|]. rewrite <- Eb. unfold insert_received in Ei. destruct (pg_business db !! rc_orders rc) as [rows|]; [|done].
  destruct (negb _); [done|]. destruct (rows !! _) eqn:Er; [done|]. injection Ei as <-. by exists rows.
Qed.

(** How an admitted request ends. *)
Definition request_post (event : orderEvent) (key mode raw : string) (env : Env) (db : PgDB Orders)
    (o : outcome Reply) (w' : World (PgDB Orders)) : Prop :=
  txn w' = None ∧ pg_aborted (disk w') = false ∧ ∃ r, o = Ok (answer mode r) ∧
  match prepareInbox (delivery_of key raw) true with
  | inl e => r = inl e ∧ disk w' = db
  | inr (name, digest) =>
      match r with
      | inr InboxProcessed => recorded name key digest event db (disk w') ∧ mode ≠ "rollback"
      | inr InboxDuplicate => received name key db = Some digest ∧ disk w' = db
      | inl _ => disk w' = db ∨ (faulty env ∧ recorded name key digest event db (disk w'))
      end
  end.

Lemma wp_attempt {D A} (m : M D A) env w (Q : outcome (result A) → World D → Prop) :
  wp m env w (λ o w', match o with
    | Ok a => Q (Ok (inr a)) w' | Fail e => Q (Ok (inl e)) w' | Crash => Q Crash w' end) →
  wp (attempt m) env w Q.
Proof. intros H. apply wp_elim in H. apply wp_intro. unfold attempt. by destruct (m env w) as [[]]. Qed.

Lemma ServeHTTP_wp ctx_err fault r event key mode raw (env : Env) (w : World (PgDB Orders)) :
  check_request r = inr (event, key, mode, raw) → txn w = None → pg_aborted (disk w) = false →
  wp (ServeHTTP rc ctx_err fault r) env w (request_post event key mode raw env (disk w)).
Proof.
  intros Ha Ht Hab. unfold ServeHTTP. rewrite Ha. wp_step. apply wp_attempt.
  destruct (prepareInbox (delivery_of key raw) true) as [e|[name digest]] eqn:Ep.
  - unfold WithInbox. fold (delivery_of key raw). rewrite Ep. wp_step. wp_step.
    split; [done|]. split; [done|]. exists (inl e). split; [done|]. by rewrite Ep.
  - eapply wp_mono; [apply (inbox_call_wp false ctx_err true (delivery_of key raw) _ name digest env w Ep Ht Hab)|].
    assert (∀ r w', txn w' = None → pg_aborted (disk w') = false → match r with
      | inr InboxProcessed => recorded name key digest event (disk w) (disk w') ∧ mode ≠ "rollback"
      | inr InboxDuplicate => received name key (disk w) = Some digest ∧ disk w' = disk w
      | inl _ => disk w' = disk w ∨ (faulty env ∧ recorded name key digest event (disk w) (disk w'))
      end → request_post event key mode raw env (disk w) (Ok (answer mode r)) w') as Hpost.
    { intros res w' H1 H2 H. split; [done|]. split; [done|]. exists res. split; [done|]. by rewrite Ep. }
    intros o w' [Ht' Ho]. destruct o as [[]|e|]; [..|done]; wp_step; simpl in Ho.
    + destruct (processed_recorded _ _ _ _ _ _ _ _ Ho) as [Hr Hm]. apply Hpost; [done | apply Hr | done].
    + destruct Ho as [Hr E]. apply Hpost; [done | by rewrite E | done].
    + destruct Ho as [E|[Hf Ho]]; [apply Hpost; [done | by rewrite E | by left]|].
      destruct (processed_recorded _ _ _ _ _ _ _ _ Ho) as [Hr Hm]. apply Hpost; [done | apply Hr | by right].
Qed.

(** The status of an answer to an error is never a success. *)
Lemma answer_error mode e : ∃ status text, answer mode (inl e) = Answer status text ∧ 400 <= status.
Proof.
  unfold answer, http_Error. destruct (errors_is e ErrInvalidDelivery); [by do 2 eexists|].
  destruct (errors_is e ErrInboxConflict); by do 2 eexists.
Qed.

Lemma request_refused r reply : check_request r = inl reply → ∃ status text, reply = Answer status text ∧ 400 <= status.
Proof.
  unfold check_request, http_Error. repeat case_match; intros [= <-]; by do 2 eexists.
Qed.

(** C40. What the receiver's answers mean, in every environment: it always
    answers; success, or a connection dropped in the failure mode that drops
    the response, means that the request was well formed and authorized and
    its receipt is in the inbox, with the order inserted in the same commit
    if the key was new and nothing changed otherwise; any other answer means
    that nothing changed, unless a call failed and the commit had taken
    effect. *)
Theorem receiver_answers ctx_err fault r (env : Env) (w : World (PgDB Orders)) :
  txn w = None → pg_aborted (disk w) = false →
  let '(o, w') := ServeHTTP rc ctx_err fault r env w in
  txn w' = None ∧ pg_aborted (disk w') = false ∧ ∃ reply, o = Ok reply ∧
  let done_once (duplicate : Prop) :=
    ∃ event key mode raw name digest, check_request r = inr (event, key, mode, raw) ∧ well_formed event = true ∧
      prepareInbox (delivery_of key raw) true = inr (name, digest) ∧
      (recorded name key digest event (disk w) (disk w') ∨
       (duplicate ∧ received name key (disk w) = Some digest ∧ disk w' = disk w)) in
  match reply with
  | Dropped => done_once True
  | Answer status _ => if status =? 200 then done_once True else disk w' = disk w ∨ (faulty env ∧ done_once False)
  end.
Proof.
  intros Ht Hab. destruct (check_request r) as [reply|[[[event key] mode] raw]] eqn:Ea.
  - destruct (request_refused _ _ Ea) as (status & text & -> & Hs). unfold ServeHTTP. rewrite Ea.
    split; [done|]. split; [done|]. eexists. split; [done|]. cbv beta iota zeta. destruct (status =? 200) eqn:E; breflect; [lia|by left].
  - pose proof (wp_elim _ _ _ _ (ServeHTTP_wp ctx_err fault r event key mode raw env w Ea Ht Hab)) as H.
    assert (well_formed event = true) as Hwf.
    { unfold check_request in Ea. repeat case_match; simplify_eq. by destruct (well_formed event). }
    destruct (ServeHTTP rc ctx_err fault r env w) as [o w']. destruct H as (H1 & H2 & res & Eo & H). simpl in H1, H2, Eo, H.
    split; [done|]. split; [done|]. eexists. split; [exact Eo|]. cbv zeta.
    destruct res as [e|res].
    + destruct (answer_error mode e) as (status & text & -> & Hs).
      destruct (status =? 200) eqn:E; breflect; [lia|].
      destruct (prepareInbox _ _) as [e'|[name digest]] eqn:Ep; [left; apply H|].
      destruct H as [?|[Hf Hr]]; [by left|]. right. split; [done|].
      exists event, key, mode, raw, name, digest. rewrite Ep. auto.
    + destruct (prepareInbox _ _) as [e'|[name digest]] eqn:Ep; [by destruct H|].
      assert (∃ ev k m rw n d, @inr Reply _ (event, key, mode, raw) = inr (ev, k, m, rw) ∧ well_formed ev = true ∧
        prepareInbox (delivery_of k rw) true = inr (n, d) ∧
        (recorded n k d ev (disk w) (disk w') ∨ True ∧ received n k (disk w) = Some d ∧ disk w' = disk w)) as Hd.
      { exists event, key, mode, raw, name, digest. rewrite Ep. destruct res; [destruct H; auto | auto 10]. }
      unfold answer. by destruct (mode =? "drop-response")%string.
Qed.

End Request.

(** ** Many requests *)

Definition inbox_name : string := DQUOTE +:+ "public" +:+ DQUOTE +:+ "." +:+ DQUOTE +:+ "writerelay_inbox" +:+ DQUOTE.

Lemma example_table : table_name (rc_table example_receiver) = inr inbox_name.
Proof. reflexivity. Qed.

Definition receipts (db : PgDB Orders) : gmap string string := default ∅ (pg_inbox db !! inbox_name).
Definition orders (db : PgDB Orders) : gmap (string * string) string :=
  default ∅ (pg_business db !! rc_orders example_receiver).

Lemma receipts_lookup db k : receipts db !! k = received inbox_name k db.
Proof. unfold receipts, received. destruct (pg_inbox db !! inbox_name); [done|]. apply lookup_empty. Qed.

(** The requests served so far, each in any environment, and what they made
    of the database. *)
Inductive served (db0 : PgDB Orders) : list HttpRequest → PgDB Orders → Prop :=
  | served_none : served db0 [] db0
  | served_next l db ctx_err fault r env k :
      served db0 l db →
      served db0 (r :: l) (disk (ServeHTTP example_receiver ctx_err fault r env (MkWorld db None k)).2).

(** The request asked for this order under this key. *)
Definition asked (r : HttpRequest) (event : orderEvent) (key digest : string) : Prop :=
  ∃ mode raw, check_request r = inr (event, key, mode, raw) ∧ digest = hex_encode (Sum256 raw).

(** Receipts and orders belong together, one to one. *)
Record in_step (l : list HttpRequest) (db : PgDB Orders) : Prop := {
  is_live : pg_aborted db = false;
  is_size : size (orders db) = size (receipts db);
  is_receipt : ∀ key digest, receipts db !! key = Some digest → ∃ r event, r ∈ l ∧ asked r event key digest ∧
    orders db !! (oe_Source event, oe_ID event) = Some (oe_Subject event);
  is_order : ∀ source id order, orders db !! (source, id) = Some order → ∃ r event key digest, r ∈ l ∧
    asked r event key digest ∧ (source, id, order) = (oe_Source event, oe_ID event, oe_Subject event) ∧
    receipts db !! key = Some digest;
}.

Lemma in_step_more r l db : in_step l db → in_step (r :: l) db.
Proof.
  intros [H1 H2 H3 H4]. split; [done|done|..].
  - intros key digest H. destruct (H3 _ _ H) as (r' & ev & Hr & ?). exists r', ev. split; [by right | done].
  - intros s i o H. destruct (H4 _ _ _ H) as (r' & ev & k & d & Hr & ?). exists r', ev, k, d. split; [by right | done].
Qed.

(** A commit adds one receipt and one order. *)
Lemma recorded_maps key digest event db db' :
  recorded example_receiver inbox_name key digest event db db' →
  receipts db !! key = None ∧ receipts db' = <[key := digest]> (receipts db) ∧
  orders db !! (oe_Source event, oe_ID event) = None ∧
  orders db' = <[(oe_Source event, oe_ID event) := oe_Subject event]> (orders db).
Proof.
  intros [H1 H2 H3 _ (rows & Hb & Hn & Hb')]. unfold Orders in *. rewrite receipts_lookup. split; [done|]. split; [|split].
  - apply map_eq. intros k. rewrite receipts_lookup. destruct (decide (k = key)) as [->|Hne].
    + by rewrite lookup_insert_eq.
    + rewrite lookup_insert_ne, receipts_lookup by done. apply H3. congruence.
  - unfold orders, Orders. by rewrite Hb.
  - unfold orders, Orders. rewrite Hb', lookup_insert_eq, Hb. done.
Qed.

Lemma in_step_recorded r l key digest event db db' :
  in_step l db → asked r event key digest → recorded example_receiver inbox_name key digest event db db' →
  in_step (r :: l) db'.
Proof.
  intros [H1 H2 H3 H4] Hask Hr. destruct (recorded_maps _ _ _ _ _ Hr) as (N1 & E1 & N2 & E2).
  split; [apply Hr | by rewrite E1, E2, !map_size_insert_None, H2 by done | |]; rewrite E1, E2.
  - intros k d H. apply lookup_insert_Some in H as [[<- <-]|[Hne H]].
    + exists r, event. split; [by left|]. split; [done|]. apply lookup_insert_eq.
    + destruct (H3 _ _ H) as (r' & ev & Hin & Ha & Ho). exists r', ev. split; [by right|]. split; [done|].
      rewrite lookup_insert_ne; [done|]. intros Heq. rewrite <- Heq in Ho. congruence.
  - intros s i o H. apply lookup_insert_Some in H as [[E <-]|[Hne H]].
    + exists r, event, key, digest. split; [by left|]. split; [done|]. injection E as <- <-.
      split; [done | apply lookup_insert_eq].
    + destruct (H4 _ _ _ H) as (r' & ev & k & d & Hin & Ha & E & Hk). exists r', ev, k, d.
      split; [by right|]. split; [done|]. split; [done|]. rewrite lookup_insert_ne; [done|]. congruence.
Qed.

Lemma ServeHTTP_in_step ctx_err fault r (env : Env) k l db :
  in_step l db → in_step (r :: l) (disk (ServeHTTP example_receiver ctx_err fault r env (MkWorld db None k)).2).
Proof.
  intros H. destruct (check_request r) as [reply|[[[event key] mode] raw]] eqn:Ea.
  { unfold ServeHTTP. rewrite Ea. by apply in_step_more. }
  pose proof (wp_elim _ _ _ _ (ServeHTTP_wp example_receiver ctx_err fault r event key mode raw env (MkWorld db None k)
    Ea eq_refl (is_live _ _ H))) as (_ & _ & res & _ & Hp). simpl in Hp.
  set (db' := disk _) in *.
  destruct (prepareInbox _ _) as [e|[name digest]] eqn:Ep; [destruct Hp as [_ ->]; by apply in_step_more|].
  destruct (prepare_inv _ _ _ Ep) as [_ Hd].
  assert (name = inbox_name) as ->.
  { unfold prepareInbox in Ep. destruct (_ || _); [done|]. unfold delivery_of in Ep. cbn [id_Table] in Ep.
    rewrite example_table in Ep. congruence. }
  assert (asked r event key digest) as Hask by (by exists mode, raw).
  assert (recorded example_receiver inbox_name key digest event db db' → in_step (r :: l) db') as Hrec
    by (intros; by eapply in_step_recorded).
  destruct res as [e|[]]; [destruct Hp as [E|[_ Hp]] | destruct Hp as [Hp _] | destruct Hp as [_ E]];
    first [rewrite E; by apply in_step_more | auto].
Qed.

Lemma initialize_receiver_wp (env : Env) (w : World (PgDB Orders)) :
  txn w = None → pg_aborted (disk w) = false →
  wp initialize_receiver env w (λ o w', txn w' = None ∧ match o with
    | Ok _ => in_step [] (disk w')
    | Fail _ => disk w' = disk w ∨ (faulty env ∧ in_step [] (disk w'))
    | Crash => False
    end).
Proof.
  intros Ht Hab. unfold initialize_receiver. fold (rc_table example_receiver). change (InboxTableSQL _) with
    (InboxTableSQL (rc_table example_receiver)). unfold InboxTableSQL.
  change (MkInboxTable "" "") with (rc_table example_receiver). rewrite example_table.
  wp_step. wp_step; [by split; [|left]|]. wp_step. wp_step. eapply wp_run_txn; [done| |]; simpl.
  { intros n k1 _. by split; [|left]. }
  intros n db1 [] k1 Hi. wp_step. eapply wp_run_txn; [done| |]; simpl.
  { intros n2 k2 _. by split; [|left]. }
  intros n2 db2 [] k2 Hc. unfold create_inbox in Hi. unfold create_orders in Hc.
  destruct (pg_inbox (disk w) !! inbox_name) eqn:E1; [done|]. injection Hi as <-. simpl in Hc.
  destruct (pg_business (disk w) !! "received_orders") eqn:E2; [done|]. injection Hc as <-.
  match goal with |- context [Some ?db] => assert (in_step [] db) as Hs end.
  { split; unfold orders, receipts, Orders in *; simpl; rewrite ?lookup_insert_eq; simpl; [done | by rewrite !map_size_empty | |].
    - intros key digest H. by rewrite lookup_empty in H.
    - intros s i o H. by rewrite lookup_empty in H. }
  eapply wp_commit; [done | | |]; simpl; intros; (split; [done|]); auto.
Qed.

(** C11. The receiver's tables stay in step: after [--init] and any number
    of requests, each with its own failures, cancellation and uncertain
    commits, there are as many orders as receipts; every receipt stands for
    an admitted request whose order is in the table, and every order comes
    from an admitted request whose key has its receipt.  So a delivery is
    never recorded twice, and none is acknowledged and lost. *)
Theorem receiver_in_step (env : Env) (w w0 : World (PgDB Orders)) l db :
  txn w = None → pg_aborted (disk w) = false → initialize_receiver env w = (Ok tt, w0) →
  served (disk w0) l db → in_step l db.
Proof.
  intros Ht Hab Hi Hs. pose proof (wp_elim _ _ _ _ (initialize_receiver_wp env w Ht Hab)) as H. rewrite Hi in H.
  induction Hs; [apply H | by apply ServeHTTP_in_step].
Qed.

(** ** From the producer to the receiver *)

(** Lookups in an object without repeated keys. *)
Lemma object_map_foldl ms k (m : gmap string string) :
  (∀ kv, kv ∈ ms → unmarshal_string kv.1 ≠ Some k) →
  foldl (λ m kv, match unmarshal_string kv.1 with Some k => <[k := kv.2]> m | None => m end) m ms !! k = m !! k.
Proof.
  revert m. induction ms as [|kv ms IH]; intros m H; [done|]. cbn [foldl].
  rewrite IH by (intros kv' Hin; apply H; by right).
  destruct (unmarshal_string kv.1) as [k'|] eqn:E; [|done]. apply lookup_insert_ne.
  intros ->. apply (H kv); [by left | done].
Qed.

Lemma object_map_member ms kv k :
  NoDup (map (λ kv, unmarshal_string kv.1) ms) → kv ∈ ms → unmarshal_string kv.1 = Some k →
  object_map ms !! k = Some kv.2.
Proof.
  unfold object_map. generalize (∅ : gmap string string) as m.
  induction ms as [|kv' ms IH]; intros m Hd Hin E; [by apply elem_of_nil in Hin|].
  cbn [map] in Hd. apply NoDup_cons in Hd as [Hn Hd]. apply elem_of_cons in Hin as [->|Hin].
  - cbn [foldl]. rewrite E. rewrite object_map_foldl; [apply lookup_insert_eq|].
    intros kv Hin Ek. apply Hn. rewrite E, <- Ek. by apply (list_elem_of_fmap_2 (λ kv, unmarshal_string kv.1)).
  - by apply IH.
Qed.

Lemma object_map_inv ms k raw :
  object_map ms !! k = Some raw → ∃ kv, kv ∈ ms ∧ unmarshal_string kv.1 = Some k ∧ kv.2 = raw.
Proof.
  unfold object_map.
  assert (∀ m : gmap string string, foldl (λ m kv, match unmarshal_string kv.1 with
      Some k => <[k := kv.2]> m | None => m end) m ms !! k = Some raw →
    m !! k = Some raw ∨ ∃ kv, kv ∈ ms ∧ unmarshal_string kv.1 = Some k ∧ kv.2 = raw) as H.
  { induction ms as [|kv ms IH]; intros m; [by left|]. cbn [foldl]. intros Hl.
    destruct (IH _ Hl) as [Hm|(kv' & Hin & ?)]; [|right; exists kv'; split; [by right | done]].
    destruct (unmarshal_string kv.1) as [k'|] eqn:E; [|by left].
    apply lookup_insert_Some in Hm as [[-> <-]|[_ ?]]; [|by left]. right. exists kv. split; [by left | done]. }
  intros Hl. by destruct (H _ Hl) as [?|?].
Qed.

(** The fields by name. *)
Definition field (name : string) (e : orderEvent) : string :=
  if (name =? "specversion")%string then oe_SpecVersion e
  else if (name =? "id")%string then oe_ID e
  else if (name =? "source")%string then oe_Source e
  else if (name =? "type")%string then oe_Type e
  else oe_Subject e.

Definition field_names : list string := ["specversion"; "id"; "source"; "type"; "subject"].

(** A member that names a field in full, with a string, or names none. *)
Definition plain_member (value : orderEvent) (kv : string * string) : Prop :=
  ∀ key, unmarshal_string kv.1 = Some key →
    ((key ∈ field_names ∧ unmarshal_string kv.2 = Some (field key value) ∧ field key value ≠ "") ∨ field_of key = None).

Lemma store_plain value acc kv key name :
  unmarshal_string kv.1 = Some key → plain_member value kv → name ∈ field_names →
  (store_member acc kv).2 = acc.2 ∧
  field name (store_member acc kv).1 = if decide (key = name) then field name value else field name acc.1.
Proof.
  intros Ek Hp Hn. unfold store_member. rewrite Ek. destruct (Hp key Ek) as [(Hk & Ev & Hne)|Hno].
  - assert (∃ body, kv.2 = String QUOTE body) as [body Eb].
    { unfold unmarshal_string in Ev. destruct kv.2 as [|c body]; [done|].
      destruct (c =? QUOTE)%char eqn:Ec; [apply Ascii.eqb_eq in Ec as ->; by exists body|].
      destruct (_ =? "null")%string; congruence. }
    rewrite Eb in *. rewrite Ascii.eqb_refl, Ev. unfold field_names in Hk, Hn.
    repeat (apply elem_of_cons in Hk as [->|Hk];
      [repeat (apply elem_of_cons in Hn as [->|Hn]; [done|]); by apply elem_of_nil in Hn|]).
    by apply elem_of_nil in Hk.
  - rewrite Hno. split; [done|]. destruct (decide (key = name)) as [->|]; [|done]. exfalso. unfold field_names in Hn.
    repeat (apply elem_of_cons in Hn as [->|Hn]; [done|]). by apply elem_of_nil in Hn.
Qed.

Lemma store_members value ms acc name :
  Forall (plain_member value) ms → name ∈ field_names →
  (foldl store_member acc ms).2 = acc.2 ∧
  field name (foldl store_member acc ms).1 =
    if decide (Some name ∈ map (λ kv, unmarshal_string kv.1) ms) then field name value else field name acc.1.
Proof.
  revert acc. induction ms as [|kv ms IH]; intros acc Hf Hn; [done|]. apply Forall_cons in Hf as [Hk Hf].
  cbn [foldl map]. destruct (IH (store_member acc kv) Hf Hn) as [E1 E2]. rewrite E1, E2.
  destruct (unmarshal_string kv.1) as [key|] eqn:Ek.
  2: { unfold store_member. rewrite Ek. split; [done|]. repeat case_decide; try done; set_solver. }
  destruct (store_plain value acc kv key name Ek Hk Hn) as [E3 E4]. rewrite E3, E4. split; [done|].
  repeat case_decide; try done; set_solver.
Qed.

Lemma Unmarshal_plain text ms value :
  Valid text = true → decode_object text = Some (ms, "") → Forall (plain_member value) ms →
  (∀ name, name ∈ field_names → Some name ∈ map (λ kv, unmarshal_string kv.1) ms) →
  Unmarshal text = Some value.
Proof.
  intros Hv Hd Hp Hk. unfold Unmarshal. rewrite Hv, Hd. cbn [negb].
  destruct (foldl store_member (no_event, true) ms) as [ev ok] eqn:E.
  assert (∀ name, name ∈ field_names → ok = true ∧ field name ev = field name value) as H.
  { intros name Hn. destruct (store_members value ms (no_event, true) name Hp Hn) as [H1 H2].
    rewrite E in H1, H2. rewrite decide_True in H2 by auto. done. }
  destruct (H "specversion") as [-> F1]; [set_solver|]. destruct (H "id") as [_ F2]; [set_solver|].
  destruct (H "source") as [_ F3]; [set_solver|]. destruct (H "type") as [_ F4]; [set_solver|].
  destruct (H "subject") as [_ F5]; [set_solver|].
  unfold field in F1, F2, F3, F4, F5. simpl in F1, F2, F3, F4, F5. destruct ev, value. simpl in *. congruence.
Qed.

(** What the receiver reads from the producer's message. *)
Definition order_received (id : string) : orderEvent :=
  MkOrderEvent "1.0" ("evt-go-" +:+ id) "urn:service:billing" "order.paid" id.

Definition envelope_names : list string := field_names ++ ["datacontenttype"; "data"].

Section EndToEnd.
Context {J : Jsonb} {laws : JsonbLaws J}.

(** The members of the order's envelope. *)
Lemma order_members id data name :
  id ≠ "" → utf8_valid 0 id = true →
  let o := object_map (raw_members true (envelope (with_defaults (order_event id)) data)) in
  (is_Some (o !! name) → name ∈ envelope_names) ∧
  (name ∈ field_names → decodeString <$> o !! name = Some (inr (field name (order_received id)))).
Proof.
  intros Hne Hu o.
  assert (utf8_valid 0 ("evt-go-" +:+ id) = true) as Hu2 by (by rewrite utf8_prefix).
  split.
  - unfold o. rewrite object_map_lookup by apply envelope_keys. intros [v Hl].
    unfold envelope, with_defaults, order_event in Hl. unfold envelope_names, field_names.
    destruct data; simpl app in Hl; cbn [last_member] in Hl;
      repeat match type of Hl with context [if (?a =? name)%string then _ else _] =>
        destruct (a =? name)%string eqn:?; breflect; [subst; set_solver|] end; done.
  - destruct (envelope_lookup (with_defaults (order_event id)) data) as [L1 L2 L3 L4 L5 _ _].
    fold o in L1, L2, L3, L4, L5. unfold field_names. intros Hn.
    repeat (apply elem_of_cons in Hn as [->|Hn];
      [rewrite ?L1, ?L2, ?L3, ?L4, ?L5; simpl; rewrite decode_quote by done; done|]).
    by apply elem_of_nil in Hn.
Qed.

Lemma Unmarshal_emitted id text :
  emitted id text → id ≠ "" → Unmarshal text = Some (order_received id).
Proof.
  intros He Hne. destruct (emitted_inv id text He) as (_ & (data & [Hv (ms & Hd & Hnd & Hs)]) & _).
  assert (utf8_valid 0 id = true) as Hu.
  { destruct He as (payload & Ee & _). destruct (encode_inv _ _ Ee) as [Hen _]. by apply (en_subject _ Hen). }
  assert (∀ name, name ∈ field_names → ∃ raw, object_map ms !! name = Some raw ∧
    unmarshal_string raw = Some (field name (order_received id))) as Hf.
  { intros name Hn. destruct (order_members id data name Hne Hu) as [_ H]. specialize (H Hn). rewrite <- Hs in H.
    destruct (object_map ms !! name) as [raw|]; [|done]. exists raw. split; [done|].
    simpl in H. injection H as H. unfold decodeString in H. by destruct (unmarshal_string raw); simplify_eq. }
  apply (Unmarshal_plain text ms); [done | done | |].
  - apply Forall_forall. intros kv Hin key Ek. pose proof (object_map_member ms kv key Hnd Hin Ek) as Hl.
    destruct (order_members id data key Hne Hu) as [Hnames _].
    assert (key ∈ envelope_names) as Hk.
    { apply Hnames. specialize (Hs key). rewrite Hl in Hs.
      match type of Hs with context [?m !! key] => destruct (m !! key) end; [by eexists | done]. }
    unfold envelope_names in Hk. apply elem_of_app in Hk as [Hk|Hk].
    + left. split; [done|]. destruct (Hf key Hk) as (raw & Hr & Hq). rewrite Hl in Hr. injection Hr as ->.
      split; [done|]. clear -Hk Hne. unfold field_names in Hk.
      repeat (apply elem_of_cons in Hk as [->|Hk]; [done|]). by apply elem_of_nil in Hk.
    + right. repeat (apply elem_of_cons in Hk as [->|Hk]; [done|]). by apply elem_of_nil in Hk.
  - intros name Hn. destruct (Hf name Hn) as (raw & Hr & _).
    destruct (object_map_inv _ _ _ Hr) as (kv & Hin & Ek & _). rewrite <- Ek.
    by apply (list_elem_of_fmap_2 (λ kv, unmarshal_string kv.1)).
Qed.

(** The webhook's request as it arrives. *)
Definition arrives (r : Request) : HttpRequest := MkHttp "POST" "/webhook" (rq_Header r) (rq_Body r) false.

(** The sender has the example's token. *)
Definition authorized (s : WebhookSender) : Prop := authorization s = "Bearer local-example-token".

Lemma request_arrives id text s now item :
  emitted id text → id ≠ "" → Payload item = text → authorized s →
  check_request (arrives (build_request s now item)) = inr (order_received id, deliveryKey item, "", text).
Proof.
  intros He Hne Ep Ha. destruct (emitted_inv id text He) as (Hl & _). unfold check_request, arrives, ReadAll.
  change (rq_Body (build_request s now item)) with (Payload item). rewrite Ep.
  cbn [hr_Method hr_Path hr_broken hr_Body orb negb String.eqb Ascii.eqb Bool.eqb].
  assert (∀ name, Values (MkHttp "POST" "/webhook" (rq_Header (build_request s now item)) text false) name =
    map snd (select (λ h, (h.1 =? name)%string) (rq_Header (build_request s now item)))) as Hval by done.
  unfold Get. rewrite !Hval. unfold build_request. rewrite Ha. cbn [rq_Header].
  rewrite (proj2 (Z.ltb_ge 262144 _)) by done. rewrite (Unmarshal_emitted id text He Hne).
  assert (well_formed (order_received id) = true) as ->.
  { unfold well_formed, order_received. simpl. apply String.eqb_neq in Hne. by rewrite Hne. }
  destruct (negb (String.length (signingSecret s) =? 0)%nat); reflexivity.
Qed.

(** A fresh delivery whose callback succeeds is processed. *)
Lemma fresh_processed {B} sql delivery (handle : Handler B) table digest rows b t db k :
  prepareInbox delivery true = inr (table, digest) → pg_aborted db = false →
  pg_inbox db !! table = Some rows → rows !! id_Key delivery = None →
  handle (pg_business db) = Returned None false b →
  ∃ k', inbox_call sql None true delivery (Some handle) (quiet_env t) (MkWorld db None k) =
    (Ok InboxProcessed, MkWorld (MkPg (<[table := <[id_Key delivery := digest]> rows]> (pg_inbox db)) b false) None k').
Proof.
  intros Hp Ha Ht Hr Hh. destruct (prepare_inv _ _ _ Hp) as [Hk Hd].
  assert (∀ n, insert_receipt table (id_Key delivery) digest n db =
    inr (MkPg (<[table := <[id_Key delivery := digest]> rows]> (pg_inbox db)) (pg_business db) false, 1)) as Hi.
  { intros n. unfold insert_receipt. rewrite Ha, Ht, Hk, Hr. by rewrite Hd, digest_is_key. }
  unfold inbox_call, WithInbox, WithInboxSQL. rewrite Hp.
  destruct sql; eexists; unfold runInbox, session_exec, sql_session, pgx_session, driver_call, run, exec,
    begin_tx, commit_tx, rollback_on_error, reject, call_handler, select_one, mbind, M_bind, mret, M_ret, current,
    store_current, query; cbn; rewrite ?Hi; cbn; rewrite Hh; cbn; reflexivity.
Qed.

Lemma serve_inbox r event key mode raw env w res w' :
  check_request r = inr (event, key, mode, raw) →
  inbox_call false None true (delivery_of example_receiver key raw)
    (Some (order_handler (rc_orders example_receiver) event mode None)) env w = (Ok res, w') →
  ServeHTTP example_receiver None None r env w = (Ok (answer mode (inr res)), w').
Proof.
  intros Ha Hc. unfold ServeHTTP. rewrite Ha. unfold inbox_call in Hc. unfold delivery_of in Hc.
  unfold attempt, mbind, M_bind. by rewrite Hc.
Qed.

Lemma prepare_item (item : Delivery) :
  Payload item ≠ "" →
  prepareInbox (delivery_of example_receiver (deliveryKey item) (Payload item)) true =
    inr (inbox_name, hex_encode (Sum256 (Payload item))).
Proof.
  intros Hp. unfold prepareInbox, delivery_of. cbn [id_Key id_Body id_Table]. unfold deliveryKey at 1.
  rewrite digest_is_key, example_table. by destruct (Payload item).
Qed.

Lemma emitted_nonempty id text : emitted id text → text ≠ "".
Proof. intros He ->. by destruct (emitted_inv id "" He) as (_ & (data & [Hv _]) & _). Qed.

(** The first attempt records the order, and every other is answered alike. *)
Lemma order_delivered id text s now (item : Delivery) t db k :
  emitted id text → id ≠ "" → authorized s → Payload item = text → pg_aborted db = false →
  is_Some (pg_inbox db !! inbox_name) → is_Some (pg_business db !! rc_orders example_receiver) →
  receipts db !! deliveryKey item = None → orders db !! ("urn:service:billing", "evt-go-" +:+ id) = None →
  ∃ db' k', ServeHTTP example_receiver None None (arrives (build_request s now item)) (quiet_env t) (MkWorld db None k) =
      (Ok (answer "" (inr InboxProcessed)), MkWorld db' None k') ∧
    orders db' = <[("urn:service:billing", "evt-go-" +:+ id) := id]> (orders db) ∧ pg_aborted db' = false ∧
    received inbox_name (deliveryKey item) db' = Some (hex_encode (Sum256 text)).
Proof.
  intros He Hne Ha Ep Hab [rows Hi] [ords Ho] Hk Hn.
  pose proof (request_arrives id text s now item He Hne Ep Ha) as Had.
  assert (validString id = true ∧ validString ("evt-go-" +:+ id) = true) as [Hv1 Hv2].
  { destruct He as (payload & Ee & _). unfold encode in Ee. destruct (negb _) eqn:E1; [done|].
    destruct (negb (_ =? "1.0")%string); [done|].
    cbn [order_event ev_ID ev_Source ev_Type ev_Subject] in E1, Ee. breflect.
    destruct (validString id); [|done]. split; [done|].
    match goal with H : required ("evt-go-" +:+ id) = true |- _ => unfold required in H; by breflect end. }
  unfold receipts in Hk. rewrite Hi in Hk. unfold orders, Orders in *. rewrite Ho in Hn. cbn [default from_option Datatypes.id] in Hk, Hn.
  assert (order_handler (rc_orders example_receiver) (order_received id) "" None (pg_business db) =
    Returned None false (<[rc_orders example_receiver :=
      <[("urn:service:billing", "evt-go-" +:+ id) := id]> ords]> (pg_business db))) as Hh.
  { unfold order_handler, insert_received. unfold Orders. rewrite Ho. cbn [order_received oe_Source oe_ID oe_Subject].
    rewrite Hv1, Hv2, Hn. reflexivity. }
  assert (prepareInbox (delivery_of example_receiver (deliveryKey item) text) true =
    inr (inbox_name, hex_encode (Sum256 text))) as Hpr.
  { rewrite <- Ep. apply prepare_item. rewrite Ep. by eapply emitted_nonempty. }
  destruct (fresh_processed false _ _ _ _ rows _ t db k Hpr Hab Hi Hk Hh) as [k' Hc].
  do 2 eexists. split; [by eapply serve_inbox|]. split; [|split; [done|]].
  - cbn [pg_business default from_option]. rewrite ?lookup_insert_eq, ?Ho. done.
  - unfold received. simpl. rewrite lookup_insert_eq. simpl. apply lookup_insert_eq.
Qed.

Lemma order_redelivered id text s now (item : Delivery) t db k :
  emitted id text → id ≠ "" → authorized s → Payload item = text → pg_aborted db = false →
  received inbox_name (deliveryKey item) db = Some (hex_encode (Sum256 text)) →
  ∃ k', ServeHTTP example_receiver None None (arrives (build_request s now item)) (quiet_env t) (MkWorld db None k) =
    (Ok (answer "" (inr InboxDuplicate)), MkWorld db None k').
Proof.
  intros He Hne Ha Ep Hab Hr. pose proof (request_arrives id text s now item He Hne Ep Ha) as Had.
  destruct (received_again false (delivery_of example_receiver (deliveryKey item) text)
    (order_handler (rc_orders example_receiver) (order_received id) "" None) inbox_name
    (hex_encode (Sum256 text)) t db k) as [k' Hc]; [|done|done|].
  { rewrite <- Ep. apply prepare_item. rewrite Ep. by eapply emitted_nonempty. }
  exists k'. by eapply serve_inbox.
Qed.

(** C9. End to end through the examples: when the producer exits with
    success, it has committed the order with exactly one message, and a
    webhook sink with the receiver's token that delivers this message, to a
    receiver that has neither a receipt for it nor the order and whose calls
    do not fail, is answered with success; the receiver then has the order, under the
    event's source and id, and every further attempt at the delivery, at
    any time and with any attempt number, is again answered with success
    and changes nothing. *)
Theorem order_reaches_receiver dsn args env w f out w' :
  txn w = None → Parse producer_flags args = inr (f, []) → bool_flag "rollback" f = false →
  producer_main dsn args env w = (Ok (0, out), w') →
  let id := string_flag "id" f in
  ∃ text, ap_messages (disk w') = ap_messages (disk w) ++ [text] ∧ ap_orders (disk w') !! id = Some "paid" ∧
  ∀ s now (item : Delivery) t db k, authorized s → Payload item = text → pg_aborted db = false →
    is_Some (pg_inbox db !! inbox_name) → is_Some (pg_business db !! rc_orders example_receiver) →
    receipts db !! deliveryKey item = None → orders db !! ("urn:service:billing", "evt-go-" +:+ id) = None →
    ∃ db' k', ServeHTTP example_receiver None None (arrives (build_request s now item)) (quiet_env t)
        (MkWorld db None k) = (Ok (answer "" (inr InboxProcessed)), MkWorld db' None k') ∧
      orders db' = <[("urn:service:billing", "evt-go-" +:+ id) := id]> (orders db) ∧
      ∀ now2 (again : Delivery) t2 k2,
        (SinkName again, Source again, ID again, Payload again) = (SinkName item, Source item, ID item, Payload item) →
        ∃ k3, ServeHTTP example_receiver None None (arrives (build_request s now2 again)) (quiet_env t2)
          (MkWorld db' None k2) = (Ok (answer "" (inr InboxDuplicate)), MkWorld db' None k3).
Proof.
  intros Ht Hp Hrb Hm id. unfold producer_main in Hm. rewrite Hp, Hrb in Hm. fold id in Hm.
  destruct (dsn =? "")%string; [done|]. destruct (id =? "")%string eqn:Hne; [done|]. cbn [orb negb length Nat.eqb] in Hm.
  apply String.eqb_neq in Hne.
  pose proof (wp_elim _ _ _ _ (recordOrder_wp id false env w Ht)) as H.
  destruct (recordOrder id false env w) as [[[]|e|] w1]; [|done|done]. injection Hm as _ <-.
  destruct H as [_ (text & He & E)]. simpl in E. exists text. rewrite E. cbn [ap_messages ap_orders].
  split; [done|]. split; [apply lookup_insert_eq|].
  intros s now item t db k Ha Ep Hab Hi Ho Hk Hn.
  destruct (order_delivered id text s now item t db k) as (db' & k' & Hs & Hord & Hab' & Hr); try done.
  exists db', k'. split; [done|]. split; [done|]. intros now2 again t2 k2 [= E1 E2 E3 E4].
  eapply order_redelivered; [done | done | done | congruence | done|].
  unfold deliveryKey in *. by rewrite E1, E2, E3.
Qed.

End EndToEnd.
