(* ===== verification/NoLoss.v ===== *)
(** * NoLoss: capture over the life of a spool

    A history of capture: replication sessions of any length that fail or
    die at any point, restarts of the process, and, in between, whatever the
    other users of the spool do as long as they leave its log and checkpoint
    alone, which [delivery_side_frame] shows of all of them. *)

From S2P Require Import Prelude Rows Text Timestamp Sha256 Runtime Spool Schema SchemaFacts.
From S2P Require Import Store StoreFacts StoreProps SpoolInterface.
From S2P Require Import Sinks SinkFacts Deliveries DeliveryFacts Prune PruneProps.
From S2P Require Import Event StateMachine StateMachineProps DiskGuard Config Io Slot.
From S2P Require Import Replicator ReplicatorFacts Stream ReplicatorProps.
From S2P Require Import DeliveryInterface Worker WorkerProps.

Section NoLoss.
Context {D : Type} {spool_store : SpoolStore D} {codec : LsnCodec} {wire : WireCodec}.
Context {validator : EventValidator} (cfg : Config).
Context (wal : list Transaction) (base : LSN).

(** The slot is not ahead of [base] and of what was acknowledged. *)
Definition slot_honest (r : RepState) (s : Session) : Prop :=
  ∀ l, slot_position cfg (ss_pg s) = Some l →
    l <= base ∨ Exists (λ k, l <= WALFlushPosition k) (rp_acks r).

(** A process that starts again; the updates it sent stay sent. *)
Definition restarted (r : RepState) : RepState :=
  MkRep (NewGuard (DiskSpace (SpoolSection cfg))) false 0 0 (rp_acks r).

Inductive capture_step : World D * RepState → World D * RepState → Prop :=
  | step_session net hooks s env w r o w' r' :
      serves cfg wal s → slot_honest r s →
      Replicator.runOnce cfg net hooks s env w r = (o, w', r') →
      capture_step (w, r) (recover w', r')
  | step_restart w r :
      capture_step (w, r) (recover w, restarted r)
  | step_other w w' r :
      sp_ok (disk w') → txn w' = None → (∀ a, sp_abs (disk w) a → sp_abs (disk w') a) →
      capture_step (w, r) (w', r).

(** The invariant of a history. *)
Definition capture_inv (x : World D * RepState) : Prop :=
  ∃ a, holds x.1 a ∧ captured_upto (session_machine cfg) wal base a ∧
    acks_below (Z.max base (a_checkpoint a)) x.2.

Lemma holds_recover {A} (o : outcome A) w a : left_with o w a → holds (recover w) a.
Proof. intros (H1 & H2 & _). by split. Qed.

Lemma capture_step_inv x y :
  0 <= MaxTransactionBytes (Postgres cfg) < 2 ^ 63 → commit_order wal → 0 <= base →
  capture_step x y → capture_inv x → capture_inv y.
Proof.
  intros Hcfg Hord Hb Hstep (a & Hh & Hcap & Hacks). destruct Hstep as
    [net hooks s env w r o w' r' Hserve Hslot E | w r | w w' r Hok Ht Habs]; simpl in *.
  - destruct (session_sound cfg net hooks wal base s env w r a o w' r') as (a' & Hl & Hcap' & Hacks' & _);
      try done.
    { intros Ez l Hl. destruct (Hslot l Hl) as [?|Hex]; [done|].
      apply Exists_exists in Hex as (k & Hk & Hle).
      pose proof (proj1 (Forall_forall _ _) Hacks k Hk). simpl in *. lia. }
    exists a'. split; [by eapply holds_recover | done].
  - exists a. split; [|done]. destruct Hh as (? & _ & ?). by split.
  - exists a. split; [|done]. destruct Hh as (_ & _ & ?). split; [done|]. split; [done | by apply Habs].
Qed.

(** C1. No loss, end to end: over every history of sessions, failures,
    crashes and restarts, with messages of other applications anywhere in the
    streams, each transaction of the server's log that ends
    after the start of capture and at or before an acknowledged position is
    completely in the spool, every protected event with its digest; so the
    server may discard everything it has been told is flushed. *)
Theorem no_loss w0 r0 w r t k :
  0 <= MaxTransactionBytes (Postgres cfg) < 2 ^ 63 → commit_order wal → 0 <= base →
  capture_inv (w0, r0) → rtc capture_step (w0, r0) (w, r) →
  t ∈ wal → base < tx_EndLSN t → k ∈ rp_acks r → tx_EndLSN t <= WALFlushPosition k →
  ∃ a, sp_abs (disk w) a ∧ tx_EndLSN t <= a_checkpoint a ∧ in_log (session_machine cfg) a t.
Proof.
  intros Hcfg Hord Hb Hinv Hsteps Ht Hlo Hk Hhi.
  assert (capture_inv (w, r)) as (a & (_ & _ & Habs) & Hcap & Hacks).
  { remember (w, r) as y eqn:Ey. clear Ey Hk. revert Hinv.
    induction Hsteps as [|x y' z Hstep _ IH]; intros Hinv; [done|].
    apply IH. by eapply capture_step_inv. }
  simpl in *. pose proof (proj1 (Forall_forall _ _) Hacks k Hk) as Hle. simpl in Hle.
  exists a. split; [done|]. split; [lia|]. apply Hcap; [done|lia].
Qed.

End NoLoss.

(** ** The other users of the spool *)

(** Log and checkpoint are the same. *)
Definition same_capture (db db' : DB) : Prop :=
  event_log db' = event_log db ∧ spool_metadata db' = spool_metadata db.

Lemma same_capture_represents {codec : LsnCodec} db db' a :
  same_capture db db' → represents db a → represents db' a.
Proof.
  intros [E1 E2] [H1 H2]. split; [congruence|]. unfold checkpoint in *. by rewrite E2.
Qed.

Lemma same_capture_events db db' :
  events db' = events db → spool_metadata db' = spool_metadata db → same_capture db db'.
Proof. intros E1 E2. split; [|done]. unfold event_log. by rewrite E1. Qed.

Lemma pruned_same_capture t seqs db : same_capture db (pruned_db t seqs db).
Proof.
  split; [|done]. unfold event_log, pruned_db. simpl. unfold pruned_events. rewrite map_map.
  apply map_ext. intros e. by destruct (bool_decide _).
Qed.

(** The operations of the delivery side. *)
Inductive SideOp :=
  | OpConfigure (rs : list SinkRegistration)
  | OpMarkDelivered (item : Delivery) (attempt status : Z) (at_ : time)
  | OpMarkFailed (item : Delivery) (attempt : Z) (permanent : bool) (retryAt : time)
      (failure : string) (status : Z) (at_ : time)
  | OpRedrive (sinkName source id : string) (at_ : time)
  | OpPrune (file : SpoolFile) (path : string) (options : PruneOptions) (hooks : Hooks).

Definition run_side (op : SideOp) (env : Env) (w : World DB) : World DB :=
  match op with
  | OpConfigure rs => (ConfigureSinks rs env w).2
  | OpMarkDelivered item a st t => (MarkDelivered item a st t env w).2
  | OpMarkFailed item a p rt m st t => (MarkFailed item a p rt m st t env w).2
  | OpRedrive n src id t => (RedriveDelivery n src id t env w).2
  | OpPrune file path options hooks => (pruneWithHooks file path options hooks env w).2
  end.

Definition side_typed (op : SideOp) : Prop :=
  match op with
  | OpConfigure rs => Forall reg_typed rs
  | OpMarkDelivered _ a _ _ => 0 <= a
  | OpMarkFailed _ a _ _ _ _ _ => 0 <= a
  | _ => True
  end.

Lemma record_post_frame item f env db o w' :
  (∀ d, delivery_key (f d) = delivery_key d) → (∀ d, delivery_ok (f d)) → sqlite_ok db →
  record_post item f env db o w' → sqlite_ok (disk w') ∧ same_capture db (disk w').
Proof.
  intros Hk Hok [Hwf Hcov] [_ H].
  assert (disk w' = db ∨ ∃ d, still_open item db d ∧
    disk w' = updated (EventSequence item) (SinkID item) f db) as [->|(d & Ho & ->)].
  { destruct o as [u|e|]; [right; exact H | | done]. destruct H as (_ & [[? _]|[? _]]); auto. }
  - done.
  - split; [split; [by eapply updated_wf | by apply covered_update]|]. by apply same_capture_events.
Qed.

Lemma sinks_configured_frame rs db db' :
  sinks_configured rs db db' → sqlite_ok db' ∧ same_capture db db'.
Proof.
  intros [Hwf Hcov _ _ _ (E1 & _ & E2 & _) _]. split; [done|]. by apply same_capture_events.
Qed.

(** Frame: sink registration, the recording of attempts, redrives and
    pruning keep the spool well formed and covered and leave the captured
    log and the checkpoint exactly as they were, whatever fails. *)
Theorem delivery_side_frame op env w :
  sqlite_ok (disk w) → txn w = None → side_typed op →
  let db' := disk (recover (run_side op env w)) in
  sqlite_ok db' ∧ same_capture (disk w) db'.
Proof.
  intros [Hwf Hcov] Ht Hty db'. assert (sqlite_ok (disk w)) as Hok by done.
  destruct op as [rs|item a st t|item a p rt m st t|n src id t|file path options hooks];
    unfold db'; cbn [run_side recover disk].
  - pose proof (ConfigureSinks_wp rs env w Hwf Ht Hty) as H. apply wp_elim in H.
    destruct (ConfigureSinks rs env w) as [[u|e|] w']; simpl in *; [| |done].
    + eapply sinks_configured_frame, H.
    + destruct H as (_ & [[-> _]|[? _]]); [done|]. by eapply sinks_configured_frame.
  - pose proof (MarkDelivered_wp item a st t env w Hwf Ht Hty) as H. apply wp_elim in H.
    eapply record_post_frame; [..|exact H]; auto with relay.
  - pose proof (MarkFailed_wp item a p rt m st t env w Hwf Ht Hty) as H. apply wp_elim in H.
    eapply record_post_frame; [..|exact H]; auto with relay.
  - pose proof (RedriveDelivery_wp n src id t env w Hwf Hcov Ht) as H. apply wp_elim in H.
    assert (∀ db, redriven n src id t (disk w) db → sqlite_ok db ∧ same_capture (disk w) db) as Hr.
    { intros db (d & _ & -> & ? & ?). split; [done|]. by apply same_capture_events. }
    destruct (RedriveDelivery n src id t env w) as [[u|e|] w']; simpl in *; [by apply Hr| |done].
    destruct H as [[-> _]|[_ ?]]; [done | by apply Hr].
  - destruct (prune_disk file path options hooks env w Hwf Ht) as [->|[E Hwf']]; [done|].
    rewrite E in *. unfold prune_result_db in *. destruct (po_DryRun options); [done|].
    split; [split; [done | by apply pruned_db_covered] | apply pruned_same_capture].
Qed.
