(* ===== verification/Stamped.v ===== *)
(** * Stamped: the time columns of the spool stay readable

    The listings and the statistics parse the timestamps in the tables, and
    the queue compares them as text; both rely on every column holding a
    time in the writer's format, which every operation keeps. *)

From S2P Require Import Prelude Rows Text Timestamp TimeParse Sha256 Runtime Spool Keeps.
From S2P Require Import Schema SchemaFacts Store Sinks Deliveries Prune Listing NoLoss.

(** ** The times a history writes *)

(** A time handed to the spool, with what it is the time of: the commit of an
    event, a reading of the spool's clock, an accepted or a failed attempt of
    a delivery, the retry scheduled for it, a redrive. *)
Inductive Write :=
  | WCommit (source id : string) (t : time)
  | WClock (t : time)
  | WAccepted (sequence sink : Z) (t : time)
  | WFailed (sequence sink : Z) (t : time)
  | WRetry (sequence sink : Z) (t : time)
  | WRedrive (t : time).

Definition write_time (w : Write) : time :=
  match w with
  | WCommit _ _ t | WClock t | WAccepted _ _ t | WFailed _ _ t | WRetry _ _ t | WRedrive t => t
  end.

(** ** Statements respect the timestamps *)

Section Written.
Context (W : Write → Prop).

(** The text is the time of a write of the kind [k], in the format [fmt]. *)
Definition wrote (fmt : time → string) (k : time → Write) (s : string) : Prop :=
  ∃ t, W (k t) ∧ s = fmt t.

Definition event_written (e : event_rec) : Prop :=
  wrote formatRFC3339Nano (WCommit (e_source e) (e_id e)) (e_commit_time e) ∧
  wrote formatRFC3339Nano WClock (e_captured_at e) ∧
  null_or (wrote formatTimestamp WClock) (e_pruned_at e).

Definition delivery_written (d : delivery_rec) : Prop :=
  (wrote formatTimestamp WClock (d_next d) ∨ wrote formatTimestamp WRedrive (d_next d) ∨
   wrote formatTimestamp (WRetry (d_event d) (d_sink d)) (d_next d)) ∧
  null_or (λ s, wrote formatTimestamp (WAccepted (d_event d) (d_sink d)) s ∨
                wrote formatTimestamp (WFailed (d_event d) (d_sink d)) s) (d_last d) ∧
  null_or (wrote formatTimestamp (WAccepted (d_event d) (d_sink d))) (d_delivered_at d) ∧
  null_or (wrote formatTimestamp (WFailed (d_event d) (d_sink d))) (d_dead_at d).

Record db_written (db : DB) : Prop := {
  wr_events : Forall event_written (events db);
  wr_deliveries : Forall delivery_written (deliveries db);
}.

(** Every reading of the clock is one of the writes. *)
Definition reads (t : time) : Prop := W (WClock t).

Lemma respects_insert_event row :
  (∀ seq, event_written (row seq)) → Respects db_written (insert_event row).
Proof.
  intros Hr n db db' a H [H1 H2]. unfold insert_event in H.
  destruct (negb _); [done|]. destruct (exists_where _ _); injection H as <- _; [done|].
  split; simpl; [|done]. apply Forall_app. split; [done|]. by constructor.
Qed.

Lemma insert_delivery_written d db db' :
  insert_delivery d db = inr db' → delivery_written d → db_written db → db_written db'.
Proof.
  unfold insert_delivery. intros H Hd [H1 H2].
  repeat case_match; simplify_eq; try done.
  split; simpl; [done|]. apply Forall_app. split; [done|]. by constructor.
Qed.

Lemma respects_insert_deliveries sel :
  (∀ db, Forall delivery_written (sel db)) → Respects db_written (insert_deliveries sel).
Proof.
  intros Hs n db db' a H Hst. unfold insert_deliveries in H.
  destruct (insert_delivery_rows (sel db) db) as [|db1] eqn:E; [done|]. injection H as <- _.
  specialize (Hs db). revert Hs E Hst. generalize (sel db) as rows. intros rows. revert db.
  induction rows as [|d rows IH]; intros db Hs; simpl; [by intros [= <-]|].
  apply Forall_cons in Hs as [Hd Hs]. destruct (insert_delivery d db) as [|db2] eqn:E2; [done|].
  intros E Hst. eapply IH; [done | exact E|]. by eapply insert_delivery_written.
Qed.

Lemma Forall_update_where {R} (Q : R → Prop) p f l :
  Forall Q l → (∀ x, p x = true → Q x → Q (f x)) → Forall Q (update_where p f l).
Proof.
  intros Hl Hf. apply Forall_forall. intros x Hx. apply elem_of_update_where in Hx as (y & Hy & ->).
  pose proof (proj1 (Forall_forall _ _) Hl y Hy). destruct (p y) eqn:E; auto.
Qed.

Lemma respects_update_deliveries p f :
  (∀ d, p d = true → delivery_written d → delivery_written (f d)) →
  Respects db_written (update_deliveries p f).
Proof.
  intros Hf n db db' a H [H1 H2]. unfold update_deliveries in H.
  destruct (exists_where _ _); [done|]. destruct (exists_where _ _); [done|]. injection H as <- _.
  split; simpl; [done|]. by apply Forall_update_where.
Qed.

Lemma respects_insert_sink row : Respects db_written (insert_sink row).
Proof.
  intros n db db' a H [H1 H2]. unfold insert_sink in H.
  destruct (negb _); [done|]. destruct (exists_where _ _); [done|]. by injection H as <- _.
Qed.

Lemma respects_update_sink id b : Respects db_written (update_sink_active id b).
Proof. by intros n db db' a [= <- _] [H1 H2]. Qed.

Lemma respects_upsert k v : Respects db_written (upsert_metadata k v).
Proof. by intros n db db' a [= <- _] [H1 H2]. Qed.

Lemma respects_update_pruned t seq :
  reads t → Respects db_written (update_pruned (formatTimestamp t) seq).
Proof.
  intros Ht n db db' a H [H1 H2]. unfold update_pruned in H. destruct (_ && _); [done|].
  injection H as <- _. split; simpl; [|done]. apply Forall_update_where; [done|].
  intros e _ (He1 & He2 & _). split; [done|]. split; [done|]. by exists t.
Qed.

Lemma wrote_format fmt k t : W (k t) → wrote fmt k (fmt t).
Proof. by exists t. Qed.

(** ** Operations *)

Section Operations.
Context {codec : LsnCodec}.

Local Hint Resolve respects_insert_sink respects_update_sink respects_upsert wrote_format : core.

Lemma pending_written seq sink t :
  reads t → delivery_written (pending_delivery seq sink (formatTimestamp t)).
Proof. intros Ht. split; [left; by apply wrote_format|]. done. Qed.

Lemma insertOrVerify_keeps c :
  W (WCommit (ce_Source c) (ce_ID c) (ce_CommitTime c)) → Keeps db_written reads (insertOrVerify c).
Proof.
  intros Hc. unfold insertOrVerify. keeps_tac. apply respects_insert_event. intros seq.
  split; [|split]; simpl; auto.
Qed.

Lemma ensureDeliveries_keeps seq : Keeps db_written reads (ensureDeliveriesForEvent seq).
Proof.
  unfold ensureDeliveriesForEvent. keeps_tac. apply respects_insert_deliveries. intros db.
  destruct (event_retained db seq); [|constructor]. apply Forall_forall.
  intros d (s & -> & _)%list_elem_of_fmap. by apply pending_written.
Qed.

Lemma validate_commit_time batch c i :
  validateCapturedEvent batch c i = None → ce_CommitTime c = cb_CommitTime batch.
Proof.
  unfold validateCapturedEvent. intros H. destruct (_ || _ || _); [done|].
  destruct (ce_CommitTime c =? cb_CommitTime batch) eqn:E; [by apply Z.eqb_eq|].
  by rewrite !orb_true_r in H.
Qed.

(** The commit time of the batch, for each of its events. *)
Definition batch_written (batch : CommittedBatch) : Prop :=
  ∀ c, c ∈ cb_Events batch → W (WCommit (ce_Source c) (ce_ID c) (cb_CommitTime batch)).

Lemma persist_keeps hooks batch :
  batch_written batch → Keeps db_written reads (PersistCommittedBatch hooks batch).
Proof.
  intros Hb. unfold PersistCommittedBatch, persist_event, persist_checkpoint, lastDurableLSNTx.
  autounfold with hooks. keeps_tac; auto.
  - apply insertOrVerify_keeps. erewrite validate_commit_time by done. by apply Hb.
  - apply ensureDeliveries_keeps.
Qed.

Lemma configure_keeps rs : Keeps db_written reads (ConfigureSinks rs).
Proof.
  unfold ConfigureSinks, configure_sink, scan_active, deactivate_sink.
  keeps_tac; auto. apply respects_insert_deliveries. intros db. apply Forall_forall.
  intros d (e & -> & _)%list_elem_of_fmap. by apply pending_written.
Qed.

Lemma record_keeps item f :
  (∀ d, d_event d = EventSequence item → d_sink d = SinkID item → delivery_written d → delivery_written (f d)) →
  Keeps db_written reads
    (result ← exec (update_deliveries (open_row item) f); expectOneDeliveryUpdate result).
Proof.
  intros Hf. unfold expectOneDeliveryUpdate. keeps_tac. apply respects_update_deliveries.
  intros d Hd. unfold open_row in Hd. breflect. by apply Hf.
Qed.

Lemma redrive_keeps n src id t : W (WRedrive t) → Keeps db_written reads (RedriveDelivery n src id t).
Proof.
  intros Ht. unfold RedriveDelivery. keeps_tac.
  intros k db db' a. apply (respects_update_deliveries _ (redriven_row t)).
  intros d _ _. split; [right; left; by exists t | done].
Qed.

Lemma prune_keeps file path options hooks :
  Keeps db_written reads (pruneWithHooks file path options hooks).
Proof.
  unfold pruneWithHooks, scan_candidate, prune_entry. autounfold with hooks.
  keeps_tac; by apply respects_update_pruned.
Qed.

(** The times that the caller passes, and what they are the times of. *)
Definition side_written (op : SideOp) : Prop :=
  match op with
  | OpMarkDelivered item _ _ t => W (WAccepted (EventSequence item) (SinkID item) t)
  | OpMarkFailed item _ _ rt _ _ t =>
      W (WRetry (EventSequence item) (SinkID item) rt) ∧ W (WFailed (EventSequence item) (SinkID item) t)
  | OpRedrive _ _ _ t => W (WRedrive t)
  | _ => True
  end.

(** An operation on the spool: capture of a batch, or the delivery side. *)
Inductive spool_step : DB → DB → Prop :=
  | step_persist hooks batch env k db :
      batch_written batch → clock_ok reads env →
      spool_step db (disk (PersistCommittedBatch hooks batch env (MkWorld db None k)).2)
  | step_side op env k db :
      side_written op → clock_ok reads env →
      spool_step db (disk (run_side op env (MkWorld db None k))).

Lemma spool_step_written db db' : spool_step db db' → db_written db → db_written db'.
Proof.
  intros Hs Hst. assert (∀ k, both db_written (MkWorld db None k)) as Hb by done.
  destruct Hs as [hooks batch env k db Hb' Hc | op env k db Hop Hc].
  - by apply persist_keeps.
  - destruct op; simpl in Hop |- *.
    + by apply configure_keeps.
    + apply record_keeps; [|done|done]. intros d E1 E2 (Hn & _).
      split; [done|]. simpl. rewrite E1, E2. auto.
    + destruct Hop. apply record_keeps; [|done|done]. intros d E1 E2 _.
      unfold delivery_written. simpl. rewrite E1, E2. destruct permanent; simpl; auto 6.
    + by apply redrive_keeps.
    + by apply prune_keeps.
Qed.

Lemma spool_steps_written db db' : rtc spool_step db db' → db_written db → db_written db'.
Proof. induction 1; eauto using spool_step_written. Qed.

Section Readable.
Context (Hyear : ∀ w, W w → four_digit_year (write_time w)).

Lemma wrote_nano k s :
  (∀ t, write_time (k t) = t) → wrote formatRFC3339Nano k s → ∃ t, W (k t) ∧ parse_time s = Some t.
Proof.
  intros Hk (t & Ht & ->). exists t. split; [done|]. apply parse_formatRFC3339Nano.
  rewrite <- (Hk t). by apply Hyear.
Qed.

Lemma wrote_fixed k s :
  (∀ t, write_time (k t) = t) → wrote formatTimestamp k s → ∃ t, W (k t) ∧ parse_time s = Some t.
Proof.
  intros Hk (t & Ht & ->). exists t. split; [done|]. apply parse_formatTimestamp.
  rewrite <- (Hk t). by apply Hyear.
Qed.

(** The listings and statistics ask for less: some time in the format. *)
Lemma written_stamped db : db_written db → db_stamped db.
Proof.
  intros [He Hd]. assert (∀ fmt k s, (∀ t, write_time (k t) = t) → wrote fmt k s →
    ∃ t, four_digit_year t ∧ s = fmt t) as Hw.
  { intros fmt k s Hk (t & Ht & ->). exists t. split; [|done]. rewrite <- (Hk t). by apply Hyear. }
  assert (∀ k o, (∀ t, write_time (k t) = t) → null_or (wrote formatTimestamp k) o →
    null_or fixed_text o) as Hn.
  { intros k [s|] Hk; [|done]. simpl. by apply Hw. }
  split.
  - eapply Forall_impl; [exact He|]. intros e (H1 & H2 & H3). split; [eapply Hw; [|exact H1]; done|].
    split; [eapply Hw; [|exact H2]; done | eapply Hn; [|exact H3]; done].
  - eapply Forall_impl; [exact Hd|]. intros d (H1 & H2 & H3 & H4).
    split; [destruct H1 as [H1|[H1|H1]]; (eapply Hw; [|exact H1]; done)|]. split; [|split; [eapply Hn; [|exact H3]; done | eapply Hn; [|exact H4]; done]].
    destruct (d_last d); [|done]. destruct H2 as [H2|H2]; (eapply Hw; [|exact H2]; done).
Qed.

End Readable.

(** C24. The time columns read back as what was written: over any history of
    captures, sink registrations, recorded attempts, redrives and prunes,
    each of which may fail or end the process at any statement, every
    timestamp in the spool parses, to the nanosecond, to the time it records:
    an event's commit time to the commit time of a batch that carried that
    event, its capture and prune times to readings of the clock, the times of
    a delivery to those of an attempt at that very delivery (accepted for
    [delivered_at], failed for [dead_lettered_at]), and its next-attempt time
    to a clock reading, a redrive or a retry scheduled for it; as long as the
    times given have years 0 to 9999. *)
Theorem spool_times_readable db db' :
  (∀ w, W w → four_digit_year (write_time w)) →
  db_written db → rtc spool_step db db' →
  (∀ e, e ∈ events db' →
     (∃ t, W (WCommit (e_source e) (e_id e) t) ∧ parse_time (e_commit_time e) = Some t) ∧
     (∃ t, W (WClock t) ∧ parse_time (e_captured_at e) = Some t) ∧
     (∀ s, e_pruned_at e = Some s → ∃ t, W (WClock t) ∧ parse_time s = Some t)) ∧
  (∀ d, d ∈ deliveries db' →
     (∃ t, (W (WClock t) ∨ W (WRedrive t) ∨ W (WRetry (d_event d) (d_sink d) t)) ∧
        parse_time (d_next d) = Some t) ∧
     (∀ s, d_last d = Some s →
        ∃ t, (W (WAccepted (d_event d) (d_sink d) t) ∨ W (WFailed (d_event d) (d_sink d) t)) ∧
          parse_time s = Some t) ∧
     (∀ s, d_delivered_at d = Some s →
        ∃ t, W (WAccepted (d_event d) (d_sink d) t) ∧ parse_time s = Some t) ∧
     (∀ s, d_dead_at d = Some s →
        ∃ t, W (WFailed (d_event d) (d_sink d) t) ∧ parse_time s = Some t)).
Proof.
  intros Hyear Hst Hs. destruct (spool_steps_written _ _ Hs Hst) as [He Hd]. split.
  - intros e Hin. destruct (proj1 (Forall_forall _ _) He e Hin) as (H1 & H2 & H3).
    split; [by eapply wrote_nano|]. split; [by eapply wrote_nano|].
    intros s E. rewrite E in H3. by eapply wrote_fixed.
  - intros d Hin. destruct (proj1 (Forall_forall _ _) Hd d Hin) as (H1 & H2 & H3 & H4).
    split; [|split; [|split]].
    + destruct H1 as [H1|[H1|H1]]; apply wrote_fixed in H1 as (t & Ht & E); eauto.
    + intros s E. rewrite E in H2. destruct H2 as [H2|H2]; apply wrote_fixed in H2 as (t & Ht & Ep); eauto.
    + intros s E. rewrite E in H3. by eapply wrote_fixed.
    + intros s E. rewrite E in H4. by eapply wrote_fixed.
Qed.

End Operations.
End Written.
