(* ===== verification/Demo.v ===== *)
(** * Demo: a small concrete system

    One sink, one captured transaction with one event, and the spool as the
    operations leave it.  The witnesses of the theorems use this data. *)

From Stdlib Require Import Ascii.
From S2P Require Import Prelude Rows Text Timestamp Duration Sha256 Runtime Spool Schema SchemaFacts.
From S2P Require Import Store StoreFacts StoreProps SpoolInterface.
From S2P Require Import Sinks SinkFacts Deliveries DeliveryFacts Prune PruneProps.
From S2P Require Import Json Event StateMachine StateMachineProps DiskGuard Config Io Slot.
From S2P Require Import Replicator ReplicatorFacts Stream ReplicatorProps.
From S2P Require Import DeliveryInterface Worker WorkerProps.

#[local] Existing Instance hex_lsn_codec.

(** 2023-11-14T22:13:20Z. *)
Definition demo_time : time := 1700000000 * Second.
Definition demo_env : Env := quiet_env demo_time.

Lemma demo_not_faulty : ¬ faulty demo_env.
Proof. apply quiet_not_faulty. Qed.

Definition demo_payload : string :=
  quoted "{'specversion':'1.0','id':'e1','source':'shop','type':'order.created'}".

Definition demo_regs : list SinkRegistration := [MkReg "hook" "webhook" (Sum256 "target")].

Lemma demo_regs_typed : Forall reg_typed demo_regs.
Proof. repeat constructor. Qed.

Lemma empty_wf : db_wf empty_db.
Proof.
  split; simpl; try (by constructor); try (by intros ? ?%not_elem_of_nil).
Qed.

Lemma empty_covered : db_covered empty_db.
Proof. by intros e s ?%not_elem_of_nil. Qed.

(** The spool after the start of the daemon. *)
Definition world0 : World DB := MkWorld empty_db None 0.
Definition world1 : World DB := (ConfigureSinks demo_regs demo_env world0).2.

Lemma world1_ok : sqlite_ok (disk world1) ∧ txn world1 = None.
Proof.
  pose proof (ConfigureSinks_wp demo_regs demo_env world0 empty_wf eq_refl demo_regs_typed) as H.
  apply wp_elim in H.
  assert ((ConfigureSinks demo_regs demo_env world0).1 = Ok tt) as E by (vm_compute; reflexivity).
  rewrite E in H. fold world1 in H. destruct H as (Ht & Hc & _).
  split; [split; apply Hc | exact Ht].
Qed.

#[global] Opaque world1.

(** A transaction of the server's log. *)
Definition demo_message : LogicalMessage := MkLogical true 900 "writerelay" demo_payload.
Definition demo_tx : Transaction :=
  MkTx 7 [Logical demo_message; TableChange] 1000 1100 demo_time.

Definition demo_capture : Config :=
  MkConfig 1
    (MkPostgres "postgres://localhost/shop" "" "slot" "events" "writerelay" (10 * Second) "10s" false 10 10000)
    (MkSpoolConfig "spool.db" 1000 (MkDiskSpace 100 200 (5 * Second) "5s"))
    (MkDeliveryConfig Second "1s" (10 * Second) "10s" (MkRetry Second "1s" (5 * Minute) "5m" 10) [])
    (MkMonitoring "" (15 * Second) "15s") (MkLogging "info" "text").

Definition demo_machine : StateMachine := session_machine demo_capture.
Definition demo_batch : CommittedBatch := batch_of demo_machine demo_tx.

Definition demo_event : CapturedEvent :=
  MkCaptured "shop" "e1" "order.created" "" demo_payload (Sum256 demo_payload)
    7 900 1000 1100 demo_time 0.

Lemma demo_batch_eq : demo_batch = MkBatch 7 1000 1100 demo_time [demo_event].
Proof. vm_compute. reflexivity. Qed.

Lemma demo_batch_valid : batch_valid demo_batch.
Proof.
  rewrite demo_batch_eq. split; [simpl; lia|]. intros i c Hi.
  apply list_lookup_singleton_Some in Hi as [-> <-]. vm_compute. reflexivity.
Qed.

Definition demo_abs1 : SpoolAbs := MkAbs [] 0.

Lemma world1_represents : represents (disk world1) demo_abs1.
Proof. split; vm_compute; reflexivity. Qed.

(** The spool after the capture of the transaction. *)
Definition world2 : World DB := (PersistCommittedBatch no_hooks demo_batch demo_env world1).2.
Definition demo_result : PersistResult := MkResult 1 0 1100.

Lemma demo_persisted :
  PersistCommittedBatch no_hooks demo_batch demo_env world1 = (Ok demo_result, world2).
Proof.
  assert ((PersistCommittedBatch no_hooks demo_batch demo_env world1).1 = Ok demo_result) as E
    by (vm_compute; reflexivity).
  unfold world2. rewrite <- E. apply surjective_pairing.
Qed.

#[global] Opaque world2 demo_batch.

Definition demo_abs2 : SpoolAbs := MkAbs [(("shop", "e1"), Sum256 demo_payload)] 1100.

Lemma world2_ok : sqlite_ok (disk world2) ∧ txn world2 = None ∧ represents (disk world2) demo_abs2.
Proof.
  destruct world1_ok as [Hok Ht].
  pose proof (sqlite_persist_spec no_hooks demo_batch demo_env world1 demo_abs1 Hok Ht
    world1_represents ltac:(vm_compute; split; [discriminate | reflexivity])) as H.
  apply wp_elim in H. rewrite demo_persisted in H. cbn [fst snd] in H.
  destruct H as (Hok2 & Ht2 & a' & Hsp & Hrep & _). split; [exact Hok2|]. split; [exact Ht2|].
  enough (a' = demo_abs2) as -> by exact Hrep.
  assert (spec_persist demo_batch demo_abs1 = Some demo_abs2) as E by (vm_compute; reflexivity).
  congruence.
Qed.

(** The delivery that is due then. *)
Definition demo_item : Delivery :=
  MkItem 1 1 "hook" "webhook" "shop" "e1" "order.created" "" demo_payload 0.

Lemma demo_due : next_due (formatTimestamp demo_time) (disk world2) = Some demo_item.
Proof. vm_compute. reflexivity. Qed.

Definition demo_row : delivery_rec := pending_delivery 1 1 (formatTimestamp demo_time).

Lemma demo_open : still_open demo_item (disk world2) demo_row.
Proof. split; [vm_compute; reflexivity | done]. Qed.

(** It is the head of its sink's line. *)
Lemma demo_head : head_of_line (disk world2) demo_row.
Proof.
  destruct world2_ok as ([Hwf _] & _ & _).
  apply (head_sequence_spec (disk world2) 1); [exact Hwf | | reflexivity | vm_compute; reflexivity].
  apply (delivery_at_Some (disk world2) 1 1); [exact Hwf | vm_compute; reflexivity].
Qed.

(** ** A replication session *)

(** A message of another application, outside any transaction. *)
Definition foreign_message : LogicalMessage := MkLogical false 890 "audit" "note".

(** A wire format of one letter per message. *)
Definition demo_parse (d : string) : option Message :=
  if (d =? "B")%string then Some (BeginMessage 7)
  else if (d =? "M")%string then Some (LogicalDecodingMessage demo_message)
  else if (d =? "T")%string then Some TableChangeMessage
  else if (d =? "F")%string then Some (LogicalDecodingMessage foreign_message)
  else if (d =? "C")%string then Some (CommitMessage 1000 1100 demo_time)
  else None.

Lemma demo_parse_typed d cl el t :
  demo_parse d = Some (CommitMessage cl el t) → in_uint64 cl ∧ in_uint64 el.
Proof.
  unfold demo_parse, in_uint64. repeat (destruct (_ =? _)%string; [intros H; try done|]);
    try done. injection H as <- <- _. lia.
Qed.

Definition demo_wire : WireCodec := {|
  PrimaryKeepaliveMessageByteID := "k";
  XLogDataByteID := "w";
  ParsePrimaryKeepaliveMessage := λ d, Some (d =? "r")%string;
  ParseXLogData := Some;
  Parse := demo_parse;
  Parse_typed := demo_parse_typed;
|}.

#[local] Existing Instance demo_wire.

Definition demo_inbox (start : LSN) : list Received :=
  if start <? 1100 then
    [RecvTimeout; RecvMessage (Some "wF"); RecvMessage (Some "wB"); RecvMessage (Some "kr"); RecvMessage (Some "wM");
     RecvMessage (Some "wT"); RecvMessage (Some "wC"); RecvTimeout]
  else [RecvTimeout].

(** The server has one slot, and its version is [version]. *)
Definition answers_of (version : Z) : PgAnswers :=
  MkAnswers None
    (λ name, inr (if (name =? "slot")%string
       then Some (MkSlotRow "slot" "pgoutput" "shop" false (Some "00000000/00000100") None) else None))
    None (λ _, None) None (λ _, inr None) (inr ("shop", version)).

Definition starts_slot (name : string) (_ : list string) (_ : LSN) : bool := (name =? "slot")%string.

Definition demo_session : Session :=
  MkSession (inr tt) (answers_of 160000) None starts_slot demo_inbox false [] 0 TimerFired.

Definition demo_net : Net := MkNet (λ _, inr 1000) (λ _, false) (λ _, false).

Definition demo_wal : list Transaction := [demo_tx].

Lemma demo_serves : serves demo_capture demo_wal demo_session.
Proof.
  intros l. exists (flat_map tx_messages (after l demo_wal)). split; [done|].
  simpl. unfold demo_inbox, after, demo_wal. simpl. destruct (l <? 1100); [|constructor].
  cbn. apply weaves_foreign; [reflexivity|]. apply weaves_refl.
Qed.

Definition rep0 : RepState := NewReplicator demo_capture.

Definition demo_spool : SpoolStore DB := sqlite_spool no_hooks.

(** ** A worker *)

Definition demo_sink : Sink := λ n item,
  Some (if (n =? 0)%nat then MkAttempt false true 0 503 "unavailable"
        else MkAttempt true false 0 200 "").

Definition demo_worker : WorkerConfig :=
  MkWorker {["hook" := demo_sink]} Second Second (60 * Second) 5.

Lemma world2_budget : within_budget demo_worker (disk world2).
Proof.
  intros q s st n. simpl. unfold sqlite_lookup.
  destruct world2_ok as ([Hwf _] & _ & _).
  destruct (delivery_at (disk world2) q s) as [d|] eqn:E; [|done]. intros [= <- <-].
  apply delivery_at_Some in E as (Hd & _ & _); [|exact Hwf].
  assert (deliveries (disk world2) = [demo_row]) as Eds by (vm_compute; reflexivity).
  rewrite Eds in Hd. apply list_elem_of_singleton in Hd as ->. simpl. split; [lia|]. lia.
Qed.
