(* ===== verification/Witness.v ===== *)
(** * Witness: the theorems at work on the demo system

    Each lemma applies one theorem of the development to concrete data and
    discharges its hypotheses there. *)

From Stdlib Require Import Ascii.
From S2P Require Import Prelude Rows Text Timestamp Sha256 Runtime Spool Schema SchemaFacts.
From S2P Require Import Store StoreFacts StoreProps SpoolInterface.
From S2P Require Import Sinks SinkFacts SinkProps Deliveries DeliveryFacts DeliveryProps.
From S2P Require Import Prune PruneProps Json Event StateMachine StateMachineProps DiskGuard Config Io Slot.
From S2P Require Import Replicator ReplicatorFacts Stream ReplicatorProps.
From S2P Require Import DeliveryInterface Worker WorkerProps NoLoss Demo.

#[local] Existing Instance hex_lsn_codec.
#[local] Existing Instance demo_wire.

(** ** Capture *)

Lemma demo_end_typed : in_uint64 (cb_CommitEndLSN demo_batch).
Proof. rewrite demo_batch_eq. unfold in_uint64. simpl. lia. Qed.

Lemma persist_refines_witness :
  ∃ a', spec_persist demo_batch demo_abs1 = Some a' ∧ represents (disk world2) a' ∧
    pr_DurableLSN demo_result = a_checkpoint a' ∧
    pr_Inserted demo_result = Z.of_nat (length (a_log a')) - Z.of_nat (length (a_log demo_abs1)) ∧
    pr_Inserted demo_result + pr_Replayed demo_result = Z.of_nat (length (cb_Events demo_batch)).
Proof.
  pose proof (persist_refines no_hooks demo_batch demo_env world1 demo_abs1
    (proj1 (proj1 world1_ok)) (proj2 world1_ok) world1_represents demo_end_typed) as H.
  rewrite demo_persisted in H. exact H.
Defined.

Lemma persist_invariant_witness :
  let w' := recover (PersistCommittedBatch no_hooks demo_batch demo_env world1).2 in
  db_wf (disk w') ∧ db_covered (disk w') ∧ rows_kept (disk world1) (disk w').
Proof.
  exact (persist_invariant no_hooks demo_batch demo_env world1 0 (proj1 (proj1 world1_ok))
    (proj2 (proj1 world1_ok)) (proj2 world1_ok) (proj2 world1_represents)).
Defined.

Lemma persist_decides_witness :
  match spec_persist demo_batch demo_abs1, PersistCommittedBatch no_hooks demo_batch demo_env world1 with
  | Some a', (Ok r, w') => represents (disk w') a' ∧ pr_DurableLSN r = a_checkpoint a'
  | None, (Fail e, w') => errors_is e ErrIdentityConflict = true ∧ disk w' = disk world1
  | _, _ => False
  end.
Proof.
  exact (persist_decides demo_batch demo_env world1 demo_abs1 (proj1 (proj1 world1_ok))
    (proj2 world1_ok) world1_represents demo_end_typed demo_batch_valid demo_not_faulty).
Defined.

Lemma persist_replay_witness :
  ∃ w2, PersistCommittedBatch no_hooks demo_batch demo_env world2 =
      (Ok (MkResult 0 (Z.of_nat (length (cb_Events demo_batch))) (pr_DurableLSN demo_result)), w2) ∧
    disk w2 = disk world2.
Proof.
  exact (persist_replay no_hooks demo_batch demo_env world1 0 demo_result world2 demo_env
    (proj1 (proj1 world1_ok)) (proj2 (proj1 world1_ok)) (proj2 world1_ok)
    (proj2 world1_represents) demo_end_typed demo_persisted demo_not_faulty).
Defined.

(** ** Sinks *)

Lemma configure_result_witness :
  match ConfigureSinks demo_regs demo_env world0 with
  | (Ok _, w') => sinks_configured demo_regs (disk world0) (disk w')
  | (Fail _, w') => disk w' = disk world0 ∨ sinks_configured demo_regs (disk world0) (disk w')
  | (Crash, _) => False
  end.
Proof.
  exact (configure_result demo_regs demo_env world0 empty_wf eq_refl demo_regs_typed).
Defined.

(** The sink cannot be dropped while its delivery is pending. *)
(** ** Deliveries *)

Lemma next_due_in_order_witness :
  match NextDueDelivery demo_time demo_env world2 with
  | (Ok (Some item), w') => disk w' = disk world2 ∧
      ∃ e s d, first_due (disk world2) (formatTimestamp demo_time) e s d ∧ carries item e s d ∧
        e_pruned_at e = None ∧ e_sha256 e = Sum256 (Payload item)
  | (Ok None, w') => disk w' = disk world2 ∧
      ∀ e s d, ¬ due (disk world2) (formatTimestamp demo_time) e s d
  | (Fail _, w') => disk w' = disk world2 ∧ faulty demo_env
  | (Crash, _) => False
  end.
Proof.
  exact (next_due_in_order demo_time demo_env world2 (proj1 (proj1 world2_ok))
    (proj1 (proj2 world2_ok))).
Defined.

Definition demo_retry : time := demo_time + 5 * Second.
Definition world3 : World DB :=
  (MarkFailed demo_item 1 false demo_retry "unavailable" 503 demo_time demo_env world2).2.

Lemma demo_failed :
  MarkFailed demo_item 1 false demo_retry "unavailable" 503 demo_time demo_env world2 = (Ok tt, world3).
Proof.
  assert ((MarkFailed demo_item 1 false demo_retry "unavailable" 503 demo_time demo_env world2).1
    = Ok tt) as E by (vm_compute; reflexivity).
  unfold world3. rewrite <- E. apply surjective_pairing.
Qed.

#[global] Opaque world3.

Lemma retry_holds_the_line_witness :
  next_due (formatTimestamp demo_time) (disk world3) = None ∧
  ∃ e s d, due (disk world3) (formatTimestamp demo_retry) e s d ∧ e_sequence e = 1.
Proof.
  split; [vm_compute; reflexivity|].
  destruct (retry_holds_the_line demo_item 1 demo_retry "unavailable" 503 demo_time demo_env world2
    world3 demo_retry (proj1 (proj1 world2_ok)) (proj1 (proj2 world2_ok)) ltac:(lia)
    ltac:(unfold four_digit_year, demo_retry, demo_time, Second; lia)
    ltac:(unfold four_digit_year, demo_retry, demo_time, Second; lia) demo_failed) as [_ H].
  assert (∃ s, s ∈ delivery_sinks (disk world3) ∧ s_id s = 1 ∧ s_active s = true) as (s & Hs & Ei & Ea).
  { assert (∃ s, delivery_sinks (disk world3) = [s] ∧ s_id s = 1 ∧ s_active s = true)
      as (s & E & Hs) by (vm_compute; eauto).
    exists s. rewrite E. split; [left | exact Hs]. }
  destruct (proj2 (H ltac:(lia) s Hs Ei Ea)) as (e & d & Hd & Ee); [|by exists e, s, d].
  intros d (Hd & Es & Hn). exact (proj2 (proj2 demo_head) d Hd Es Hn).
Defined.

Lemma redrive_effect_witness :
  match RedriveDelivery "hook" "shop" "e1" demo_time demo_env world2 with
  | (Ok _, w') => redriven "hook" "shop" "e1" demo_time (disk world2) (disk w')
  | (Fail e, w') =>
      (disk w' = disk world2 ∧
       (faulty demo_env ∨ ∀ d, ¬ dead_letter_of (disk world2) "hook" "shop" "e1" d)) ∨
      (faulty demo_env ∧ redriven "hook" "shop" "e1" demo_time (disk world2) (disk w'))
  | (Crash, _) => False
  end.
Proof.
  exact (redrive_effect "hook" "shop" "e1" demo_time demo_env world2 (proj1 (proj1 world2_ok))
    (proj2 (proj1 world2_ok)) (proj1 (proj2 world2_ok))).
Defined.

(** ** Pruning *)

Definition demo_file : SpoolFile := MkSpoolFile (Some true) "wal".
Definition demo_prune : PruneOptions := MkPruneOptions (demo_time - Hour) 10 false.

Lemma prune_safe_witness :
  let db' := disk (recover (pruneWithHooks demo_file "spool.db" demo_prune no_hooks demo_env world2).2) in
  db_wf db' ∧ db_covered db' ∧ deliveries db' = deliveries (disk world2) ∧
  delivery_sinks db' = delivery_sinks (disk world2) ∧
  spool_metadata db' = spool_metadata (disk world2) ∧
  Forall2 (λ e e', e' = e ∨
    (e' = with_pruned (formatTimestamp (prune_time demo_env world2)) e ∧ e_pruned_at e = None ∧
     fully_delivered (formatTimestamp (po_Before demo_prune)) (disk world2) e))
    (events (disk world2)) (events db').
Proof.
  exact (prune_safe demo_file "spool.db" demo_prune no_hooks demo_env world2
    (proj1 (proj1 world2_ok)) (proj2 (proj1 world2_ok)) (proj1 (proj2 world2_ok))).
Defined.

(** ** State machine and validator *)

Lemma demo_machine_wf : sm_wf demo_machine.
Proof. apply sm_wf_new. simpl. lia. Qed.

Lemma demo_consumed :
  consume_all (tx_messages demo_tx) demo_machine = (reset demo_machine, [demo_batch], None).
Proof. vm_compute. reflexivity. Qed.

Lemma transaction_assembled_witness :
  tx_ok demo_machine demo_tx ∧ [demo_batch] = [batch_of demo_machine demo_tx].
Proof.
  pose proof (transaction_assembled demo_machine demo_tx demo_machine_wf eq_refl) as H.
  rewrite demo_consumed in H. destruct H as (Hok & Hb & _). exact (conj Hok Hb).
Defined.

Definition demo_stream : list Message :=
  [LogicalDecodingMessage foreign_message; BeginMessage 7; LogicalDecodingMessage demo_message;
   TableChangeMessage; CommitMessage 1000 1100 demo_time].

Definition demo_captured : CommittedBatch := MkBatch 7 1000 1100 demo_time [demo_event].

Lemma demo_stream_consumed :
  consume_all demo_stream (NewStateMachine "writerelay" 1000 10 10000) =
    (NewStateMachine "writerelay" 1000 10 10000, [demo_captured], None).
Proof. vm_compute. reflexivity. Qed.



(** ** Disk guard *)

Definition demo_disk : DiskSpaceConfig := DiskSpace (SpoolSection demo_capture).

(** A guard that has seen the disk below the pause threshold. *)
Definition paused_guard : Guard := (Check demo_time (inr 50) true (NewGuard demo_disk)).1.

Lemma paused_guard_of : guard_of demo_disk paused_guard.
Proof. by vm_compute. Qed.

(** ** Replication *)

#[local] Existing Instance demo_spool | 0.

(** One session from an empty log: it captures and acknowledges the demo
    transaction. *)
Definition demo_run : outcome unit * World DB * RepState :=
  Replicator.runOnce demo_capture demo_net no_hooks demo_session demo_env world1 rep0.
Definition rep1 : RepState := demo_run.2.
Definition world4 : World DB := demo_run.1.2.

Lemma demo_run_ok : demo_run.1.1 = Ok tt.
Proof. vm_compute. reflexivity. Qed.

Lemma demo_run_acks : rp_acks rep1 =
  [MkStandby 256 256 256; MkStandby 256 256 256; MkStandby 1100 1100 1100; MkStandby 1100 1100 1100].
Proof. vm_compute. reflexivity. Qed.

Lemma demo_run_eq :
  Replicator.runOnce demo_capture demo_net no_hooks demo_session demo_env world1 rep0
  = (Ok tt, world4, rep1).
Proof. fold demo_run. rewrite <- demo_run_ok. unfold world4, rep1. by destruct demo_run as [[o w] r]. Qed.

#[global] Opaque demo_run world4 rep1.

Lemma acknowledged_is_durable_witness :
  ∃ a' new, sqlite_ok (disk world4) ∧ represents (disk world4) a' ∧ 0 <= a_checkpoint a' ∧
    rp_acks rep1 = [] ++ new ∧
    Forall (λ k, ∃ l, k = MkStandby l l l ∧ (l <= a_checkpoint a' ∨
      (0 = 0 ∧ slot_position demo_capture (ss_pg demo_session) = Some l))) new.
Proof.
  exact (acknowledged_is_durable demo_capture demo_net no_hooks demo_session demo_env world1 rep0
    demo_abs1 (Ok tt) world4 rep1 (proj1 world1_ok) (proj2 world1_ok) world1_represents demo_run_eq).
Defined.

(** A connection that breaks, then a server that is too old, which ends the
    replicator. *)
Definition lost_connection : Session :=
  MkSession (inr tt) (answers_of 160000) (Some (errorf "connection refused")) starts_slot demo_inbox false []
    0 TimerFired.
Definition old_server : Session :=
  MkSession (inr tt) (answers_of 130000) None starts_slot demo_inbox false [] 0 TimerFired.

Definition old_run : outcome unit * World DB * RepState :=
  Replicator.Run demo_capture demo_net no_hooks [lost_connection; old_server; demo_session] Second demo_env
    world1 rep0.
Definition old_error : error :=
  wrapf ErrUnsupportedVersion "server_version_num=%d, supported range is PostgreSQL 14 through 18".

Lemma old_run_eq :
  Replicator.Run demo_capture demo_net no_hooks [lost_connection; old_server; demo_session] Second demo_env
    world1 rep0 = (Fail old_error, old_run.1.2, old_run.2).
Proof.
  assert (old_run.1.1 = Fail old_error) as E by (vm_compute; reflexivity).
  fold old_run. rewrite <- E. by destruct old_run as [[o w] r].
Qed.


(** The acknowledged transaction is in the spool. *)
Lemma demo_order : commit_order demo_wal.
Proof. repeat constructor. Qed.

Lemma demo_inv : capture_inv demo_capture demo_wal 256 (world1, rep0).
Proof.
  exists demo_abs1. split; [exact (conj (proj1 world1_ok) (conj (proj2 world1_ok) world1_represents))|].
  split; [|constructor]. intros t _. simpl. lia.
Qed.

Lemma demo_honest : slot_honest demo_capture 256 rep0 demo_session.
Proof. intros l H. left. vm_compute in H. injection H as <-. lia. Qed.

Lemma demo_history : rtc (capture_step demo_capture demo_wal 256) (world1, rep0) (recover world4, rep1).
Proof.
  apply rtc_once. exact (step_session demo_capture demo_wal 256 demo_net no_hooks demo_session demo_env
    world1 rep0 (Ok tt) world4 rep1 demo_serves demo_honest demo_run_eq).
Qed.

Lemma demo_in_wal : demo_tx ∈ demo_wal.
Proof. left. Qed.

Lemma demo_acked : MkStandby 1100 1100 1100 ∈ rp_acks rep1.
Proof. rewrite demo_run_acks. do 2 right. left. Qed.

Lemma no_loss_witness :
  ∃ a, represents (disk (recover world4)) a ∧ 1100 <= a_checkpoint a ∧
    in_log (session_machine demo_capture) a demo_tx.
Proof.
  exact (no_loss demo_capture demo_wal 256 world1 rep0 (recover world4) rep1 demo_tx
    (MkStandby 1100 1100 1100) ltac:(simpl; lia) demo_order ltac:(lia) demo_inv demo_history
    demo_in_wal ltac:(simpl; lia) demo_acked ltac:(simpl; lia)).
Defined.

(** ** Delivery worker *)

(** Nothing is cancelled. *)
Definition quiet : nat → bool := λ _, false.
Definition first_step : outcome bool * World DB * SendLog :=
  ProcessOne demo_worker no_hooks quiet demo_env world2 [].

Lemma first_step_eq :
  ProcessOne demo_worker no_hooks quiet demo_env world2 [] = (Ok true, first_step.1.2, first_step.2).
Proof.
  assert (first_step.1.1 = Ok true) as E by (vm_compute; reflexivity).
  fold first_step. rewrite <- E. by destruct first_step as [[o w] l].
Qed.

Lemma world2_fit : attempts_fit (disk world2).
Proof.
  intros q s st n H. destruct (world2_budget q s st n H) as [Hn _]. simpl in Hn. unfold maxInt64. lia.
Qed.

(** The first request fails with a status that may be retried. *)
Lemma process_one_effect_witness :
  sqlite_ok (disk first_step.1.2) ∧
  pair_marked ds_lookup demo_item (retry_wait, 1) (disk world2) (disk first_step.1.2).
Proof.
  assert (ds_ok (disk world2)) as Hok by exact (proj1 world2_ok).
  destruct (process_one_effect demo_worker no_hooks quiet demo_env world2 [] (Ok true) first_step.1.2
    first_step.2 Hok (proj1 (proj2 world2_ok)) world2_fit first_step_eq)
    as [H1 [[E _]|(item & result & E & _ & _ & H)]]; [vm_compute in E; discriminate E|].
  assert (first_step.2 = [(demo_item, MkAttempt false true 0 503 "unavailable")]) as E'
    by (vm_compute; reflexivity).
  rewrite E' in E. injection E as <- <-. split; [exact H1|].
  destruct H as [[_ [Hf|[[[n Hn] _]|Hc]]]|H]; [destruct (demo_not_faulty Hf)|discriminate Hn|discriminate Hc|].
  exact H.
Defined.

(** A run whose only request is accepted. *)
Definition good_sink : Sink := λ _ _, Some (MkAttempt true false 0 200 "").
Definition good_worker : WorkerConfig := MkWorker {["hook" := good_sink]} Second Second (60 * Second) 5.
Definition good_run : outcome unit * World DB * SendLog :=
  Worker.Run good_worker no_hooks quiet [TimerTick; TimerTick] demo_env world2 [].

Lemma good_run_eq :
  Worker.Run good_worker no_hooks quiet [TimerTick; TimerTick] demo_env world2 []
  = (Ok tt, good_run.1.2, good_run.2).
Proof.
  assert (good_run.1.1 = Ok tt) as E by (vm_compute; reflexivity).
  fold good_run. rewrite <- E. by destruct good_run as [[o w] l].
Qed.

Lemma good_lookup : ds_lookup (disk good_run.1.2) 1 1 = Some (delivered, 1).
Proof. vm_compute. reflexivity. Qed.

Lemma good_requests : requests 1 1 good_run.2 = 1.
Proof. vm_compute. reflexivity. Qed.

#[global] Opaque good_run.

Lemma delivered_means_accepted_witness :
  ds_lookup (disk world2) 1 1 = Some (delivered, 1) ∨ sink_accepted good_run.2 1 1.
Proof.
  apply (delivered_means_accepted good_worker no_hooks quiet [TimerTick; TimerTick] demo_env world2 []
    (Ok tt) good_run.1.2 good_run.2).
  - unfold maxInt64. simpl. lia.
  - exact (proj1 world2_ok).
  - exact (proj1 (proj2 world2_ok)).
  - exact world2_budget.
  - exact good_run_eq.
  - exact good_lookup.
Defined.

Lemma attempts_bounded_witness :
  within_budget good_worker (disk good_run.1.2) ∧
  1 - requests 1 1 [] = attempts_of (disk good_run.1.2) 1 1 - attempts_of (disk world2) 1 1.
Proof.
  destruct (attempts_bounded good_worker no_hooks quiet [TimerTick; TimerTick] demo_env world2 []
    (Ok tt) good_run.1.2 good_run.2) as [Hb Hr].
  - unfold maxInt64. simpl. lia.
  - exact (proj1 world2_ok).
  - exact (proj1 (proj2 world2_ok)).
  - exact world2_budget.
  - exact good_run_eq.
  - split; [exact Hb|]. rewrite <- good_requests. apply Hr; [apply demo_not_faulty | done | done].
Defined.
