(* ===== verification/WitnessService.v ===== *)
(** * WitnessService: the theorems about the service on a concrete system

    A configuration with one webhook, a spool opened with it, and a
    receiver with an inbox. *)

From Stdlib Require Import Ascii.
From S2P Require Import Prelude Rows Text Timestamp TimeParse Sha256 Json Runtime Spool Schema SchemaFacts.
From S2P Require Import Store StoreFacts StoreProps SpoolInterface.
From S2P Require Import Sinks SinkFacts Deliveries DeliveryFacts Listing Prune Migrate ListingProps.
From S2P Require Import Stats StatsProps Event CompactFacts Emit EmitProps StateMachine DiskGuard Config Slot Setup SetupProps Io Replicator.
From S2P Require Import DeliveryInterface Worker WorkerProps CatchUp Webhook WebhookProps.
From S2P Require Import Monitoring MonitoringProps Inbox InboxProps App AppProps NoLoss Stamped Demo.

#[local] Existing Instance hex_lsn_codec.

(** ** Configuration *)

Definition demo_url : string := "https://example.com/hook".

Definition demo_parse_url (u : string) : option URL :=
  if (u =? demo_url)%string then Some (MkURL "https" "example.com" false "") else None.
Definition demo_parse_port (_ : string) : option Z := Some 9090.

Definition demo_file_config : Config :=
  MkConfig 1
    (MkPostgres "" "WRITERELAY_DSN" "writerelay" "writerelay" "writerelay.v1" 0 "" true 0 0)
    (MkSpoolConfig "spool.db" 0 (MkDiskSpace 100 200 0 ""))
    (MkDeliveryConfig 0 "" 0 "250ms" (MkRetry 0 "" 0 "1h30m" 5)
       [MkSinkConfig "hook" "webhook" demo_url "" "HOOK_SECRET" false])
    (MkMonitoring "127.0.0.1:9090" 0 "") (MkLogging "" "").

Definition demo_config : Config :=
  match setDefaultsAndValidate demo_parse_url demo_parse_port demo_file_config with
  | inr c => c
  | inl _ => demo_file_config
  end.

Lemma demo_config_ok :
  setDefaultsAndValidate demo_parse_url demo_parse_port demo_file_config = inr demo_config.
Proof. vm_compute. reflexivity. Qed.

Lemma demo_config_values :
  MaxDelay (Retry (DeliverySection demo_config)) = 90 * Minute ∧
  RequestTimeout (DeliverySection demo_config) = 250 * Millisecond ∧
  InitialDelay (Retry (DeliverySection demo_config)) = Second.
Proof. vm_compute. auto. Qed.

Lemma config_sound_witness :
  config_valid demo_parse_url demo_parse_port demo_config ∧ config_of demo_file_config demo_config.
Proof. exact (config_sound demo_parse_url demo_parse_port demo_file_config demo_config demo_config_ok). Defined.

(** ** Emitting *)

Definition demo_producer_event : Emit.Event :=
  MkEvent "e<1>" "shop" "order.created" "" (Some (bytes [195; 169; 226; 128; 168]%N))
    "2026-01-02T03:04:05.5+01:00" "" (Some (quoted " { 'n' : [ 1 , -2.5e3 ] , 's' : '<\ud83d\ude00' } ")).

Definition demo_envelope : string := match Emit.encode demo_producer_event with inr p => p | inl _ => "" end.

Lemma demo_encoded : Emit.encode demo_producer_event = inr demo_envelope.
Proof. vm_compute. reflexivity. Qed.

Lemma encode_validates_witness : Validate demo_envelope 1000 = inr (event_metadata demo_producer_event).
Proof.
  exact (encode_validates demo_producer_event demo_envelope 1000 demo_encoded ltac:(vm_compute; reflexivity)
    ltac:(lia) ltac:(vm_compute; discriminate)).
Defined.

(** ** Opening *)

Definition demo_open_file : OpenFile := MkOpenFile true NotExist true.

Lemma empty_at_version : at_version 0 empty_db.
Proof. by split. Qed.

Lemma open_upgrades_witness :
  let w' := (OpenWithHooks demo_open_file "spool.db" no_hooks demo_env world0).2 in
  txn w' = None ∧ upgraded 0 (disk world0) (disk w') ∧ db_wf (disk w') ∧ db_covered (disk w') ∧
  match (OpenWithHooks demo_open_file "spool.db" no_hooks demo_env world0).1 with
  | Ok h => h = no_hooks ∧ at_version currentSchemaVersion (disk w')
  | Fail _ => faulty demo_env ∨ "spool.db" = "" ∨ of_mkdir demo_open_file = false ∨
      of_chmod demo_open_file = false ∨ of_lstat demo_open_file = Symlink ∨
      of_lstat demo_open_file = LstatError
  | Crash => False
  end.
Proof.
  exact (open_upgrades demo_open_file "spool.db" no_hooks demo_env world0 0 eq_refl empty_at_version
    empty_wf empty_covered).
Defined.

(** ** Setup *)

(** A server with nothing of WriteRelay's. *)
Definition demo_server : World PgServer :=
  MkWorld (MkServerState "app" "160003" "logical" "10" "10" true false None ∅ ∅) None 0.
Definition demo_dsn (_ : string) : option string := Some "postgres://localhost/app".
Definition demo_setup := Setup demo_dsn ConnectionError demo_config true "00000000/00001500" demo_env demo_server.

Lemma demo_setup_result : demo_setup.1 = Ok (MkSetupResult true true true).
Proof. vm_compute. reflexivity. Qed.

Lemma setup_safe_witness :
  grown (Postgres demo_config) (disk demo_server) (disk demo_setup.2) ∧
  server_ready (Postgres demo_config) (disk demo_setup.2).
Proof.
  pose proof (setup_safe demo_dsn ConnectionError demo_config true "00000000/00001500" demo_env demo_server eq_refl) as H.
  cbv zeta in H. fold demo_setup in H. rewrite demo_setup_result in H. destruct H as [Hg [Hr _]].
  exact (conj Hg Hr).
Defined.

Definition demo_outside : Outside :=
  MkOutside (λ name, if (name =? "HOOK_SECRET")%string then Some "secret" else None) (λ _ _, None)
    (λ _, true) (λ _, demo_time) (λ _, demo_time) (λ _ _, Answered 200 "") (λ _ _, true).

Definition demo_start : outcome (list Task) * World DB :=
  startup demo_outside demo_open_file demo_config demo_env world0.
Definition service1 : World DB := demo_start.2.

Definition demo_tasks : list Task := match demo_start.1 with Ok l => l | _ => [] end.

Lemma demo_start_eq :
  startup demo_outside demo_open_file demo_config demo_env world0 = (Ok demo_tasks, service1).
Proof.
  assert ((match demo_start.1 with Ok _ => true | _ => false end) = true) as E by (vm_compute; reflexivity).
  unfold service1, demo_tasks. fold demo_start. destruct demo_start as [[l|e|] w]; [done|done|done].
Qed.

Lemma demo_tasks_length : length demo_tasks = 3%nat.
Proof. vm_compute. reflexivity. Qed.

#[global] Opaque demo_start service1.

Lemma startup_ready_witness :
  sqlite_ok (disk service1) ∧ started demo_config (disk service1).
Proof.
  pose proof (startup_ready demo_parse_url demo_parse_port demo_file_config demo_config demo_outside
    demo_open_file demo_env world0 0 demo_config_ok eq_refl empty_at_version empty_wf empty_covered) as H.
  cbv zeta in H. rewrite demo_start_eq in H. cbn [fst snd] in H. destruct H as (H1 & _ & H3).
  exact (conj H1 (proj1 (H3 demo_tasks eq_refl))).
Defined.

Lemma service1_ok : sqlite_ok (disk service1) ∧ started demo_config (disk service1).
Proof.
  pose proof (startup_wp demo_outside demo_open_file demo_config demo_env world0 0 demo_parse_url demo_parse_port
    (validated_config _ _ _ _ demo_config_ok) eq_refl empty_at_version empty_wf empty_covered) as H.
  apply wp_elim in H. rewrite demo_start_eq in H. cbn [fst snd] in H. destruct H as (H1 & _ & H3 & _).
  by split.
Qed.

(** Three tasks that run until they are cancelled, then take one step for
    each unit of work in flight; the one with none fails by itself. *)
Definition demo_work (cancelled : bool) (s s' : nat) : Prop :=
  if cancelled then s = S s' else s = s' ∧ (0 < s)%nat.
Definition demo_returns (cancelled : bool) (s : nat) (err : option error) : Prop :=
  s = 0%nat ∧ err = if cancelled then None else Some (errorf "lost").

Definition demo_group : Together :=
  MkTogether [2%nat; 1%nat] [] false true [Some (errorf "lost")] (Some (errorf "lost")).

Lemma demo_group_steps : rtc (together_step demo_work demo_returns) (together_start [2; 0; 1]%nat) demo_group.
Proof.
  eapply rtc_l; [apply (task_works _ _ [] 2%nat 2%nat [0; 1]%nat); split; [done | lia]|].
  eapply rtc_l; [by apply (task_returns _ _ [2]%nat 0%nat [1]%nat [] false false [] None (Some (errorf "lost")))|].
  eapply rtc_l; [apply receive_result | apply rtc_refl].
Qed.


(** ** Reading the spool *)

(** The two times that reach the spool: the commit of the event and the clock. *)
Definition demo_writes (w : Write) : Prop :=
  w = WCommit "shop" "e1" demo_time ∨ w = WClock demo_time.

Lemma demo_writes_year w : demo_writes w → four_digit_year (write_time w).
Proof. intros [->| ->]; unfold four_digit_year, demo_time, Second; simpl; lia. Qed.

Definition service2 : World DB := (PersistCommittedBatch no_hooks demo_batch demo_env service1).2.

Lemma service2_db :
  disk service2 = disk (PersistCommittedBatch no_hooks demo_batch demo_env (MkWorld (disk service1) None (tick service1))).2.
Proof. vm_compute. reflexivity. Qed.

Lemma service1_written : db_written demo_writes (disk service1).
Proof.
  assert (events (disk service1) = [] ∧ deliveries (disk service1) = []) as [E1 E2]
    by (vm_compute; auto).
  split; [rewrite E1 | rewrite E2]; constructor.
Qed.

Lemma service_history : rtc (spool_step demo_writes) (disk service1) (disk service2).
Proof.
  apply rtc_once. rewrite service2_db. apply step_persist.
  - intros c. rewrite demo_batch_eq. intros ->%list_elem_of_singleton. by left.
  - intros k. by right.
Qed.

Lemma service2_events : length (events (disk service2)) = 1%nat.
Proof. vm_compute. reflexivity. Qed.

Lemma service2_stamped : db_stamped (disk service2).
Proof.
  eapply written_stamped; [exact demo_writes_year|].
  exact (spool_steps_written _ _ _ service_history service1_written).
Qed.

Lemma service2_ok : sqlite_ok (disk service2) ∧ txn service2 = None ∧ checkpoint (disk service2) = Some 1100.
Proof.
  assert (txn service1 = None) as Ht by (vm_compute; reflexivity).
  assert (represents (disk service1) demo_abs1) as Hr by (split; vm_compute; reflexivity).
  pose proof (sqlite_persist_spec no_hooks demo_batch demo_env service1 demo_abs1 (proj1 service1_ok) Ht
    Hr ltac:(vm_compute; split; [discriminate | reflexivity])) as H.
  apply wp_elim in H. fold service2 in H.
  assert ((PersistCommittedBatch no_hooks demo_batch demo_env service1).1 = Ok demo_result) as E
    by (vm_compute; reflexivity).
  rewrite E in H. destruct H as (Hok & Ht2 & _). split; [exact Hok|]. split; [exact Ht2|].
  vm_compute. reflexivity.
Qed.

#[global] Opaque service2.

Lemma spool_times_readable_witness :
  length (events (disk service2)) = 1%nat ∧
  Forall (λ e, parse_time (e_captured_at e) = Some demo_time) (events (disk service2)).
Proof.
  split; [exact service2_events|]. apply Forall_forall. intros e He.
  destruct (spool_times_readable demo_writes (disk service1) (disk service2) demo_writes_year
    service1_written service_history) as [H _].
  destruct (H e He) as (_ & (t & [Hw|Hw] & E) & _); [discriminate Hw|].
  injection Hw as ->. exact E.
Defined.

Lemma list_deliveries_complete_witness :
  ∃ rows ds w', ListDeliveries "pending" 10 demo_env service2 = (Ok rows, w') ∧
    disk w' = disk service2 ∧
    ds ≡ₚ select (in_state "pending") (deliveries (disk service2)) ∧ StronglySorted listing_order ds ∧
    Forall2 (shows_delivery (disk service2)) (take 10 ds) rows.
Proof.
  exact (list_deliveries_complete "pending" 10 demo_env service2 (proj1 (proj2 service2_ok))
    (proj1 (proj1 service2_ok)) service2_stamped demo_not_faulty ltac:(lia) eq_refl).
Defined.

Definition demo_files : StatsFiles :=
  MkStatsFiles (Some true) (inr "/var/spool.db")
    (λ p, if (p =? "/var/spool.db")%string then StatFile true 40960 else StatMissing).

Lemma demo_measurable : measurable demo_files "spool.db".
Proof.
  split; [done|]. split; [done|]. exists "/var/spool.db", (MkSizes 40960 0 0 40960).
  split; [done|]. vm_compute. reflexivity.
Qed.

Lemma service2_version :
  schema_migrations (disk service2) ≠ [] ∧ max_version (disk service2) = currentSchemaVersion.
Proof. split; vm_compute; [discriminate | reflexivity]. Qed.

Lemma stats_consistent_witness :
  ∃ r w', ReadStats demo_files "spool.db" demo_env service2 = (Ok r, w') ∧
    disk w' = disk service2 ∧ ts_EventCount r = 1 ∧ ts_Deliveries r = counts_of (disk service2).
Proof.
  destruct (stats_consistent demo_files "spool.db" demo_env service2 1100 (proj1 (proj2 service2_ok))
    (proj1 (proj1 service2_ok)) service2_stamped (proj2 (proj2 service2_ok)) (proj1 service2_version)
    (proj2 service2_version) demo_measurable demo_not_faulty ltac:(vm_compute; reflexivity))
    as (r & w' & E & Hd & Hn & _ & _ & Hc & _).
  exists r, w'. rewrite service2_events in Hn. exact (conj E (conj Hd (conj Hn Hc))).
Defined.

Definition demo_stats : outcome Stats * World DB := ReadStats demo_files "spool.db" demo_env service2.
Definition demo_report : Stats :=
  match demo_stats.1 with Ok r => r | _ => MkStats 0 0 0 "" no_counts None no_sizes [] end.

Lemma demo_stats_eq : ReadStats demo_files "spool.db" demo_env service2 = (Ok demo_report, demo_stats.2).
Proof.
  assert ((match demo_stats.1 with Ok _ => true | _ => false end) = true) as E by (vm_compute; reflexivity).
  unfold demo_report. fold demo_stats. destruct demo_stats as [[r|e|] w]; [done|done|done].
Qed.

#[global] Opaque demo_stats demo_report.

(** Two events captured half a second into one second: the report names the
    later one. *)
Definition second_event : CapturedEvent :=
  MkCaptured "shop" "e2" "order.created" "" demo_payload (Sum256 demo_payload)
    8 1200 1300 1400 demo_time 0.
Definition second_batch : CommittedBatch := MkBatch 8 1300 1400 demo_time [second_event].

Example oldest_inverted_within_second :
  let early := demo_time + 500 * Millisecond in
  let late := demo_time + 510 * Millisecond in
  let w1 := (PersistCommittedBatch no_hooks demo_batch (quiet_env early) service1).2 in
  let w2 := (PersistCommittedBatch no_hooks second_batch (quiet_env late) w1).2 in
  match (ReadStats demo_files "spool.db" (quiet_env late) w2).1 with
  | Ok r => dc_Pending (ts_Deliveries r) = 2 ∧ (ws_CapturedAt <$> ts_OldestWaiting r) = Some late
  | _ => False
  end.
Proof. vm_compute. auto. Qed.

(** ** Delivery *)

Definition quiet_context : nat → bool := λ _, false.

Lemma demo_healthy : healthy no_hooks quiet_context demo_env.
Proof. split; [apply demo_not_faulty | done | done]. Qed.

Lemma world2_workable : workable demo_worker (disk world2).
Proof.
  split; [exact (proj1 world2_ok) | exact world2_budget |].
  intros s Hs _. exists demo_sink. split; [|intros n item; by eexists].
  assert (map s_name (delivery_sinks (disk world2)) = ["hook"]) as E by (vm_compute; reflexivity).
  assert (s_name s ∈ ["hook"]) as Hn by (rewrite <- E; apply list_elem_of_fmap; eauto).
  apply list_elem_of_singleton in Hn as ->. reflexivity.
Qed.

Lemma worker_catches_up_witness :
  ∃ i w' log', Z.of_nat i <= remaining demo_worker (disk world2) ∧
    Worker.Run demo_worker no_hooks quiet_context (replicate i TimerTick) demo_env world2 [] =
      (Ok tt, w', log') ∧
    length log' = i ∧ workable demo_worker (disk w') ∧
    ∀ e s d, ¬ due (disk w') (formatTimestamp (env_clock demo_env (tick w'))) e s d.
Proof.
  exact (worker_catches_up demo_worker no_hooks quiet_context demo_env world2 [] demo_healthy
    world2_workable (proj1 (proj2 world2_ok)) ltac:(unfold maxInt64; simpl; lia)).
Defined.

Definition demo_sender : WebhookSender :=
  MkSender demo_url "" "secret" (250 * Millisecond) no_hooks.

(** A delivery, its fourth retry, and the next event at the same sink. *)
Definition demo_resend : Delivery := MkItem 1 1 "hook" "webhook" "shop" "e1" "order.created" "" demo_payload 4.
Definition demo_next : Delivery := MkItem 2 1 "hook" "webhook" "shop" "e2" "order.created" "" demo_payload 0.
Definition demo_sent (item : Delivery) : Prop := item = demo_item ∨ item = demo_resend ∨ item = demo_next.

Lemma demo_sent_distinct a b :
  demo_sent a → demo_sent b → Sum256 (key_text a) = Sum256 (key_text b) → key_text a = key_text b.
Proof.
  assert (key_text demo_resend = key_text demo_item) as E by reflexivity.
  assert (Sum256 (key_text demo_item) ≠ Sum256 (key_text demo_next)) as Hne
    by (vm_compute; discriminate).
  intros [->|[->| ->]] [->|[->| ->]]; rewrite ?E; intros H; try reflexivity; by destruct Hne.
Qed.

Lemma delivery_key_identifies_witness :
  deliveryKey demo_item = deliveryKey demo_resend ∧ deliveryKey demo_item ≠ deliveryKey demo_next.
Proof.
  assert (∀ a, demo_sent a → contains_byte "000" (SinkName a) = false ∧
    contains_byte "000" (Source a) = false) as Hnul by (by intros a [->|[->| ->]]).
  pose proof (delivery_key_identifies demo_sent Hnul demo_sent_distinct) as H. split.
  - apply (H demo_item demo_resend); [by left | by right; left | reflexivity].
  - intros E. apply (H demo_item demo_next) in E; [discriminate E | by left | by right; right].
Defined.

Lemma send_outcome_witness :
  0 <= 120 * Second <= maxInt64 ∧
  header_of "Idempotency-Key" (build_request demo_sender demo_time demo_item) = Some (deliveryKey demo_item).
Proof.
  destruct (send_outcome (λ _ _, None) true demo_time demo_time (λ _, Answered 503 "120") demo_sender
    demo_item (MkAttempt false true (120 * Second) 503 "webhook returned HTTP 503")
    ltac:(vm_compute; reflexivity)) as (_ & _ & H3 & _ & H5).
  exact (conj H3 H5).
Defined.

(** ** The receiver *)

Definition demo_table : InboxTable := MkInboxTable "" "orders".
Definition demo_table_name : string :=
  DQUOTE +:+ "public" +:+ DQUOTE +:+ "." +:+ DQUOTE +:+ "orders" +:+ DQUOTE.
Definition demo_delivery : InboxDelivery := MkInboxDelivery demo_table (deliveryKey demo_item) demo_payload.
Definition demo_digest : string := hex_encode (Sum256 demo_payload).

Lemma demo_prepared : prepareInbox demo_delivery true = inr (demo_table_name, demo_digest).
Proof. vm_compute. reflexivity. Qed.

(** The application counts orders. *)
Definition count_order : Handler nat := λ n, Returned None false (S n).
Definition receiver0 : World (PgDB nat) := MkWorld (MkPg {[demo_table_name := ∅]} 0%nat false) None 0.
Definition receiver1 : World (PgDB nat) :=
  (inbox_call false None true demo_delivery (Some count_order) demo_env receiver0).2.

Lemma receiver1_eq :
  inbox_call false None true demo_delivery (Some count_order) demo_env receiver0 =
    (Ok InboxProcessed, receiver1).
Proof.
  assert ((inbox_call false None true demo_delivery (Some count_order) demo_env receiver0).1 =
    Ok InboxProcessed) as E by (vm_compute; reflexivity).
  unfold receiver1. rewrite <- E. apply surjective_pairing.
Qed.

#[global] Opaque receiver1.

Lemma demo_not_received : received demo_table_name (deliveryKey demo_item) (disk receiver0) = None.
Proof. vm_compute. reflexivity. Qed.

Lemma inbox_exactly_once_witness :
  ∃ m, history demo_delivery demo_table_name demo_digest m (disk receiver0) (disk receiver1) ∧ m = 1%nat.
Proof.
  destruct (inbox_exactly_once demo_delivery demo_table_name demo_digest 0 (disk receiver0) (disk receiver0)
    demo_prepared eq_refl demo_not_received (history_start demo_delivery demo_table_name demo_digest (disk receiver0)))
    as [_ H].
  destruct (H false None true count_order demo_env 0%nat) as (m & Hm & _ & Hx).
  change (MkWorld (disk receiver0) None 0) with receiver0 in Hm, Hx.
  rewrite receiver1_eq in Hm, Hx. exact (ex_intro _ m (conj Hm (Hx InboxProcessed eq_refl))).
Defined.

Lemma redelivery_absorbed_witness :
  ∃ delivery digest,
    request_delivery demo_table (build_request demo_sender demo_time demo_item) = Some delivery ∧
    prepareInbox delivery true = inr (demo_table_name, digest).
Proof.
  destruct (redelivery_absorbed (B := nat) demo_sender demo_sender demo_time (demo_time + Minute) demo_item
    (MkItem 1 1 "hook" "webhook" "shop" "e1" "order.created" "" demo_payload 1) demo_table demo_table_name
    eq_refl ltac:(vm_compute; discriminate) ltac:(vm_compute; reflexivity)) as (dl & dg & H1 & _ & H3 & _).
  exact (ex_intro _ dl (ex_intro _ dg (conj H1 H3))).
Defined.

(** ** Monitoring *)

Definition demo_status : CaptureStatus :=
  MkCaptureStatus (MkStatus false false "" 0 zeroTime false 0 0) true 5 1700000000.

Definition demo_ticks : list SampleTick := [SampleTimer (inr demo_report) false false].
Definition demo_monitor : Server := (sampleLoop demo_ticks true (New "spool.db" (15 * Second)) 0).1.

Lemma demo_monitor_ready : rs_Code (handler demo_monitor true demo_status demo_time Readyz) = 200.
Proof. vm_compute. reflexivity. Qed.

Lemma endpoints_honest_witness :
  disk_ready demo_status = true ∧ fresh_at demo_ticks (15 * Second) (sv_stats demo_monitor) demo_time.
Proof.
  exact (proj2 (proj2 (proj1 (endpoints_honest demo_ticks "spool.db" (15 * Second) true demo_status
    demo_time ltac:(unfold Hour, Minute, Second; lia)) demo_monitor_ready))).
Defined.
