(* ===== verification/WitnessCommands.v ===== *)
(** * WitnessCommands: the theorems about the commands and the examples

    The commands on the demonstration spool and server, one order of the
    example producer, and its way to the example receiver. *)

From Stdlib Require Import Ascii.
From S2P Require Import Prelude Rows Text Timestamp TimeParse Sha256 Json Marshal MarshalFacts CompactFacts.
From S2P Require Import Runtime Spool Schema SchemaFacts Store SpoolInterface.
From S2P Require Import Sinks SinkFacts Deliveries DeliveryFacts Listing Prune Migrate ListingProps Stats Event Emit EmitProps.
From S2P Require Import DiskGuard Config Slot Setup SetupProps Io Replicator DeliveryInterface Worker Webhook.
From S2P Require Import Monitoring Inbox InboxProps App AppProps Flags Paths Print PrintProps Cli CliProps.
From S2P Require Import Producer ProducerProps Receiver ReceiverProps NoLoss Stamped Demo WitnessService.

#[local] Existing Instance hex_lsn_codec.

(** ** The commands *)

(** The file system has the configuration and the spool; every write is
    accepted; the environment has the DSN and the webhook's secret. *)
Definition demo_commands : Outside :=
  MkOutside (λ name, if (name =? "HOOK_SECRET")%string then Some "secret" else demo_dsn name) (λ _ _, None)
    (λ _, true) (λ _, demo_time) (λ _, demo_time) (λ _ _, Webhook.Answered 200 "") (λ _ _, true).

Definition demo_spool_file : SpoolFile := MkSpoolFile (Some true) "wal".

Definition demo_system : System :=
  MkSystem (λ path, if (path =? "./writerelay.yaml")%string then Some (inr demo_file_config) else None)
    demo_parse_url demo_parse_port demo_commands (λ _, demo_open_file) (λ _, demo_spool_file) (λ _, demo_files)
    (λ _, PathInfo false 384) (λ _, true) demo_env ConnectionError "app" "0 bytes" "00000000/00001500".

(** The server after [setup --create-slot]. *)
Definition demo_terminal : Terminal := MkTerminal [] 0 (MkWorld (disk demo_setup.2) None 0).

Lemma service2_at_version : at_version 3 (disk service2).
Proof. split; [unfold currentSchemaVersion; lia | vm_compute; reflexivity | lia..]. Qed.

Definition demo_doctor : outcome unit * World DB * Terminal := doctorCommand demo_system [] demo_env service2 demo_terminal.

Lemma demo_doctor_eq :
  doctorCommand demo_system [] demo_env service2 demo_terminal = (Ok tt, demo_doctor.1.2, demo_doctor.2).
Proof.
  assert ((match demo_doctor.1.1 with Ok _ => true | _ => false end) = true) as E by (vm_compute; reflexivity).
  fold demo_doctor. destruct demo_doctor as [[[[]|e|] w] t]; [done|done|done].
Qed.

#[global] Opaque demo_doctor.

Lemma doctor_predicts_run_witness :
  same_data (disk service2) (disk demo_doctor.1.2) ∧
  server_capable (disk (tm_server demo_terminal)) ∧
  ∃ f cfg, loaded demo_system f cfg ∧ server_ready (Postgres cfg) (disk (tm_server demo_terminal)).
Proof.
  destruct (doctor_predicts_run demo_system [] 3 demo_env service2 demo_terminal demo_doctor.1.2 demo_doctor.2
    (proj1 (proj2 service2_ok)) eq_refl service2_at_version (proj1 (proj1 service2_ok)) (proj2 (proj1 service2_ok))
    ltac:(vm_compute; reflexivity) demo_doctor_eq) as (H1 & f & cfg & _ & Hl & H2 & H3 & _).
  exact (conj H1 (conj H2 (ex_intro _ f (ex_intro _ cfg (conj Hl H3))))).
Defined.

(** Doctor on a spool file of an older version: opening it migrates it. *)
Example doctor_migrates :
  schema_migrations (disk world0) = [] ∧
  schema_migrations (disk (doctorCommand demo_system [] demo_env world0 demo_terminal).1.2) = [1; 2; 3].
Proof. split; vm_compute; reflexivity. Qed.

(** A dry run of [spool prune]. *)
Definition prune_args : list string := ["spool"; "prune"; "--before"; "2026-06-01T00:00:00Z"; "-dry-run"].
Definition demo_build : BuildInfo := MkBuild "dev" "unknown" "unknown".
Definition demo_inspection : outcome (list Task) * World DB * Terminal :=
  Execute demo_system (λ s, s) demo_build prune_args demo_env service2 demo_terminal.

Lemma inspection_changes_nothing_witness :
  upgraded 3 (disk service2) (disk demo_inspection.1.2) ∧
  disk (tm_server demo_inspection.2) = disk (tm_server demo_terminal).
Proof.
  pose proof (inspection_changes_nothing demo_system (λ s, s) demo_build prune_args 3 demo_env service2 demo_terminal
    ltac:(vm_compute; reflexivity) (proj1 (proj2 service2_ok)) eq_refl service2_at_version
    (proj1 (proj1 service2_ok)) (proj2 (proj1 service2_ok))) as H.
  fold demo_inspection in H. destruct demo_inspection as [[o w'] t']. destruct H as [H1 H2].
  exact (conj H1 (H2 eq_refl)).
Defined.

(** [spool list --limit=5]. *)
Definition list_args : list string := ["--limit=5"].
Definition list_options : FlagSet := <["limit" := IntFlag 5]> (configFlagSet list_flags).
Definition demo_list : outcome unit * World DB * Terminal := spoolListCommand demo_system list_args demo_env service2 demo_terminal.

Lemma demo_list_ok : (match demo_list.1.1 with Ok _ => true | _ => false end) = true ∧ length (tm_out demo_list.2) = 1%nat.
Proof. split; vm_compute; reflexivity. Qed.

Lemma service2_readable : Forall readable (events (disk service2)).
Proof.
  assert (∃ e, events (disk service2) = [e] ∧
    forallb (utf8_valid 0) [e_source e; e_id e; e_type e; coalesce (e_subject e)] = true ∧
    e_pruned_at e = None ∧ Valid (e_payload e) = true ∧ (nesting (e_payload e) <? maxNestingDepth) = true)
    as (e & -> & Ht & _ & Hv & Hn).
  { eexists. split; [vm_compute; reflexivity|]. repeat split; vm_compute; reflexivity. }
  apply Forall_singleton. split.
  - intros s Hs. apply (proj1 (forallb_forall _ _) Ht). by apply list_elem_of_In.
  - intros _. split; [done|]. by apply Z.ltb_lt.
Qed.

Lemma list_reads_back_witness :
  ∃ lines, tm_out demo_list.2 = map (λ line, line +:+ LF) lines ∧
    Forall2 line_reads_back (take 5 (events (disk service2))) lines.
Proof.
  pose proof (list_reads_back demo_system list_args list_options 3 demo_env service2 demo_terminal
    (proj1 (proj2 service2_ok)) service2_at_version (proj1 (proj1 service2_ok)) (proj2 (proj1 service2_ok))
    service2_stamped service2_readable ltac:(vm_compute; reflexivity)) as H.
  fold demo_list in H. destruct demo_list_ok as [E _]. destruct demo_list as [[[[]|e|] w'] t']; [|discriminate E..].
  exact H.
Defined.

(** ** An order on its way *)

(** A [jsonb] that keeps the text of an object without repeated keys. *)
#[local] Instance demo_jsonb : Jsonb := λ p,
  match decode_object p with
  | Some (ms, "") =>
      if Valid p && bool_decide (NoDup (map (λ kv, unmarshal_string kv.1) ms)) then Some p else None
  | _ => None
  end.

#[local] Instance demo_jsonb_laws : JsonbLaws demo_jsonb.
Proof.
  intros p ms text Ed Ej. unfold jsonb_text, demo_jsonb in Ej. rewrite Ed in Ej.
  destruct (Valid p) eqn:Ev; [|done]. destruct (bool_decide _) eqn:En; [|done]. injection Ej as <-.
  split; [done|]. exists ms. split; [done|]. split; [by apply bool_decide_eq_true in En | done].
Qed.

Definition shop0 : World AppDB := MkWorld (MkApp ∅ []) None 0.
Definition order_args : list string := ["--id"; "7"].
Definition order_options : FlagSet := <["id" := StringFlag "7"]> producer_flags.
Definition demo_order : outcome (Z * string) * World AppDB := producer_main "dsn" order_args demo_env shop0.
Definition order_printed : string := match demo_order.1 with Ok (_, out) => out | _ => "" end.

Lemma demo_order_eq : producer_main "dsn" order_args demo_env shop0 = (Ok (0, order_printed), demo_order.2).
Proof.
  assert ((match demo_order.1 with Ok (status, _) => status =? 0 | _ => false end) = true) as E by (vm_compute; reflexivity).
  unfold order_printed. fold demo_order. destruct demo_order as [[[status out]|e|] w]; [|done|done].
  apply Z.eqb_eq in E. simpl. by rewrite E.
Qed.

#[global] Opaque demo_order.

Lemma producer_atomic_witness :
  ∃ text, disk demo_order.2 = MkApp {["7" := "paid"]} [text] ∧
    Validate text 262144 = inr (event_metadata (order_event "7")).
Proof.
  pose proof (producer_atomic "dsn" order_args demo_env shop0 order_options "7" eq_refl
    ltac:(vm_compute; reflexivity) ltac:(discriminate) ltac:(vm_compute; reflexivity) ltac:(discriminate)) as H.
  rewrite demo_order_eq in H. destruct H as [_ (text & E & Hv)].
  exact (ex_intro _ text (conj E (Hv 262144 (Z.le_refl _)))).
Defined.

(** The receiver's database after [--init]. *)
Definition empty_receiver : World (PgDB Orders) := MkWorld (MkPg ∅ ∅ false) None 0.
Definition demo_init : outcome unit * World (PgDB Orders) := initialize_receiver demo_env empty_receiver.

Lemma demo_init_eq : initialize_receiver demo_env empty_receiver = (Ok tt, demo_init.2).
Proof.
  assert ((match demo_init.1 with Ok _ => true | _ => false end) = true) as E by (vm_compute; reflexivity).
  fold demo_init. destruct demo_init as [[[]|e|] w]; [done|done|done].
Qed.

Lemma demo_init_db : disk demo_init.2 = MkPg {[inbox_name := ∅]} {["received_orders" := ∅]} false.
Proof. vm_compute. reflexivity. Qed.

#[global] Opaque demo_init.

Definition token_sender : WebhookSender :=
  MkSender demo_url "Bearer local-example-token" "" (250 * Millisecond) no_hooks.

Definition order_text : string := match encode (order_event "7") with inr p => p | inl _ => "" end.

Definition order_item : Delivery :=
  MkItem 1 1 "hook" "webhook" "urn:service:billing" "evt-go-7" "order.paid" "7" order_text 0.
Definition order_request : HttpRequest := arrives (build_request token_sender demo_time order_item).

Definition demo_reply : outcome Reply * World (PgDB Orders) :=
  ServeHTTP example_receiver None None order_request demo_env (MkWorld (disk demo_init.2) None 0).

Lemma pair_of {A B} (p : A * B) a : p.1 = a → p = (a, p.2).
Proof. destruct p. simpl. by intros ->. Qed.

Lemma demo_reply_eq :
  ServeHTTP example_receiver None None order_request demo_env (MkWorld (disk demo_init.2) None 0) =
    (Ok (answer "" (inr InboxProcessed)), demo_reply.2).
Proof.
  unfold demo_reply. apply pair_of. rewrite demo_init_db. vm_compute. reflexivity.
Qed.

Lemma demo_reply_next : served (disk demo_init.2) [order_request] (disk demo_reply.2).
Proof. unfold demo_reply. apply served_next, served_none. Qed.

#[global] Opaque demo_reply.

Lemma receiver_answers_witness :
  txn demo_reply.2 = None ∧ pg_aborted (disk demo_reply.2) = false ∧
  ∃ event key mode raw, check_request order_request = inr (event, key, mode, raw) ∧ well_formed event = true.
Proof.
  pose proof (receiver_answers example_receiver None None order_request demo_env (MkWorld (disk demo_init.2) None 0)
    eq_refl ltac:(rewrite demo_init_db; reflexivity)) as H.
  rewrite demo_reply_eq in H.
  destruct H as (H1 & H2 & reply & [= <-] & event & key & mode & raw & name & digest & H3 & H4 & _).
  exact (conj H1 (conj H2 (ex_intro _ event (ex_intro _ key (ex_intro _ mode (ex_intro _ raw (conj H3 H4))))))).
Defined.

Lemma receiver_in_step_witness : in_step [order_request] (disk demo_reply.2).
Proof.
  exact (receiver_in_step demo_env empty_receiver demo_init.2 [order_request] (disk demo_reply.2) eq_refl eq_refl
    demo_init_eq demo_reply_next).
Defined.

Lemma order_reaches_receiver_witness :
  ∃ text, ap_messages (disk demo_order.2) = [text] ∧
  ∃ db' k', ServeHTTP example_receiver None None
      (arrives (build_request token_sender demo_time
        (MkItem 1 1 "hook" "webhook" "urn:service:billing" "evt-go-7" "order.paid" "7" text 0)))
      (quiet_env demo_time) (MkWorld (disk demo_init.2) None 0) =
      (Ok (answer "" (inr InboxProcessed)), MkWorld db' None k') ∧
    orders db' = {[("urn:service:billing", "evt-go-7") := "7"]}.
Proof.
  destruct (order_reaches_receiver "dsn" order_args demo_env shop0 order_options order_printed demo_order.2 eq_refl
    ltac:(vm_compute; reflexivity) ltac:(vm_compute; reflexivity) demo_order_eq) as (text & E & _ & H).
  exists text. split; [exact E|].
  destruct (H token_sender demo_time
    (MkItem 1 1 "hook" "webhook" "urn:service:billing" "evt-go-7" "order.paid" "7" text 0) demo_time
    (disk demo_init.2) 0%nat) as (db' & k' & Hs & Ho & _);
    [reflexivity | reflexivity | rewrite demo_init_db..|].
  - reflexivity.
  - exists ∅. vm_compute. reflexivity.
  - exists ∅. vm_compute. reflexivity.
  - unfold receipts. cbn [pg_inbox]. rewrite lookup_singleton_eq. cbn [default from_option Datatypes.id]. by rewrite lookup_empty.
  - vm_compute. reflexivity.
  - exists db', k'. split; [exact Hs|]. rewrite Ho, demo_init_db. vm_compute. reflexivity.
Defined.
